(* ===== verification/_CoqProject ===== *)
-Q . S2P
Prelude.v
Text.v
Extern.v
FileId.v
FloodControl.v
FileReader.v
Body.v
Quic.v
QuicTraits.v
Config.v
Accept.v
Http3.v
H3Endpoint.v
CacheStore.v
CacheConc.v
CacheRead.v
CacheCleaner.v
CacheScan.v
CleanerProgress.v
CacheLife.v
CacheSpec.v
Net.v
Rpc.v
Cert.v
RouteCache.v
Download.v
DownloadTable.v
SharedDownload.v
Proxy.v
ServerCommand.v
Gallery.v
GalleryPar.v
GalleryRun.v
Server.v
Logger.v
LogFiles.v
AccessLog.v
Routes.v
Metrics.v
Main.v
Startup.v
