(* ===== verification/Prelude.v ===== *)
(** * hath-rust: a verification development

    hath-rust is a Hentai@Home client: it logs in to RPC servers, keeps a cache
    of image files below a size limit, serves them over HTTP to clients that
    show a key stamp, fetches the files it lacks, and downloads galleries.
    This file is the root: it holds what all components share (machine
    integers, outcomes with panics, sums over lists and maps, bytes of
    strings, the tactics and the hint databases).  Paths below are under [src/].

    ** Parts of the program and the files that model them

    - [Text], [Net]: the parts of the standard library the program's parsing
      and printing rest on ([split], [lines], [FromStr], [Display], addresses).
    - [Extern]: third-party code as interfaces.  [HexCodec]/[HexLaws] stand for
      [const_hex], [Digest]/[DigestLaws] for the incremental SHA-1 of
      [aws_lc_rs]; the other components are proved against these classes.
      [hex_ref] and [toy_digest] are instances that show the laws can hold.
      No law says that a digest has no collisions: "verified" below always
      means that the digest of the bytes equals the digest in the file name.
    - [FileId]: [CacheFileInfo] and [FileType] of [src/cache_manager.rs].
    - [FloodControl]: [src/server/util.rs] and the address normalisation of
      [src/server/mod.rs]; its specification is the module [Bucket].
    - [FileReader]: [src/file_reader.rs].  [Body]: [TruncateBody] of
      [src/server/util.rs].
    - [Accept]: [accept_loop] of [src/server/mod.rs], the life of a connection,
      and (module [Shutdown]) the protocol between [ServerHandle::shutdown] and
      the loop as a step relation.  [Http3]: a connection of [accept_loop_h3], the
      task of a request and (module [Graceful]) the end of a connection.
      [H3Endpoint]: the endpoint with all its connections, and [Server::shutdown].
      [Quic]: [src/server/h3_quinn.rs], every operation of the adapter;
      [QuicTraits]: the traits it implements as classes.  [Config]: what
      [src/util.rs] and [src/server/mod.rs] ask of TLS, QUIC, sockets and the
      HTTP client.
    - [CacheStore], [CacheRead], [CacheCleaner], [CacheScan]: [CacheManager] of
      [src/cache_manager.rs]: accounting with [import_cache]/[remove_cache];
      [get_file] with the task that verifies; [check_cache_usage];
      [new] and [scan_cache].  [CleanerProgress] has the proof that the cleaner
      reaches its goal, [CacheLife] the background tick and what the operations
      keep.  [CacheConc] takes [import_cache] and [remove_cache] apart into the
      steps between which other calls run.  [CacheSpec] is the contract of the cache with its callers: the
      module [Spec] is a map from identifiers to contents, [abs] the map a disk
      stands for.
    - [Rpc]: [RPCClient] of [src/rpc.rs], in a state monad over the client and
      the log of requests.
      [Cert]: [src/server/cert.rs] with [get_cert] and the reload of certificates.
    - [RouteCache], [Download], [DownloadTable]: the handler [hath] of
      [src/route/cache.rs] up to a cache hit; the download worker with the
      client's stream after a miss; and the table through which requests share
      a download, as a step relation.  [Proxy] composes a miss: temporary file,
      sources, worker, import.  [SharedDownload] is the whole of it for one file: the
      table, the workers with the bytes they write, the streams of the clients that
      follow the temporary file, and the cache, in one state whose actions interleave
      in any order.  [RouteCache] also has
      [src/route/speed_test.rs] and [parse_additional] of [src/route/mod.rs].
    - [ServerCommand]: [servercmd] of [src/route/server_command.rs].
    - [Gallery], [GalleryRun], [GalleryPar]: [src/gallery_downloader.rs], one gallery,
      the queue of galleries, and a gallery with its tasks in parallel.
    - [Server]: modules [Counter] ([src/middleware/connection_counter.rs]) and
      [DateHeader] ([src/server/date_header.rs]).  [AccessLog]:
      [src/middleware/logger.rs] and the layers of [src/middleware/mod.rs].
    - [Routes]: [src/route/mod.rs], and a request through router, handler and
      layers.  The matching of axum is the class [Router] with its laws
      ([RouterLaws]); [router_ref] is an instance.
    - [Logger]: [src/logger.rs]; [LogFiles]: its files on disk.  [Metrics]: [src/metrics.rs].
    - [Main]: credentials, the command task and the schedule of [src/main.rs].
      [Startup]: the function [main] with [Server::new], from the command line to
      the exit, in a monad of its own with a trace of what others see; what the other
      tasks do is a list of events for each phase of [main].

    The handler of [RouteCache] calls [get_file] of [CacheRead], which uses the
    reader of [FileReader], the identifiers of [FileId] and the accounting of
    [CacheStore]; [Body] cuts its stream to a range.  [Download] asks [Rpc] for
    sources and hands its file to [import_cache].  [ServerCommand] compares
    signatures as [Rpc] makes them and sends commands to [Main], which starts
    the downloader of [Gallery].  [Proxy] goes on where [RouteCache] misses, and
    its effects on the cache are operations of [CacheSpec].  [Routes] calls the
    handlers under the layers of [AccessLog].  [Accept] and [Http3] ask
    [FloodControl].
    [Startup] composes [Rpc], [CacheScan], [CacheStore], [Cert], [Logger] and
    [Main].

    ** How code becomes definitions

    Integers are [Z] with the wrap-around of the release build written out
    ([wrap64], [wrap_i64], [wrap8]); times are nanoseconds.  A function that can
    fail or panic returns [option], a sum or [outcome].  The file system is a map
    from paths to files; a record of [faults] says which calls fail, and what a failed
    copy leaves behind.  What the
    network, the clocks, the disk and the scheduler answer is an argument (a
    list of answers or an oracle), so a theorem holds for every behaviour that
    its hypotheses allow.  Operations on one lock are taken one after the other;
    where the code runs tasks in parallel over a list ([scan_files]) the order
    is an argument and a theorem says it does not matter.  Where calls or requests
    overlap and it matters ([CacheConc], [SharedDownload], [GalleryPar],
    [H3Endpoint]), a list of actions is an interleaving and theorems are about all
    lists.

    ** What the theorems show

    - Identifiers: what [from_file_id] accepts, its canonical form is parsed
      back; paths are injective and stay inside the cache directory.
    - The cache as a whole: it refines a map from identifiers to contents under
      every sequence of operations ([cache_refines]), so a read returns what was stored
      last ([cache_reads_stored]).  Calls may fail, except those with which an import
      inspects and deletes the file it replaces and a copy that leaves a torn file
      ([import_io]).  A request for a cached
      file goes through router, handler and layers to a correct answer
      ([request_served]); a miss stores verified contents only, and becomes a hit
      ([proxy_stores_verified], the contents whatever calls fail, and [miss_then_hit]); no
      request changes the cache or sends a command without its credentials, apart from
      the report of an overload ([request_authorised]).
    - Cache: the accounts and the gauge equal the number and the bytes of the
      files on disk, and [import_cache], [remove_cache], [get_file], the
      scan and the cleaner keep that; the cleaner deletes only in the window of
      the oldest range, and ends with the cache within its limit when it can
      delete; a forced scan leaves exactly the well-formed files.  Imports and
      deletions of different files may overlap at every step and the accounts are
      exact when they have ended ([cache_concurrent_accounted]).
    - Serving: a cached file streams the bytes asked for, an old one is hashed
      as it is sent and removed when it is corrupt; a hit has the right status,
      length and range; the reader delivers the file whatever the pattern of
      short reads and pending polls; the key stamp is checked.
    - Download: only data with the digest of the identifier is imported,
      a retry resumes at the byte the last one reached, a client receives a
      prefix of the file and, once the worker is done, all of it.  With the bytes and
      the cache in the interleaving, each client of a shared download receives a
      beginning of the file, only verified contents enter the cache or leave it, every
      run is one of the table ([shared_download_safe], [shared_download_refines]), and
      a client that reads gets all of the file ([shared_reader_finishes]).
    - RPC: only answers signed with the client key are used, settings come from
      such answers, a failing server is left for another one of the list, the
      clock offset is that of the server, servers are recognised by address.
    - Flood control and connections: refinement of one leaky bucket per address;
      the accept loop and the QUIC endpoint obey it, for every interleaving of
      their connections; connection tasks end within a bound, also during
      shutdown; the loop can leave after a shutdown unless it misses the wake-up;
      an HTTP/3 request is answered with the service's status, headers and body, and
      every other end is listed; the sending
      half of a QUIC stream is a FIFO of bytes, reading passes on every chunk
      and error, and a stream in both directions is its two halves.  Routing is
      that of an explicit table over the segments of the path; without AES hardware ChaCha20 is chosen
      when the client offers it.
    - The process: the order of what [main] does in a normal run and of what the other
      tasks ask meanwhile, what it does before each kind of error, that no session is left open, that a purge
      removes exactly the listed files, and that the accounts survive a restart.
    - Commands, galleries, logs: commands need a valid signature from a known
      server; a proxy test counts its successes; parsed galleries list what the
      metadata lists, file names do not leave the directory, what is downloaded is
      verified, a gallery that announces the number of its files is reported finished
      only when each file is in place, and the queue is answered in order; the files of a gallery may be fetched in
      parallel without changing its end ([gallery_round_parallel], [gallery_parallel]);
      request counting and the bytes of the
      access log are exact; a shutdown of the logger writes what was logged; the
      log files and the buffers of their writers hold the abstract logs across
      rotations; at most one downloader runs; overload reports are throttled.
    - Defects: the theorems [keystamp_one_digit], [failed_download_waits],
      [download_no_sources], [late_reader_loses_file], [two_downloads],
      [popular_file_waits], [cache_race_miscounts], [import_counts_twice],
      [import_leaves_torn_file], [clean_loop_foreign], [gallery_last_write_lost],
      [gallery_filecount_unchecked],
      [proxy_test_ignores_testtime],
      [parse_response_after_2038], [change_server_panics],
      [clean_loop_livelock], [verify_loop_spins], [scan_file_read_error],
      [parser_panics], [downloader_lost], [check_hash_spins],
      [credential_negative], [schedule_counts], [shutdown_lost_wakeup],
      [poll_finish_reports_closed], [disable_logging_overwritten] and
      [cache_sent_counts_requests] state behaviour that differs
      from what the code or its comments intend.

    ** Bounds and fuel

    [send_loop] and [worker_loop] run three times and [run_gallery] ten rounds,
    as in the source.  [show_digits] has the number's binary length as
    fuel and [random_chunks] the size, both proved enough.  [verify_loop], [receive],
    [hash_loop] and [dl_loop] recurse over the list of answers of the system.
    [clean_loop] takes any fuel: with two iterations per file and one per range
    it ends when files can be deleted ([check_cache_usage_frees]), and
    [clean_loop_livelock] and [clean_loop_foreign] show that it need not end
    otherwise.  [serve]
    completes for every fuel above the number of reads.

    ** Not modelled

    The libraries behind the interfaces: axum's matching, rustls, quinn, h3, hyper,
    reqwest, tempfile (what they are asked and what they answer is modelled, and
    what is relied on is a class with laws); the [Allow] header axum adds to a 405;
    the format of dates; the encoding of metrics and of the state file; the
    permissions and the free space of the file system, which are answers; the
    parsing of the command line, the tray icon and the signals of [src/main.rs];
    [build.rs].  They have no logic of the program's own.  A panic of a task ends a
    run of [Startup]; a call of the RPC client and the scan in the background take effect
    at one point; what tasks do before the announcement is answered, and commands and
    changes of the cache after the accounts were saved, are left out there.  In [Gallery]
    the writes of one download are followed, not those a failed attempt still has in the
    background when the next one creates the file again.
    [SharedDownload] is about one file: the table has an entry per digest, and what
    happens to other files is an action on the cache.  Its import and its deletions
    are one action each, their steps are those of [CacheConc].  In
    [GalleryPar] what the servers answer for a file depends on the file and the round,
    not on the schedule. *)

From Stdlib Require Export Ascii.
From stdpp Require Import base gmap list strings numbers.

(** ** Machine integers

    The release profile of the program has no overflow checks, so [+=] and
    [-=] on [u64] wrap. *)

Declare Scope rust_scope.
Delimit Scope rust_scope with rust.

Definition u8_max : Z := 255.
Definition u16_max : Z := 65535.
Definition u32_max : Z := 4294967295.
Definition u64_max : Z := 18446744073709551615.
Definition i32_min : Z := -2147483648.
Definition i32_max : Z := 2147483647.
Definition i64_min : Z := -9223372036854775808.
Definition i64_max : Z := 9223372036854775807.

(** Wrap-around of the release build at width 64, unsigned and signed. *)
Definition wrap64 (z : Z) : Z := z mod 18446744073709551616.
Definition wrap_i64 (z : Z) : Z :=
  (z + 9223372036854775808) mod 18446744073709551616 - 9223372036854775808.

Notation "a +w b" := (wrap64 (a + b)) (at level 50, left associativity) : rust_scope.
Notation "a -w b" := (wrap64 (a - b)) (at level 50, left associativity) : rust_scope.

(** [u64::saturating_sub]. *)
Definition sat_sub (a b : Z) : Z := Z.max 0 (a - b).

Definition in_u8 (z : Z) : Prop := (0 ≤ z ≤ u8_max)%Z.
Definition in_u32 (z : Z) : Prop := (0 ≤ z ≤ u32_max)%Z.
Definition in_u64 (z : Z) : Prop := (0 ≤ z ≤ u64_max)%Z.
Definition in_i32 (z : Z) : Prop := (i32_min ≤ z ≤ i32_max)%Z.
Definition in_i64 (z : Z) : Prop := (i64_min ≤ z ≤ i64_max)%Z.

(** ** Outcomes

    A Rust function that may return an error or panic ([unwrap], a slice index
    out of range, an assertion). *)
Inductive outcome (E A : Type) : Type :=
| Ret (a : A)
| Fail (e : E)
| Panic.
Arguments Ret {E A} a.
Arguments Fail {E A} e.
Arguments Panic {E A}.

#[export] Instance outcome_ret E : MRet (outcome E) := λ A a, Ret a.
#[export] Instance outcome_bind E : MBind (outcome E) := λ A B f m,
  match m with Ret a => f a | Fail e => Fail e | Panic => Panic end.

(** Slice indexing [v[i]]: panics out of range. *)
Definition index {E A} (l : list A) (i : nat) : outcome E A :=
  match l !! i with Some x => Ret x | None => Panic end.

(** [r?] on an [Option]/[Result] turned into a given error. *)
Definition or_fail {E A} (o : option A) (e : E) : outcome E A :=
  match o with Some x => Ret x | None => Fail e end.

(** ** Sums over lists and maps *)

Definition sumZ {A} (f : A → Z) (l : list A) : Z := foldr (λ x acc, (f x + acc)%Z) 0%Z l.

Definition map_sum {A} (f : A → Z) (m : gmap string A) : Z :=
  sumZ (λ e, f e.2) (map_to_list m).

(** ** Bytes: [u8] is [ascii], so that [str::as_bytes] is the identity on the
    characters of a [string]. *)
Abbreviation byte := Ascii.ascii.
Abbreviation bytes := (list Ascii.ascii).
Definition as_bytes (s : string) : bytes := String.list_ascii_of_string s.
Definition of_bytes (b : bytes) : string := String.string_of_list_ascii b.

(** ** Automation *)

(** The word-size constants as numerals, then [lia]. *)
Ltac word :=
  unfold in_u8, in_u32, in_u64, in_i32, in_i64, u8_max, u16_max, u32_max, u64_max,
    i32_min, i32_max, i64_min, i64_max, sat_sub in *; lia.

(** Case analysis on the boolean tests of [Z] and [nat] in the goal. *)
Ltac ztests :=
  repeat match goal with
  | |- context [(?a <? ?b)%Z] => destruct (Z.ltb_spec a b)
  | |- context [(?a <=? ?b)%Z] => destruct (Z.leb_spec a b)
  | |- context [(?a =? ?b)%Z] => destruct (Z.eqb_spec a b)
  end.

Ltac ztests_in H :=
  repeat match type of H with
  | context [(?a <? ?b)%Z] => destruct (Z.ltb_spec a b)
  | context [(?a <=? ?b)%Z] => destruct (Z.leb_spec a b)
  | context [(?a =? ?b)%Z] => destruct (Z.eqb_spec a b)
  end.

Create HintDb hath.
Create Rewrite HintDb hath.

(** ** Integer lemmas *)

Lemma wrap64_small z : in_u64 z → wrap64 z = z.
Proof. intros. unfold wrap64. apply Z.mod_small. word. Qed.

Lemma wrap64_range z : in_u64 (wrap64 z).
Proof.
  unfold wrap64. pose proof (Z.mod_pos_bound z 18446744073709551616). word.
Qed.

(** Wrapping may be postponed to the end of a sum. *)
Lemma wrap64_add_l a b : wrap64 (wrap64 a + b) = wrap64 (a + b).
Proof. unfold wrap64. apply Zplus_mod_idemp_l. Qed.
Lemma wrap64_sub_l a b : wrap64 (wrap64 a - b) = wrap64 (a - b).
Proof. unfold wrap64. apply Zminus_mod_idemp_l. Qed.

Lemma wrap_i64_small z : in_i64 z → wrap_i64 z = z.
Proof. intros. unfold wrap_i64. rewrite Z.mod_small; word. Qed.

(** A wrapped difference of two times is small only if the times are close. *)
Lemma wrap_i64_near ts t k :
  (0 ≤ ts < 2 ^ 62)%Z → in_i64 t → (0 ≤ k < 2 ^ 61)%Z →
  (- k ≤ wrap_i64 (ts - t))%Z → (wrap_i64 (ts - t) ≤ k)%Z → (Z.abs (ts - t) ≤ k)%Z.
Proof.
  intros Hts Ht Hk H1 H2. unfold wrap_i64 in *. unfold in_i64, i64_min, i64_max in Ht.
  change (2 ^ 62)%Z with 4611686018427387904%Z in Hts. change (2 ^ 61)%Z with 2305843009213693952%Z in Hk.
  destruct (decide (ts - t + 9223372036854775808 < 18446744073709551616)%Z).
  - rewrite Z.mod_small in H1, H2 by lia. lia.
  - rewrite <- (Z_mod_plus_full _ (-1)), Z.mod_small in H1 by lia. lia.
Qed.

Lemma sat_sub_nonneg a b : (0 ≤ sat_sub a b)%Z.
Proof. word. Qed.

#[export] Hint Resolve wrap64_range sat_sub_nonneg : hath.
#[export] Hint Rewrite wrap64_small using word : hath.

(** ** Lemmas on sums *)

Section sums.
Context {A : Type}.
Implicit Types (f : A → Z) (l : list A).

Lemma sumZ_app f l k : sumZ f (l ++ k) = (sumZ f l + sumZ f k)%Z.
Proof. induction l as [|x l IH]; simpl; lia. Qed.

Lemma sumZ_perm f l k : l ≡ₚ k → sumZ f l = sumZ f k.
Proof. induction 1; simpl; lia. Qed.

Lemma sumZ_nonneg f l : (∀ x, x ∈ l → (0 ≤ f x)%Z) → (0 ≤ sumZ f l)%Z.
Proof.
  induction l as [|x l IH]; intros H; simpl; [done|].
  pose proof (H x ltac:(left)). pose proof (IH ltac:(intros; apply H; by right)). lia.
Qed.

Lemma sumZ_ext f g l : (∀ x, x ∈ l → f x = g x) → sumZ f l = sumZ g l.
Proof.
  induction l as [|x l IH]; intros H; simpl; [done|].
  rewrite (H x ltac:(left)), IH; [done|]. intros; apply H; by right.
Qed.

Lemma sumZ_elem f l x : (∀ y, y ∈ l → (0 ≤ f y)%Z) → x ∈ l → (f x ≤ sumZ f l)%Z.
Proof.
  intros Hn [l1 [l2 ->]]%list_elem_of_split. rewrite sumZ_app; simpl.
  pose proof (sumZ_nonneg f l1 ltac:(intros; apply Hn; set_solver)).
  pose proof (sumZ_nonneg f l2 ltac:(intros; apply Hn; set_solver)). lia.
Qed.

End sums.

Section map_sums.
Context {A : Type}.
Implicit Types (f : A → Z) (m : gmap string A).

Lemma map_sum_empty f : map_sum f ∅ = 0%Z.
Proof. unfold map_sum. by rewrite map_to_list_empty. Qed.

Lemma map_sum_insert f m k x : m !! k = None → map_sum f (<[k := x]> m) = (f x + map_sum f m)%Z.
Proof.
  intros H. unfold map_sum. by rewrite (sumZ_perm _ _ _ (map_to_list_insert m k x H)).
Qed.

Lemma map_sum_delete f m k x : m !! k = Some x → map_sum f m = (f x + map_sum f (delete k m))%Z.
Proof.
  intros H. rewrite <- (map_sum_insert f _ k); [|apply lookup_delete_eq].
  by rewrite insert_delete_id.
Qed.

(** Replacing the value of a key moves the sum by the difference. *)
Lemma map_sum_update f m k x y :
  m !! k = Some x → map_sum f (<[k := y]> m) = (map_sum f m - f x + f y)%Z.
Proof.
  intros H. rewrite (map_sum_delete f m k x H), <- (insert_delete_eq m k y).
  rewrite map_sum_insert by apply lookup_delete_eq. lia.
Qed.

Lemma map_sum_nonneg f m : (∀ k x, m !! k = Some x → (0 ≤ f x)%Z) → (0 ≤ map_sum f m)%Z.
Proof. intros H. apply sumZ_nonneg. intros [k x] Hx%elem_of_map_to_list. by eapply H. Qed.

(** A submap sums to at most the whole, when nothing is negative. *)
Lemma map_sum_filter_le f m (P : string * A → Prop) `{!∀ e, Decision (P e)} :
  (∀ k x, m !! k = Some x → (0 ≤ f x)%Z) → (map_sum f (filter P m) ≤ map_sum f m)%Z.
Proof.
  induction m as [|k x m Hk IH] using map_ind; intros Hnn; [by rewrite map_filter_empty|].
  rewrite map_sum_insert by done.
  pose proof (Hnn k x ltac:(by rewrite lookup_insert_eq)) as H0.
  assert (map_sum f (filter P m) ≤ map_sum f m)%Z as Hm.
  { apply IH. intros k' x' Hk'. apply (Hnn k'). rewrite lookup_insert_ne; [done|]. congruence. }
  destruct (decide (P (k, x))).
  - rewrite map_filter_insert_True, map_sum_insert; [lia| |done].
    rewrite map_lookup_filter, Hk. done.
  - rewrite map_filter_insert_False, delete_id by done. lia.
Qed.

Lemma map_sum_subseteq_le f m m' :
  m' ⊆ m → (∀ k x, m !! k = Some x → (0 ≤ f x)%Z) → (map_sum f m' ≤ map_sum f m)%Z.
Proof.
  intros Hsub Hnn. replace m' with (filter (λ e, is_Some (m' !! e.1)) m); [by apply map_sum_filter_le|].
  apply map_eq. intros k. apply option_eq. intros x. rewrite map_lookup_filter_Some. cbn. split.
  - intros [E [y Ey]]. pose proof (lookup_weaken _ _ _ _ Ey Hsub). by simplify_eq.
  - intros E. split; [by eapply lookup_weaken|by eexists].
Qed.

Lemma map_size_filter_le m (P : string * A → Prop) `{!∀ e, Decision (P e)} :
  size (filter P m) ≤ size m.
Proof. apply map_subseteq_size, map_filter_subseteq. Qed.

End map_sums.

(** [as_bytes] and [of_bytes] are inverse, and turn [++] into [++]. *)
Lemma as_of_bytes b : as_bytes (of_bytes b) = b.
Proof. apply String.list_ascii_of_string_of_list_ascii. Qed.
Lemma of_as_bytes s : of_bytes (as_bytes s) = s.
Proof. apply String.string_of_list_ascii_of_string. Qed.
Lemma as_bytes_app s t : as_bytes (s +:+ t) = as_bytes s ++ as_bytes t.
Proof. induction s as [|c s IH]; [done|]. simpl. unfold as_bytes in *. simpl. by rewrite IH. Qed.
Lemma of_bytes_app x y : of_bytes (x ++ y) = of_bytes x +:+ of_bytes y.
Proof.
  rewrite <- (of_as_bytes (of_bytes x +:+ of_bytes y)). f_equal.
  by rewrite as_bytes_app, !as_of_bytes.
Qed.
Lemma str_app_assoc (a b c : string) : a +:+ b +:+ c = (a +:+ b) +:+ c.
Proof.
  rewrite <- (of_as_bytes (a +:+ b +:+ c)), <- (of_as_bytes ((a +:+ b) +:+ c)).
  by rewrite !as_bytes_app, (assoc_L (++)).
Qed.
