(* ===== verification/Text.v ===== *)
(** * Text: the string operations of the Rust standard library the code uses

    [&str]/[String] are [string] (the UTF-8 bytes).  [split], [splitn], [lines],
    [join], [starts_with], [FromStr] for integers and booleans, [Display] for
    integers, ASCII case folding. *)

From S2P Require Import Prelude.
From stdpp Require Import base gmap list strings numbers.

Local Open Scope Z_scope.

(** ** Splitting and joining *)

(** [s.split(c)]: always at least one piece. *)
Fixpoint split_on (c : byte) (s : string) : list string :=
  match s with
  | EmptyString => [EmptyString]
  | String a t =>
      if decide (a = c) then EmptyString :: split_on c t
      else match split_on c t with
           | p :: ps => String a p :: ps
           | [] => [String a EmptyString]
           end
  end.

(** The first [c] of [s]: the text before and after it. *)
Fixpoint split_once (c : byte) (s : string) : option (string * string) :=
  match s with
  | EmptyString => None
  | String a t =>
      if decide (a = c) then Some (EmptyString, t)
      else match split_once c t with
           | Some (p, q) => Some (String a p, q)
           | None => None
           end
  end.

(** [s.splitn(n, c)]: at most [n] pieces, the last one the unsplit rest. *)
Fixpoint splitn (n : nat) (c : byte) (s : string) : list string :=
  match n with
  | O => []
  | S O => [s]
  | S m => match split_once c s with
           | Some (p, q) => p :: splitn m c q
           | None => [s]
           end
  end.

(** [v.join(sep)]. *)
Fixpoint str_join (sep : string) (l : list string) : string :=
  match l with
  | [] => EmptyString
  | [x] => x
  | x :: r => x +:+ sep +:+ str_join sep r
  end.

Definition nl : byte := Ascii.ascii_of_nat 10.
Definition cr : byte := Ascii.ascii_of_nat 13.
Definition nl_str : string := String nl EmptyString.

(** [str::lines]: pieces between newlines, each without one trailing carriage
    return; an empty last piece is not a line. *)
Fixpoint strip_cr (s : string) : string :=
  match s with
  | EmptyString => EmptyString
  | String a EmptyString => if decide (a = cr) then EmptyString else s
  | String a t => String a (strip_cr t)
  end.

(** A carriage return is stripped only from a line a newline ends. *)
Fixpoint lines_of (l : list string) : list string :=
  match l with
  | [] => []
  | [x] => if decide (x = EmptyString) then [] else [x]
  | x :: r => strip_cr x :: lines_of r
  end.

Definition lines (s : string) : list string := lines_of (split_on nl s).

(** [s.starts_with(p)]. *)
Fixpoint starts_with (s p : string) : bool :=
  match p, s with
  | EmptyString, _ => true
  | String a p', String b s' => if decide (a = b) then starts_with s' p' else false
  | String _ _, EmptyString => false
  end.

(** ** ASCII *)

Definition code (c : byte) : Z := Z.of_nat (Ascii.nat_of_ascii c).
Definition is_digit (c : byte) : bool := (48 <=? code c) && (code c <=? 57).
Definition is_upper (c : byte) : bool := (65 <=? code c) && (code c <=? 90).
Definition is_lower (c : byte) : bool := (97 <=? code c) && (code c <=? 122).
Definition is_lower_hex (c : byte) : bool :=
  is_digit c || ((97 <=? code c) && (code c <=? 102)).

Definition lower_char (c : byte) : byte :=
  if is_upper c then Ascii.ascii_of_nat (Ascii.nat_of_ascii c + 32) else c.

Fixpoint map_str (f : byte → byte) (s : string) : string :=
  match s with EmptyString => EmptyString | String a t => String (f a) (map_str f t) end.

(** Lower-casing restricted to ASCII. *)
Definition to_lowercase (s : string) : string := map_str lower_char s.
Definition eq_ignore_ascii_case (a b : string) : bool :=
  bool_decide (to_lowercase a = to_lowercase b).

Definition all_chars (p : byte → bool) (s : string) : bool := forallb p (as_bytes s).
Definition has_char (c : byte) (s : string) : bool :=
  existsb (λ a, bool_decide (a = c)) (as_bytes s).

(** ** Integers *)

Definition digit_val (c : byte) : Z := code c - 48.
Definition digit_char (d : Z) : byte := Ascii.ascii_of_nat (Z.to_nat (d + 48)).

Fixpoint parse_digits (acc : Z) (s : string) : option Z :=
  match s with
  | EmptyString => Some acc
  | String c t => if is_digit c then parse_digits (acc * 10 + digit_val c) t else None
  end.

(** A non-empty run of digits. *)
Definition parse_nat (s : string) : option Z :=
  match s with EmptyString => None | _ => parse_digits 0 s end.

Definition in_range (lo hi : Z) (o : option Z) : option Z :=
  match o with
  | Some z => if (lo <=? z) && (z <=? hi) then Some z else None
  | None => None
  end.

(** [str::parse] for an unsigned type of maximum [hi]: an optional [+]. *)
Definition parse_uint (hi : Z) (s : string) : option Z :=
  in_range 0 hi
    match s with
    | String c t => if decide (c = "+"%char) then parse_nat t else parse_nat s
    | EmptyString => None
    end.

(** [str::parse] for a signed type: an optional [+] or [-]. *)
Definition parse_int (lo hi : Z) (s : string) : option Z :=
  in_range lo hi
    match s with
    | String c t =>
        if decide (c = "+"%char) then parse_nat t
        else if decide (c = "-"%char) then Z.opp <$> parse_nat t
        else parse_nat s
    | EmptyString => None
    end.

Definition parse_u8 := parse_uint u8_max.
Definition parse_u16 := parse_uint u16_max.
Definition parse_u32 := parse_uint u32_max.
Definition parse_u64 := parse_uint u64_max.
Definition parse_i32 := parse_int i32_min i32_max.
Definition parse_i64 := parse_int i64_min i64_max.

(** [str::parse::<bool>]. *)
Definition parse_bool (s : string) : option bool :=
  if decide (s = "true") then Some true
  else if decide (s = "false") then Some false else None.

(** [Display] of a non-negative integer; [fuel] bounds the number of digits and
    [show_nat] gives it one more than the bits of the number. *)
Fixpoint show_digits (fuel : nat) (n : Z) (acc : string) : string :=
  let acc' := String (digit_char (n mod 10)) acc in
  match fuel with
  | O => acc'
  | S f => if n <? 10 then acc' else show_digits f (n / 10) acc'
  end.

Definition show_nat (n : Z) : string := show_digits (S (Z.to_nat (Z.log2 n))) n EmptyString.

Definition show (z : Z) : string :=
  if z <? 0 then String "-"%char (show_nat (- z)) else show_nat z.

(** ** Splitting: lemmas *)

Lemma split_on_ne c s : ∃ p ps, split_on c s = p :: ps.
Proof. destruct s as [|a t]; simpl; [eauto|]. repeat case_match; eauto. Qed.

Lemma has_char_cons c a s : has_char c (String a s) = bool_decide (a = c) || has_char c s.
Proof. done. Qed.

Lemma has_char_app c s t : has_char c (s +:+ t) = has_char c s || has_char c t.
Proof. unfold has_char. rewrite as_bytes_app. apply existsb_app. Qed.

Lemma split_on_none c s : has_char c s = false → split_on c s = [s].
Proof.
  induction s as [|a s IH]; [done|]. rewrite has_char_cons.
  intros [Ha Hs]%orb_false_iff. simpl. case_bool_decide; [done|].
  rewrite decide_False by done. by rewrite IH.
Qed.

Lemma split_on_app c s t :
  has_char c s = false → split_on c (s +:+ String c t) = s :: split_on c t.
Proof.
  induction s as [|a s IH].
  - intros _. simpl. by rewrite decide_True.
  - rewrite has_char_cons. intros [Ha Hs]%orb_false_iff.
    change (String a s +:+ String c t) with (String a (s +:+ String c t)). simpl.
    case_bool_decide; [done|]. rewrite decide_False by done. by rewrite IH.
Qed.

Lemma split_on_pieces c s p : p ∈ split_on c s → has_char c p = false.
Proof.
  revert p. induction s as [|a s IH]; intros p; simpl.
  - rewrite list_elem_of_singleton. by intros ->.
  - destruct (decide (a = c)) as [->|Hne].
    + rewrite elem_of_cons. intros [->|?]; [done|auto].
    + destruct (split_on_ne c s) as (q & qs & E). rewrite E in *.
      rewrite elem_of_cons. intros [->|?].
      * rewrite has_char_cons, bool_decide_false, (IH q); [done|left|done].
      * apply IH. by right.
Qed.

(** [join] and [split] are inverse on pieces free of the separator. *)
Lemma split_on_join c l :
  l ≠ [] → Forall (λ p, has_char c p = false) l →
  split_on c (str_join (String c EmptyString) l) = l.
Proof.
  intros Hl H. induction H as [|x r Hx Hr IH]; [done|].
  destruct r as [|y r]; [by apply split_on_none|].
  - change (str_join (String c EmptyString) (x :: y :: r)) with
      (x +:+ String c (str_join (String c EmptyString) (y :: r))).
    rewrite split_on_app by done. f_equal. apply IH. done.
Qed.

Lemma join_split_on c s : str_join (String c EmptyString) (split_on c s) = s.
Proof.
  induction s as [|a s IH]; [done|]. simpl.
  destruct (decide (a = c)) as [->|Hne].
  - destruct (split_on_ne c s) as (q & qs & E). rewrite E in *. simpl in *. by rewrite IH.
  - destruct (split_on_ne c s) as (q & qs & E). rewrite E in *.
    destruct qs; simpl in *; by rewrite <- IH.
Qed.

(** A piece has no character the whole lacks. *)
Lemma has_char_piece a c s p : has_char a s = false → p ∈ split_on c s → has_char a p = false.
Proof.
  revert p. induction s as [|b s IH]; intros p; simpl.
  - rewrite list_elem_of_singleton. by intros _ ->.
  - rewrite has_char_cons. intros [Hb Hs]%orb_false_iff.
    destruct (decide (b = c)) as [->|Hne].
    + rewrite elem_of_cons. intros [->|?]; [done|auto].
    + destruct (split_on_ne c s) as (q & qs & E). rewrite E in *.
      rewrite elem_of_cons. intros [->|?].
      * rewrite has_char_cons, Hb. apply IH; [done|left].
      * apply IH; [done|by right].
Qed.

(** ** Integers: lemmas *)

Lemma code_range c : 0 ≤ code c < 256.
Proof. unfold code. pose proof (Ascii.nat_ascii_bounded c). lia. Qed.

Lemma code_digit_char d : 0 ≤ d < 10 → code (digit_char d) = d + 48.
Proof.
  intros. unfold code, digit_char. rewrite Ascii.nat_ascii_embedding by lia. lia.
Qed.

Lemma is_digit_digit_char d : 0 ≤ d < 10 → is_digit (digit_char d) = true.
Proof. intros. unfold is_digit. rewrite code_digit_char by done. lia. Qed.

Lemma digit_val_char d : 0 ≤ d < 10 → digit_val (digit_char d) = d.
Proof. intros. unfold digit_val. rewrite code_digit_char by done. lia. Qed.

Lemma all_chars_cons p a s : all_chars p (String a s) = p a && all_chars p s.
Proof. done. Qed.

Lemma all_chars_app p s t : all_chars p (s +:+ t) = all_chars p s && all_chars p t.
Proof. unfold all_chars. rewrite as_bytes_app. apply forallb_app. Qed.

(** A text all of whose characters satisfy [p] has no character that does not. *)
Lemma all_chars_has p c s : all_chars p s = true → p c = false → has_char c s = false.
Proof.
  induction s as [|a s IH]; [done|]. rewrite all_chars_cons, has_char_cons.
  intros [Ha Hs]%andb_true_iff Hc. rewrite IH by done.
  case_bool_decide; [congruence|done].
Qed.

(** Fewer than [10 ^ (fuel + 1)]: the fuel is enough to print every digit. *)
Lemma parse_show_digits fuel n acc a :
  0 ≤ n < 10 ^ (Z.of_nat fuel + 1) →
  ∃ k, 0 ≤ k ∧ parse_digits a (show_digits fuel n acc) = parse_digits (a * 10 ^ k + n) acc.
Proof.
  revert n acc a. induction fuel as [|f IH]; intros n acc a Hn.
  - change (10 ^ (Z.of_nat 0 + 1)) with 10 in Hn. exists 1. split; [done|]. simpl.
    rewrite Z.mod_small, is_digit_digit_char, digit_val_char by lia. f_equal; lia.
  - simpl. destruct (Z.ltb_spec n 10).
    + exists 1. split; [done|]. simpl.
      rewrite Z.mod_small, is_digit_digit_char, digit_val_char by lia. f_equal; lia.
    + replace (Z.of_nat (S f) + 1) with (Z.succ (Z.of_nat f + 1)) in Hn by lia.
      rewrite Z.pow_succ_r in Hn by lia.
      assert (0 ≤ n / 10 < 10 ^ (Z.of_nat f + 1)) as Hd.
      { split; [apply Z.div_pos; lia|]. apply Z.div_lt_upper_bound; lia. }
      destruct (IH (n / 10) (String (digit_char (n mod 10)) acc) a Hd) as (k & Hk & ->).
      exists (k + 1). split; [lia|]. simpl.
      pose proof (Z.mod_pos_bound n 10 ltac:(lia)).
      rewrite is_digit_digit_char, digit_val_char by done. f_equal.
      rewrite Z.pow_add_r by lia. pose proof (Z.div_mod n 10). lia.
Qed.

Lemma show_nat_fuel n : 0 ≤ n → n < 10 ^ (Z.of_nat (S (Z.to_nat (Z.log2 n))) + 1).
Proof.
  intros Hn. destruct (Z.eq_dec n 0) as [->|]; [vm_compute; done|].
  pose proof (Z.log2_spec n ltac:(lia)) as [_ Hl].
  pose proof (Z.log2_nonneg n). rewrite Nat2Z.inj_succ, Z2Nat.id by done.
  eapply Z.lt_le_trans; [exact Hl|].
  etrans; [apply (Z.pow_le_mono_l 2 10); lia|]. apply Z.pow_le_mono_r; lia.
Qed.

Lemma show_digits_ne fuel n acc : ∃ c s, show_digits fuel n acc = String c s.
Proof.
  revert n acc. induction fuel as [|f IH]; intros n acc; simpl; [eauto|].
  destruct (n <? 10); eauto.
Qed.

Lemma show_digits_all fuel n acc :
  0 ≤ n → all_chars is_digit acc = true → all_chars is_digit (show_digits fuel n acc) = true.
Proof.
  revert n acc. induction fuel as [|f IH]; intros n acc Hn Ha; simpl.
  - rewrite all_chars_cons, is_digit_digit_char; [done|]. apply Z.mod_pos_bound; lia.
  - assert (all_chars is_digit (String (digit_char (n mod 10)) acc) = true).
    { rewrite all_chars_cons, is_digit_digit_char; [done|]. apply Z.mod_pos_bound; lia. }
    destruct (n <? 10); [done|]. apply IH; [|done]. apply Z.div_pos; lia.
Qed.

Lemma show_nat_digits n : 0 ≤ n → all_chars is_digit (show_nat n) = true.
Proof. intros. by apply show_digits_all. Qed.

Lemma show_nonneg n : 0 ≤ n → show n = show_nat n.
Proof. intros. unfold show. by rewrite (proj2 (Z.ltb_ge _ _)). Qed.

Lemma show_no_char c n : 0 ≤ n → is_digit c = false → has_char c (show n) = false.
Proof. intros. rewrite show_nonneg by done. eapply all_chars_has; eauto using show_nat_digits. Qed.

Lemma parse_nat_show n : 0 ≤ n → parse_nat (show_nat n) = Some n.
Proof.
  intros Hn. unfold parse_nat.
  destruct (show_digits_ne (S (Z.to_nat (Z.log2 n))) n EmptyString) as (c & s & E).
  unfold show_nat. rewrite E, <- E.
  edestruct (parse_show_digits (S (Z.to_nat (Z.log2 n))) n EmptyString 0) as (k & ? & ->).
  { split; [done|]. by apply show_nat_fuel. }
  simpl. f_equal.
Qed.

Lemma show_nat_head n c t : 0 ≤ n → show_nat n = String c t → is_digit c = true.
Proof.
  intros Hn E. pose proof (show_nat_digits n Hn) as H. rewrite E, all_chars_cons in H.
  by apply andb_true_iff in H as [? _].
Qed.

Lemma in_range_Some lo hi z : lo ≤ z ≤ hi → in_range lo hi (Some z) = Some z.
Proof. intros. simpl. by rewrite (proj2 (Z.leb_le _ _)), (proj2 (Z.leb_le _ _)) by lia. Qed.

Lemma in_range_inv lo hi o z : in_range lo hi o = Some z → o = Some z ∧ lo ≤ z ≤ hi.
Proof.
  destruct o as [y|]; simpl; [|done]. destruct ((lo <=? y) && (y <=? hi)) eqn:E; [|done].
  intros [= ->]. split; [done|]. lia.
Qed.

(** [parse] inverts [Display], unsigned and signed. *)
Lemma parse_uint_show hi n : 0 ≤ n ≤ hi → parse_uint hi (show n) = Some n.
Proof.
  intros Hn. rewrite show_nonneg by lia. unfold parse_uint.
  destruct (show_nat n) as [|c t] eqn:E.
  { pose proof (parse_nat_show n ltac:(lia)) as H. by rewrite E in H. }
  assert (is_digit c = true) by (eapply show_nat_head; [|exact E]; lia).
  rewrite decide_False by (intros ->; done).
  rewrite <- E, parse_nat_show by lia. apply in_range_Some. lia.
Qed.

Lemma parse_int_show lo hi z : lo ≤ z ≤ hi → parse_int lo hi (show z) = Some z.
Proof.
  intros Hz. unfold show. destruct (Z.ltb_spec z 0).
  - unfold parse_int. rewrite decide_False, decide_True by done.
    rewrite parse_nat_show by lia. simpl fmap. rewrite Z.opp_involutive.
    apply in_range_Some. lia.
  - unfold parse_int. destruct (show_nat z) as [|c t] eqn:E.
    { pose proof (parse_nat_show z ltac:(lia)) as H'. by rewrite E in H'. }
    assert (is_digit c = true) by (eapply show_nat_head; [|exact E]; lia).
    rewrite !decide_False by (intros ->; done).
    rewrite <- E, parse_nat_show by lia. apply in_range_Some. lia.
Qed.

Lemma parse_uint_range hi s n : parse_uint hi s = Some n → 0 ≤ n ≤ hi.
Proof. intros H. by apply in_range_inv in H as [_ ?]. Qed.

Lemma parse_int_range lo hi s n : parse_int lo hi s = Some n → lo ≤ n ≤ hi.
Proof. intros H. by apply in_range_inv in H as [_ ?]. Qed.

Lemma show_inj a b : 0 ≤ a → 0 ≤ b → show a = show b → a = b.
Proof.
  intros Ha Hb E. rewrite !show_nonneg in E by done.
  pose proof (parse_nat_show a Ha) as H. rewrite E, parse_nat_show in H by done. by simplify_eq.
Qed.

(** ** Prefixes *)

Lemma starts_with_app p t : starts_with (p +:+ t) p = true.
Proof.
  induction p as [|a p IH]; [by destruct t|].
  change (String a p +:+ t) with (String a (p +:+ t)). simpl. by rewrite decide_True.
Qed.

Lemma starts_with_inv s p : starts_with s p = true → ∃ t, s = p +:+ t.
Proof.
  revert s. induction p as [|a p IH]; intros s; [intros; by exists s|].
  destruct s as [|b s]; simpl; [done|]. destruct (decide (a = b)) as [->|]; [|done].
  intros [t ->]%IH. by exists t.
Qed.

#[export] Hint Resolve parse_uint_range parse_int_range show_nat_digits : hath.
#[export] Hint Rewrite has_char_app all_chars_app : hath.
