(* ===== verification/Extern.v ===== *)
(** * Extern: the third-party code the program calls, as interfaces

    [const_hex] and [aws_lc_rs::digest] are not part of the repository.  Each is
    a class of operations and a class of the documented laws the program relies
    on; the components are proved against the classes.  [hex_ref] and [toy_digest]
    are concrete instances, used only to show that the laws can hold together. *)

From S2P Require Import Prelude Text.
From stdpp Require Import base gmap list strings numbers.

(** ** [const_hex] *)

(** [hex_encode] and [decode_to_array::<_, 20>] (an error is [None]). *)
Class HexCodec := {
  hex_encode : bytes → string;
  decode_to_array : string → option bytes
}.

(** [hex_encode] writes two lower-case digits per byte, in order; decoding inverts
    it and yields arrays of exactly twenty bytes. *)
Class HexLaws (H : HexCodec) : Prop := {
  hex_encode_app a b : hex_encode (a ++ b) = hex_encode a +:+ hex_encode b;
  hex_encode_length a : String.length (hex_encode a) = 2 * length a;
  hex_encode_lower a : all_chars is_lower_hex (hex_encode a) = true;
  hex_decode_of_encode a : length a = 20 → decode_to_array (hex_encode a) = Some a;
  hex_decoded_length s a : decode_to_array s = Some a → length a = 20
}.

(** ** [aws_lc_rs::digest] with SHA-1 *)

(** The one-shot [digest::digest] and the streaming [digest::Context]. *)
Class Digest := {
  ctx : Type;
  ctx_new : ctx;
  ctx_update : ctx → bytes → ctx;
  ctx_finish : ctx → bytes;
  digest : bytes → bytes
}.

(** Feeding a context in pieces gives the digest of the whole; a digest has
    twenty bytes. *)
Class DigestLaws (D : Digest) : Prop := {
  finish_chunks (l : list bytes) :
    ctx_finish (foldl ctx_update ctx_new l) = digest (concat l);
  digest_length b : length (digest b) = 20
}.

(** ** [util.rs] *)

(** [util::string_to_hash]. *)
Definition string_to_hash `{HexCodec, Digest} (str : string) : string :=
  hex_encode (digest (as_bytes str)).

(** ** Concrete instances *)

Definition hex_digit (d : Z) : byte :=
  Ascii.ascii_of_nat (Z.to_nat (if (d <? 10)%Z then d + 48 else d + 87)).

Definition hex_val (c : byte) : option Z :=
  let z := code c in
  if is_digit c then Some (z - 48)%Z
  else if ((97 <=? z) && (z <=? 102))%Z then Some (z - 87)%Z
  else if ((65 <=? z) && (z <=? 70))%Z then Some (z - 55)%Z
  else None.

Definition hex_byte (b : byte) : bytes :=
  [hex_digit (code b / 16); hex_digit (code b mod 16)].

Fixpoint hex_decode (l : bytes) : option bytes :=
  match l with
  | [] => Some []
  | a :: b :: r =>
      x ← hex_val a; y ← hex_val b; t ← hex_decode r;
      Some (Ascii.ascii_of_nat (Z.to_nat (16 * x + y)) :: t)
  | _ => None
  end.

Definition hex_decode20 (s : string) : option bytes :=
  l ← hex_decode (as_bytes s);
  if decide (length l = 20) then Some l else None.

Definition hex_ref : HexCodec := {|
  hex_encode l := of_bytes (l ≫= hex_byte);
  decode_to_array := hex_decode20
|}.

(** A stand-in digest: the first twenty bytes, padded with zeros. *)
Definition toy_digest : Digest := {|
  ctx := bytes;
  ctx_new := [];
  ctx_update c b := c ++ b;
  ctx_finish c := take 20 (c ++ replicate 20 (Ascii.ascii_of_nat 0));
  digest c := take 20 (c ++ replicate 20 (Ascii.ascii_of_nat 0))
|}.

(** ** Consequences of the laws *)

Lemma string_length_as_bytes s : length (as_bytes s) = String.length s.
Proof. induction s as [|a s IH]; [done|]. unfold as_bytes in *. simpl. by rewrite IH. Qed.

Section hex.
Context `{HexLaws}.

Lemma hex_encode_no_char c a : is_lower_hex c = false → has_char c (hex_encode a) = false.
Proof. eapply all_chars_has. apply hex_encode_lower. Qed.

Lemma hex_encode_inj a b : length a = 20 → length b = 20 → hex_encode a = hex_encode b → a = b.
Proof.
  intros Ha Hb E. pose proof (hex_decode_of_encode a Ha) as Hd.
  rewrite E, hex_decode_of_encode in Hd by done. by simplify_eq.
Qed.

Context `{DigestLaws}.

Lemma string_to_hash_length s : String.length (string_to_hash s) = 40.
Proof. unfold string_to_hash. rewrite hex_encode_length, digest_length. done. Qed.

Lemma string_to_hash_no_char c s :
  is_lower_hex c = false → has_char c (string_to_hash s) = false.
Proof. apply hex_encode_no_char. Qed.

End hex.

(** ** The instances satisfy the laws *)

Lemma hex_byte_ok (b : byte) :
  hex_val (hex_digit (code b / 16)) = Some (code b / 16)%Z ∧
  hex_val (hex_digit (code b mod 16)) = Some (code b mod 16)%Z ∧
  forallb is_lower_hex (hex_byte b) = true.
Proof. destruct b as [[] [] [] [] [] [] [] []]; vm_compute; done. Qed.

Lemma hex_decode_encode l : hex_decode (l ≫= hex_byte) = Some l.
Proof.
  induction l as [|b l IH]; [done|]. rewrite bind_cons. simpl.
  destruct (hex_byte_ok b) as (-> & -> & _). simpl. rewrite IH. simpl. do 2 f_equal.
  rewrite <- Z.div_mod by done. unfold code. rewrite Nat2Z.id. apply Ascii.ascii_nat_embedding.
Qed.

#[export] Instance hex_ref_laws : HexLaws hex_ref.
Proof.
  split.
  - intros a b. simpl. rewrite bind_app. generalize (b ≫= hex_byte) (a ≫= hex_byte).
    intros y x. apply of_bytes_app.
  - intros a. simpl. rewrite <- string_length_as_bytes, as_of_bytes.
    induction a as [|c a IH]; [done|]. rewrite bind_cons, length_app, IH. simpl. lia.
  - intros a. simpl. unfold all_chars. rewrite as_of_bytes.
    induction a as [|c a IH]; [done|]. rewrite bind_cons, forallb_app, IH.
    by destruct (hex_byte_ok c) as (_ & _ & ->).
  - intros a Ha. simpl. unfold hex_decode20. rewrite as_of_bytes, hex_decode_encode. simpl.
    by rewrite decide_True.
  - intros s a. simpl. unfold hex_decode20. destruct (hex_decode (as_bytes s)); simpl; [|done].
    case_decide; [|done]. by intros [= ->].
Qed.

#[export] Instance toy_digest_laws : DigestLaws toy_digest.
Proof.
  split.
  - intros l. simpl. do 2 f_equal. change (concat l) with ([] ++ concat l).
    generalize (@nil Ascii.ascii). induction l as [|b l IH]; intros z; simpl.
    + by rewrite app_nil_r.
    + by rewrite IH, (assoc_L (++)).
  - intros b. unfold digest, toy_digest. rewrite length_take, length_app, length_replicate. lia.
Qed.
