(* ===== verification/FileId.v ===== *)
(** * FileId: cache file identifiers ([CacheFileInfo] and [FileType])

    [src/src/cache_manager.rs]: parsing a file id, printing it back as a path
    under the cache directory, the static range and the media type. *)

From S2P Require Import Prelude Text Extern.
From stdpp Require Import base gmap list strings numbers.

Local Open Scope Z_scope.

(** ** Data *)

Inductive FileType :=
| Jpeg | Png | Gif | Mp4 | Webm | Webp | Avif | Jpegxl
| Other (s : string).

#[export] Instance FileType_eq_dec : EqDecision FileType.
Proof. solve_decision. Defined.

Record CacheFileInfo := mkInfo {
  fi_hash : bytes;          (* [u8; 20] *)
  fi_size : Z;              (* u32 *)
  fi_xres : Z;              (* u32 *)
  fi_yres : Z;              (* u32 *)
  fi_mime : FileType
}.

#[export] Instance CacheFileInfo_eq_dec : EqDecision CacheFileInfo.
Proof. solve_decision. Defined.

(** ** Operations *)

(** The media types of the [mime] constants and literals of the source. *)
Definition to_mime (t : FileType) : string :=
  match t with
  | Jpeg => "image/jpeg"
  | Png => "image/png"
  | Gif => "image/gif"
  | Mp4 => "video/mp4"
  | Webm => "video/webm"
  | Webp => "image/webp"
  | Avif => "image/avif"
  | Jpegxl => "image/jxl"
  | Other _ => "application/octet-stream"
  end.

Definition as_str (t : FileType) : string :=
  match t with
  | Jpeg => "jpg"
  | Png => "png"
  | Gif => "gif"
  | Mp4 => "mp4"
  | Webm => "wbm"
  | Webp => "wbp"
  | Avif => "avf"
  | Jpegxl => "jxl"
  | Other s => s
  end.

(** [impl From<&str> for FileType]. *)
Definition FileType_from (s : string) : FileType :=
  if decide (s = "jpg") then Jpeg
  else if decide (s = "png") then Png
  else if decide (s = "gif") then Gif
  else if decide (s = "mp4") then Mp4
  else if decide (s = "wbm") then Webm
  else if decide (s = "wbp") then Webp
  else if decide (s = "avf") then Avif
  else if decide (s = "jxl") then Jpegxl
  else Other s.

(** [Iterator::next] on the pieces of a [split]. *)
Definition next (it : list string) : option string * list string :=
  match it with
  | [] => (None, [])
  | p :: r => (Some p, r)
  end.

(** [part.next().and_then(|s| s.parse().ok())?] with the iterator threaded. *)
Definition next_u32 (it : list string) : option (Z * list string) :=
  let (p, it) := next it in
  n ← p ≫= parse_u32; Some (n, it).

Section ops.
Context `{HexCodec}.

(** [CacheFileInfo::from_file_id]. *)
Definition from_file_id (id : string) : option CacheFileInfo :=
  let part := split_on "-"%char id in
  let none_res := bool_decide (length part = 3%nat) in
  let (p, part) := next part in
  h ← p ≫= decode_to_array;
  '(sz, part) ← next_u32 part;
  '(xr, part) ← (if none_res then Some (0, part) else next_u32 part);
  '(yr, part) ← (if none_res then Some (0, part) else next_u32 part);
  let (p, _) := next part in
  ft ← p;
  Some (mkInfo h sz xr yr (FileType_from ft)).

(** The [filename] of [to_path]. *)
Definition file_name (i : CacheFileInfo) : string :=
  let h := hex_encode (fi_hash i) in
  if 0 <? fi_xres i
  then str_join "-" [h; show (fi_size i); show (fi_xres i); show (fi_yres i); as_str (fi_mime i)]
  else str_join "-" [h; show (fi_size i); as_str (fi_mime i)].

(** [PathBuf::push] of the standard library on unix: an absolute argument
    replaces the path, a separator is added when there is none. *)
Fixpoint ends_with_sep (s : string) : bool :=
  match s with
  | EmptyString => false
  | String c EmptyString => bool_decide (c = "/"%char)
  | String _ t => ends_with_sep t
  end.

Definition path_push (path p : string) : string :=
  if starts_with p "/" then p
  else if bool_decide (path = EmptyString) || ends_with_sep path then path +:+ p
  else path +:+ "/" +:+ p.

(** [CacheFileInfo::to_path]. *)
Definition to_path (i : CacheFileInfo) (cache_dir : string) : string :=
  let h := hex_encode (fi_hash i) in
  let filename := file_name i in
  let path := cache_dir in
  let path := path_push path (String.substring 0 2 h) in
  let path := path_push path (String.substring 2 2 h) in
  path_push path filename.

(** [CacheFileInfo::static_range]: the hex digits of the first two bytes. *)
Definition static_range (i : CacheFileInfo) : string := hex_encode (take 2 (fi_hash i)).

(** [target_dir] of the cache cleaner for a static range. *)
Definition range_dir (cache_dir sr : string) : string :=
  path_push (path_push cache_dir (String.substring 0 2 sr)) (String.substring 2 2 sr).

End ops.

#[global] Arguments FileType_from : simpl never.
#[global] Arguments file_name : simpl never.

(** ** Vocabulary of the theorems *)

(** A directory text ready for a component to be appended. *)
Definition with_sep (d : string) : string :=
  if bool_decide (d = EmptyString) || ends_with_sep d then d else d +:+ "/".

(** A name that denotes exactly one entry of the directory it is looked up in. *)
Definition plain_name (s : string) : Prop :=
  has_char "/"%char s = false ∧ s ≠ "" ∧ s ≠ "." ∧ s ≠ "..".


(** The invariants of the Rust types: twenty bytes, 32-bit numbers; and a media
    type that [FileType_from] builds, free of the separator. *)
Definition info_ok (i : CacheFileInfo) : Prop :=
  length (fi_hash i) = 20%nat ∧ in_u32 (fi_size i) ∧ in_u32 (fi_xres i) ∧ in_u32 (fi_yres i) ∧
  FileType_from (as_str (fi_mime i)) = fi_mime i ∧
  has_char "-"%char (as_str (fi_mime i)) = false.

(** What a file name keeps of an identifier: without a width, no height. *)
Definition canonical (i : CacheFileInfo) : CacheFileInfo :=
  mkInfo (fi_hash i) (fi_size i) (fi_xres i) (if 0 <? fi_xres i then fi_yres i else 0) (fi_mime i).

(** ** Lemmas *)

Lemma as_str_from s : as_str (FileType_from s) = s.
Proof. unfold FileType_from. repeat case_decide; by subst. Qed.

Lemma str_app_length s t : String.length (s +:+ t) = (String.length s + String.length t)%nat.
Proof. rewrite <- !string_length_as_bytes, as_bytes_app. apply length_app. Qed.

Lemma str_app_inj_length a b c d :
  String.length a = String.length b → a +:+ c = b +:+ d → a = b ∧ c = d.
Proof.
  intros Hl E. apply (f_equal as_bytes) in E. rewrite !as_bytes_app in E.
  apply app_inj_1 in E as [E1 E2]; [|by rewrite !string_length_as_bytes].
  split; rewrite <- (of_as_bytes _); [rewrite <- (of_as_bytes b)|rewrite <- (of_as_bytes d)]; congruence.
Qed.

Lemma substring_0 s n : String.substring 0 n s = of_bytes (take n (as_bytes s)).
Proof.
  revert n. induction s as [|a s IH]; intros [|n]; [done..|]. simpl. unfold as_bytes, of_bytes in *.
  simpl. by rewrite IH.
Qed.

Lemma substring_drop s k n :
  String.substring k n s = of_bytes (take n (drop k (as_bytes s))).
Proof.
  revert k. induction s as [|a s IH]; intros [|k]; [apply substring_0|..|apply substring_0|].
  - by destruct n.
  - apply IH.
Qed.

Section facts.
Context `{HexLaws}.
Implicit Types (i j : CacheFileInfo).

Lemma file_name_parts i :
  info_ok i →
  split_on "-"%char (file_name i) =
    if 0 <? fi_xres i
    then [hex_encode (fi_hash i); show (fi_size i); show (fi_xres i); show (fi_yres i); as_str (fi_mime i)]
    else [hex_encode (fi_hash i); show (fi_size i); as_str (fi_mime i)].
Proof.
  intros (Hh & Hs & Hx & Hy & _ & Hm). unfold file_name.
  assert (has_char "-"%char (hex_encode (fi_hash i)) = false) by by apply hex_encode_no_char.
  destruct (0 <? fi_xres i); apply split_on_join; try done;
    repeat apply Forall_cons_2; try apply Forall_nil_2; try done;
    apply show_no_char; try done; word.
Qed.

(** Parsing the printed name gives the identifier back, up to the height that
    the name omits when there is no width. *)
Lemma from_file_id_file_name i : info_ok i → from_file_id (file_name i) = Some (canonical i).
Proof.
  intros Hok. pose proof Hok as (Hh & Hs & Hx & Hy & Hm & _).
  unfold from_file_id. rewrite (file_name_parts i Hok). unfold canonical, next_u32.
  destruct (Z.ltb_spec 0 (fi_xres i)); simpl.
  - rewrite hex_decode_of_encode by done. simpl. unfold parse_u32.
    repeat (rewrite parse_uint_show by word; simpl). by rewrite Hm.
  - rewrite hex_decode_of_encode by done. simpl. unfold parse_u32.
    rewrite !parse_uint_show by word. simpl. rewrite Hm. do 2 f_equal. word.
Qed.

Lemma from_file_id_inv id i :
  from_file_id id = Some i →
  ∃ p0 p1 ps ft,
    decode_to_array p0 = Some (fi_hash i) ∧ parse_u32 p1 = Some (fi_size i) ∧
    fi_mime i = FileType_from ft ∧
    (split_on "-"%char id = [p0; p1; ft] ∧ fi_xres i = 0 ∧ fi_yres i = 0 ∨
     ∃ p2 p3, split_on "-"%char id = p0 :: p1 :: p2 :: p3 :: ft :: ps ∧
       parse_u32 p2 = Some (fi_xres i) ∧ parse_u32 p3 = Some (fi_yres i)).
Proof.
  unfold from_file_id, next_u32. intros E.
  destruct (split_on "-"%char id) as [|p0 [|p1 l]] eqn:Es; simpl in E; [done| |].
  { by destruct (decode_to_array p0); simpl in E. }
  destruct (decode_to_array p0) as [h|] eqn:Eh; simpl in E; [|done].
  destruct (parse_u32 p1) as [sz|] eqn:E1; simpl in E; [|done].
  destruct l as [|ft [|p3 l]]; simpl in E.
  - done.
  - injection E as <-. exists p0, p1, [], ft. simpl. eauto 10.
  - destruct (parse_u32 ft) as [xr|] eqn:E2; simpl in E; [|done].
    destruct (parse_u32 p3) as [yr|] eqn:E3; simpl in E; [|done].
    destruct l as [|f l]; simpl in E; [done|]. injection E as <-.
    exists p0, p1, l, f. simpl. eauto 12.
Qed.

Lemma from_file_id_ok id i : from_file_id id = Some i → info_ok i.
Proof.
  intros (p0 & p1 & ps & ft & Hh & Hs & Hm & Hr)%from_file_id_inv. unfold info_ok.
  rewrite Hm, as_str_from.
  assert (has_char "-"%char ft = false).
  { apply (split_on_pieces _ id).
    destruct Hr as [(-> & _)|(? & ? & -> & _)]; set_solver. }
  split_and!; [by eapply hex_decoded_length|by eapply parse_uint_range| | |done|done].
  - destruct Hr as [(_ & -> & _)|(? & ? & _ & ? & _)]; [word|by eapply parse_uint_range].
  - destruct Hr as [(_ & _ & ->)|(? & ? & _ & _ & ?)]; [word|by eapply parse_uint_range].
Qed.

Lemma canonical_ok i : info_ok i → info_ok (canonical i).
Proof.
  unfold info_ok, canonical. cbn -[Z.ltb]. intros (?&?&?&?&?&?).
  destruct (0 <? fi_xres i); split_and!; try done; word.
Qed.

Lemma canonical_idem i : canonical (canonical i) = canonical i.
Proof. unfold canonical. cbn -[Z.ltb]. by destruct (0 <? fi_xres i). Qed.

Lemma file_name_canonical i : file_name (canonical i) = file_name i.
Proof. unfold file_name, canonical. cbn -[Z.ltb]. by destruct (0 <? fi_xres i). Qed.

Lemma file_name_inj i j :
  info_ok i → info_ok j → file_name i = file_name j → canonical i = canonical j.
Proof.
  intros Hi Hj E. pose proof (from_file_id_file_name i Hi) as H1.
  rewrite E, from_file_id_file_name in H1 by done. congruence.
Qed.

Lemma as_bytes_hex_length (b : bytes) : length (as_bytes (hex_encode b)) = (2 * length b)%nat.
Proof. rewrite string_length_as_bytes. apply hex_encode_length. Qed.

(** The two directory levels are the two halves of the static range. *)
Lemma static_range_slices i :
  length (fi_hash i) = 20%nat →
  String.substring 0 2 (static_range i) = String.substring 0 2 (hex_encode (fi_hash i)) ∧
  String.substring 2 2 (static_range i) = String.substring 2 2 (hex_encode (fi_hash i)).
Proof.
  intros Hl. unfold static_range. rewrite !substring_drop.
  assert (as_bytes (hex_encode (fi_hash i)) =
    as_bytes (hex_encode (take 2 (fi_hash i))) ++ as_bytes (hex_encode (drop 2 (fi_hash i)))) as ->.
  { rewrite <- as_bytes_app, <- hex_encode_app. by rewrite take_drop. }
  assert (length (as_bytes (hex_encode (take 2 (fi_hash i)))) = 4%nat) as H4.
  { rewrite as_bytes_hex_length, length_take. lia. }
  destruct (as_bytes (hex_encode (take 2 (fi_hash i)))) as [|a [|b [|c [|d [|]]]]]; done.
Qed.

Lemma static_range_length i : length (fi_hash i) = 20%nat → String.length (static_range i) = 4%nat.
Proof. intros. unfold static_range. rewrite hex_encode_length, length_take. lia. Qed.

Lemma hex_slices (b : bytes) :
  length b = 20%nat →
  ∃ x1 x2 y1 y2,
    String.substring 0 2 (hex_encode b) = String x1 (String x2 EmptyString) ∧
    String.substring 2 2 (hex_encode b) = String y1 (String y2 EmptyString) ∧
    is_lower_hex x1 = true ∧ is_lower_hex x2 = true ∧
    is_lower_hex y1 = true ∧ is_lower_hex y2 = true ∧
    ∃ r, hex_encode b = String x1 (String x2 (String y1 (String y2 r))).
Proof.
  intros Hl. pose proof (hex_encode_lower b) as Ha. pose proof (hex_encode_length b) as Hn.
  destruct (hex_encode b) as [|x1 [|x2 [|y1 [|y2 r]]]]; simpl in Hn; try lia.
  rewrite !all_chars_cons in Ha. repeat apply andb_true_iff in Ha as [? Ha].
  exists x1, x2, y1, y2. split_and!; try done; [by destruct r|by exists r].
Qed.

Lemma lower_hex_not_sep c : is_lower_hex c = true → c ≠ "/"%char.
Proof. by intros ? ->. Qed.

Lemma ends_with_sep_app s c : ends_with_sep (s +:+ String c EmptyString) = bool_decide (c = "/"%char).
Proof.
  induction s as [|a s IH]; [done|].
  change (String a s +:+ String c EmptyString) with (String a (s +:+ String c EmptyString)).
  rewrite <- IH. simpl. by destruct (s +:+ String c EmptyString) eqn:E; [destruct s|].
Qed.

Lemma path_push_rel d p : starts_with p "/" = false → path_push d p = with_sep d +:+ p.
Proof.
  intros E. unfold path_push, with_sep. rewrite E.
  destruct (bool_decide (d = EmptyString) || ends_with_sep d); [done|].
  by rewrite str_app_assoc.
Qed.

Lemma with_sep_hex d x1 x2 :
  is_lower_hex x2 = true →
  with_sep (d +:+ String x1 (String x2 EmptyString)) =
    d +:+ String x1 (String x2 (String "/"%char EmptyString)).
Proof.
  intros H2. unfold with_sep.
  replace (d +:+ String x1 (String x2 EmptyString))
    with ((d +:+ String x1 EmptyString) +:+ String x2 EmptyString).
  2:{ by rewrite <- str_app_assoc. }
  rewrite ends_with_sep_app, !bool_decide_false; [|by apply lower_hex_not_sep|].
  - simpl. by rewrite <- !str_app_assoc.
  - by destruct d.
Qed.

(** The path of a file, spelled out. *)
Lemma to_path_eq i d :
  length (fi_hash i) = 20%nat →
  to_path i d = with_sep d +:+ String.substring 0 2 (static_range i) +:+ "/" +:+
    String.substring 2 2 (static_range i) +:+ "/" +:+ file_name i.
Proof.
  intros Hl. destruct (static_range_slices i Hl) as [-> ->].
  destruct (hex_slices _ Hl) as (x1 & x2 & y1 & y2 & E1 & E2 & Hx1 & Hx2 & Hy1 & Hy2 & r & Er).
  assert (∃ t, file_name i = String x1 t) as [t Ht].
  { unfold file_name. rewrite Er. destruct (0 <? fi_xres i); by eexists. }
  unfold to_path. rewrite E1, E2.
  rewrite !path_push_rel; try (rewrite ?Ht; simpl; rewrite decide_False; [done|]).
  - rewrite !with_sep_hex by done. by rewrite <- !str_app_assoc.
  - intros <-. by apply lower_hex_not_sep in Hx1.
  - intros <-. by apply lower_hex_not_sep in Hx1.
  - intros <-. by apply lower_hex_not_sep in Hy1.
Qed.

Lemma plain_two_hex x1 x2 :
  is_lower_hex x1 = true → is_lower_hex x2 = true → plain_name (String x1 (String x2 EmptyString)).
Proof.
  intros H1 H2. split_and!; [|done|by intros [= -> _]|by intros [= -> _]].
  by apply (all_chars_has is_lower_hex); [rewrite !all_chars_cons, H1, H2|].
Qed.

Lemma plain_file_name id i :
  has_char "/"%char id = false → from_file_id id = Some i → plain_name (file_name i).
Proof.
  intros Hsl Hid. pose proof (from_file_id_ok _ _ Hid) as (Hl & ? & ? & ? & _).
  assert (has_char "/"%char (as_str (fi_mime i)) = false) as Hm.
  { destruct (from_file_id_inv id i Hid) as (p0 & p1 & ps & ft & _ & _ & -> & Hr).
    rewrite as_str_from. apply (has_char_piece "/"%char "-"%char id); [done|].
    destruct Hr as [(-> & _)|(? & ? & -> & _)]; set_solver. }
  destruct (hex_slices _ Hl) as (x1 & x2 & y1 & y2 & _ & _ & Hx1 & _ & _ & _ & r & Er).
  unfold plain_name, file_name. destruct (0 <? fi_xres i); cbn [str_join]; split_and!;
    try (rewrite Er; first [done|by intros [= -> _]]);
    rewrite !has_char_app, hex_encode_no_char, !show_no_char, Hm by (done || word); done.
Qed.

Lemma to_path_file_name_inj i j d :
  length (fi_hash i) = 20%nat → length (fi_hash j) = 20%nat →
  to_path i d = to_path j d → file_name i = file_name j.
Proof.
  intros Hi Hj. rewrite !to_path_eq by done.
  destruct (static_range_slices i Hi) as [-> ->]. destruct (static_range_slices j Hj) as [-> ->].
  destruct (hex_slices _ Hi) as (x1 & x2 & y1 & y2 & -> & -> & _).
  destruct (hex_slices _ Hj) as (z1 & z2 & w1 & w2 & -> & -> & _).
  intros E. apply str_app_inj_length in E as [_ E]; [|done]. simpl in E. by simplify_eq.
Qed.

End facts.

(** ** Theorems *)

Section theorems.
Context `{HexLaws}.
Implicit Types (i j : CacheFileInfo).

(** Exactly which identifiers are accepted.  Three pieces mean no
    resolution; otherwise at least five pieces are needed and every piece after
    the fifth is ignored; the hash must decode to twenty bytes and the numbers
    must fit [u32]. *)
Theorem from_file_id_accepts id i :
  from_file_id id = Some i ↔
  ∃ p0 p1 ft,
    decode_to_array p0 = Some (fi_hash i) ∧ parse_u32 p1 = Some (fi_size i) ∧
    fi_mime i = FileType_from ft ∧
    (split_on "-"%char id = [p0; p1; ft] ∧ fi_xres i = 0 ∧ fi_yres i = 0 ∨
     ∃ p2 p3 ps, split_on "-"%char id = p0 :: p1 :: p2 :: p3 :: ft :: ps ∧
       parse_u32 p2 = Some (fi_xres i) ∧ parse_u32 p3 = Some (fi_yres i)).
Proof.
  split.
  - intros (p0 & p1 & ps & ft & ? & ? & ? & Hr)%from_file_id_inv.
    exists p0, p1, ft. split_and!; try done. destruct Hr as [?|(p2 & p3 & ?)]; [by left|right; eauto].
  - intros (p0 & p1 & ft & Hh & Hs & Hm & Hr). destruct i as [h sz xr yr m]; simpl in *.
    unfold from_file_id, next_u32.
    destruct Hr as [(-> & -> & ->)|(p2 & p3 & ps & -> & Hx & Hy)]; simpl;
      rewrite Hh; simpl; rewrite Hs; simpl; rewrite ?Hx; simpl; rewrite ?Hy; simpl; by rewrite Hm.
Qed.

(** Re-reading the name a parsed identifier is stored under gives the same
    identifier (its height dropped when it has no width), and the name is
    already in normal form: equal files have equal names however the id was
    spelled. *)
Theorem from_file_id_reparse id i :
  from_file_id id = Some i →
  from_file_id (file_name i) = Some (canonical i) ∧ file_name (canonical i) = file_name i.
Proof.
  intros Hi%from_file_id_ok. split; [by apply from_file_id_file_name|apply file_name_canonical].
Qed.

(** Two parsed identifiers share a path exactly when they denote the same
    file. *)
Theorem to_path_injective id1 id2 i j d :
  from_file_id id1 = Some i → from_file_id id2 = Some j →
  to_path i d = to_path j d ↔ canonical i = canonical j.
Proof.
  intros Hi%from_file_id_ok Hj%from_file_id_ok. split.
  - intros E. apply file_name_inj; [done..|]. eapply to_path_file_name_inj; [apply Hi|apply Hj|done].
  - intros E. pose proof (f_equal file_name E) as En. rewrite !file_name_canonical in En.
    pose proof (f_equal fi_hash E) as Eh. simpl in Eh. unfold to_path. by rewrite En, Eh.
Qed.

(** The path of a file is its name inside the directory the cache cleaner
    derives from the static range the file is accounted under. *)
Theorem to_path_in_range_dir id i d :
  from_file_id id = Some i →
  to_path i d = path_push (range_dir d (static_range i)) (file_name i).
Proof.
  intros (Hl & _)%from_file_id_ok. unfold range_dir, to_path.
  by destruct (static_range_slices i Hl) as [-> ->].
Qed.

(** An identifier without a slash cannot leave the cache directory: below
    it come two directory names of two hexadecimal digits, the halves of the
    static range, and one plain file name. *)
Theorem to_path_contained id i d :
  has_char "/"%char id = false → from_file_id id = Some i →
  ∃ s1 s2, static_range i = s1 +:+ s2 ∧
    to_path i d = with_sep d +:+ s1 +:+ "/" +:+ s2 +:+ "/" +:+ file_name i ∧
    plain_name s1 ∧ plain_name s2 ∧ plain_name (file_name i).
Proof.
  intros Hsl Hid. pose proof (from_file_id_ok _ _ Hid) as Hok. pose proof Hok as (Hl & ? & ? & ? & _).
  exists (String.substring 0 2 (static_range i)), (String.substring 2 2 (static_range i)).
  rewrite to_path_eq by done. pose proof (static_range_length i Hl) as H4.
  destruct (static_range_slices i Hl) as [E1 E2].
  destruct (hex_slices _ Hl) as (x1 & x2 & y1 & y2 & F1 & F2 & Hx1 & Hx2 & Hy1 & Hy2 & _).
  rewrite E1, E2, F1, F2. split_and!;
    [|done|by apply plain_two_hex|by apply plain_two_hex|by eapply plain_file_name].
  - rewrite F1 in E1. rewrite F2 in E2.
    destruct (static_range i) as [|a [|b [|c [|e [|]]]]]; simpl in *; by simplify_eq.
Qed.

End theorems.

(** ** Witnesses *)

Definition sample_id : string :=
  "00112233445566778899aabbccddeeff00112233-4096-1280-720-jpg".
Definition sample_id_plus : string :=
  "00112233445566778899AABBCCDDEEFF00112233-+4096-1280-0720-jpg-x".

Definition sample_info : CacheFileInfo :=
  mkInfo (default [] (@decode_to_array hex_ref "00112233445566778899aabbccddeeff00112233"))
    4096 1280 720 Jpeg.

Lemma from_file_id_reparse_witness :
  @from_file_id hex_ref sample_id_plus = Some sample_info ∧
  @from_file_id hex_ref (@file_name hex_ref sample_info) = Some (canonical sample_info) ∧
  @file_name hex_ref (canonical sample_info) = @file_name hex_ref sample_info.
Proof.
  split; [vm_compute; reflexivity|].
  apply (from_file_id_reparse sample_id_plus sample_info). vm_compute; reflexivity.
Defined.

Lemma from_file_id_accepts_witness :
  @from_file_id hex_ref sample_id = Some sample_info.
Proof.
  apply (proj2 (from_file_id_accepts sample_id sample_info)).
  eexists "00112233445566778899aabbccddeeff00112233", "4096", "jpg".
  split_and!; [vm_compute; reflexivity..|].
  right. exists "1280", "720", []. split_and!; vm_compute; reflexivity.
Defined.

Lemma to_path_injective_witness :
  @to_path hex_ref sample_info "cache" = @to_path hex_ref sample_info "cache" ↔
  canonical sample_info = canonical sample_info.
Proof.
  apply (to_path_injective sample_id sample_id_plus sample_info sample_info "cache");
    vm_compute; reflexivity.
Defined.

Lemma to_path_in_range_dir_witness :
  @to_path hex_ref sample_info "cache" =
  path_push (range_dir "cache" (@static_range hex_ref sample_info)) (@file_name hex_ref sample_info).
Proof. apply (to_path_in_range_dir sample_id sample_info "cache"). vm_compute; reflexivity. Defined.

Lemma to_path_contained_witness :
  ∃ s1 s2, @static_range hex_ref sample_info = s1 +:+ s2 ∧
    @to_path hex_ref sample_info "cache" =
      with_sep "cache" +:+ s1 +:+ "/" +:+ s2 +:+ "/" +:+ @file_name hex_ref sample_info ∧
    plain_name s1 ∧ plain_name s2 ∧ plain_name (@file_name hex_ref sample_info).
Proof. apply (to_path_contained sample_id sample_info "cache"); vm_compute; reflexivity. Defined.
