(* ===== verification/FloodControl.v ===== *)
(** * FloodControl: per-address connection limiting

    [src/src/server/util.rs], struct [FloodControl], and the address
    normalisation of [accept] in [src/src/server/mod.rs].  [Bucket] is the
    abstract contract, one independent leaky bucket per address, and
    [flood_control_refines] shows that the hash maps with their periodic clean-up
    implement it. *)

From S2P Require Import Prelude.
From stdpp Require Import base gmap list numbers countable sorting.

Local Open Scope Z_scope.

(** ** Addresses *)

(** [IpAddr]: a 32-bit or a 128-bit address. *)
Inductive IpAddr := V4 (a : Z) | V6 (a : Z).

#[export] Instance IpAddr_eq_dec : EqDecision IpAddr.
Proof. solve_decision. Defined.
#[export] Instance IpAddr_countable : Countable IpAddr.
Proof.
  refine (inj_countable' (λ a, match a with V4 x => inl x | V6 x => inr x end)
    (λ s, match s with inl x => V4 x | inr x => V6 x end) _). by intros [].
Defined.

(** [IpAddr::to_canonical]: [::ffff:a.b.c.d] becomes [a.b.c.d]. *)
Definition to_canonical (ip : IpAddr) : IpAddr :=
  match ip with
  | V4 a => V4 a
  | V6 a => if (Z.shiftr a 32 =? 65535) then V4 (Z.land a 4294967295) else V6 a
  end.

Record SocketAddr := mkAddr { addr_ip : IpAddr; addr_port : Z }.

(** The address [accept] hands to the rest of the server. *)
Definition accept_addr (a : SocketAddr) : SocketAddr :=
  mkAddr (to_canonical (addr_ip a)) (addr_port a).

(** ** Time: [Instant] in nanoseconds *)

Definition sec : Z := 1000000000.

(** [later - earlier] of two instants saturates at zero. *)
Definition duration (later earlier : Z) : Z := Z.max 0 (later - earlier).
Definition as_secs (d : Z) : Z := d / sec.

(** ** The implementation *)

Record FloodControl := mkFC {
  last_clean : Z;
  hit_map : gmap IpAddr (Z * Z);     (* (u8, Instant) *)
  block_list : gmap IpAddr Z
}.

(** [FloodControl::new]. *)
Definition FloodControl_new (now : Z) : FloodControl := mkFC now ∅ ∅.

(** The clean-up of [hit].  [late ip] is the clock [elapsed] reads when the
    entry of [ip] is examined. *)
Definition clean (now : Z) (late : IpAddr → Z) (fc : FloodControl) : FloodControl :=
  mkFC now
    (filter (λ e, duration (late e.1) e.2.2 < 10 * sec) (hit_map fc))
    (filter (λ e, e.2 > now) (block_list fc)).

(** [u8] addition of the release build. *)
Definition wrap8 (z : Z) : Z := z mod 256.

(** The counter update of [hit]. *)
Definition decay (now : Z) (e : Z * Z) : Z :=
  let time_diff := Z.min 10 (as_secs (duration now e.2)) in
  wrap8 (sat_sub e.1 time_diff + 1).

(** [FloodControl::hit].  [clk] is the clock [last_clean.elapsed()] reads. *)
Definition hit (now clk : Z) (late : IpAddr → Z) (addr : SocketAddr) (fc : FloodControl)
    : bool * FloodControl :=
  let ip := addr_ip addr in
  let fc := if bool_decide (duration clk (last_clean fc) > 10 * sec)
            then clean now late fc else fc in
  if match block_list fc !! ip with Some time => bool_decide (time > now) | None => false end
  then (true, fc)
  else
    let entry := default (0, now) (hit_map fc !! ip) in
    let h := decay now entry in
    let fc := mkFC (last_clean fc) (<[ip := (h, now)]> (hit_map fc)) (block_list fc) in
    if bool_decide (h >= 10)
    then (true, mkFC (last_clean fc) (hit_map fc) (<[ip := now + 60 * sec]> (block_list fc)))
    else (false, fc).

(** One call of [hit] as an event: the address and the clock readings. *)
Record event := mkEvent {
  ev_addr : SocketAddr;
  ev_now : Z;
  ev_clk : Z;
  ev_late : IpAddr → Z
}.

Definition ev_ip (e : event) : IpAddr := addr_ip (ev_addr e).

(** The verdicts of the implementation over a sequence of calls. *)
Fixpoint verdicts (fc : FloodControl) (evs : list event) : list bool :=
  match evs with
  | [] => []
  | e :: r =>
      let (b, fc') := hit (ev_now e) (ev_clk e) (ev_late e) (ev_addr e) fc in
      b :: verdicts fc' r
  end.

(** The clock does not run backwards over a sequence of calls that starts at
    [t], and no single call takes a second. *)
Fixpoint clocked (t : Z) (evs : list event) : Prop :=
  match evs with
  | [] => True
  | e :: r => t ≤ ev_now e ∧ (∀ ip, ev_now e ≤ ev_late e ip < ev_now e + sec) ∧
              clocked (ev_now e) r
  end.

(** ** The contract: one bucket per address, nothing ever cleaned *)

Record Bucket := mkBucket {
  level : Z;       (* hits, minus one per second *)
  stamp : Z;       (* last counted hit *)
  until : Z        (* end of the current block *)
}.

Definition pour (now : Z) (b : Bucket) : bool * Bucket :=
  if bool_decide (until b > now) then (true, b)
  else
    let l := sat_sub (level b) (as_secs (duration now (stamp b))) + 1 in
    if bool_decide (l >= 10) then (true, mkBucket l now (now + 60 * sec))
    else (false, mkBucket l now (until b)).

(** The verdicts of one bucket over the times of its own hits. *)
Fixpoint pours (b : Bucket) (ts : list Z) : list bool :=
  match ts with
  | [] => []
  | t :: r => let (v, b') := pour t b in v :: pours b' r
  end.

Definition empty_bucket (t : Z) : Bucket := mkBucket 0 t t.

Definition bucket_verdicts (t : Z) (evs : list event) (ip : IpAddr) : list bool :=
  pours (empty_bucket t) (map ev_now (filter (λ e, ev_ip e = ip) evs)).

(** The verdicts given to one address. *)
Definition verdicts_of (ip : IpAddr) (fc : FloodControl) (evs : list event) : list bool :=
  map snd (filter (λ p, ev_ip p.1 = ip) (zip evs (verdicts fc evs))).

(** ** The simulation relation *)

(** What the maps hold about one address, at time [t] or later. *)
Definition holds (t : Z) (ip : IpAddr) (fc : FloodControl) (b : Bucket) : Prop :=
  0 ≤ level b ≤ 10 ∧ stamp b ≤ t ∧
  (level b = 10 → until b = stamp b + 60 * sec) ∧
  (level b < 10 → until b ≤ stamp b) ∧
  (until b > t → block_list fc !! ip = Some (until b)) ∧
  (∀ u, block_list fc !! ip = Some u → u ≤ t ∨ u = until b) ∧
  match hit_map fc !! ip with
  | Some e => e = (level b, stamp b)
  | None => level b = 0 ∨ 9 * sec < t - stamp b
  end.

(** ** Lemmas *)

Lemma as_secs_spec d : as_secs d * sec ≤ d < (as_secs d + 1) * sec.
Proof.
  unfold as_secs. pose proof (Z.div_mod d sec ltac:(done)).
  pose proof (Z.mod_pos_bound d sec ltac:(done)). lia.
Qed.

Lemma duration_ge later earlier : earlier ≤ later → duration later earlier = later - earlier.
Proof. unfold duration. lia. Qed.

Lemma holds_mono t t' ip fc b : t ≤ t' → holds t ip fc b → holds t' ip fc b.
Proof.
  intros Ht (Hl & Hs & H10 & H9 & Hu & Hb & Hh). unfold holds. split_and!; try lia.
  - intros ?. apply Hu. lia.
  - intros u Hu'. destruct (Hb u Hu'); lia.
  - destruct (hit_map fc !! ip); [done|]. lia.
Qed.

Lemma holds_clean now late ip fc b :
  (∀ i, now ≤ late i < now + sec) → holds now ip fc b → holds now ip (clean now late fc) b.
Proof.
  intros Hlate (Hl & Hs & H10 & H9 & Hu & Hb & Hh). unfold holds, clean; simpl.
  split_and!; try done; try lia.
  - intros Hn. rewrite map_lookup_filter_Some. split; [by apply Hu|done].
  - intros u [Hu' _]%map_lookup_filter_Some. by apply Hb.
  - rewrite map_lookup_filter. destruct (hit_map fc !! ip) as [e|] eqn:E; simpl; [|done].
    subst e. rewrite option_guard_decide. case_decide as Hd; [done|]. simpl in Hd. right.
    pose proof (Hlate ip). rewrite duration_ge in Hd by lia. lia.
Qed.

(** The decayed counter of the implementation is the level of the bucket. *)
Lemma decay_pour now ip fc b :
  holds now ip fc b → until b ≤ now →
  decay now (default (0, now) (hit_map fc !! ip)) =
    sat_sub (level b) (as_secs (duration now (stamp b))) + 1 ∧
  sat_sub (level b) (as_secs (duration now (stamp b))) < 10.
Proof.
  intros (Hl & Hs & H10 & H9 & Hu & Hb & Hh) Hn. rewrite (duration_ge now (stamp b)) by done.
  pose proof (as_secs_spec (now - stamp b)) as Hspec.
  assert (Hsec : sec = 1000000000) by done.
  assert (0 ≤ as_secs (now - stamp b)) by lia.
  destruct (hit_map fc !! ip) as [e|] eqn:E; simpl.
  - subst e. unfold decay, wrap8; simpl. rewrite (duration_ge now (stamp b)) by done.
    assert (sat_sub (level b) (Z.min 10 (as_secs (now - stamp b))) =
            sat_sub (level b) (as_secs (now - stamp b))) as -> by (unfold sat_sub; lia).
    assert (level b = 10 → 60 ≤ as_secs (now - stamp b)) by (intros ?%H10; lia).
    unfold sat_sub. split; [apply Z.mod_small|]; lia.
  - assert (sat_sub (level b) (as_secs (now - stamp b)) = 0) as ->.
    { unfold sat_sub. destruct Hh as [->|Hh]; [lia|].
      assert (9 ≤ as_secs (now - stamp b)) by lia.
      destruct (Z.eq_dec (level b) 10) as [?%H10|]; lia. }
    split; [|lia]. unfold decay. simpl. rewrite (duration_ge now now) by done.
    rewrite Z.sub_diag. done.
Qed.

(** The clean-up at the start of [hit]. *)
Lemma holds_maybe_clean now clk late ip fc b :
  (∀ i, now ≤ late i < now + sec) → holds now ip fc b →
  holds now ip (if bool_decide (duration clk (last_clean fc) > 10 * sec)
                then clean now late fc else fc) b.
Proof. intros. case_bool_decide; [by apply holds_clean|done]. Qed.

(** One call is one [pour] for its own address. *)
Lemma hit_self now clk late a fc b :
  (∀ i, now ≤ late i < now + sec) → holds now (addr_ip a) fc b →
  (hit now clk late a fc).1 = (pour now b).1 ∧
  holds now (addr_ip a) (hit now clk late a fc).2 (pour now b).2.
Proof.
  intros Hl H%(holds_maybe_clean now clk late); [|done]. unfold hit.
  set (fc1 := if bool_decide _ then _ else _) in *. clearbody fc1. clear fc.
  pose proof H as (Hlv & Hs & H10 & H9 & Hu & Hb & Hh). unfold pour.
  destruct (Z_gt_dec (until b) now) as [Hgt|Hle].
  - rewrite (bool_decide_true (until b > now)), (Hu Hgt), bool_decide_true by done. done.
  - rewrite (bool_decide_false (until b > now)) by done.
    assert (match block_list fc1 !! addr_ip a with
      | Some time => bool_decide (time > now) | None => false end = false) as ->.
    { destruct (block_list fc1 !! addr_ip a) as [u|]; [|done].
      apply bool_decide_false. destruct (Hb u eq_refl); lia. }
    destruct (decay_pour _ _ _ _ H ltac:(lia)) as [-> Hlt].
    pose proof (sat_sub_nonneg (level b) (as_secs (duration now (stamp b)))).
    set (l := sat_sub _ _) in *. clearbody l. simpl.
    case_bool_decide; simpl; (split; [done|]); unfold holds; simpl;
      rewrite !lookup_insert_eq; split_and!; try done; try lia.
    intros u [= <-]. by right.
Qed.

(** A call leaves what is held about the other addresses alone. *)
Lemma hit_other now clk late a ip fc b :
  (∀ i, now ≤ late i < now + sec) → addr_ip a ≠ ip → holds now ip fc b →
  holds now ip (hit now clk late a fc).2 b.
Proof.
  intros Hl Hne H%(holds_maybe_clean now clk late); [|done]. unfold hit.
  set (fc1 := if bool_decide _ then _ else _) in *. clearbody fc1.
  destruct (match block_list fc1 !! addr_ip a with
    | Some time => bool_decide (time > now) | None => false end); [done|].
  destruct (bool_decide _); simpl; unfold holds in *; simpl;
    rewrite ?lookup_insert_ne by done; done.
Qed.

Lemma verdicts_pours t ip evs fc b :
  clocked t evs → holds t ip fc b →
  verdicts_of ip fc evs = pours b (map ev_now (filter (λ e, ev_ip e = ip) evs)).
Proof.
  revert t fc b. induction evs as [|e evs IH]; intros t fc b Hc Hh; [done|].
  destruct Hc as (Ht & Hl & Hc). apply (holds_mono _ (ev_now e)) in Hh; [|done].
  unfold verdicts_of. cbn [verdicts].
  pose proof (hit_self (ev_now e) (ev_clk e) (ev_late e) (ev_addr e) fc b Hl) as Hself.
  pose proof (hit_other (ev_now e) (ev_clk e) (ev_late e) (ev_addr e) ip fc b Hl) as Hother.
  destruct (hit (ev_now e) (ev_clk e) (ev_late e) (ev_addr e) fc) as [v fc'] eqn:E; simpl in *.
  rewrite !filter_cons. unfold ev_ip at 1 3. simpl. fold (verdicts_of ip fc' evs).
  destruct (decide (addr_ip (ev_addr e) = ip)) as [<-|Hne].
  - rewrite !decide_True by done. simpl. destruct (Hself Hh) as [Hv Hh'].
    destruct (pour (ev_now e) b) as [v' b']; simpl in *. subst v'. f_equal. by eapply IH.
  - rewrite !decide_False by done. eapply IH; [done|]. by apply Hother.
Qed.

Lemma holds_new t ip : holds t ip (FloodControl_new t) (empty_bucket t).
Proof.
  unfold holds, FloodControl_new, empty_bucket; simpl. rewrite !lookup_empty.
  split_and!; try done; try lia.
Qed.

(** ** The bucket *)

(** Hits at least one second apart never fill a bucket. *)
Fixpoint spaced (ts : list Z) : Prop :=
  match ts with
  | t1 :: ((t2 :: _) as r) => t1 + sec ≤ t2 ∧ spaced r
  | _ => True
  end.

Lemma pours_spaced b ts :
  level b ≤ 1 → until b ≤ stamp b → match ts with t :: _ => stamp b + sec ≤ t ∨ level b ≤ 0 ∧ stamp b ≤ t | [] => True end →
  spaced ts → Forall (λ v, v = false) (pours b ts).
Proof.
  revert b. induction ts as [|t ts IH]; intros b Hl Hu Ht Hs; [constructor|]. simpl.
  assert (Hsec : sec = 1000000000) by done.
  pose proof (as_secs_spec (duration t (stamp b))) as Hq.
  rewrite (duration_ge t (stamp b)) in Hq by lia. unfold pour. rewrite bool_decide_false by lia.
  rewrite (duration_ge t (stamp b)) by lia. rewrite bool_decide_false by (unfold sat_sub; lia).
  constructor; [done|]. apply IH; simpl; try lia.
  - unfold sat_sub. destruct Ht; lia.
  - destruct ts as [|t2 ts]; [done|]. left. apply Hs.
  - destruct ts as [|t2 ts]; [done|]. apply Hs.
Qed.

(** While a block runs, every verdict is [true]. *)
Lemma pours_blocked b ts :
  Forall (λ t, t < until b) ts → Forall (λ v, v = true) (pours b ts).
Proof.
  induction 1 as [|t ts Ht _ IH]; [constructor|]. simpl. unfold pour.
  rewrite bool_decide_true by lia. by constructor.
Qed.

(** Hits within one second of each other add up. *)
Lemma pours_burst n b ts :
  (0 ≤ level b) → until b ≤ stamp b → Z.of_nat n + level b < 10 → length ts = n →
  Forall (λ t, stamp b ≤ t < stamp b + sec) ts → StronglySorted Z.le ts →
  ∃ b', (∀ r, pours b (ts ++ r) = replicate n false ++ pours b' r) ∧
    level b' = level b + Z.of_nat n ∧ until b' ≤ stamp b' ∧
    stamp b' = default (stamp b) (list.last ts).
Proof.
  revert n b. induction ts as [|t ts IH]; intros n b H0 Hu Hn <- Ht Hsrt.
  { exists b. simpl. split_and!; try done; lia. }
  apply Forall_cons in Ht as [Ht Hts]. apply StronglySorted_inv in Hsrt as [Hsrt Hle].
  assert (Hsec : sec = 1000000000) by done.
  simpl length in *. pose proof (as_secs_spec (t - stamp b)) as Hq.
  assert (as_secs (t - stamp b) = 0) as Ez by lia.
  destruct (IH (length ts) (mkBucket (level b + 1) t (until b))) as (b' & Hr & Hl' & Hu' & Hst);
    simpl; try done; try lia.
  { rewrite Forall_forall in Hts, Hle |- *. intros x Hx.
    specialize (Hts x Hx). specialize (Hle x Hx). lia. }
  exists b'. split_and!; try done; try lia.
  - intros r. simpl. unfold pour. rewrite bool_decide_false by lia.
    rewrite (duration_ge t (stamp b)), Ez by lia.
    assert (sat_sub (level b) 0 = level b) as -> by (unfold sat_sub; lia).
    rewrite bool_decide_false by lia. f_equal. apply Hr.
  - simpl in Hl'. lia.
  - rewrite Hst. destruct ts as [|z ts]; [done|]. rewrite last_cons_cons.
    destruct (list.last (z :: ts)) eqn:El; [done|]. by apply last_None in El.
Qed.

Lemma pours_length b ts : length (pours b ts) = length ts.
Proof.
  revert b. induction ts as [|t ts IH]; intros b; [done|]. simpl.
  destruct (pour t b). simpl. by rewrite IH.
Qed.

Lemma clocked_ge t evs e : clocked t evs → e ∈ evs → t ≤ ev_now e.
Proof.
  revert t. induction evs as [|x evs IH]; intros t; [by intros _ ?%elem_of_nil|].
  intros (Ht & _ & Hc) [->|He]%elem_of_cons; [done|]. pose proof (IH _ Hc He). lia.
Qed.

Lemma clocked_sorted t evs (P : event → Prop) `{!∀ e, Decision (P e)} :
  clocked t evs → StronglySorted Z.le (map ev_now (filter P evs)).
Proof.
  revert t. induction evs as [|x evs IH]; intros t; [constructor|].
  intros (Ht & _ & Hc). rewrite filter_cons. case_decide; [|by eapply IH].
  simpl. constructor; [by eapply IH|]. rewrite Forall_forall. intros y Hy.
  apply list_elem_of_In, in_map_iff in Hy as (e & <- & He%list_elem_of_In).
  apply list_elem_of_filter in He as [_ He]. by eapply clocked_ge.
Qed.

Lemma list_replicate_eq {A} (x : A) l : Forall (λ v, v = x) l → l = replicate (length l) x.
Proof. induction 1 as [|y l -> _ IH]; [done|]. simpl. by f_equal. Qed.

Lemma StronglySorted_snoc_le ts x r :
  StronglySorted Z.le (ts ++ x :: r) → StronglySorted Z.le ts ∧ ∀ y, y ∈ ts → y ≤ x.
Proof.
  induction ts as [|t ts IH]; simpl; [split; [constructor|by intros ? ?%elem_of_nil]|].
  intros [Hs Hf]%StronglySorted_inv. destruct (IH Hs) as [H1 H2].
  rewrite Forall_forall in Hf. split.
  - constructor; [done|]. rewrite Forall_forall. intros y Hy. apply Hf. set_solver.
  - intros y [->|Hy]%elem_of_cons; [apply Hf; set_solver|auto].
Qed.

(** ** Theorems *)

(** C15: the flood control implements one independent leaky bucket per address
    (a hit adds one, a second without hits removes one, ten block the address
    for a minute): the verdicts of [hit] for an address over any sequence of
    calls are those of its bucket.  In particular the clean-up of old entries,
    the cap at ten seconds and the [u8] counter are not observable. *)
Theorem flood_control_refines t evs ip :
  clocked t evs → verdicts_of ip (FloodControl_new t) evs = bucket_verdicts t evs ip.
Proof. intros Hc. eapply verdicts_pours; [done|apply holds_new]. Qed.

(** The verdicts for an address depend on the calls for that address only:
    dropping every call from other addresses does not change them. *)
Theorem flood_control_isolation t evs ip :
  clocked t evs → clocked t (filter (λ e, ev_ip e = ip) evs) →
  verdicts_of ip (FloodControl_new t) evs =
  verdicts_of ip (FloodControl_new t) (filter (λ e, ev_ip e = ip) evs).
Proof.
  intros Hc Hf. rewrite !(verdicts_pours t ip _ _ (empty_bucket t)); try done; try apply holds_new.
  by rewrite list_filter_filter_r.
Qed.

(** A client whose connections are at least one second apart is never
    blocked, whatever the other clients do. *)
Theorem flood_control_slow_client t evs ip :
  clocked t evs → spaced (map ev_now (filter (λ e, ev_ip e = ip) evs)) →
  Forall (λ v, v = false) (verdicts_of ip (FloodControl_new t) evs).
Proof.
  intros Hc Hs. rewrite (verdicts_pours t ip _ _ (empty_bucket t)); [|done|apply holds_new].
  apply pours_spaced; simpl; try done; try lia.
  destruct (filter (λ e, ev_ip e = ip) evs) as [|e r] eqn:E; simpl; [done|]. right.
  split; [done|]. assert (e ∈ evs) as He.
  { eapply list_elem_of_filter. rewrite E. left. }
  by eapply clocked_ge.
Qed.

(** Ten connections of one address within a second: the first nine pass,
    the tenth is refused and so is every further one for sixty seconds. *)
Theorem flood_control_burst t evs ip t10 ts rest :
  clocked t evs →
  map ev_now (filter (λ e, ev_ip e = ip) evs) = ts ++ t10 :: rest →
  length ts = 9%nat → Forall (λ x, t ≤ x < t + sec) (ts ++ [t10]) →
  Forall (λ x, x < t10 + 60 * sec) rest →
  verdicts_of ip (FloodControl_new t) evs =
    replicate 9 false ++ replicate (1 + length rest) true.
Proof.
  intros Hc Ets Hlen Hr Hrest.
  rewrite (verdicts_pours t ip _ _ (empty_bucket t)), Ets; [|done|apply holds_new].
  assert (StronglySorted Z.le (ts ++ t10 :: rest)) as Hsrt.
  { rewrite <- Ets. by eapply clocked_sorted. }
  apply StronglySorted_snoc_le in Hsrt as [Hsrt Hle].
  apply Forall_app in Hr as [Hr Hr10]. apply Forall_cons in Hr10 as [Hr10 _].
  destruct (pours_burst 9 (empty_bucket t) ts) as (b' & Hp & Hl & Hu & Hst); simpl; try done; try lia.
  rewrite Hp. apply (f_equal (λ l, replicate 9 false ++ l)).
  cbn [pours]. change (1 + length rest)%nat with (S (length rest)). cbn [replicate].
  change (stamp (empty_bucket t)) with t in Hst. change (level (empty_bucket t)) with 0 in Hl.
  unfold pour.
  assert (stamp b' ≤ t10 < stamp b' + sec) as Hd.
  { rewrite Hst. destruct (list.last ts) as [x|] eqn:El; simpl; [|lia].
    apply last_Some_elem_of in El. rewrite Forall_forall in Hr. pose proof (Hr x El).
    pose proof (Hle x El). lia. }
  pose proof (as_secs_spec (t10 - stamp b')). assert (Hsec : sec = 1000000000) by done.
  rewrite bool_decide_false by lia. rewrite (duration_ge t10 (stamp b')) by lia.
  assert (as_secs (t10 - stamp b') = 0) as -> by lia.
  rewrite bool_decide_true by (unfold sat_sub; lia). f_equal.
  rewrite <- (pours_length (mkBucket (sat_sub (level b') 0 + 1) t10 (t10 + 60 * sec)) rest).
  by apply list_replicate_eq, pours_blocked.
Qed.

(** ** Witnesses *)

Definition ip1 : IpAddr := V4 3232235777.
Definition ip2 : IpAddr := V6 1.

(** A call at [t] whose clock readings are all [t]. *)
Definition at_time (ip : IpAddr) (t : Z) : event :=
  mkEvent (mkAddr ip 40000) t t (λ _, t).

Definition burst : list event :=
  map (at_time ip1) (replicate 11 5) ++ [at_time ip2 6; at_time ip1 (20 * sec)].

Lemma clocked_at_time t ip r x :
  t ≤ x → clocked x r → clocked t (at_time ip x :: r).
Proof. intros ? ?. simpl. split_and!; try done; intros; unfold sec; lia. Qed.

Lemma clocked_burst : clocked 0 burst.
Proof. unfold burst. simpl map. simpl app. repeat (apply clocked_at_time; [lia|]). done. Qed.

Lemma flood_control_refines_witness :
  clocked 0 burst ∧
  verdicts_of ip1 (FloodControl_new 0) burst = bucket_verdicts 0 burst ip1 ∧
  bucket_verdicts 0 burst ip1 = replicate 9 false ++ replicate 3 true.
Proof.
  split; [exact clocked_burst|]. split; [|vm_compute; reflexivity].
  apply (flood_control_refines 0 burst ip1). exact clocked_burst.
Defined.

Lemma flood_control_isolation_witness :
  verdicts_of ip2 (FloodControl_new 0) burst =
  verdicts_of ip2 (FloodControl_new 0) (filter (λ e, ev_ip e = ip2) burst).
Proof.
  apply (flood_control_isolation 0 burst ip2); [exact clocked_burst|].
  change (filter (λ e, ev_ip e = ip2) burst) with [at_time ip2 6].
  apply clocked_at_time; [lia|exact I].
Defined.

Lemma flood_control_slow_client_witness :
  Forall (λ v, v = false) (verdicts_of ip2 (FloodControl_new 0) burst).
Proof.
  apply (flood_control_slow_client 0 burst ip2); [exact clocked_burst|].
  change (filter (λ e, ev_ip e = ip2) burst) with [at_time ip2 6]. exact I.
Defined.

Lemma flood_control_burst_witness :
  verdicts_of ip1 (FloodControl_new 0) burst = replicate 9 false ++ replicate 3 true.
Proof.
  apply (flood_control_burst 0 burst ip1 5 (replicate 9 5) [5; 20 * sec]);
    [exact clocked_burst|vm_compute; reflexivity|reflexivity| |].
  - repeat constructor; vm_compute; done.
  - repeat constructor; vm_compute; done.
Defined.
