(* ===== verification/FileReader.v ===== *)
(** * FileReader: the chunked asynchronous file reader

    [src/src/file_reader.rs].  A read is handed to the I/O pool together with the
    file and the buffer, which come back with the result; [poll_next] keeps the
    task in the reader between polls.  What the operating system and the pool
    answer is an argument of each operation, so every theorem holds for every
    pattern of short reads, errors and pending polls. *)

From S2P Require Import Prelude.
From stdpp Require Import base list strings numbers.

(** ** Data *)

(** An open [std::fs::File]: what it reads and where it is. *)
Record File := mkFile { content : bytes; pos : nat }.

Inductive io_error :=
| OsError (code : Z)
| DoubleRead         (* ErrorKind::ResourceBusy, "Double read" *)
| JoinError.         (* the pool task panicked or was cancelled *)

(** The answer of the operating system to one [read]: how many bytes it is
    willing to return (at least one unless at the end), or an error. *)
Inductive os_read := OsRead (n : nat) | OsFail (code : Z).

(** The buffer after [set_len]: bytes the program never reads. *)
Definition uninit (n : nat) : bytes := replicate n (Ascii.ascii_of_nat 0).

Definition TaskResult : Type := File * bytes.
Definition TaskError : Type := io_error * File * bytes.

Inductive ReaderState :=
| State (s : option TaskResult)
| Future (s : TaskResult)    (* a running read task, which owns the file *)
| Finished.                  (* a task whose result was already taken *)

Record FileReader := mkReader { state : ReaderState; capacity : nat }.

(** ** Operations *)

(** The bytes one [read] call of at most [cap] bytes returns. *)
Definition read_size (f : File) (cap n : nat) : nat :=
  (min n cap) `min` (length (content f) - pos f).

(** [read_file]. *)
Definition read_file (o : os_read) (f : File) (buf : bytes) (cap : nat) : TaskResult + TaskError :=
  let buf := [] : bytes in
  let buf := uninit cap in
  match o with
  | OsRead n =>
      let size := read_size f cap n in
      let data := take size (drop (pos f) (content f)) in
      let buf := data ++ drop size buf in
      let buf := take size buf in
      inl (mkFile (content f) (pos f + size), buf)
  | OsFail e => inr (OsError e, f, buf)
  end.

(** [FileReader::new]. *)
Definition FileReader_new (f : File) (cap : nat) : FileReader :=
  mkReader (State (Some (f, []))) cap.

(** What became of the task an operation awaits. *)
Inductive task_answer := Answer (o : os_read) | TaskLost.

(** [FileReader::read]. *)
Definition read (a : task_answer) (r : FileReader) : (bytes + io_error) * FileReader :=
  match state r with
  | State (Some (f, buf)) =>
      match a with
      | TaskLost => (inr JoinError, mkReader (State None) (capacity r))
      | Answer o =>
          match read_file o f buf (capacity r) with
          | inl (f', buf') => (inl buf', mkReader (State (Some (f', []))) (capacity r))
          | inr (e, f', buf') => (inr e, mkReader (State (Some (f', buf'))) (capacity r))
          end
      end
  | _ => (inr DoubleRead, r)
  end.

(** The answer of the operating system to a seek. *)
Inductive seek_answer := SeekOk | SeekFail (code : Z) | SeekLost.

(** [FileReader::seek]. *)
Definition seek (a : seek_answer) (offset : nat) (r : FileReader) : (unit + io_error) * FileReader :=
  match state r with
  | State (Some (f, buf)) =>
      match a with
      | SeekLost => (inr JoinError, mkReader (State None) (capacity r))
      | SeekOk =>
          (inl tt, mkReader (State (Some (mkFile (content f) offset, buf))) (capacity r))
      | SeekFail e => (inr (OsError e), mkReader (State (Some (f, buf))) (capacity r))
      end
  | _ => (inr DoubleRead, r)
  end.

(** Whether the task has finished when it is polled. *)
Inductive poll_answer := NotYet | Ready (a : task_answer).

Inductive poll_result :=
| PollPending
| PollNone
| PollItem (i : bytes + io_error)
| PollPanic.

(** The [Future] branch of [poll_next]. *)
Definition poll_task (p : poll_answer) (s : TaskResult) (r : FileReader) : poll_result * FileReader :=
  match p with
  | NotYet => (PollPending, mkReader (Future s) (capacity r))
  | Ready TaskLost => (PollItem (inr JoinError), mkReader Finished (capacity r))
  | Ready (Answer o) =>
      match read_file o s.1 s.2 (capacity r) with
      | inl (f', buf') =>
          let r' := mkReader (State (Some (f', []))) (capacity r) in
          match buf' with
          | [] => (PollNone, r')
          | _ => (PollItem (inl buf'), r')
          end
      | inr (e, f', buf') => (PollItem (inr e), mkReader (State (Some (f', buf'))) (capacity r))
      end
  end.

(** [Stream::poll_next]: the loop moves from [State] to [Future] at most once. *)
Definition poll_next (p : poll_answer) (r : FileReader) : poll_result * FileReader :=
  match state r with
  | State (Some s) => poll_task p s r
  | State None => (PollItem (inr DoubleRead), r)
  | Future s => poll_task p s r
  | Finished => (PollPanic, r)
  end.

(** A consumer that polls until the end of the stream. *)
Fixpoint polls (ps : list poll_answer) (r : FileReader) : list poll_result * FileReader :=
  match ps with
  | [] => ([], r)
  | p :: ps' =>
      let (x, r') := poll_next p r in
      match x with
      | PollNone => ([PollNone], r')
      | _ => let (xs, r'') := polls ps' r' in (x :: xs, r'')
      end
  end.

(** ** Vocabulary *)

Definition item_bytes (x : poll_result) : bytes :=
  match x with PollItem (inl b) => b | _ => [] end.

(** The bytes the reader has still to deliver. *)
Definition rest (r : FileReader) : option bytes :=
  match state r with
  | State (Some (f, _)) | Future (f, _) => Some (drop (pos f) (content f))
  | _ => None
  end.

(** The operating system never returns nothing before the end. *)
Definition progress (p : poll_answer) : Prop :=
  match p with Ready (Answer (OsRead n)) => 0 < n | _ => True end.
Definition not_lost (p : poll_answer) : Prop := p ≠ Ready TaskLost.

(** ** Lemmas *)

Lemma read_size_le f cap n : read_size f cap n ≤ cap ∧ read_size f cap n ≤ length (drop (pos f) (content f)).
Proof. unfold read_size. rewrite length_drop. lia. Qed.

(** A successful read returns the next bytes and moves past them. *)
Lemma read_file_ok n f buf cap :
  let k := read_size f cap n in
  read_file (OsRead n) f buf cap =
    inl (mkFile (content f) (pos f + k), take k (drop (pos f) (content f))).
Proof.
  simpl. f_equal. f_equal. pose proof (read_size_le f cap n) as [_ Hk].
  rewrite take_app_le by (rewrite length_take; lia).
  rewrite take_take. by rewrite Nat.min_id.
Qed.

Lemma read_rest f k : take k (drop (pos f) (content f)) ++ drop (pos f + k) (content f) = drop (pos f) (content f).
Proof. rewrite <- (take_drop k (drop (pos f) (content f))) at 2. by rewrite drop_drop. Qed.

(** One poll: what it delivers is taken off the front of what is left; it
    reports the end only when nothing is left. *)
Lemma poll_next_rest p r b :
  rest r = Some b → not_lost p → progress p → 0 < capacity r →
  let (x, r') := poll_next p r in
  ∃ b', rest r' = Some b' ∧ capacity r' = capacity r ∧ b = item_bytes x ++ b' ∧
    length (item_bytes x) ≤ capacity r ∧ x ≠ PollPanic ∧
    (x = PollNone → b' = []).
Proof.
  intros Hr Hl Hp Hc. assert (∃ f buf, poll_next p r = poll_task p (f, buf) r ∧
    b = drop (pos f) (content f)) as (f & buf & -> & ->).
  { unfold rest, poll_next in *. destruct (state r) as [[[f buf]|]|[f buf]|]; try done;
      simplify_eq; eauto. }
  destruct p as [|[[n|e]|]]; [|..|done].
  - exists (drop (pos f) (content f)). simpl. split_and!; done || lia.
  - unfold poll_task. rewrite read_file_ok. simpl fst.
    set (k := read_size f (capacity r) n).
    pose proof (read_size_le f (capacity r) n) as [Hk Hk']. fold k in Hk, Hk'.
    destruct (take k (drop (pos f) (content f))) as [|x l] eqn:E.
    + exists (drop (pos f + k) (content f)). simpl. split_and!; try done; try lia.
      * by rewrite <- (read_rest f k), E at 1.
      * intros _. rewrite <- drop_drop. apply (f_equal length) in E.
        rewrite length_take in E. simpl in E. simpl in Hp. unfold k, read_size in *.
        rewrite length_drop in *. apply nil_length_inv. rewrite !length_drop. lia.
    + exists (drop (pos f + k) (content f)). split_and!; try done.
      * simpl item_bytes. by rewrite <- E, read_rest.
      * simpl item_bytes. rewrite <- E, length_take. lia.
  - exists (drop (pos f) (content f)). simpl. split_and!; try done; lia.
Qed.

(** ** Theorems *)

(** Whatever the pattern of pending polls, short reads and read errors, the
    chunks the stream has delivered followed by what is left of the file are
    exactly the file from where the reader stood: no byte is lost, repeated or
    reordered; no chunk exceeds the capacity; and the stream ends only when
    everything has been delivered. *)
Theorem poll_next_delivers ps r b :
  rest r = Some b → 0 < capacity r → Forall not_lost ps → Forall progress ps →
  let (xs, r') := polls ps r in
  ∃ b', rest r' = Some b' ∧ b = concat (map item_bytes xs) ++ b' ∧
    Forall (λ x, length (item_bytes x) ≤ capacity r ∧ x ≠ PollPanic) xs ∧
    (PollNone ∈ xs → concat (map item_bytes xs) = b).
Proof.
  revert r b. induction ps as [|p ps IH]; intros r b Hr Hc Hl Hp; simpl.
  { exists b. split_and!; try done. by intros ?%elem_of_nil. }
  apply Forall_cons_1 in Hl as [Hl Hls]. apply Forall_cons_1 in Hp as [Hp Hps].
  pose proof (poll_next_rest p r b Hr Hl Hp Hc) as Hstep.
  destruct (poll_next p r) as [x r']. destruct Hstep as (b' & Hr' & Hc' & -> & Hlen & Hnp & Hend).
  specialize (IH r' b' Hr' ltac:(lia) Hls Hps). rewrite Hc' in IH.
  destruct x as [| |i|]; [| |..].
  2:{ pose proof (Hend eq_refl) as ->. exists []. simpl. split_and!; try done. by repeat constructor. }
  all: destruct (polls ps r') as [xs r'']; destruct IH as (b'' & Hr'' & -> & Hall & Hin);
    exists b''; cbn [map concat]; rewrite <- ?(assoc_L (++));
    (split_and!; [done|done|by constructor|]); intros [?|Hn]%elem_of_cons; [done|];
    by rewrite Hin at 1.
Qed.

(** A task lost by the pool is reported once as an error; in the direct
    [read] every later operation then fails with a busy error instead of
    touching the file, while polling the stream again is a panic. *)
Theorem lost_task_is_final f buf cap :
  let r := mkReader (State (Some (f, buf))) cap in
  (read TaskLost r).1 = inr JoinError ∧
  (∀ a, (read a (read TaskLost r).2).1 = inr DoubleRead) ∧
  (∀ a k, (seek a k (read TaskLost r).2).1 = inr DoubleRead) ∧
  (poll_next (Ready TaskLost) r).1 = PollItem (inr JoinError) ∧
  (∀ p, (poll_next p (poll_next (Ready TaskLost) r).2).1 = PollPanic).
Proof. done. Qed.

(** ** Witness *)

Definition abc : bytes := as_bytes "abcdefgh".
Definition poll_script : list poll_answer :=
  [NotYet; Ready (Answer (OsRead 100)); Ready (Answer (OsFail 5)); Ready (Answer (OsRead 2));
   NotYet; Ready (Answer (OsRead 9)); Ready (Answer (OsRead 9)); Ready (Answer (OsRead 9))].

Lemma poll_next_delivers_witness :
  concat (map item_bytes (polls poll_script (FileReader_new (mkFile abc 0) 3)).1) = abc.
Proof.
  pose proof (poll_next_delivers poll_script (FileReader_new (mkFile abc 0) 3) abc eq_refl
    ltac:(simpl; lia) ltac:(repeat constructor; done) ltac:(repeat constructor; simpl; lia)) as H.
  vm_compute in H. destruct H as (b' & _ & _ & _ & Hin). vm_compute. apply Hin.
  do 6 right. left.
Defined.
