(* ===== verification/Body.v ===== *)
(** * Body: the truncating response body

    [src/src/server/util.rs], struct [TruncateBody]: cuts the body of a range
    response after [limit] bytes.  The inner body is a parameter: the results of
    its polls are an argument. *)

From S2P Require Import Prelude.
From stdpp Require Import base list strings numbers.

(** ** Data *)

(** [http_body::Frame]. *)
Inductive frame := Data (b : bytes) | Trailers.

(** [Poll<Option<Result<Frame, E>>>]. *)
Inductive poll (E : Type) :=
| Pending
| End
| FrameOk (f : frame)
| FrameErr (e : E).
Arguments Pending {E}.
Arguments End {E}.
Arguments FrameOk {E} f.
Arguments FrameErr {E} e.

(** [http_body::SizeHint]. *)
Record SizeHint := mkHint { lower : nat; upper : option nat }.

(** [set_exact] and [set_upper]; the latter asserts that the value is not below
    the lower bound. *)
Definition set_exact (v : nat) (h : SizeHint) : SizeHint := mkHint v (Some v).
Definition set_upper (v : nat) (h : SizeHint) : outcome unit SizeHint :=
  if bool_decide (lower h ≤ v) then Ret (mkHint (lower h) (Some v)) else Panic.

(** ** Operations *)

Section truncate.
Context {E : Type}.

(** [TruncateBody::poll_frame] when the inner poll answers [res]: the answer and
    the remaining limit. *)
Definition poll_frame (res : poll E) (limit : nat) : poll E * nat :=
  match res with
  | Pending => (Pending, limit)
  | End => (End, limit)
  | FrameOk f =>
      if bool_decide (limit = 0) then (End, limit)
      else match f with
           | Data data =>
               let len := length data in
               if bool_decide (limit < len) then (FrameOk (Data (take limit data)), 0)
               else (FrameOk f, limit - len)
           | Trailers => (FrameOk f, limit)
           end
  | FrameErr e => (FrameErr e, limit)
  end.

(** [TruncateBody::size_hint] over the inner hint. *)
Definition size_hint (inner : SizeHint) (limit : nat) : outcome unit SizeHint :=
  if bool_decide (limit ≤ lower inner) then Ret (set_exact limit inner)
  else match upper inner with
       | Some mx => set_upper (min limit mx) inner
       | None => set_upper limit inner
       end.

(** A consumer that polls until the end or an error: the answers it sees and
    the inner answers that were consumed. *)
Fixpoint drain (inner : list (poll E)) (limit : nat) : list (poll E) * nat :=
  match inner with
  | [] => ([], limit)
  | res :: r =>
      let (x, limit') := poll_frame res limit in
      match x with
      | End | FrameErr _ => ([x], limit')
      | _ => let (xs, l) := drain r limit' in (x :: xs, l)
      end
  end.

End truncate.

(** ** Vocabulary *)

Definition poll_data {E} (x : poll E) : bytes :=
  match x with FrameOk (Data b) => b | _ => [] end.

(** The data of a stream of inner answers, up to its end or first error. *)
Fixpoint stream_data {E} (inner : list (poll E)) : bytes :=
  match inner with
  | [] => []
  | End :: _ | FrameErr _ :: _ => []
  | x :: r => poll_data x ++ stream_data r
  end.

(** The hint bounds a body of [n] bytes. *)
Definition bounds (h : SizeHint) (n : nat) : Prop :=
  lower h ≤ n ∧ match upper h with Some u => n ≤ u | None => True end.

(** ** Theorems *)

(** What a truncated body delivers. *)
Lemma drain_data {E} (inner : list (poll E)) limit :
  concat (map poll_data (drain inner limit).1) = take limit (stream_data inner).
Proof.
  revert limit. induction inner as [|res inner IH]; intros limit; [by destruct limit|].
  cbn [drain]. destruct res as [| |f|e]; cbn [poll_frame stream_data].
  - specialize (IH limit). destruct (drain inner limit). exact IH.
  - by destruct limit.
  - case_bool_decide as H0; [subst limit; by rewrite take_0|].
    destruct f as [data|].
    + case_bool_decide as Hlt.
      * specialize (IH 0). destruct (drain inner 0) as [xs l]. cbn. cbn in IH. rewrite IH, take_0.
        rewrite app_nil_r, take_app_le by lia. done.
      * specialize (IH (limit - length data)). destruct (drain inner (limit - length data)) as [xs l].
        cbn. cbn in IH. rewrite IH. by rewrite take_app_ge by lia.
    + specialize (IH limit). destruct (drain inner limit). exact IH.
  - by destruct limit.
Qed.

(** A client that reads the truncated body to its end receives exactly the
    first [limit] bytes of the inner body, however the inner body is cut into
    frames and however often it is pending. *)
Theorem truncate_body_data {E} (inner : list (poll E)) limit :
  concat (map poll_data (drain inner limit).1) = take limit (stream_data inner).
Proof. apply drain_data. Qed.

(** The size hint of the truncated body never trips the assertion of
    [set_upper] and bounds what will be delivered, for any inner hint that
    bounds the inner body. *)
Theorem truncate_body_size_hint h n limit :
  bounds h n → ∃ h', size_hint h limit = Ret h' ∧ bounds h' (min limit n).
Proof.
  intros [Hl Hu]. unfold size_hint, set_upper, set_exact, bounds.
  case_bool_decide as H1.
  - eexists. split; [done|]. simpl. lia.
  - destruct (upper h) as [u|].
    + rewrite bool_decide_true by lia. eexists. split; [done|]. simpl. lia.
    + rewrite bool_decide_true by lia. eexists. split; [done|]. simpl. lia.
Qed.

(** ** Witness *)

Lemma truncate_body_size_hint_witness :
  ∃ h', size_hint (mkHint 2 (Some 9)) 4 = Ret h' ∧ bounds h' (min 4 7).
Proof. apply (truncate_body_size_hint (mkHint 2 (Some 9)) 7 4). vm_compute. lia. Defined.
