(* ===== verification/Quic.v ===== *)
(** * Quic: the adapter between the HTTP/3 stack and the QUIC library

    [src/src/server/h3_quinn.rs].  The QUIC library ([quinn]) is third-party: what
    its calls answer is an argument of each operation.  The model keeps what
    the adapter keeps: which side owns a stream handle, the data that waits to
    be written, and the futures in flight; [accepted] records the bytes the
    library took, in order. *)

From S2P Require Import Prelude.
From stdpp Require Import base list strings numbers.

Local Open Scope Z_scope.

(** ** Errors *)

(** [std::task::Poll]. *)
Inductive Poll (A : Type) := Pending | Ready (a : A).
Arguments Pending {A}.
Arguments Ready {A} a.

(** [quinn::ConnectionError]. *)
Inductive ConnectionError :=
| VersionMismatch
| TransportError
| ConnectionClosed
| ApplicationClosed (error_code : Z)
| ConnReset
| TimedOut
| LocallyClosed
| CidsExhausted.

(** [quinn::ReadError] and [quinn::WriteError]. *)
Inductive ReadError :=
| ReadReset (code : Z)
| ReadConnectionLost (e : ConnectionError)
| ReadClosedStream
| IllegalOrderedRead
| ReadZeroRttRejected.
Inductive WriteError :=
| Stopped (code : Z)
| WriteConnectionLost (e : ConnectionError)
| WriteClosedStream
| WriteZeroRttRejected.

(** [h3::quic::ConnectionErrorIncoming]. *)
Inductive ConnectionErrorIncoming :=
| ApplicationClose (error_code : Z)
| Timeout
| InternalError (msg : string)
| Undefined (e : ConnectionError).

(** The errors that are passed on in a box. *)
Inductive boxed :=
| BoxRead (e : ReadError)
| BoxWrite (e : WriteError)
| BoxClosedStream
| BoxStopped.

(** [h3::quic::StreamErrorIncoming]. *)
Inductive StreamErrorIncoming :=
| OnConnection (e : ConnectionErrorIncoming)
| StreamTerminated (error_code : Z)
| Unknown (e : boxed).

Definition convert_connection_error (e : ConnectionError) : ConnectionErrorIncoming :=
  match e with
  | ApplicationClosed error_code => ApplicationClose error_code
  | TimedOut => Timeout
  | VersionMismatch | ConnReset | LocallyClosed | CidsExhausted | TransportError | ConnectionClosed =>
      Undefined e
  end.

(** Panics on [IllegalOrderedRead]. *)
Definition convert_read_error_to_stream_error (e : ReadError) : option StreamErrorIncoming :=
  match e with
  | ReadReset code => Some (StreamTerminated code)
  | ReadConnectionLost e => Some (OnConnection (convert_connection_error e))
  | ReadClosedStream | ReadZeroRttRejected => Some (Unknown (BoxRead e))
  | IllegalOrderedRead => None
  end.

Definition convert_write_error_to_stream_error (e : WriteError) : StreamErrorIncoming :=
  match e with
  | Stopped code => StreamTerminated code
  | WriteConnectionLost e => OnConnection (convert_connection_error e)
  | WriteClosedStream | WriteZeroRttRejected => Unknown (BoxWrite e)
  end.

(** [VarInt::from_u64] fails from 2^62 on. *)
Definition VarInt_MAX : Z := 2 ^ 62 - 1.
Definition VarInt_from_u64 (n : Z) : option Z := if n <=? VarInt_MAX then Some n else None.

(** ** Receiving *)

(** The future of [RecvStream::poll_data]: not set yet (polling it is
    [unreachable!]), running with the stream it owns, or already completed. *)
Inductive read_future := Unset | Running (stream : Z) | Completed.

(** [RecvStream]; a [quinn::RecvStream] is its stream id. *)
Record RecvStream := mkRecv { r_stream : option Z; read_chunk_fut : read_future }.

Definition RecvStream_new (stream : Z) : RecvStream := mkRecv (Some stream) Unset.

(** What polling [read_chunk] answers. *)
Definition read_answer : Type := Poll (option bytes + ReadError).

(** [RecvStream::poll_data]. *)
Definition poll_data (a : read_answer) (r : RecvStream)
    : outcome unit (Poll (option bytes + StreamErrorIncoming)) * RecvStream :=
  let r := match r_stream r with
           | Some stream => mkRecv None (Running stream)
           | None => r
           end in
  match read_chunk_fut r with
  | Running stream =>
      match a with
      | Pending => (Ret Pending, r)
      | Ready chunk =>
          let r := mkRecv (Some stream) Completed in
          match chunk with
          | inl c => (Ret (Ready (inl c)), r)
          | inr e => match convert_read_error_to_stream_error e with
                     | Some e => (Ret (Ready (inr e)), r)
                     | None => (Panic, r)
                     end
          end
      end
  | Unset | Completed => (Panic, r)
  end.

(** [RecvStream::stop_sending]: what is passed to [quinn]. *)
Definition stop_sending (error_code : Z) (r : RecvStream) : outcome unit Z :=
  match r_stream r with
  | None => Panic
  | Some _ => match VarInt_from_u64 error_code with Some v => Ret v | None => Panic end
  end.

(** [RecvStream::recv_id]. *)
Definition recv_id (r : RecvStream) : outcome unit Z :=
  match r_stream r with
  | None => Panic
  | Some num => match VarInt_from_u64 num with Some v => Ret v | None => Panic end
  end.

(** A reader that polls with these answers: what the polls return, up to the
    first panic. *)
Fixpoint poll_datas (l : list read_answer) (r : RecvStream)
    : list (Poll (option bytes + StreamErrorIncoming)) * RecvStream :=
  match l with
  | [] => ([], r)
  | a :: l =>
      match poll_data a r with
      | (Ret x, r) => let (xs, r) := poll_datas l r in (x :: xs, r)
      | (_, r) => ([], r)
      end
  end.

(** ** Sending *)

(** [WriteBuf]: the segments that are left to write. *)
Abbreviation WriteBuf := (list bytes).

Definition remaining (d : WriteBuf) : bytes := concat d.

(** [Buf::chunk]: the first segment that is not empty. *)
Fixpoint chunk (d : WriteBuf) : bytes :=
  match d with
  | [] => []
  | [] :: r => chunk r
  | b :: _ => b
  end.

(** [Buf::advance]. *)
Fixpoint advance (n : nat) (d : WriteBuf) : WriteBuf :=
  match d with
  | [] => []
  | b :: r => if bool_decide (n < length b)%nat then drop n b :: r else advance (n - length b) r
  end.

(** What became of the stream of the library. *)
Record quinn_send := mkQuinn {
  send_stream_id : Z;
  accepted : bytes;             (* the bytes the library took *)
  reset_code : option Z
}.

(** [SendStream]; [stopped] says whether the future of [stopped()] is kept. *)
Record SendStream := mkSend {
  s_stream : quinn_send;
  writing : option WriteBuf;
  stopped : bool
}.

Definition SendStream_new (id : Z) : SendStream := mkSend (mkQuinn id [] None) None false.

(** What polling [poll_write] answers: an error, or how much the library is
    willing to take; it never takes more than it is offered. *)
Definition write_answer : Type := Poll (nat + WriteError).

Definition take_bytes (b : bytes) (q : quinn_send) : quinn_send :=
  mkQuinn (send_stream_id q) (accepted q ++ b) (reset_code q).

(** The loop of [SendStream::poll_ready] on the data; the answers are those of the
    calls of [poll_write], the loop has none left when it must wait. *)
Fixpoint write_all (l : list write_answer) (q : quinn_send) (data : WriteBuf)
    : Poll (unit + StreamErrorIncoming) * quinn_send * WriteBuf :=
  match remaining data with
  | [] => (Ready (inl ()), q, data)
  | _ :: _ =>
      match l with
      | [] | Pending :: _ => (Pending, q, data)
      | Ready (inr e) :: _ => (Ready (inr (convert_write_error_to_stream_error e)), q, data)
      | Ready (inl n) :: l =>
          let written := (n `min` length (chunk data))%nat in
          write_all l (take_bytes (take written (chunk data)) q) (advance written data)
      end
  end.

(** [SendStream::poll_ready]. *)
Definition poll_ready (l : list write_answer) (s : SendStream) : Poll (unit + StreamErrorIncoming) * SendStream :=
  match writing s with
  | Some data =>
      match write_all l (s_stream s) data with
      | (Ready (inl ()), q, _) => (Ready (inl ()), mkSend q None (stopped s))
      | (x, q, data) => (x, mkSend q (Some data) (stopped s))
      end
  | None => (Ready (inl ()), mkSend (s_stream s) None (stopped s))
  end.

(** [SendStream::send_data]. *)
Definition send_data (data : WriteBuf) (s : SendStream) : (unit + StreamErrorIncoming) * SendStream :=
  match writing s with
  | Some _ => (inr (OnConnection (InternalError "internal error in the http stack")), s)
  | None => (inl (), mkSend (s_stream s) (Some data) (stopped s))
  end.

(** [SendStream::poll_finish]; [finish_ok] is the answer of [finish()], and the
    second answer that of the future of [stopped()]. *)
Definition poll_finish (finish_ok : bool) (a : Poll (option Z + unit)) (s : SendStream)
    : Poll (unit + StreamErrorIncoming) * SendStream :=
  let finish := if finish_ok then inl () else inr (Unknown BoxClosedStream) in
  let s := mkSend (s_stream s) (writing s) true in
  match a with
  | Pending => (Pending, s)
  | Ready (inr ()) => (Ready (inr (Unknown BoxStopped)), s)
  | Ready (inl _) => (Ready finish, mkSend (s_stream s) (writing s) false)
  end.

(** [SendStream::reset]. *)
Definition reset (code : Z) (s : SendStream) : SendStream :=
  let v := default VarInt_MAX (VarInt_from_u64 code) in
  mkSend (mkQuinn (send_stream_id (s_stream s)) (accepted (s_stream s)) (Some v)) (writing s) (stopped s).

(** [SendStream::send_id]. *)
Definition send_id (s : SendStream) : outcome unit Z :=
  match VarInt_from_u64 (send_stream_id (s_stream s)) with Some v => Ret v | None => Panic end.

(** [SendStreamUnframed::poll_send]: the second result is the caller's buffer. *)
Definition poll_send (a : write_answer) (buf : WriteBuf) (s : SendStream)
    : outcome unit (Poll (nat + StreamErrorIncoming)) * WriteBuf * SendStream :=
  match writing s with
  | Some _ => (Panic, buf, s)
  | None =>
      match a with
      | Pending => (Ret Pending, buf, s)
      | Ready (inl n) =>
          let written := (n `min` length (chunk buf))%nat in
          (Ret (Ready (inl written)), advance written buf,
           mkSend (take_bytes (take written (chunk buf)) (s_stream s)) None (stopped s))
      | Ready (inr e) => (Ret (Ready (inr (convert_write_error_to_stream_error e))), buf, s)
      end
  end.

(** ** Connections *)

(** A stream made by [stream::unfold] whose step never ends it: between polls a
    future may be in flight. *)
Inductive unfold_stream := Idle | InFlight.

Definition poll_next_unpin {A} (a : Poll A) (u : unfold_stream) : Poll (option A) * unfold_stream :=
  match a with
  | Pending => (Pending, InFlight)
  | Ready x => (Ready (Some x), Idle)
  end.

(** [BidiStream] with [split]. *)
Record BidiStream := mkBidi { b_send : SendStream; b_recv : RecvStream }.

Definition split (b : BidiStream) : SendStream * RecvStream := (b_send b, b_recv b).

(** [Connection]; its [OpenStreams] part is also the state of an opener. *)
Record OpenStreams := mkOpen { opening_bi : option unfold_stream; opening_uni : option unfold_stream }.
Record Connection := mkConn {
  incoming_bi : unfold_stream;
  incoming_uni : unfold_stream;
  opener_part : OpenStreams
}.

Definition Connection_new : Connection := mkConn Idle Idle (mkOpen None None).

(** [Connection::opener] and [OpenStreams::clone]. *)
Definition opener (c : Connection) : OpenStreams := mkOpen None None.
Definition OpenStreams_clone (o : OpenStreams) : OpenStreams := mkOpen None None.

(** [poll_accept_bidi]: a pair of stream ids, or an error. *)
Definition poll_accept_bidi (a : Poll (Z * Z + ConnectionError)) (c : Connection)
    : outcome unit (Poll (BidiStream + ConnectionErrorIncoming)) * Connection :=
  let (x, u) := poll_next_unpin a (incoming_bi c) in
  let c := mkConn u (incoming_uni c) (opener_part c) in
  match x with
  | Pending => (Ret Pending, c)
  | Ready None => (Panic, c)
  | Ready (Some (inl (send, recv))) =>
      (Ret (Ready (inl (mkBidi (SendStream_new send) (RecvStream_new recv)))), c)
  | Ready (Some (inr e)) => (Ret (Ready (inr (convert_connection_error e))), c)
  end.

(** [poll_accept_recv]. *)
Definition poll_accept_recv (a : Poll (Z + ConnectionError)) (c : Connection)
    : outcome unit (Poll (RecvStream + ConnectionErrorIncoming)) * Connection :=
  let (x, u) := poll_next_unpin a (incoming_uni c) in
  let c := mkConn (incoming_bi c) u (opener_part c) in
  match x with
  | Pending => (Ret Pending, c)
  | Ready None => (Panic, c)
  | Ready (Some (inl recv)) => (Ret (Ready (inl (RecvStream_new recv))), c)
  | Ready (Some (inr e)) => (Ret (Ready (inr (convert_connection_error e))), c)
  end.

(** [poll_open_bidi] and [poll_open_send], of a connection and of an opener. *)
Definition poll_open_bidi (a : Poll (Z * Z + ConnectionError)) (o : OpenStreams)
    : outcome unit (Poll (BidiStream + StreamErrorIncoming)) * OpenStreams :=
  let bi := default Idle (opening_bi o) in
  let (x, u) := poll_next_unpin a bi in
  let o := mkOpen (Some u) (opening_uni o) in
  match x with
  | Pending => (Ret Pending, o)
  | Ready None => (Panic, o)
  | Ready (Some (inl (send, recv))) =>
      (Ret (Ready (inl (mkBidi (SendStream_new send) (RecvStream_new recv)))), o)
  | Ready (Some (inr e)) => (Ret (Ready (inr (OnConnection (convert_connection_error e)))), o)
  end.

Definition poll_open_send (a : Poll (Z + ConnectionError)) (o : OpenStreams)
    : outcome unit (Poll (SendStream + StreamErrorIncoming)) * OpenStreams :=
  let uni := default Idle (opening_uni o) in
  let (x, u) := poll_next_unpin a uni in
  let o := mkOpen (opening_bi o) (Some u) in
  match x with
  | Pending => (Ret Pending, o)
  | Ready None => (Panic, o)
  | Ready (Some (inl send)) => (Ret (Ready (inl (SendStream_new send))), o)
  | Ready (Some (inr e)) => (Ret (Ready (inr (OnConnection (convert_connection_error e)))), o)
  end.

(** [close]: the code passed to the library. *)
Definition close (code : Z) : outcome unit Z :=
  match VarInt_from_u64 code with Some v => Ret v | None => Panic end.

(** ** Specification of a send stream

    A FIFO of bytes: what was submitted comes out in order, without loss. *)

(** An operation on the sending half, with what the library answers. *)
Inductive send_op :=
| OpSend (data : WriteBuf)
| OpReady (l : list write_answer)
| OpUnframed (a : write_answer) (buf : WriteBuf)
| OpFinish (finish_ok : bool) (a : Poll (option Z + unit))
| OpReset (code : Z).

(** The state after an operation and the bytes it submitted; [None] is a panic. *)
Definition run_op (o : send_op) (s : SendStream) : option (bytes * SendStream) :=
  match o with
  | OpSend data =>
      match send_data data s with
      | (inl _, s) => Some (remaining data, s)
      | (inr _, s) => Some ([], s)
      end
  | OpReady l => Some ([], (poll_ready l s).2)
  | OpUnframed a buf =>
      match poll_send a buf s with
      | (Ret (Ready (inl n)), _, s) => Some (take n (remaining buf), s)
      | (Ret _, _, s) => Some ([], s)
      | (_, _, _) => None
      end
  | OpFinish ok a => Some ([], (poll_finish ok a s).2)
  | OpReset code => Some ([], reset code s)
  end.

Fixpoint run_ops (l : list send_op) (s : SendStream) : option (bytes * SendStream) :=
  match l with
  | [] => Some ([], s)
  | o :: l =>
      '(b, s) ← run_op o s;
      '(b', s) ← run_ops l s;
      Some (b ++ b', s)
  end.

(** What is accepted and still to write. *)
Definition waiting (s : SendStream) : bytes := match writing s with Some d => remaining d | None => [] end.
Definition queued (s : SendStream) : bytes := accepted (s_stream s) ++ waiting s.

(** ** Lemmas *)

Lemma chunk_prefix d : ∃ r, remaining d = chunk d ++ r.
Proof.
  induction d as [|[|x b] d IH]; [by exists []|exact IH|]. by exists (concat d).
Qed.

Lemma chunk_nonempty d : remaining d ≠ [] → chunk d ≠ [].
Proof. induction d as [|[|x b] d IH]; [done|exact IH|done]. Qed.

Lemma advance_remaining n d : remaining (advance n d) = drop n (remaining d).
Proof.
  revert n. induction d as [|b d IH]; intros n; [by destruct n|]. cbn [advance].
  unfold remaining in *. case_bool_decide as Hn; cbn [concat].
  - by rewrite drop_app_le by lia.
  - rewrite IH, drop_app_ge by lia. done.
Qed.

(** Writing moves bytes from the front of the data to the library. *)
Lemma write_step n q d :
  (n ≤ length (chunk d))%nat →
  accepted (take_bytes (take n (chunk d)) q) ++ remaining (advance n d) = accepted q ++ remaining d.
Proof.
  intros Hn. cbn. rewrite advance_remaining, <- (assoc_L (++)). f_equal.
  destruct (chunk_prefix d) as [r ->]. rewrite drop_app_le by done.
  by rewrite (assoc_L (++)), take_drop.
Qed.

Lemma write_all_queued l q d :
  let '(x, q', d') := write_all l q d in
  accepted q' ++ remaining d' = accepted q ++ remaining d ∧
  (x = Ready (inl ()) → remaining d' = []).
Proof.
  revert q d. induction l as [|a l IH]; intros q d; cbn [write_all]; destruct (remaining d) as [|y b] eqn:E.
  1-3: try (split; [by rewrite E|done]); by rewrite E.
  destruct a as [|[n|e]]; [by rewrite E| |by rewrite E].
  specialize (IH (take_bytes (take (n `min` length (chunk d)) (chunk d)) q) (advance (n `min` length (chunk d)) d)).
  destruct (write_all _ _ _) as [[x q'] d']. destruct IH as [IH1 IH2]. split; [|done].
  rewrite IH1, write_step by lia. by rewrite E.
Qed.

(** Enough willing answers write everything. *)
Lemma write_all_done l q d :
  Forall (λ a, ∃ n, a = Ready (inl n) ∧ (0 < n)%nat) l → (length (remaining d) ≤ length l)%nat →
  (write_all l q d).1.1 = Ready (inl ()).
Proof.
  revert q d. induction l as [|a l IH]; intros q d Hl Hlen; cbn [write_all]; destruct (remaining d) as [|y b] eqn:E; try done.
  { cbn in Hlen. lia. }
  apply Forall_cons_1 in Hl as [(n & -> & Hn) Hl]. apply IH; [done|].
  assert (chunk d ≠ []) as Hc by (apply chunk_nonempty; by rewrite E).
  rewrite advance_remaining, E, length_drop. destruct (chunk d) as [|z c]; [done|]. cbn in *. lia.
Qed.

Lemma run_op_queued o s b s' : run_op o s = Some (b, s') → queued s' = queued s ++ b.
Proof.
  destruct o as [d|l|a buf|ok a|code]; cbn [run_op]; intros E.
  - unfold send_data in E. destruct (writing s) as [d0|] eqn:Ew; simplify_eq; [by rewrite app_nil_r|].
    unfold queued, waiting. cbn. rewrite Ew. by rewrite app_nil_r.
  - simplify_eq. rewrite app_nil_r. unfold poll_ready, queued, waiting.
    destruct (writing s) as [d|] eqn:Ew; [|done].
    pose proof (write_all_queued l (s_stream s) d) as H. destruct (write_all _ _ _) as [[x q'] d'].
    destruct H as [H1 H2]. destruct x as [|[[]|e]]; cbn; try done.
    rewrite <- H1. by rewrite H2.
  - unfold poll_send in E. destruct (writing s) eqn:Ew; [done|].
    destruct a as [|[n|e]]; simplify_eq; try by rewrite app_nil_r.
    unfold queued, waiting. cbn. rewrite Ew, !app_nil_r. f_equal.
    destruct (chunk_prefix buf) as [r ->]. by rewrite take_app_le by lia.
  - simplify_eq. rewrite app_nil_r. unfold poll_finish, queued, waiting. by destruct a as [|[?|[]]].
  - simplify_eq. by rewrite app_nil_r.
Qed.

Lemma run_ops_queued l s b s' : run_ops l s = Some (b, s') → queued s' = queued s ++ b.
Proof.
  revert s b. induction l as [|o l IH]; intros s b E; cbn in E; [simplify_eq; by rewrite app_nil_r|].
  destruct (run_op o s) as [[b1 s1]|] eqn:E1; [|done]. cbn in E.
  destruct (run_ops l s1) as [[b2 s2]|] eqn:E2; [|done]. cbn in E. simplify_eq.
  rewrite (IH _ _ E2), (run_op_queued _ _ _ _ E1). by rewrite (assoc_L (++)).
Qed.

(** The handle of a receive stream is either held or owned by a running read. *)
Definition recv_ok (id : Z) (pending : bool) (r : RecvStream) : Prop :=
  if pending then r = mkRecv None (Running id) else r_stream r = Some id.

(** What the caller of [poll_data] sees for an answer of the library. *)
Definition read_result (a : read_answer) (x : Poll (option bytes + StreamErrorIncoming)) : Prop :=
  match a with
  | Pending => x = Pending
  | Ready (inl c) => x = Ready (inl c)
  | Ready (inr e) => ∃ e', convert_read_error_to_stream_error e = Some e' ∧ x = Ready (inr e')
  end.

Definition is_pending {A} (a : Poll A) : bool := match a with Pending => true | _ => false end.

Lemma poll_data_ok id p a r :
  recv_ok id p r → a ≠ Ready (inr IllegalOrderedRead) →
  ∃ x r', poll_data a r = (Ret x, r') ∧ read_result a x ∧ recv_ok id (is_pending a) r'.
Proof.
  intros Hr Ha. unfold poll_data.
  assert (match r_stream r with Some stream => mkRecv None (Running stream) | None => r end =
    mkRecv None (Running id)) as ->.
  { destruct p; cbn in Hr; [by subst r|]. by rewrite Hr. }
  cbn [read_chunk_fut]. destruct a as [|[c|e]]; [by eexists _, _|by eexists _, _|].
  destruct e; cbn; try done; eexists _, _; (split; [done|]); (split; [eexists; split; done|done]).
Qed.

(** ** Theorems *)

(** C21: The sending half is a FIFO: whatever the library answers and however the
    calls are interleaved, the bytes it has accepted followed by those that
    wait are exactly the bytes submitted, in order; when [poll_ready] reports
    success everything submitted was accepted, and it does so once the library
    takes at least one byte per call. *)
Theorem send_stream_fifo id ops b s l :
  run_ops ops (SendStream_new id) = Some (b, s) →
  accepted (s_stream s) ++ waiting s = b ∧
  ((poll_ready l s).1 = Ready (inl ()) →
   accepted (s_stream (poll_ready l s).2) = b ∧ writing (poll_ready l s).2 = None) ∧
  (Forall (λ a, ∃ n, a = Ready (inl n) ∧ (0 < n)%nat) l → (length (waiting s) ≤ length l)%nat →
   (poll_ready l s).1 = Ready (inl ())).
Proof.
  intros E. pose proof (run_ops_queued _ _ _ _ E) as Hq. cbn in Hq. split; [exact Hq|].
  unfold queued, waiting in *. unfold poll_ready. destruct (writing s) as [d|].
  - pose proof (write_all_queued l (s_stream s) d) as H.
    pose proof (write_all_done l (s_stream s) d) as Hd.
    destruct (write_all l (s_stream s) d) as [[x q] d']. destruct H as [H1 H2]. cbn in Hd.
    split.
    + destruct x as [|[[]|e]]; try done. intros _. cbn. split; [|done].
      rewrite H2, app_nil_r in H1 by done. by rewrite H1.
    + intros Hl Hn. rewrite (Hd Hl Hn). done.
  - split; [|done]. intros _. cbn. by rewrite app_nil_r in Hq.
Qed.

(** The receiving half: every answer of the library is passed on once and in
    order, errors converted; and the stream's identifier and [stop_sending] are
    usable exactly when no read is pending: after a pending poll both panic. *)
Theorem recv_stream_delivers id l code :
  id ≤ VarInt_MAX → code ≤ VarInt_MAX →
  Forall (λ a, a ≠ Ready (inr IllegalOrderedRead)) l →
  let '(xs, r) := poll_datas l (RecvStream_new id) in
  Forall2 read_result l xs ∧
  (list.last l = Some Pending → recv_id r = Panic ∧ stop_sending code r = Panic) ∧
  (list.last l ≠ Some Pending → recv_id r = Ret id ∧ stop_sending code r = Ret code).
Proof.
  intros Hid Hcode Hl.
  assert (∀ l p r, recv_ok id p r → Forall (λ a, a ≠ Ready (inr IllegalOrderedRead)) l →
    let '(xs, r') := poll_datas l r in
    Forall2 read_result l xs ∧ recv_ok id (match list.last l with Some a => is_pending a | None => p end) r') as Hgen.
  { clear. induction l as [|a l IH]; intros p r Hr Hl; [by split|].
    apply Forall_cons_1 in Hl as [Ha Hl].
    destruct (poll_data_ok id p a r Hr Ha) as (x & r1 & E & Hx & Hr1). cbn [poll_datas]. rewrite E.
    specialize (IH (is_pending a) r1 Hr1 Hl). destruct (poll_datas l r1) as [xs r']. destruct IH as [I1 I2].
    split; [by constructor|]. destruct l as [|a' l]; [exact I2|]. rewrite last_cons_cons. destruct (list.last (a' :: l)) eqn:El; [exact I2|].
    by apply last_None in El. }
  specialize (Hgen l false (RecvStream_new id) eq_refl Hl).
  destruct (poll_datas l (RecvStream_new id)) as [xs r]. destruct Hgen as [H1 H2]. split; [done|].
  unfold recv_id, stop_sending, VarInt_from_u64. rewrite (proj2 (Z.leb_le code _)) by lia. split.
  - intros El. rewrite El in H2. cbn in H2. subst r. done.
  - intros El. assert (recv_ok id false r) as Hr.
    { destruct (list.last l) as [[|a]|]; [done|exact H2|exact H2]. }
    cbn in Hr. rewrite Hr. by rewrite (proj2 (Z.leb_le id _)) by lia.
Qed.

(** Polling [poll_finish] until it is ready. *)
Fixpoint finish_polls (l : list (bool * Poll (option Z + unit))) (s : SendStream)
    : Poll (unit + StreamErrorIncoming) :=
  match l with
  | [] => Pending
  | (ok, a) :: l =>
      match poll_finish ok a s with
      | (Pending, s) => finish_polls l s
      | (x, _) => x
      end
  end.

(** [finish] succeeds on the first call; the library documents that it fails on
    a stream that was finished before. *)
Definition finish_answers (l : list (Poll (option Z + unit))) : list (bool * Poll (option Z + unit)) :=
  match l with
  | [] => []
  | a :: l => (true, a) :: ((λ a, (false, a)) <$> l)
  end.

(** [poll_finish] calls [finish] at every poll.  It becomes ready only when the
    peer has acknowledged everything or stopped, but unless that is so at the
    first poll it then reports a closed stream, although nothing went wrong. *)
Theorem poll_finish_reports_closed k code l s :
  finish_polls (finish_answers (replicate k Pending)) s = Pending ∧
  finish_polls (finish_answers (replicate k Pending ++ Ready (inl code) :: l)) s =
    Ready (if bool_decide (k = 0%nat) then inl () else inr (Unknown BoxClosedStream)).
Proof.
  assert (∀ k l s, finish_polls ((λ a, (false, a)) <$> (replicate k Pending ++ l)) s =
    finish_polls ((λ a, (false, a)) <$> l) (match k with O => s | _ => mkSend (s_stream s) (writing s) true end)) as Hrep.
  { clear. induction k as [|k IH]; intros l s; [done|]. cbn. rewrite IH. by destruct k. }
  destruct k as [|k]; [done|]. cbn. split.
  - pose proof (Hrep k [] (mkSend (s_stream s) (writing s) true)) as E. rewrite app_nil_r in E. rewrite E. by destruct k.
  - rewrite Hrep. by destruct k.
Qed.

(** ** Witnesses *)

Lemma send_stream_fifo_witness :
  ∃ s, run_ops [OpSend [as_bytes "ab"; as_bytes "c"]; OpReady [Ready (inl 1%nat)]] (SendStream_new 4) =
    Some (as_bytes "abc", s) ∧ accepted (s_stream s) ++ waiting s = as_bytes "abc".
Proof.
  eexists. split; [vm_compute; reflexivity|].
  refine (proj1 (send_stream_fifo 4 [OpSend [as_bytes "ab"; as_bytes "c"]; OpReady [Ready (inl 1%nat)]] _ _ [] _)).
  vm_compute; reflexivity.
Defined.

Lemma recv_stream_delivers_witness :
  let '(xs, r) := poll_datas [Ready (inl (Some (as_bytes "x"))); Pending] (RecvStream_new 4) in
  recv_id r = Panic ∧ stop_sending 0 r = Panic.
Proof.
  pose proof (recv_stream_delivers 4 [Ready (inl (Some (as_bytes "x"))); Pending] 0
    ltac:(vm_compute; discriminate) ltac:(vm_compute; discriminate)
    ltac:(repeat constructor; discriminate)) as H.
  destruct (poll_datas _ _) as [xs r]. destruct H as (_ & H & _). by apply H.
Defined.
