(* ===== verification/QuicTraits.v ===== *)
(** * QuicTraits: the traits of the HTTP/3 library and who implements them

    [src/src/server/h3_quinn.rs]: the traits [quic::SendStream], [quic::RecvStream]
    and [quic::OpenStreams] as classes, with the instances of the adapter: a half
    and a [BidiStream] that passes every call on to one of its halves, an opener and
    a [Connection] with an opener of its own.  A client that is written against the
    traits cannot tell a bidirectional stream from its two halves. *)

From S2P Require Import Prelude Quic.
From stdpp Require Import base list strings numbers.

Local Open Scope Z_scope.

(** ** The traits *)

Class SendTrait (T : Type) := {
  t_poll_ready : list write_answer → T → Poll (unit + StreamErrorIncoming) * T;
  t_send_data : WriteBuf → T → (unit + StreamErrorIncoming) * T;
  t_poll_finish : bool → Poll (option Z + unit) → T → Poll (unit + StreamErrorIncoming) * T;
  t_reset : Z → T → T;
  t_send_id : T → outcome unit Z;
  t_poll_send : write_answer → WriteBuf → T → outcome unit (Poll (nat + StreamErrorIncoming)) * WriteBuf * T
}.

Class RecvTrait (T : Type) := {
  t_poll_data : read_answer → T → outcome unit (Poll (option bytes + StreamErrorIncoming)) * T;
  t_stop_sending : Z → T → outcome unit Z;
  t_recv_id : T → outcome unit Z
}.

Class OpenTrait (T : Type) := {
  t_poll_open_bidi : Poll (Z * Z + ConnectionError) → T → outcome unit (Poll (BidiStream + StreamErrorIncoming)) * T;
  t_poll_open_send : Poll (Z + ConnectionError) → T → outcome unit (Poll (SendStream + StreamErrorIncoming)) * T;
  t_close : Z → T → outcome unit Z
}.

(** ** The halves *)

#[export] Instance SendStream_send : SendTrait SendStream := {
  t_poll_ready := poll_ready;
  t_send_data := send_data;
  t_poll_finish := poll_finish;
  t_reset := reset;
  t_send_id := send_id;
  t_poll_send := poll_send
}.

#[export] Instance RecvStream_recv : RecvTrait RecvStream := {
  t_poll_data := poll_data;
  t_stop_sending := stop_sending;
  t_recv_id := recv_id
}.

(** ** The bidirectional stream *)

Definition on_send {A} (r : A * SendStream) (b : BidiStream) : A * BidiStream := (r.1, mkBidi r.2 (b_recv b)).
Definition on_recv {A} (r : A * RecvStream) (b : BidiStream) : A * BidiStream := (r.1, mkBidi (b_send b) r.2).

Definition bidi_poll_data (a : read_answer) (b : BidiStream) := on_recv (poll_data a (b_recv b)) b.
Definition bidi_stop_sending (code : Z) (b : BidiStream) : outcome unit Z := stop_sending code (b_recv b).
Definition bidi_recv_id (b : BidiStream) : outcome unit Z := recv_id (b_recv b).
Definition bidi_poll_ready (l : list write_answer) (b : BidiStream) := on_send (poll_ready l (b_send b)) b.
Definition bidi_poll_finish (ok : bool) (a : Poll (option Z + unit)) (b : BidiStream) := on_send (poll_finish ok a (b_send b)) b.
Definition bidi_reset (code : Z) (b : BidiStream) : BidiStream := mkBidi (reset code (b_send b)) (b_recv b).
Definition bidi_send_data (data : WriteBuf) (b : BidiStream) := on_send (send_data data (b_send b)) b.
Definition bidi_send_id (b : BidiStream) : outcome unit Z := send_id (b_send b).
Definition bidi_poll_send (a : write_answer) (buf : WriteBuf) (b : BidiStream) := on_send (poll_send a buf (b_send b)) b.

#[export] Instance BidiStream_send : SendTrait BidiStream := {
  t_poll_ready := bidi_poll_ready;
  t_send_data := bidi_send_data;
  t_poll_finish := bidi_poll_finish;
  t_reset := bidi_reset;
  t_send_id := bidi_send_id;
  t_poll_send := bidi_poll_send
}.

#[export] Instance BidiStream_recv : RecvTrait BidiStream := {
  t_poll_data := bidi_poll_data;
  t_stop_sending := bidi_stop_sending;
  t_recv_id := bidi_recv_id
}.

(** ** Openers *)

#[export] Instance OpenStreams_open : OpenTrait OpenStreams := {
  t_poll_open_bidi := poll_open_bidi;
  t_poll_open_send := poll_open_send;
  t_close code _ := close code
}.

(** A [Connection] opens streams with fields of its own. *)
Definition on_opener {A} (r : A * OpenStreams) (c : Connection) : A * Connection :=
  (r.1, mkConn (incoming_bi c) (incoming_uni c) r.2).

Definition conn_poll_open_bidi (a : Poll (Z * Z + ConnectionError)) (c : Connection) :=
  on_opener (poll_open_bidi a (opener_part c)) c.
Definition conn_poll_open_send (a : Poll (Z + ConnectionError)) (c : Connection) :=
  on_opener (poll_open_send a (opener_part c)) c.
Definition conn_close (code : Z) (c : Connection) : outcome unit Z := close code.

#[export] Instance Connection_open : OpenTrait Connection := {
  t_poll_open_bidi := conn_poll_open_bidi;
  t_poll_open_send := conn_poll_open_send;
  t_close := conn_close
}.

(** ** Clients of the traits *)

Inductive send_call :=
| CReady (l : list write_answer)
| CSend (data : WriteBuf)
| CFinish (ok : bool) (a : Poll (option Z + unit))
| CReset (code : Z)
| CSendId
| CUnframed (a : write_answer) (buf : WriteBuf).
Inductive recv_call := CData (a : read_answer) | CStop (code : Z) | CRecvId.

(** What a call returns. *)
Inductive seen :=
| SPoll (r : Poll (unit + StreamErrorIncoming))
| SResult (r : unit + StreamErrorIncoming)
| SUnframed (r : outcome unit (Poll (nat + StreamErrorIncoming))) (buf : WriteBuf)
| SData (r : outcome unit (Poll (option bytes + StreamErrorIncoming)))
| SCode (r : outcome unit Z)
| SNothing.

Section client.
Context {T : Type} `{SendTrait T}.

Definition call_send (o : send_call) (s : T) : seen * T :=
  match o with
  | CReady l => let (r, s) := t_poll_ready l s in (SPoll r, s)
  | CSend data => let (r, s) := t_send_data data s in (SResult r, s)
  | CFinish ok a => let (r, s) := t_poll_finish ok a s in (SPoll r, s)
  | CReset code => (SNothing, t_reset code s)
  | CSendId => (SCode (t_send_id s), s)
  | CUnframed a buf => let '(r, buf, s) := t_poll_send a buf s in (SUnframed r buf, s)
  end.

End client.

Definition call_recv {T} `{RecvTrait T} (o : recv_call) (r : T) : seen * T :=
  match o with
  | CData a => let (x, r) := t_poll_data a r in (SData x, r)
  | CStop code => (SCode (t_stop_sending code r), r)
  | CRecvId => (SCode (t_recv_id r), r)
  end.

(** Calls of both directions in some order. *)
Definition duplex_call : Type := send_call + recv_call.

Definition call {T} `{SendTrait T, RecvTrait T} (o : duplex_call) (s : T) : seen * T :=
  match o with inl o => call_send o s | inr o => call_recv o s end.

(** The run of a client: the state is folded, the results are collected. *)
Fixpoint run_calls {S O} (f : O → S → seen * S) (l : list O) (s : S) : list seen * S :=
  match l with
  | [] => ([], s)
  | o :: l => let (x, s) := f o s in let (xs, s) := run_calls f l s in (x :: xs, s)
  end.

Definition sends (l : list duplex_call) : list send_call := omap (λ o, match o with inl o => Some o | inr _ => None end) l.
Definition recvs (l : list duplex_call) : list recv_call := omap (λ o, match o with inr o => Some o | inl _ => None end) l.

(** The results of the calls of one direction. *)
Fixpoint results_of (sending : bool) (l : list duplex_call) (xs : list seen) : list seen :=
  match l, xs with
  | o :: l, x :: xs =>
      (if match o with inl _ => sending | inr _ => negb sending end then [x] else []) ++ results_of sending l xs
  | _, _ => []
  end.

(** ** Lemmas *)

Lemma call_send_bidi o b :
  call (inl o) b = ((call_send o (b_send b)).1, mkBidi (call_send o (b_send b)).2 (b_recv b)).
Proof.
  destruct b as [s r]. destruct o as [l|data|ok a|code| |a buf]; cbn; try reflexivity.
  - unfold bidi_poll_ready, on_send. cbn. by destruct (poll_ready l s).
  - unfold bidi_send_data, on_send. cbn. by destruct (send_data data s).
  - unfold bidi_poll_finish, on_send. cbn. by destruct a as [|[|[]]].
  - unfold bidi_poll_send, on_send. cbn. by destruct (poll_send a buf s) as [[? ?] ?].
Qed.

Lemma call_recv_bidi o b :
  call (inr o) b = ((call_recv o (b_recv b)).1, mkBidi (b_send b) (call_recv o (b_recv b)).2).
Proof.
  destruct b as [s r]. destruct o as [a|code|]; cbn; try reflexivity.
  unfold bidi_poll_data, on_recv. cbn. by destruct (poll_data a r).
Qed.

Lemma run_calls_cons {S O} (f : O → S → seen * S) o l s :
  run_calls f (o :: l) s = ((f o s).1 :: (run_calls f l (f o s).2).1, (run_calls f l (f o s).2).2).
Proof. cbn. destruct (f o s) as [x s']. cbn. by destruct (run_calls f l s'). Qed.

Lemma run_calls_bidi l b :
  (run_calls call l b).2 = mkBidi (run_calls call_send (sends l) (b_send b)).2 (run_calls call_recv (recvs l) (b_recv b)).2 ∧
  results_of true l (run_calls call l b).1 = (run_calls call_send (sends l) (b_send b)).1 ∧
  results_of false l (run_calls call l b).1 = (run_calls call_recv (recvs l) (b_recv b)).1.
Proof.
  revert b. induction l as [|[o|o] l IH]; intros b; [by destruct b| |].
  - rewrite run_calls_cons, call_send_bidi. cbn [fst snd sends recvs omap list_omap].
    destruct (IH (mkBidi (call_send o (b_send b)).2 (b_recv b))) as (E1 & E2 & E3). cbn [b_send b_recv] in *.
    rewrite run_calls_cons. cbn [fst snd results_of app negb]. by rewrite E1, E2, E3.
  - rewrite run_calls_cons, call_recv_bidi. cbn [fst snd sends recvs omap list_omap].
    destruct (IH (mkBidi (b_send b) (call_recv o (b_recv b)).2)) as (E1 & E2 & E3). cbn [b_send b_recv] in *.
    rewrite run_calls_cons. cbn [fst snd results_of app negb]. by rewrite E1, E2, E3.
Qed.

(** ** Theorems *)

(** A bidirectional stream is its two halves: whatever calls a client of the
    traits makes, in whatever order the two directions are mixed, each direction
    sees the results it would see on its half alone, and [split] yields the halves
    in the states they would then have. *)
Theorem bidi_is_its_halves l b :
  results_of true l (run_calls call l b).1 = (run_calls call_send (sends l) (b_send b)).1 ∧
  results_of false l (run_calls call l b).1 = (run_calls call_recv (recvs l) (b_recv b)).1 ∧
  Quic.split (run_calls call l b).2 = ((run_calls call_send (sends l) (b_send b)).2, (run_calls call_recv (recvs l) (b_recv b)).2).
Proof. destruct (run_calls_bidi l b) as (E1 & E2 & E3). by rewrite E1. Qed.

(** A connection and its opener open streams alike, and opening does not disturb
    accepting. *)
Theorem connection_opens a au c :
  let '(x, c') := t_poll_open_bidi a c in
  (x, opener_part c') = t_poll_open_bidi a (opener_part c) ∧
  incoming_bi c' = incoming_bi c ∧ incoming_uni c' = incoming_uni c ∧
  (t_poll_open_send au c').1 = (t_poll_open_send au (opener_part c)).1 ∧
  x ≠ Panic ∧ (t_poll_open_send au c').1 ≠ Panic.
Proof.
  cbn. unfold conn_poll_open_bidi, conn_poll_open_send, on_opener. cbn.
  destruct a as [|[[send recv]|e]]; cbn; (split_and!; [done..| | |]); destruct au as [|[id|e']]; cbn; done.
Qed.
