(* ===== verification/Config.v ===== *)
(** * Config: what the program tells the TLS, QUIC and HTTP libraries

    [src/src/util.rs]: [ssl_provider] and [create_http_client];
    [src/src/server/mod.rs]: [create_ssl_config], [create_quic_config], the HTTP/1
    builder of [Server::new] and [bind].  A configuration is the record of the values
    the code sets; what the libraries do with it is theirs, except for the
    documented rule by which a server that ignores the client's order chooses a
    cipher suite. *)

From S2P Require Import Prelude.
From stdpp Require Import base list strings numbers.

Local Open Scope Z_scope.

(** ** Cipher suites *)

Inductive suite :=
| TLS13_AES_128_GCM_SHA256
| TLS13_AES_256_GCM_SHA384
| TLS13_CHACHA20_POLY1305_SHA256
| TLS_ECDHE_ECDSA_WITH_AES_128_GCM_SHA256
| TLS_ECDHE_ECDSA_WITH_AES_256_GCM_SHA384
| TLS_ECDHE_ECDSA_WITH_CHACHA20_POLY1305_SHA256
| TLS_ECDHE_RSA_WITH_AES_128_GCM_SHA256
| TLS_ECDHE_RSA_WITH_AES_256_GCM_SHA384
| TLS_ECDHE_RSA_WITH_CHACHA20_POLY1305_SHA256.

#[export] Instance suite_eq_dec : EqDecision suite.
Proof. solve_decision. Defined.

(** [ssl_provider]; [aes] is [aes_support()]. *)
Definition ssl_provider (aes : bool) : list suite :=
  if aes then
    [TLS13_AES_128_GCM_SHA256; TLS13_AES_256_GCM_SHA384; TLS13_CHACHA20_POLY1305_SHA256;
     TLS_ECDHE_ECDSA_WITH_AES_128_GCM_SHA256; TLS_ECDHE_ECDSA_WITH_AES_256_GCM_SHA384;
     TLS_ECDHE_ECDSA_WITH_CHACHA20_POLY1305_SHA256;
     TLS_ECDHE_RSA_WITH_AES_128_GCM_SHA256; TLS_ECDHE_RSA_WITH_AES_256_GCM_SHA384;
     TLS_ECDHE_RSA_WITH_CHACHA20_POLY1305_SHA256]
  else
    [TLS13_CHACHA20_POLY1305_SHA256; TLS13_AES_128_GCM_SHA256; TLS13_AES_256_GCM_SHA384;
     TLS_ECDHE_ECDSA_WITH_CHACHA20_POLY1305_SHA256; TLS_ECDHE_ECDSA_WITH_AES_128_GCM_SHA256;
     TLS_ECDHE_ECDSA_WITH_AES_256_GCM_SHA384;
     TLS_ECDHE_RSA_WITH_CHACHA20_POLY1305_SHA256; TLS_ECDHE_RSA_WITH_AES_128_GCM_SHA256;
     TLS_ECDHE_RSA_WITH_AES_256_GCM_SHA384].

(** ** Server configurations *)

Inductive version := TLS12 | TLS13.

(** [rustls::ServerConfig], the fields that are set. *)
Record ServerConfig := mkServerConfig {
  cipher_suites : list suite;
  versions : list version;
  ignore_client_order : bool;
  prioritize_chacha : bool;
  session_cache : option Z;          (* [None]: [NoServerSessionStorage] *)
  ticketer : bool;
  send_tls13_tickets : Z;
  compression_cache : Z;
  alpn_protocols : list string;
  max_early_data_size : Z;           (* u32 *)
  send_half_rtt_data : bool
}.

(** [create_ssl_config]. *)
Definition create_ssl_config (aes : bool) : ServerConfig :=
  mkServerConfig (ssl_provider aes) [TLS12; TLS13] true aes None true 1 2 [] 0 false.

(** [create_quic_config]: the TLS part ... *)
Definition quic_ssl_config (aes : bool) : ServerConfig :=
  mkServerConfig (ssl_provider aes) [TLS13] true aes (Some 65536) false 1 2 ["h3"] u32_max true.

(** ... and the transport; times in seconds. *)
Record QuicConfig := mkQuicConfig {
  q_ssl : ServerConfig;
  send_fairness : bool;
  send_window : Z;
  max_idle_timeout : Z;
  token_lifetime : Z;
  token_log : Z * Z;
  tokens_sent : Z;
  max_incoming : Z
}.

Definition create_quic_config (aes : bool) : QuicConfig :=
  mkQuicConfig (quic_ssl_config aes) false 2500000 10 (24 * 3600) (2 * 1024 * 1024, 65536) 1 500.

(** The HTTP/1 builder of [Server::new]. *)
Record HttpConfig := mkHttpConfig {
  keep_alive : bool;
  max_buf_size : Z;
  title_case_headers : bool;
  writev : bool;
  header_read_timeout : Z
}.
Definition http1_config : HttpConfig := mkHttpConfig false 16384 true true 15.

(** ** The HTTP client *)

(** A [reqwest::Client]: durations are nanoseconds. *)
Record HttpClient (Proxy Addr : Type) := mkHttpClient {
  user_agent : string;
  client_suites : list suite;
  tcp_keepalive : Z;
  tcp_keepalive_interval : Z;
  tcp_keepalive_retries : Z;
  connect_timeout : Z;
  read_timeout : Z;
  total_timeout : Z;
  pool_idle_timeout : Z;
  pool_max_idle_per_host : Z;
  http1_only : bool;
  local_address : option Addr;
  client_proxy : option Proxy         (* [None]: [no_proxy()], also none of the environment *)
}.
Arguments mkHttpClient {Proxy Addr}.
Arguments read_timeout {Proxy Addr} _.
Arguments total_timeout {Proxy Addr} _.
Arguments connect_timeout {Proxy Addr} _.
Arguments client_proxy {Proxy Addr} _.
Arguments local_address {Proxy Addr} _.
Arguments client_suites {Proxy Addr} _.

Definition second : Z := 1000000000.

(** [create_http_client]. *)
Definition create_http_client {Proxy Addr : Type} (aes : bool) (client_version : string) (timeout : Z)
    (proxy : option Proxy) (local_addr : option Addr) : HttpClient Proxy Addr :=
  mkHttpClient ("Hentai@Home " +:+ client_version) (ssl_provider aes) (30 * second) (15 * second) 6 (5 * second)
    (timeout / 3) timeout (3600 * second) 8 true local_addr proxy.

(** ** Binding the port *)

(** What the calls on the socket answer: creating it, the three options (their
    errors are ignored), [bind] and [listen]. *)
Record socket_answers := mkSocket { s_new : bool; s_bind : bool; s_listen : bool }.
Inductive socket_call := NewV4 | NewV6 | ReuseAddr | KeepAlive | NoDelay | Bind | Listen (backlog : Z).

(** [bind]: the calls that are made, and whether there is a listener. *)
Definition bind_port (v4 : bool) (a : socket_answers) : list socket_call * bool :=
  let new := if v4 then NewV4 else NewV6 in
  if negb (s_new a) then ([new], false)
  else
    let calls := [new; ReuseAddr; KeepAlive; NoDelay; Bind] in
    if negb (s_bind a) then (calls, false)
    else (calls ++ [Listen 512], s_listen a).

(** ** Choosing a suite *)

(** [rustls]: with [ignore_client_order] the server takes the first suite of its own
    list that the client offers and that fits the version and the key of the
    certificate ([fits]); [prioritize_chacha] may override that. *)
Class Negotiation := { negotiate : ServerConfig → (suite → bool) → list suite → option suite }.
Class NegotiationLaws (N : Negotiation) : Prop := {
  negotiate_server_order cfg fits offer :
    ignore_client_order cfg = true → prioritize_chacha cfg = false →
    negotiate cfg fits offer = head (filter (λ s, fits s = true ∧ s ∈ offer) (cipher_suites cfg))
}.

Definition is_chacha (s : suite) : bool :=
  match s with
  | TLS13_CHACHA20_POLY1305_SHA256 | TLS_ECDHE_ECDSA_WITH_CHACHA20_POLY1305_SHA256
  | TLS_ECDHE_RSA_WITH_CHACHA20_POLY1305_SHA256 => true
  | _ => false
  end.

(** The version and the kind of key a suite is for. *)
Inductive family := Tls13 | Ecdsa12 | Rsa12.
#[export] Instance family_eq_dec : EqDecision family.
Proof. solve_decision. Defined.

Definition family_of (s : suite) : family :=
  match s with
  | TLS13_AES_128_GCM_SHA256 | TLS13_AES_256_GCM_SHA384 | TLS13_CHACHA20_POLY1305_SHA256 => Tls13
  | TLS_ECDHE_ECDSA_WITH_AES_128_GCM_SHA256 | TLS_ECDHE_ECDSA_WITH_AES_256_GCM_SHA384
  | TLS_ECDHE_ECDSA_WITH_CHACHA20_POLY1305_SHA256 => Ecdsa12
  | _ => Rsa12
  end.
Definition fits_family (f : family) (s : suite) : bool := bool_decide (family_of s = f).

(** ** Theorems *)

(** The hardware only changes the order of the suites: the same nine are offered,
    AES first in every family with acceleration, ChaCha20 first without it. *)
Theorem provider_order :
  ssl_provider true ≡ₚ ssl_provider false ∧ length (ssl_provider true) = 9%nat ∧ NoDup (ssl_provider true) ∧
  ∀ aes f, ∃ s, head (filter (λ s, fits_family f s = true) (ssl_provider aes)) = Some s ∧ is_chacha s = negb aes.
Proof.
  split_and!; [by apply (bool_decide_unpack _)|done|by apply (bool_decide_unpack _)|].
  intros [] []; eexists; split; vm_compute; reflexivity.
Qed.

(** Without AES acceleration a connection uses ChaCha20 whenever the client offers
    it for the family that is negotiated, over TCP and over QUIC, and it always uses
    a suite when the client offers one of the family. *)
Theorem chacha_without_aes `{NegotiationLaws} f offer cfg :
  cfg = create_ssl_config false ∨ cfg = q_ssl (create_quic_config false) →
  ((∃ s, s ∈ offer ∧ fits_family f s = true) → is_Some (negotiate cfg (fits_family f) offer)) ∧
  ((∃ s, s ∈ offer ∧ fits_family f s = true ∧ is_chacha s = true) →
   ∃ s, negotiate cfg (fits_family f) offer = Some s ∧ is_chacha s = true).
Proof.
  intros Hcfg. assert (negotiate cfg (fits_family f) offer =
    head (filter (λ s, fits_family f s = true ∧ s ∈ offer) (ssl_provider false))) as ->.
  { destruct Hcfg as [-> | ->]; by rewrite negotiate_server_order. }
  split.
  - intros (s & Hs & Hf). assert (s ∈ filter (λ s, fits_family f s = true ∧ s ∈ offer) (ssl_provider false)) as Hin.
    { apply list_elem_of_filter. split; [done|]. destruct s; apply (bool_decide_unpack _); vm_compute; exact I. }
    destruct (filter _ _) as [|x l]; [by apply elem_of_nil in Hin|]. by eexists.
  - intros (s & Hs & Hf & Hc). exists s. split; [|done].
    destruct s, f; try discriminate; cbn [ssl_provider]; repeat (rewrite filter_cons;
      first [rewrite decide_True by done|rewrite decide_False by (by intros [? _])]); done.
Qed.

(** The clients of the program (30, 60, 300 and 600 seconds): a read never waits longer than the whole
    request, and a connection attempt leaves time for the request. *)
Theorem client_timeouts {Proxy Addr} aes v timeout (p : option Proxy) (a : option Addr) :
  15 * second ≤ timeout →
  let c := create_http_client aes v timeout p a in
  connect_timeout c ≤ read_timeout c ∧ 3 * read_timeout c ≤ total_timeout c ∧
  total_timeout c < 3 * read_timeout c + 3 ∧ client_proxy c = p ∧ local_address c = a.
Proof.
  unfold create_http_client, second. cbn -[Z.mul Z.div]. intros Ht.
  split_and!; try done; Z.to_euclidean_division_equations; lia.
Qed.

(** ** Witnesses *)

Definition negotiation_ref : Negotiation := {|
  negotiate cfg fits offer := head (filter (λ s, fits s = true ∧ s ∈ offer) (cipher_suites cfg))
|}.
#[export] Instance negotiation_ref_laws : NegotiationLaws negotiation_ref.
Proof. by split. Qed.

Lemma chacha_without_aes_witness :
  ∃ s, @negotiate negotiation_ref (create_ssl_config false) (fits_family Tls13)
    [TLS13_AES_128_GCM_SHA256; TLS13_CHACHA20_POLY1305_SHA256] = Some s ∧ is_chacha s = true.
Proof.
  apply (chacha_without_aes (N1 := negotiation_ref) Tls13 [TLS13_AES_128_GCM_SHA256; TLS13_CHACHA20_POLY1305_SHA256]
    (create_ssl_config false)); [by left|].
  exists TLS13_CHACHA20_POLY1305_SHA256. split; [right; left|]. split; reflexivity.
Defined.

Lemma client_timeouts_witness :
  connect_timeout (create_http_client (Proxy := unit) (Addr := unit) true "1" (30 * second) None None) = 5 * second ∧
  3 * read_timeout (create_http_client (Proxy := unit) (Addr := unit) true "1" (30 * second) None None) ≤ 30 * second.
Proof.
  split; [reflexivity|].
  exact (proj1 (proj2 (client_timeouts (Proxy := unit) (Addr := unit) true "1" (30 * second) None None ltac:(unfold second; lia)))).
Defined.
