(* ===== verification/Accept.v ===== *)
(** * Accept: the accept loop, its connections and their shutdown

    [src/src/server/mod.rs], [accept_loop] with [accept], [ServerHandle], and the
    connection tasks.  Sockets, TLS and the HTTP library are third-party: what
    they answer, and when, is an argument.  [Shutdown] is the protocol between
    [ServerHandle::shutdown] and a loop, with every interleaving. *)

From S2P Require Import Prelude FloodControl.
From stdpp Require Import base gmap list numbers relations.

Local Open Scope Z_scope.

(** ** Admitting connections *)

(** What a loop meets: the flag is set when the loop tests it, it is notified,
    [listener.accept] fails (and is retried), or there is a connection, given by
    its peer address and the clocks that [hit] reads. *)
Inductive loop_event :=
| FlagSet
| Notified
| ListenerError
| Incoming (e : event).

(** The peer with its address unmapped. *)
Definition normal (e : event) : event := mkEvent (accept_addr (ev_addr e)) (ev_now e) (ev_clk e) (ev_late e).

(** Flood control of a new connection: is it processed? *)
Definition admission (e : event) (fc : option FloodControl) : bool * option FloodControl :=
  match fc with
  | None => (true, None)
  | Some fc =>
      let (flood, fc) := hit (ev_now e) (ev_clk e) (ev_late e) (ev_addr e) fc in
      (negb flood, Some fc)
  end.

(** [accept_loop]: the connections in order, each with whether a task was spawned
    for it (else it was reset), and whether the loop was left. *)
Fixpoint accept_loop (fc : option FloodControl) (l : list loop_event) : list (SocketAddr * bool) * bool :=
  match l with
  | [] => ([], false)
  | FlagSet :: _ | Notified :: _ => ([], true)
  | ListenerError :: l => accept_loop fc l
  | Incoming e :: l =>
      let (ok, fc) := admission (normal e) fc in
      let (r, left) := accept_loop fc l in
      ((ev_addr (normal e), ok) :: r, left)
  end.

(** The connections before the loop is left. *)
Fixpoint connections (l : list loop_event) : list event :=
  match l with
  | [] | FlagSet :: _ | Notified :: _ => []
  | ListenerError :: l => connections l
  | Incoming e :: l => normal e :: connections l
  end.

(** The decisions on the connections of one address. *)
Definition decisions (ip : IpAddr) (r : list (SocketAddr * bool)) : list bool :=
  snd <$> filter (λ p, addr_ip p.1 = ip) r.

(** ** The life of a connection *)

(** [tokio::time::timeout] started at [start] on a future that is ready at
    [ready]: whether it completed, and when. *)
Definition timeout (limit start : Z) (ready : option Z) : bool * Z :=
  match ready with
  | Some t => if t <=? start + limit then (true, Z.max start t) else (false, start + limit)
  | None => (false, start + limit)
  end.

(** A connection: when it was accepted, when the handshake is ready and whether
    it succeeds, and when serving it would be over if it starts at a given time. *)
Record connection := mkConnection {
  started : Z;
  handshake : option Z;
  handshake_ok : bool;
  served : Z → option Z
}.

(** The task of a connection: when it ends, if the shutdown of the loop reaches
    it at [shutdown]. *)
Definition connection_end (shutdown : option Z) (c : connection) : Z :=
  let (ready, t) := timeout (10 * sec) (started c) (handshake c) in
  if negb (ready && handshake_ok c) then t
  else
    let (_, fut) := timeout (181 * sec) t (served c t) in
    match shutdown with
    | None => fut
    | Some s =>
        let changed := Z.max t s in
        if fut <=? changed then fut
        else (timeout (10 * sec) changed (Some fut)).2
    end.

(** The end of [accept_loop] when it was left at [t]: all receivers of the
    shutdown channel are dropped, or fifteen seconds are over. *)
Definition drain_end (t : Z) (cs : list connection) : Z :=
  (timeout (15 * sec) t (Some (foldr Z.max t (connection_end (Some t) <$> cs)))).2.

(** ** The shutdown protocol *)

Module Shutdown.

(** Where the loop is: before the test of the flag, between the test and the
    creation of the [notified] future, waiting with that future (and whether it
    was notified), or out of the loop. *)
Inductive loop_pc := AtCheck | Checked | Waiting (notified : bool) | Left.

(** Where [ServerHandle::shutdown] is. *)
Inductive shutdown_pc := Idle | Stored | NotifiedAll.

Record state := mkState {
  pc : loop_pc;
  caller : shutdown_pc;
  shutdown : bool;         (* the flag *)
  backlog : nat;           (* connections ready to be accepted *)
  late : nat               (* connections accepted since the flag was set *)
}.

Definition init : state := mkState AtCheck Idle false 0 0.

(** [ServerHandle::shutdown] stores the flag and then wakes the futures that
    exist; the loop's [select!] is biased towards [accept]. *)
Inductive step : state → state → Prop :=
| arrive p c f b n : step (mkState p c f b n) (mkState p c f (S b) n)
| store p f b n : step (mkState p Idle f b n) (mkState p Stored true b n)
| notify_waiting w f b n :
    step (mkState (Waiting w) Stored f b n) (mkState (Waiting true) NotifiedAll f b n)
| notify_none p f b n : (∀ w, p ≠ Waiting w) →
    step (mkState p Stored f b n) (mkState p NotifiedAll f b n)
| test_break c b n : step (mkState AtCheck c true b n) (mkState Left c true b n)
| test_pass c b n : step (mkState AtCheck c false b n) (mkState Checked c false b n)
| wait c f b n : step (mkState Checked c f b n) (mkState (Waiting false) c f b n)
| accepted w c f b n :
    step (mkState (Waiting w) c f (S b) n) (mkState AtCheck c f b (if f then S n else n))
| woken c f n : step (mkState (Waiting true) c f 0 n) (mkState Left c f 0 n).

(** The steps of the loop alone. *)
Inductive loop_step : state → state → Prop :=
| loop_break c b n : loop_step (mkState AtCheck c true b n) (mkState Left c true b n)
| loop_pass c b n : loop_step (mkState AtCheck c false b n) (mkState Checked c false b n)
| loop_wait c f b n : loop_step (mkState Checked c f b n) (mkState (Waiting false) c f b n)
| loop_accept w c f b n :
    loop_step (mkState (Waiting w) c f (S b) n) (mkState AtCheck c f b (if f then S n else n))
| loop_woken c f n : loop_step (mkState (Waiting true) c f 0 n) (mkState Left c f 0 n).

(** The invariant. *)
Definition flag_inv (s : state) : Prop := shutdown s = true ↔ caller s ≠ Idle.
Definition late_inv (s : state) : Prop :=
  (shutdown s = false → late s = 0%nat) ∧ (late s ≤ 1)%nat ∧
  (late s = 1%nat → pc s = AtCheck ∨ pc s = Left).

Lemma shutdown_step_inv s s' : step s s' → flag_inv s ∧ late_inv s → flag_inv s' ∧ late_inv s'.
Proof.
  unfold flag_inv, late_inv. intros Hs [Hf (L1 & L2 & L3)].
  destruct Hs; cbn in *; try (destruct f; cbn in *);
    (split; [naive_solver|]); split_and!; intros; try done; try lia; try (destruct (L3 ltac:(lia))); try done; auto.
  all: try (by apply L1); try (by specialize (L1 eq_refl); lia).
  all: destruct n as [|n]; [lia|]; destruct (L3 ltac:(lia)); done.
Qed.

Lemma reach_inv s : rtc step init s → flag_inv s ∧ late_inv s.
Proof.
  intros Hr. remember init as s0 eqn:E0. assert (flag_inv s0 ∧ late_inv s0) as H0.
  { subst. unfold flag_inv, late_inv. cbn. split; [naive_solver|]. split_and!; [done|lia|lia]. }
  clear E0. induction Hr as [|s1 s2 s3 H12 _ IH]; [done|]. apply IH. by eapply shutdown_step_inv.
Qed.

(** With the flag set, the loop leaves by itself from everywhere but an
    unnotified wait for a connection. *)
Definition waits_unnotified (s : state) : Prop :=
  (pc s = Checked ∨ pc s = Waiting false) ∧ backlog s = 0%nat.

Definition leaves (s : state) : Prop := ∃ s', rtc loop_step s s' ∧ pc s' = Left.

Lemma leaves_step s s' : loop_step s s' → leaves s' → leaves s.
Proof. intros Hs (s'' & Hr & Hp). exists s''. split; [by eapply rtc_l|done]. Qed.

Lemma leaves_check c b n : leaves (mkState AtCheck c true b n).
Proof. eapply leaves_step; [constructor|]. eexists. by split; [apply rtc_refl|]. Qed.

Lemma leaves_accept w c b n : leaves (mkState (Waiting w) c true (S b) n).
Proof. eapply leaves_step; [constructor|]. apply leaves_check. Qed.

Lemma leaves_or_waits s : shutdown s = true → leaves s ∨ waits_unnotified s.
Proof.
  destruct s as [p c f b n]. cbn. intros ->. unfold waits_unnotified. cbn. destruct p as [| |w|].
  - left. apply leaves_check.
  - destruct b as [|b]; [by auto|]. left. eapply leaves_step; [constructor|]. apply leaves_accept.
  - destruct b as [|b]; [|left; apply leaves_accept]. destruct w; [|by auto].
    left. eapply leaves_step; [constructor|]. eexists. by split; [apply rtc_refl|].
  - left. eexists. by split; [apply rtc_refl|].
Qed.

Definition with_arrival (s : state) : state := mkState (pc s) (caller s) (shutdown s) (S (backlog s)) (late s).

End Shutdown.

(** ** Lemmas *)

Lemma accept_loop_verdicts fc l :
  (accept_loop (Some fc) l).1 = zip (ev_addr <$> connections l) (negb <$> verdicts fc (connections l)).
Proof.
  revert fc. induction l as [|x l IH]; intros fc; [done|]. destruct x as [| | |e]; try done; [apply IH|].
  cbn [accept_loop connections verdicts admission].
  destruct (hit _ _ _ _ fc) as [v fc'] eqn:E. specialize (IH fc').
  destruct (accept_loop (Some fc') l) as [r left]. cbn in *. by rewrite IH.
Qed.

Lemma verdicts_length fc evs : length (verdicts fc evs) = length evs.
Proof.
  revert fc. induction evs as [|e evs IH]; intros fc; [done|]. cbn. destruct (hit _ _ _ _ fc). cbn. by rewrite IH.
Qed.

(** Decisions are the negated verdicts of the address. *)
Lemma decisions_verdicts ip evs vs :
  length vs = length evs →
  decisions ip (zip (ev_addr <$> evs) (negb <$> vs)) =
  negb <$> map snd (filter (λ p, ev_ip p.1 = ip) (zip evs vs)).
Proof.
  revert vs. induction evs as [|e evs IH]; intros [|v vs] Hl; try done.
  injection Hl as Hl. specialize (IH vs Hl). unfold decisions in *. cbn [fmap list_fmap zip zip_with].
  rewrite !filter_cons. cbn [fst snd]. unfold ev_ip at 1.
  destruct (decide (addr_ip (ev_addr e) = ip)) as [Hi|Hi]; [|exact IH]. cbn. f_equal. exact IH.
Qed.

Lemma timeout_bound limit start r : 0 ≤ limit → start ≤ (timeout limit start r).2 ≤ start + limit.
Proof. intros Hl. unfold timeout. destruct r as [t|]; [|cbn; lia]. destruct (Z.leb_spec t (start + limit)); cbn; lia. Qed.

Lemma foldr_max_le t l x : x ∈ l → x ≤ foldr Z.max t l.
Proof. induction l as [|y l IH]; intros Hx; [by apply elem_of_nil in Hx|]. apply elem_of_cons in Hx as [->|Hx]; cbn; [lia|]. specialize (IH Hx). lia. Qed.
Lemma foldr_max_ge t l : t ≤ foldr Z.max t l.
Proof. induction l as [|y l IH]; cbn; lia. Qed.

(** ** Theorems *)

(** C28: The accept loop with flood control lets a connection through exactly if the
    leaky bucket of its address does, addresses being compared after unmapping
    IPv4 from IPv6; without it every connection.  Failing calls of the listener
    change nothing. *)
Theorem accept_loop_admits t l ip :
  clocked t (connections l) →
  decisions ip (accept_loop (Some (FloodControl_new t)) l).1 =
    negb <$> bucket_verdicts t (connections l) ip ∧
  (accept_loop None l).1 = (λ e, (ev_addr e, true)) <$> connections l.
Proof.
  intros Hc. split.
  - rewrite accept_loop_verdicts, decisions_verdicts by apply verdicts_length.
    f_equal. fold (verdicts_of ip (FloodControl_new t) (connections l)).
    by apply (verdicts_pours t); [|apply holds_new].
  - clear Hc. induction l as [|x l IH]; [done|]. destruct x as [| | |e]; try done.
    cbn. destruct (accept_loop None l) as [r left]. cbn in *. by rewrite IH.
Qed.

(** C30: The life time of a connection is bounded: ten seconds for the handshake and
    181 for the request.  A shutdown of the loop takes at most fifteen seconds,
    and every connection whose handshake was over by then is finished when the
    loop ends, within ten seconds. *)
Theorem connections_drain t cs :
  t ≤ drain_end t cs ≤ t + 15 * sec ∧
  ∀ c, c ∈ cs →
    (∀ s, started c ≤ connection_end s c ≤ started c + 191 * sec) ∧
    ((timeout (10 * sec) (started c) (handshake c)).2 ≤ t →
     connection_end (Some t) c ≤ t + 10 * sec ∧ connection_end (Some t) c ≤ drain_end t cs).
Proof.
  assert (sec = 1000000000) as Hs by done.
  assert (∀ c s, started c ≤ connection_end s c ≤ started c + 191 * sec ∧
    ((timeout (10 * sec) (started c) (handshake c)).2 ≤ t → connection_end (Some t) c ≤ t + 10 * sec)) as Hc.
  { intros c s. unfold connection_end.
    pose proof (timeout_bound (10 * sec) (started c) (handshake c) ltac:(lia)) as H1.
    destruct (timeout (10 * sec) (started c) (handshake c)) as [ready h]. cbn [snd] in *.
    destruct (negb (ready && handshake_ok c)); [split; lia|].
    pose proof (timeout_bound (181 * sec) h (served c h) ltac:(lia)) as H2.
    destruct (timeout (181 * sec) h (served c h)) as [ok f]. cbn [snd] in *.
    assert (∀ x, h ≤ x → x < f → (timeout (10 * sec) x (Some f)).2 ≤ f ∧ x ≤ (timeout (10 * sec) x (Some f)).2 ≤ x + 10 * sec) as H3.
    { intros x Hx Hf. split; [|apply timeout_bound; lia]. unfold timeout. destruct (Z.leb_spec f (x + 10 * sec)); cbn; lia. }
    split.
    - destruct s as [s|]; [|lia]. destruct (Z.leb_spec f (Z.max h s)); [lia|].
      destruct (H3 (Z.max h s)); lia.
    - intros Ht. destruct (Z.leb_spec f (Z.max h t)); [lia|]. destruct (H3 (Z.max h t)); lia. }
  set (m := foldr Z.max t (connection_end (Some t) <$> cs)).
  assert (drain_end t cs = Z.min m (t + 15 * sec)) as Hd.
  { unfold drain_end. fold m. pose proof (foldr_max_ge t (connection_end (Some t) <$> cs)) as Hm. fold m in Hm.
    unfold timeout. destruct (Z.leb_spec m (t + 15 * sec)); cbn; lia. }
  pose proof (foldr_max_ge t (connection_end (Some t) <$> cs)) as Hm. fold m in Hm.
  split; [lia|]. intros c Hin. split; [intros s; apply Hc|]. intros Hh.
  pose proof (proj2 (Hc c None) Hh) as Hle. split; [done|].
  pose proof (foldr_max_le t (connection_end (Some t) <$> cs) (connection_end (Some t) c)) as Hx. fold m in Hx.
  rewrite Hd. specialize (Hx ltac:(apply list_elem_of_fmap; eauto)). lia.
Qed.

(** The shutdown protocol.  After the flag is set a loop accepts at most one more
    connection.  Once [shutdown] has returned, the loop leaves by its own steps,
    unless it had tested the flag before and not yet started to wait; then it
    leaves with the next connection. *)
Theorem shutdown_leaves s :
  rtc Shutdown.step Shutdown.init s →
  (Shutdown.late s ≤ 1)%nat ∧
  (Shutdown.caller s = Shutdown.NotifiedAll →
   Shutdown.leaves s ∨ Shutdown.waits_unnotified s ∧ Shutdown.leaves (Shutdown.with_arrival s)).
Proof.
  intros Hr. destruct (Shutdown.reach_inv s Hr) as [Hf (_ & Hl & _)]. split; [done|]. intros Hc.
  assert (Shutdown.shutdown s = true) as Hs by (apply Hf; by rewrite Hc).
  destruct (Shutdown.leaves_or_waits s Hs) as [H|H]; [by left|]. right. split; [done|].
  destruct (Shutdown.leaves_or_waits (Shutdown.with_arrival s)) as [H'|[_ H']]; done.
Qed.

(** The wake-up can be lost: when [shutdown] runs between the test of the flag
    and the creation of the future, the loop waits although [shutdown] has
    returned, and no step of its own ends that; it lasts until a client
    connects. *)
Theorem shutdown_lost_wakeup :
  ∃ s, rtc Shutdown.step Shutdown.init s ∧ Shutdown.caller s = Shutdown.NotifiedAll ∧
    Shutdown.pc s ≠ Shutdown.Left ∧ ∀ s', ¬ Shutdown.loop_step s s'.
Proof.
  exists (Shutdown.mkState (Shutdown.Waiting false) Shutdown.NotifiedAll true 0 0). split_and!; [|done|done|].
  - eapply rtc_l; [apply Shutdown.test_pass|]. eapply rtc_l; [apply Shutdown.store|].
    eapply rtc_l; [by apply Shutdown.notify_none|]. eapply rtc_l; [apply Shutdown.wait|]. apply rtc_refl.
  - intros s' Hs. inversion Hs.
Qed.

(** ** Witnesses *)

Definition one_client : loop_event :=
  Incoming (mkEvent (mkAddr (V6 (65535 * 2 ^ 32 + 7)) 1) 5 5 (λ _, 5)).

Lemma accept_loop_admits_witness :
  decisions (V4 7) (accept_loop (Some (FloodControl_new 0)) [one_client; ListenerError; one_client; Notified]).1 =
  [true; true].
Proof.
  rewrite (proj1 (accept_loop_admits 0 [one_client; ListenerError; one_client; Notified] (V4 7)
    ltac:(repeat split; vm_compute; done))). vm_compute. reflexivity.
Defined.

Lemma shutdown_leaves_witness : Shutdown.leaves (Shutdown.mkState Shutdown.AtCheck Shutdown.NotifiedAll true 0 0).
Proof.
  destruct (shutdown_leaves (Shutdown.mkState Shutdown.AtCheck Shutdown.NotifiedAll true 0 0)) as [_ H].
  - eapply rtc_l; [apply Shutdown.store|]. eapply rtc_l; [by apply Shutdown.notify_none|]. apply rtc_refl.
  - destruct (H eq_refl) as [Hl|[[[Hp|Hp] _] _]]; [exact Hl|discriminate Hp|discriminate Hp].
Defined.
