(* ===== verification/Http3.v ===== *)
(** * Http3: connections and requests over HTTP/3

    [src/src/server/mod.rs], [accept_loop_h3]: the loop of a connection with flood
    control per request, the task of a request, and the graceful end of a
    connection.  The HTTP/3 library, the router and the response body are
    third-party or modelled elsewhere: what they answer is an argument. *)

From S2P Require Import Prelude FloodControl Body Accept.
From stdpp Require Import base gmap list strings numbers relations.

(** ** A request *)

Definition headers : Type := list (string * string).

(** [h3::error::Code]. *)
Inductive Code := H3_EXCESSIVE_LOAD | H3_INTERNAL_ERROR | H3_REQUEST_CANCELLED.

(** What the task does with its stream. *)
Inductive action :=
| CallService
| SendResponse (status : Z) (h : headers)
| SendData (b : bytes) (ok : bool)
| SendTrailers (ok : bool)
| StopStream (c : Code)
| ReadRest                  (* [recv_data] to the end, at most 181 seconds *)
| Finish.

(** The body of the response as the task meets it: a frame and whether sending it
    succeeds, an error, or the end of the 181 seconds, which may come while a frame
    is being sent. *)
Inductive body_step :=
| StepFrame (f : frame) (sent : bool)
| StepErr
| StepTimeout (sending : option frame).

(** How sending the body ended. *)
Inductive body_end := Sent | Failed | TimedOut.

Definition send_frame (f : frame) (ok : bool) : action :=
  match f with Data b => SendData b ok | Trailers => SendTrailers ok end.

(** The [send_body] block under its timeout. *)
Fixpoint send_body (l : list body_step) : list action * body_end :=
  match l with
  | [] => ([], Sent)
  | StepTimeout sending :: _ => (match sending with Some f => [send_frame f false] | None => [] end, TimedOut)
  | StepErr :: _ => ([StopStream H3_INTERNAL_ERROR], Failed)
  | StepFrame f sent :: l =>
      if sent then let (r, e) := send_body l in (send_frame f true :: r, e) else ([send_frame f false], Failed)
  end.

(** [header.remove(CONNECTION)] and the date unless there is one. *)
Definition h3_headers (date : string) (h : headers) : headers :=
  let h := filter (λ e, e.1 ≠ "connection") h in
  if decide (Exists (λ e, e.1 = "date") h) then h else h ++ [("date", date)].

(** The task of a request: [resolved] says whether the request could be read,
    [status] and [response] are the status and the headers of the service's answer. *)
Definition h3_request (resolved blocked : bool) (date : string) (status : Z) (response : headers) (response_sent : bool)
    (body : list body_step) : list action :=
  if negb resolved then []
  else if blocked then [StopStream H3_EXCESSIVE_LOAD]
  else
    [CallService; SendResponse status (h3_headers date response)] ++
    if negb response_sent then []
    else
      let (r, e) := send_body body in
      r ++ match e with
           | Sent => [ReadRest; Finish]
           | Failed => []
           | TimedOut => [StopStream H3_REQUEST_CANCELLED]
           end.

(** ** A connection *)

(** What the request loop of a connection meets; a request brings the clocks that
    [hit] reads. *)
Inductive h3_event :=
| H3Request (now clk : Z) (late : IpAddr → Z)
| H3Shutdown
| H3Closed.

(** What it does: spawn the task of a request (and whether it is refused), send
    GOAWAY with a number, wait for the tasks, and drop the connection. *)
Inductive h3_out :=
| SpawnRequest (blocked : bool)
| GoAway (n : Z)
| WaitRequests
| DropConnection.

(** The request loop; [addr] is the unmapped peer.  The flood control is shared by
    all connections of the endpoint. *)
Fixpoint h3_connection (addr : SocketAddr) (fc : option FloodControl) (l : list h3_event)
    : list h3_out * option FloodControl :=
  match l with
  | [] => ([], fc)
  | H3Shutdown :: _ => ([GoAway 1; WaitRequests; DropConnection], fc)
  | H3Closed :: _ => ([DropConnection], fc)
  | H3Request now clk late :: l =>
      let (ok, fc) := admission (mkEvent addr now clk late) fc in
      let blocked := negb ok in
      let (r, fc) := h3_connection addr fc l in
      ((if blocked then [GoAway 0] else []) ++ SpawnRequest blocked :: r, fc)
  end.

(** The requests before the connection is left. *)
Fixpoint h3_requests (addr : SocketAddr) (l : list h3_event) : list event :=
  match l with
  | H3Request now clk late :: l => mkEvent addr now clk late :: h3_requests addr l
  | _ => []
  end.

(** Which requests were refused. *)
Definition refused (r : list h3_out) : list bool :=
  omap (λ o, match o with SpawnRequest b => Some b | _ => None end) r.

(** ** The end of a connection with its tasks *)

Module Graceful.

Inductive conn_pc := Accepting | Draining | Dropped (graceful : bool).

Record state := mkState {
  pc : conn_pc;
  next : nat;
  open : gset nat;          (* the tasks that hold a receiver of [close_wait] *)
  resets : gset nat         (* requests that were cut when the connection was dropped *)
}.

Definition init : state := mkState Accepting 0 ∅ ∅.

(** Tasks end at any time; [close_wait.closed()] returns when none is left; the
    loop is also left when the peer closes or the connection fails. *)
Inductive step : state → state → Prop :=
| request n o r : step (mkState Accepting n o r) (mkState Accepting (S n) ({[n]} ∪ o) r)
| finished p n o r i : i ∈ o → step (mkState p n o r) (mkState p n (o ∖ {[i]}) r)
| goaway n o r : step (mkState Accepting n o r) (mkState Draining n o r)
| drained n r : step (mkState Draining n ∅ r) (mkState (Dropped true) n ∅ r)
| closed n o r : step (mkState Accepting n o r) (mkState (Dropped false) n ∅ (r ∪ o)).

Definition inv (s : state) : Prop :=
  (pc s ≠ Dropped false → resets s = ∅) ∧ (∀ g, pc s = Dropped g → open s = ∅).

Lemma graceful_step_inv s s' : step s s' → inv s → inv s'.
Proof.
  unfold inv. intros Hs [H1 H2]. destruct Hs as [| p n o r i Hi| | |]; cbn in *; try (split; [naive_solver|done]).
  split; [done|]. intros g Hg. rewrite (H2 g Hg) in *. set_solver.
Qed.

End Graceful.

(** ** Vocabulary *)

(** The data that was sent. *)
Definition action_data (a : action) : bytes :=
  match a with SendData b true => b | _ => [] end.
Definition step_data (x : body_step) : bytes :=
  match x with StepFrame (Data b) _ => b | _ => [] end.

Definition is_sent (x : body_step) : bool := match x with StepFrame _ sent => sent | _ => false end.

(** ** Lemmas *)

(** The action for a frame. *)
Definition frame_action (x : body_step) : action :=
  match x with
  | StepFrame f sent => send_frame f sent
  | _ => Finish
  end.

Lemma send_body_good good l :
  forallb is_sent good = true →
  send_body (good ++ l) = (map frame_action good ++ (send_body l).1, (send_body l).2).
Proof.
  induction good as [|x good IH]; intros Hg; [cbn [app map]; by destruct (send_body l)|].
  cbn in Hg. apply andb_true_iff in Hg as [Hx Hg]. destruct x as [f sent| |]; try done. cbn in Hx. subst sent.
  cbn [app send_body map]. rewrite (IH Hg). by destruct f.
Qed.

Lemma good_data good :
  forallb is_sent good = true → concat (map action_data (map frame_action good)) = concat (map step_data good).
Proof.
  induction good as [|x good IH]; intros Hg; [done|]. cbn in Hg. apply andb_true_iff in Hg as [Hx Hg].
  destruct x as [f sent| |]; try done. cbn in Hx. subst sent. cbn. rewrite (IH Hg). by destruct f.
Qed.

Lemma h3_request_good date status response good l :
  forallb is_sent good = true →
  h3_request true false date status response true (good ++ l) =
  [CallService; SendResponse status (h3_headers date response)] ++ map frame_action good ++
  (send_body l).1 ++ match (send_body l).2 with
                     | Sent => [ReadRest; Finish]
                     | Failed => []
                     | TimedOut => [StopStream H3_REQUEST_CANCELLED]
                     end.
Proof.
  intros Hg. unfold h3_request. cbn [negb]. rewrite send_body_good by done. by rewrite <- (assoc_L (++)).
Qed.

(** The values of a name. *)
Definition values (n : string) (h : list (string * string)) : list string := snd <$> filter (λ e, e.1 = n) h.

Lemma values_app n h h' : values n (h ++ h') = values n h ++ values n h'.
Proof. unfold values. by rewrite list.filter_app, fmap_app. Qed.

Lemma values_without n m h : values n (filter (λ e, e.1 ≠ m) h) = if decide (n = m) then [] else values n h.
Proof.
  unfold values. induction h as [|[k v] h IH]; [by case_decide|]. rewrite (filter_cons (λ e, e.1 ≠ m)). cbn [fst].
  destruct (decide (k ≠ m)) as [Hk|Hk]; rewrite ?(filter_cons (λ e, e.1 = n)); cbn [fst].
  - destruct (decide (k = n)) as [->|Hn]; cbn [fmap list_fmap]; rewrite IH; [|done].
    by rewrite !(decide_False (P := n = m)) by done.
  - rewrite IH. destruct (decide (n = m)) as [|Hm]; [done|]. rewrite decide_False; [done|]. intros ->. by apply Hk.
Qed.

Lemma values_exists n (h : list (string * string)) : Exists (λ e, e.1 = n) h ↔ values n h ≠ [].
Proof.
  unfold values. induction h as [|[k v] h IH]; [by rewrite Exists_nil|]. rewrite Exists_cons, filter_cons. cbn [fst].
  destruct (decide (k = n)) as [->|Hk]; cbn [fmap list_fmap]; [naive_solver|]. rewrite <- IH. naive_solver.
Qed.

Lemma h3_headers_values date response :
  let h := h3_headers date response in
  (∀ n, n ≠ "connection" → n ≠ "date" → values n h = values n response) ∧
  values "connection" h = [] ∧
  values "date" h = (if decide (values "date" response = []) then [date] else values "date" response).
Proof.
  unfold h3_headers. set (h0 := filter (λ e, e.1 ≠ "connection") response).
  assert (∀ n, values n h0 = if decide (n = "connection") then [] else values n response) as Hv by (intros; apply values_without).
  assert (Exists (λ e, e.1 = "date") h0 ↔ values "date" response ≠ []) as Hd.
  { pose proof (Hv "date") as E. rewrite decide_False in E by done. rewrite <- E. apply values_exists. }
  case_decide as He; cbv zeta; split_and!.
  - intros n H1 H2. by rewrite Hv, decide_False.
  - by rewrite Hv.
  - rewrite Hv, decide_False by done. rewrite decide_False by by apply Hd. done.
  - intros n H1 H2. rewrite values_app, Hv, decide_False by done. unfold values at 2. rewrite filter_cons.
    cbn [fst]. rewrite decide_False by done. apply app_nil_r.
  - by rewrite values_app, Hv.
  - rewrite values_app, Hv. destruct (decide (values "date" response = [])) as [Hn|Hn].
    + rewrite decide_False, Hn by done. done.
    + by destruct He; apply Hd.
Qed.

Lemma h3_refused addr fc l :
  refused (h3_connection addr (Some fc) l).1 = verdicts fc (h3_requests addr l).
Proof.
  revert fc. induction l as [|x l IH]; intros fc; [done|]. destruct x as [now clk late| |]; try done.
  cbn [h3_connection h3_requests verdicts admission]. cbn [ev_now ev_clk ev_late ev_addr].
  destruct (hit now clk late addr fc) as [v fc'] eqn:E. specialize (IH fc').
  destruct (h3_connection addr (Some fc') l) as [r fc'']. cbn [fst] in *.
  rewrite negb_involutive. unfold refused in *. rewrite list.omap_app. cbn. rewrite IH. by destruct v.
Qed.

(** When all calls are for one address the verdicts are those of its bucket. *)
Lemma refused_bucket t addr l :
  clocked t (h3_requests addr l) →
  verdicts (FloodControl_new t) (h3_requests addr l) = bucket_verdicts t (h3_requests addr l) (addr_ip addr).
Proof.
  intros Hc. unfold bucket_verdicts.
  rewrite <- (verdicts_pours t (addr_ip addr) _ (FloodControl_new t)) by (done || apply holds_new).
  unfold verdicts_of. generalize (FloodControl_new t). clear Hc.
  induction l as [|x l IH]; intros fc; [done|]. destruct x as [now clk late| |]; try done.
  cbn [h3_requests verdicts]. cbn [ev_now ev_clk ev_late ev_addr].
  destruct (hit now clk late addr fc) as [v fc'] eqn:E. cbn [zip zip_with].
  rewrite filter_cons. cbn [fst]. unfold ev_ip at 1. cbn [ev_addr]. rewrite decide_True by done.
  cbn. f_equal. apply IH.
Qed.

Lemma h3_goaway addr fc l :
  let r := (h3_connection addr fc l).1 in
  r !! 0%nat ≠ Some (SpawnRequest true) ∧
  ∀ i, r !! S i = Some (SpawnRequest true) → r !! i = Some (GoAway 0).
Proof.
  revert fc. induction l as [|x l IH]; intros fc; [done|]. destruct x as [now clk late| |].
  - cbn [h3_connection]. destruct (admission _ fc) as [ok fc'].
    specialize (IH fc'). destruct (h3_connection addr fc' l) as [r fc'']. cbn [fst] in *.
    destruct IH as [I0 I1]. destruct ok; cbn [negb app]; (split; [done|]).
    + intros [|i] Hi; [done|by apply I1].
    + intros [|[|i]] Hi; [done|done|by apply I1].
  - split; [done|]. by intros [|[|i]].
  - split; [done|]. by intros [|i].
Qed.

(** ** Theorems *)

(** C31: What the task of an HTTP/3 request does, in every case.  A request that cannot
    be read gets nothing, one that flood control refused only the code for excessive
    load.  Otherwise the service is called and its status is sent with its headers:
    the values of every name are the service's, except that there is no connection
    header and that the given date is added when there is none.  If that cannot be
    sent the task ends.  The frames follow, all of them and in order; then the rest of the
    request is read and the stream finished.  At the first frame that cannot be sent the
    task ends; an error of the body and the end of the time stop the stream with their
    codes, the latter possibly while a frame is being sent.  What the client receives is the
    data of the frames before that. *)
Theorem h3_request_correct date status response good :
  forallb is_sent good = true →
  let acts l := h3_request true false date status response true l in
  let frames := map frame_action good in
  (∀ blocked sent l, h3_request false blocked date status response sent l = []) ∧
  (∀ sent l, h3_request true true date status response sent l = [StopStream H3_EXCESSIVE_LOAD]) ∧
  ∃ h,
    (∀ n, n ≠ "connection" → n ≠ "date" → values n h = values n response) ∧
    values "connection" h = [] ∧
    values "date" h = (if decide (values "date" response = []) then [date] else values "date" response) ∧
    (∀ l, h3_request true false date status response false l = [CallService; SendResponse status h]) ∧
    acts good = [CallService; SendResponse status h] ++ frames ++ [ReadRest; Finish] ∧
    (∀ f rest, acts (good ++ StepFrame f false :: rest) =
       [CallService; SendResponse status h] ++ frames ++ [send_frame f false]) ∧
    (∀ rest, acts (good ++ StepErr :: rest) =
       [CallService; SendResponse status h] ++ frames ++ [StopStream H3_INTERNAL_ERROR]) ∧
    (∀ f rest, acts (good ++ StepTimeout f :: rest) =
       [CallService; SendResponse status h] ++ frames ++
       option_list ((λ f, send_frame f false) <$> f) ++ [StopStream H3_REQUEST_CANCELLED]) ∧
    concat (map action_data frames) = concat (map step_data good).
Proof.
  intros Hg acts frames. split; [done|]. split; [done|]. exists (h3_headers date response).
  destruct (h3_headers_values date response) as (Hv & Hc & Hd).
  split_and!; try done; unfold acts, frames.
  - rewrite <- (app_nil_r good) at 1. rewrite h3_request_good by done. done.
  - intros f rest. by rewrite h3_request_good.
  - intros rest. by rewrite h3_request_good.
  - intros [f|] rest; by rewrite h3_request_good.
  - by apply good_data.
Qed.

(** Flood control over HTTP/3 is per request: a request is refused exactly if the
    bucket of the peer's address refuses it, and each refusal is announced by a
    GOAWAY before its task is started. *)
Theorem h3_requests_admitted t addr l :
  clocked t (h3_requests addr l) →
  refused (h3_connection addr (Some (FloodControl_new t)) l).1 =
    bucket_verdicts t (h3_requests addr l) (addr_ip addr) ∧
  (∀ i, (h3_connection addr (Some (FloodControl_new t)) l).1 !! S i = Some (SpawnRequest true) →
        (h3_connection addr (Some (FloodControl_new t)) l).1 !! i = Some (GoAway 0)).
Proof.
  intros Hc. split; [rewrite h3_refused; by apply refused_bucket|apply h3_goaway].
Qed.

(** A connection that is shut down gracefully has no request left when it is
    dropped: none is cut off, whatever the order in which tasks end.  Only the
    peer or a connection error can cut requests. *)
Theorem h3_graceful s :
  rtc Graceful.step Graceful.init s →
  (Graceful.pc s ≠ Graceful.Dropped false → Graceful.resets s = ∅) ∧
  (∀ g, Graceful.pc s = Graceful.Dropped g → Graceful.open s = ∅).
Proof.
  intros Hr. assert (Graceful.inv Graceful.init) as H0 by (split; [done|intros g Hg; discriminate Hg]).
  revert H0. change (Graceful.inv Graceful.init → Graceful.inv s).
  induction Hr as [|s1 s2 s3 H12 _ IH]; [done|]. intros Hi. apply IH. by eapply Graceful.graceful_step_inv.
Qed.

(** ** Witnesses *)

Lemma h3_request_correct_witness :
  concat (map action_data (h3_request true false "now" 200 [("connection", "close"); ("etag", "x")] true
    [StepFrame (Data (as_bytes "ab")) true; StepFrame (Data (as_bytes "c")) true])) = as_bytes "abc".
Proof.
  destruct (h3_request_correct "now" 200 [("connection", "close"); ("etag", "x")]
    [StepFrame (Data (as_bytes "ab")) true; StepFrame (Data (as_bytes "c")) true] eq_refl) as (_ & _ & h & _ & _ & _ & _ & -> & _ & _ & _ & E).
  rewrite !map_app, !concat_app, E. reflexivity.
Defined.

Lemma h3_requests_admitted_witness :
  refused (h3_connection (mkAddr (V4 7) 1) (Some (FloodControl_new 0)) [H3Request 5 5 (λ _, 5%Z); H3Shutdown]).1 = [false].
Proof.
  rewrite (proj1 (h3_requests_admitted 0 (mkAddr (V4 7) 1) [H3Request 5 5 (λ _, 5%Z); H3Shutdown]
    ltac:(repeat split; vm_compute; done))). vm_compute. reflexivity.
Defined.

Lemma h3_graceful_witness : Graceful.resets (Graceful.mkState (Graceful.Dropped true) 1 ∅ ∅) = ∅.
Proof.
  refine (proj1 (h3_graceful (Graceful.mkState (Graceful.Dropped true) 1 ∅ ∅) _) _); [|discriminate].
  eapply rtc_l; [apply Graceful.request|]. eapply rtc_l; [apply (Graceful.finished _ _ _ _ 0%nat); set_solver|].
  eapply rtc_l; [apply Graceful.goaway|].
  replace ((({[0%nat]} : gset nat) ∪ ∅) ∖ {[0%nat]}) with (∅ : gset nat) by set_solver.
  eapply rtc_l; [apply Graceful.drained|]. apply rtc_refl.
Defined.
