(* ===== verification/H3Endpoint.v ===== *)
(** * H3Endpoint: the QUIC endpoint with all its connections, and the end of the server

    [src/src/server/mod.rs]: the loop of [accept_loop_h3] over new connections, their
    tasks from the handshake on, and [Server::shutdown].  The connections of an
    endpoint run concurrently and share one flood control behind a lock: a run is
    any sequence of their events.  [Http3] has the request loop of one connection. *)

From S2P Require Import Prelude FloodControl Accept Http3.
From stdpp Require Import base gmap list numbers.

Local Open Scope Z_scope.

(** ** The endpoint *)

(** A new connection with what its handshakes answer: [new_conn.accept()],
    [handshake_data()] and the HTTP/3 handshake. *)
Record incoming := mkIncoming { i_addr : SocketAddr; i_accepted : bool; i_handshake : bool; i_h3 : bool }.

(** What happens: the loop meets a connection, or is left (the flag or the
    notification); a connection meets an event of its request loop. *)
Inductive ep_event :=
| EpIncoming (c : incoming)
| EpLeft
| EpConn (i : nat) (x : h3_event).

(** The endpoint: whether the loop was left, the open connections with their peers,
    the number of the next one, and the shared flood control. *)
Record endpoint := mkEndpoint {
  e_left : bool;
  e_conns : gmap nat SocketAddr;
  e_next : nat;
  e_fc : option FloodControl
}.

Definition ep_new (fc : option FloodControl) : endpoint := mkEndpoint false ∅ 0 fc.

Definition is_request (x : h3_event) : bool := match x with H3Request _ _ _ => true | _ => false end.

(** What the connection's [shutdown_rx] can tell: only after the loop was left. *)
Definition ep_ready (s : endpoint) (x : h3_event) : bool :=
  match x with H3Shutdown => e_left s | _ => true end.

(** One step; the outputs carry the number and the peer of their connection.  A
    connection that fails a handshake ends at once. *)
Definition ep_step (x : ep_event) (s : endpoint) : list (nat * SocketAddr * h3_out) * endpoint :=
  match x with
  | EpLeft => ([], mkEndpoint true (e_conns s) (e_next s) (e_fc s))
  | EpIncoming c =>
      if e_left s then ([], s)
      else
        let conns := if i_accepted c && i_handshake c && i_h3 c
                     then <[e_next s := accept_addr (i_addr c)]> (e_conns s) else e_conns s in
        ([], mkEndpoint false conns (S (e_next s)) (e_fc s))
  | EpConn i x =>
      match e_conns s !! i with
      | Some addr =>
          if ep_ready s x then
            let (r, fc) := h3_connection addr (e_fc s) [x] in
            ((λ o, (i, addr, o)) <$> r,
             mkEndpoint (e_left s) (if is_request x then e_conns s else delete i (e_conns s)) (e_next s) fc)
          else ([], s)
      | None => ([], s)
      end
  end.

Fixpoint ep_run (l : list ep_event) (s : endpoint) : list (nat * SocketAddr * h3_out) * endpoint :=
  match l with
  | [] => ([], s)
  | x :: l => let (r, s) := ep_step x s in let (r', s) := ep_run l s in (r ++ r', s)
  end.

(** ** Vocabulary *)

(** What can be said of a run from its events alone: whether the loop was left, and
    the peers of the connections in the order in which they came, [None] for those that
    failed a handshake or have ended. *)
Definition ep_track (x : ep_event) (v : bool * list (option SocketAddr)) : bool * list (option SocketAddr) :=
  let (left, peers) := v in
  match x with
  | EpLeft => (true, peers)
  | EpIncoming c =>
      if left then v
      else (left, peers ++ [if i_accepted c && i_handshake c && i_h3 c then Some (i_addr c) else None])
  | EpConn _ (H3Request _ _ _) => v
  | EpConn i H3Shutdown => if left then (left, <[i := None]> peers) else v
  | EpConn i H3Closed => (left, <[i := None]> peers)
  end.

(** A request of an open connection, under the unmapped address of its peer. *)
Definition ep_request (x : ep_event) (peers : list (option SocketAddr)) : list event :=
  match x with
  | EpConn i (H3Request now clk late) =>
      match peers !! i with Some (Some peer) => [normal (mkEvent peer now clk late)] | _ => [] end
  | _ => []
  end.

Fixpoint ep_requests_from (l : list ep_event) (v : bool * list (option SocketAddr)) : list event :=
  match l with
  | [] => []
  | x :: l => ep_request x v.2 ++ ep_requests_from l (ep_track x v)
  end.

Definition ep_requests (l : list ep_event) : list event := ep_requests_from l (false, []).

(** The tasks spawned for requests, with their peers and whether they are served. *)
Definition spawned (r : list (nat * SocketAddr * h3_out)) : list (SocketAddr * bool) :=
  omap (λ e, match e.2 with SpawnRequest blocked => Some (e.1.2, negb blocked) | _ => None end) r.

(** ** The end of the server *)

(** The end of [accept_loop_h3] left at [t]; its connections end at [ends].  Then the
    endpoint is closed. *)
Definition h3_drain_end (t : Z) (ends : list Z) : Z := (timeout (15 * sec) t (Some (foldr Z.max t ends))).2.

(** [Server::shutdown]: after [ServerHandle::shutdown] the TCP loop is awaited, then
    that for HTTP/3 if there is one; each is given by when it was left and its
    connections. *)
Definition server_shutdown (t : Z) (tcp : Z * list connection) (h3 : option (Z * list Z)) : Z :=
  let t := Z.max t (drain_end tcp.1 tcp.2) in
  match h3 with Some (t3, ends) => Z.max t (h3_drain_end t3 ends) | None => t end.

(** ** Lemmas *)

Lemma spawned_app r r' : spawned (r ++ r') = spawned r ++ spawned r'.
Proof. unfold spawned. apply list.omap_app. Qed.

(** The endpoint knows the connections the events tell of, under their unmapped
    addresses. *)
Definition tracks (v : bool * list (option SocketAddr)) (s : endpoint) : Prop :=
  e_left s = v.1 ∧ e_next s = length v.2 ∧ ∀ i, e_conns s !! i = accept_addr <$> mjoin (v.2 !! i).

Lemma tracks_close v s left fc i :
  tracks v s → left = v.1 → tracks (left, <[i := None]> v.2) (mkEndpoint left (delete i (e_conns s)) (e_next s) fc).
Proof.
  intros (Hl & Hn & Hc) ->. split_and!; cbn; [done|by rewrite length_insert|]. intros j.
  destruct (decide (i = j)) as [<-|Hne]; [|by rewrite lookup_delete_ne, list_lookup_insert_ne].
  rewrite lookup_delete_eq. destruct (decide (i < length v.2)%nat).
  - by rewrite list_lookup_insert_eq.
  - by rewrite list_insert_ge, lookup_ge_None_2 by lia.
Qed.

Lemma tracks_step x v s : tracks v s → tracks (ep_track x v) (ep_step x s).2.
Proof.
  intros Ht. pose proof Ht as (Hl & Hn & Hc). destruct v as [left peers]. cbn [fst snd] in *.
  destruct x as [c| |i x]; cbn [ep_step ep_track].
  - rewrite Hl. destruct left; [done|]. split_and!; cbn; [done|rewrite length_app; cbn; lia|]. intros i.
    destruct (decide (i = length peers)) as [->|Hne].
    + rewrite list_lookup_middle by done. destruct (_ && _); cbn; [by rewrite Hn, lookup_insert_eq|].
      by rewrite Hc, lookup_ge_None_2.
    + assert ((peers ++ [if i_accepted c && i_handshake c && i_h3 c then Some (i_addr c) else None]) !! i = peers !! i) as ->.
      { destruct (decide (i < length peers)%nat); [by apply lookup_app_l|]. rewrite !lookup_ge_None_2; [done|lia|rewrite length_app; cbn; lia]. }
      destruct (_ && _); [rewrite lookup_insert_ne by lia|]; apply Hc.
  - by split_and!.
  - destruct (e_conns s !! i) as [addr|] eqn:Ei.
    + destruct x as [now clk late| |]; cbn [ep_ready].
      * destruct (h3_connection _ _ _). done.
      * rewrite Hl. destruct left; [|done]. by apply (tracks_close (true, peers) s true (e_fc s) i).
      * cbn. rewrite Hl. by apply (tracks_close (left, peers) s left (e_fc s) i).
    + assert (tracks (left, <[i := None]> peers) s) as Hclosed.
      { split_and!; cbn; [done|by rewrite length_insert|]. intros j. destruct (decide (i = j)) as [<-|Hne].
        - rewrite Ei. destruct (decide (i < length peers)%nat); [by rewrite list_lookup_insert_eq|].
          by rewrite list_insert_ge, lookup_ge_None_2 by lia.
        - by rewrite list_lookup_insert_ne. }
      destruct x; [done| |done]. by destruct left.
Qed.

(** A step answers the request it meets, and nothing else. *)
Lemma ep_step_spawned x v s :
  tracks v s →
  match e_fc s with
  | Some fc =>
      ∃ fc', e_fc (ep_step x s).2 = Some fc' ∧
      (∀ evs, verdicts fc (ep_request x v.2 ++ evs) = verdicts fc (ep_request x v.2) ++ verdicts fc' evs) ∧
      spawned (ep_step x s).1 = zip (ev_addr <$> ep_request x v.2) (negb <$> verdicts fc (ep_request x v.2))
  | None => e_fc (ep_step x s).2 = None ∧ spawned (ep_step x s).1 = (λ e, (ev_addr e, true)) <$> ep_request x v.2
  end.
Proof.
  intros (Hl & Hn & Hc). destruct x as [c| |i x]; cbn [ep_step ep_request].
  1,2: destruct (e_fc s) as [fc|] eqn:Ef; repeat case_match; cbn; rewrite ?Ef; (by split) || by exists fc.
  pose proof (Hc i) as Hi. destruct x as [now clk late| |]; cbn [ep_ready].
  2,3: destruct (e_fc s) as [fc|] eqn:Ef; repeat case_match; cbn in *; simplify_eq; (by split) || by exists fc.
  destruct (v.2 !! i) as [[peer|]|]; cbn in Hi; rewrite Hi.
  2,3: destruct (e_fc s) as [fc|] eqn:Ef; cbn; rewrite ?Ef; (by split) || by exists fc.
  cbn [h3_connection]. destruct (e_fc s) as [fc|] eqn:Ef; [|done].
  unfold normal. cbn [admission ev_now ev_clk ev_late ev_addr app verdicts].
  destruct (hit now clk late (accept_addr peer) fc) as [blocked fc1] eqn:Eh. exists fc1. by destruct blocked.
Qed.

(** Flood control over the whole run: the verdicts of its requests in order. *)
Lemma ep_run_verdicts l v s fc :
  tracks v s → e_fc s = Some fc →
  spawned (ep_run l s).1 = zip (ev_addr <$> ep_requests_from l v) (negb <$> verdicts fc (ep_requests_from l v)).
Proof.
  revert v s fc. induction l as [|x l IH]; intros v s fc Ht Hfc; [done|].
  pose proof (ep_step_spawned x v s Ht) as Hs. rewrite Hfc in Hs. destruct Hs as (fc' & Hfc' & Hv & Hr).
  pose proof (tracks_step x v s Ht) as Ht'. cbn [ep_run ep_requests_from].
  destruct (ep_step x s) as [r s1]. cbn [fst snd] in *. rewrite Hv, !fmap_app, zip_with_app, <- Hr.
  - rewrite <- (IH _ s1 fc') by done. destruct (ep_run l s1). apply spawned_app.
  - by rewrite !length_fmap, verdicts_length.
Qed.

Lemma ep_run_open l v s :
  tracks v s → e_fc s = None → spawned (ep_run l s).1 = (λ e, (ev_addr e, true)) <$> ep_requests_from l v.
Proof.
  revert v s. induction l as [|x l IH]; intros v s Ht Hfc; [done|].
  pose proof (ep_step_spawned x v s Ht) as Hs. rewrite Hfc in Hs. destruct Hs as [Hfc' Hr].
  pose proof (tracks_step x v s Ht) as Ht'. cbn [ep_run ep_requests_from].
  destruct (ep_step x s) as [r s1]. cbn [fst snd] in *. rewrite fmap_app, <- Hr, <- (IH _ s1) by done.
  destruct (ep_run l s1). apply spawned_app.
Qed.

Lemma tracks_new fc : tracks (false, []) (ep_new fc).
Proof. by split_and!. Qed.

(** After the loop was left there are no new connections. *)
Lemma ep_run_left l s : e_left s = true → e_left (ep_run l s).2 = true ∧ e_conns (ep_run l s).2 ⊆ e_conns s.
Proof.
  revert s. induction l as [|x l IH]; intros s Hl; [done|]. cbn [ep_run].
  destruct (ep_step x s) as [r s1] eqn:E. assert (e_left s1 = true ∧ e_conns s1 ⊆ e_conns s) as [Hl1 Hs1].
  { destruct x as [c| |i x]; cbn [ep_step] in E; rewrite ?Hl in E; simplify_eq; [done..|].
    repeat case_match; simplify_eq; cbn; (split; [done|]); try done. apply delete_subseteq. }
  destruct (IH s1 Hl1) as [H1 H2]. destruct (ep_run l s1). cbn [snd] in *. split; [done|by etrans].
Qed.

(** ** Theorems *)

(** C29: Flood control over HTTP/3, for all connections of the endpoint and every
    interleaving of their requests: a request is served exactly if the leaky bucket
    of its peer's address lets it pass, the address the connection came from with
    IPv4 unmapped from IPv6, whatever other peers do and over however many connections
    the peer spreads its requests.  Without flood control every request is served. *)
Theorem h3_endpoint_admits t l ip :
  clocked t (ep_requests l) →
  decisions ip (spawned (ep_run l (ep_new (Some (FloodControl_new t)))).1) = negb <$> bucket_verdicts t (ep_requests l) ip ∧
  spawned (ep_run l (ep_new None)).1 = (λ e, (ev_addr e, true)) <$> ep_requests l.
Proof.
  intros Hc. split; [|apply ep_run_open; [apply tracks_new|done]].
  rewrite (ep_run_verdicts l (false, []) _ (FloodControl_new t)) by (done || apply tracks_new).
  fold (ep_requests l). rewrite decisions_verdicts by apply verdicts_length. f_equal.
  fold (verdicts_of ip (FloodControl_new t) (ep_requests l)). by apply (verdicts_pours t); [|apply holds_new].
Qed.

(** [Server::shutdown] returns within fifteen seconds after both loops were left,
    however many connections there are and whenever they would end; and an
    endpoint whose loop was left has no new connection. *)
Theorem server_shutdown_bounded t tcp h3 l s :
  let last := default tcp.1 (fst <$> h3) in
  t ≤ server_shutdown t tcp h3 ≤ Z.max t (Z.max tcp.1 last + 15 * sec) ∧
  (e_left s = true → e_conns (ep_run l s).2 ⊆ e_conns s).
Proof.
  intros last. split; [|apply ep_run_left]. unfold server_shutdown, drain_end, h3_drain_end.
  assert (0 ≤ 15 * sec) as Hp by done.
  pose proof (timeout_bound (15 * sec) tcp.1 (Some (foldr Z.max tcp.1 (connection_end (Some tcp.1) <$> tcp.2))) Hp).
  destruct h3 as [[l3 ends]|]; cbn in last; subst last; [|lia].
  pose proof (timeout_bound (15 * sec) l3 (Some (foldr Z.max l3 ends)) Hp). lia.
Qed.

(** ** Witnesses *)

Definition ep_peer (port : Z) : incoming := mkIncoming (mkAddr (V6 (65535 * 2 ^ 32 + 7)) port) true true true.
Definition ep_events : list ep_event :=
  [EpIncoming (ep_peer 1); EpIncoming (ep_peer 2); EpConn 1 (H3Request 5 5 (λ _, 5)); EpConn 0 (H3Request 6 6 (λ _, 6)); EpLeft;
   EpConn 0 H3Shutdown].

Lemma h3_endpoint_admits_witness :
  decisions (V4 7) (spawned (ep_run ep_events (ep_new (Some (FloodControl_new 0)))).1) = [true; true].
Proof.
  rewrite (proj1 (h3_endpoint_admits 0 ep_events (V4 7) ltac:(repeat split; vm_compute; done))). vm_compute. reflexivity.
Defined.
