(* ===== verification/CacheStore.v ===== *)
(** * CacheStore: the accounting of the cache

    [src/src/cache_manager.rs]: [CacheState], the part of [CacheManager] that is
    in memory, and the two operations that change what is cached,
    [import_cache] and [remove_cache].  The file system is an explicit map; a
    [faults] record says which calls of the operating system fail. *)

From S2P Require Import Prelude Text Extern FileId.
From stdpp Require Import base gmap list strings numbers fin_maps.

Local Open Scope Z_scope.
Local Open Scope rust_scope.

(** ** The file system *)

(** A directory entry: a regular file or a directory (there are no devices,
    sockets or pipes in the directories of the program), what it holds, the space
    it takes on disk and its modification time in nanoseconds. *)
Record node := mkNode {
  is_file : bool;
  data : bytes;
  real_size : Z;
  mtime : Z
}.

Abbreviation disk := (gmap string node).

(** [Metadata::is_dir]. *)
Definition is_dir (n : node) : bool := negb (is_file n).

(** [Metadata::len]. *)
Definition len (n : node) : Z := Z.of_nat (length (data n)).

(** Which calls fail, by path. *)
Record faults := mkFaults {
  f_metadata : string → bool;
  f_filesize : string → bool;
  f_remove : string → bool;
  f_mkdir : string → bool;       (* the directory is missing and cannot be made *)
  f_rename : string → bool;
  f_copy : string → bool;
  f_torn : string → option (nat * Z);   (* what a failed copy leaves: bytes, and their space *)
  f_create_state : bool;         (* creating [cache_state.dat] *)
  f_write_state : bool           (* serialising or writing it *)
}.

Definition no_faults : faults :=
  mkFaults (λ _, false) (λ _, false) (λ _, false) (λ _, false) (λ _, false) (λ _, false) (λ _, None)
    false false.

(** [tokio::fs::metadata(path).await.ok()]. *)
Definition metadata (io : faults) (d : disk) (path : string) : option node :=
  if f_metadata io path then None else d !! path.

(** [async_filesize] and [async_filesize_fast]: the space the file takes. *)
Definition async_filesize (io : faults) (path : string) (n : node) : option Z :=
  if f_filesize io path then None else Some (real_size n).

(** [std::fs::remove_file]: refuses directories. *)
Definition os_remove_file (io : faults) (path : string) (d : disk) : option disk :=
  match d !! path with
  | Some n => if f_remove io path || negb (is_file n) then None else Some (delete path d)
  | None => None
  end.

(** ** Accounting data *)

Record CacheState := mkState {
  file_count : Z;      (* u64 *)
  size_sum : Z;        (* u64, field [size] *)
  oldest : Z           (* i64, unix seconds *)
}.

(** [CacheState::add_file] and [remove_file]. *)
Definition add_file (sz : Z) (s : CacheState) : CacheState :=
  mkState (file_count s +w 1) (size_sum s +w sz) (oldest s).
Definition remove_file (sz : Z) (s : CacheState) : CacheState :=
  mkState (file_count s -w 1) (size_sum s -w sz) (oldest s).

(** [CacheState::default] at time [now] (nanoseconds). *)
Definition unix_seconds (t : Z) : Z := t / 1000000000.
Definition CacheState_default (now : Z) : CacheState := mkState 0 0 (unix_seconds now).

(** The gauges of [Metrics] the cache manager writes. *)
Record gauges := mkGauges {
  cache_count : Z;       (* u64 *)
  cache_size : Z;        (* u64 *)
  static_ranges : Z;     (* i64 *)
  cache_capacity : Z     (* i64 *)
}.

Record CacheManager := mkManager {
  cache_dir : string;
  cache_state : gmap string CacheState;
  size_limit : Z;
  metrics : gauges;
  saved : option (gmap string CacheState)    (* [cache_state.dat], when readable *)
}.

Definition set_state (m : gmap string CacheState) (c : CacheManager) : CacheManager :=
  mkManager (cache_dir c) m (size_limit c) (metrics c) (saved c).
Definition set_metrics (g : gauges) (c : CacheManager) : CacheManager :=
  mkManager (cache_dir c) (cache_state c) (size_limit c) g (saved c).

(** [cache_count.inc/dec] and [cache_size.inc_by/dec_by]. *)
Definition gauge_add (sz : Z) (g : gauges) : gauges :=
  mkGauges (cache_count g +w 1) (cache_size g +w sz) (static_ranges g) (cache_capacity g).
Definition gauge_sub (sz : Z) (g : gauges) : gauges :=
  mkGauges (cache_count g -w 1) (cache_size g -w sz) (static_ranges g) (cache_capacity g).

(** ** Operations *)

(** [CacheManager::update_settings]. *)
Definition update_settings (limit : Z) (c : CacheManager) : CacheManager :=
  let g := metrics c in
  mkManager (cache_dir c) (cache_state c) limit
    (mkGauges (cache_count g) (cache_size g) (static_ranges g)
       (if limit <=? i64_max then limit else i64_max)) (saved c).

(** [CacheManager::save_state]: creating the file truncates it before anything
    is written. *)
Definition save_state (io : faults) (c : CacheManager) : CacheManager :=
  if f_create_state io then c
  else mkManager (cache_dir c) (cache_state c) (size_limit c) (metrics c)
         (if f_write_state io then None else Some (cache_state c)).

Section ops.
Context `{HexCodec}.

(** [CacheManager::remove_cache]. *)
Definition remove_cache (io : faults) (info : CacheFileInfo) (d : disk) (c : CacheManager)
    : option () * disk * CacheManager :=
  let path := to_path info (cache_dir c) in
  match metadata io d path with
  | None => (None, d, c)
  | Some md =>
      match async_filesize io path md with
      | None => (None, d, c)
      | Some sz =>
          match os_remove_file io path d with
          | None => (None, d, c)
          | Some d' =>
              let st := match cache_state c !! static_range info with
                        | Some s => <[static_range info := remove_file sz s]> (cache_state c)
                        | None => cache_state c
                        end in
              (Some (), d', set_metrics (gauge_sub sz (metrics c)) (set_state st c))
          end
      end
  end.

(** Moving the temporary file: [rename], and [copy] when that fails.  A copy
    gets a new modification time; one that fails may have created the file and
    written a part of it. *)
Definition place_file (io : faults) (now : Z) (tmp path : string) (d : disk) : bool * disk :=
  match d !! tmp with
  | None => (false, d)
  | Some n =>
      if negb (f_rename io path) then (true, <[path := n]> (delete tmp d))
      else if f_copy io path then
        (false, match f_torn io path with
                | Some (k, sz) => <[path := mkNode (is_file n) (take k (data n)) sz now]> d
                | None => d
                end)
      else (true, <[path := mkNode (is_file n) (data n) (real_size n) now]> d)
  end.

(** [CacheManager::import_cache]. *)
Definition import_cache (io : faults) (now : Z) (info : CacheFileInfo) (tmp : string)
    (d : disk) (c : CacheManager) : disk * CacheManager :=
  let path := to_path info (cache_dir c) in
  if f_mkdir io path then (d, c)
  else
    let '(_, d, c) := remove_cache io info d c in
    match place_file io now tmp path d with
    | (false, d) => (d, c)
    | (true, d) =>
        match d !! path ≫= async_filesize io path with
        | None => (d, c)
        | Some sz =>
            let s := default (CacheState_default now) (cache_state c !! static_range info) in
            (d, set_metrics (gauge_add sz (metrics c))
                  (set_state (<[static_range info := add_file sz s]> (cache_state c)) c))
        end
    end.

(** The import can inspect and delete the file it replaces, and a copy that fails
    leaves nothing behind: what the accounts rely on. *)
Record import_io (io : faults) (path : string) : Prop := {
  io_metadata : f_metadata io path = false;
  io_filesize : f_filesize io path = false;
  io_remove : f_remove io path = false;
  io_torn : f_rename io path = true → f_copy io path = true → f_torn io path = None
}.

(** ** What is cached *)

(** The static range a path belongs to: the path is that of an identifier. *)
Definition path_info (dir path : string) : option CacheFileInfo :=
  let name := of_bytes (drop (6 + String.length (with_sep dir)) (as_bytes path)) in
  i ← from_file_id name;
  if decide (to_path i dir = path) then Some i else None.

Definition range_of (dir path : string) : option string := static_range <$> path_info dir path.

(** The cached files of a range. *)
Definition cached (dir sr : string) (d : disk) : gmap string node :=
  filter (λ e, range_of dir e.1 = Some sr ∧ is_file e.2 = true) d.

Definition cached_count (dir sr : string) (d : disk) : Z := Z.of_nat (size (cached dir sr d)).
Definition cached_size (dir sr : string) (d : disk) : Z :=
  map_sum real_size (cached dir sr d).

(** The accounting agrees with the disk: every tracked range has the number and
    the total size of its files, an untracked range has none, and the gauges
    are the totals. *)
Definition range_ok (c : CacheManager) (d : disk) (sr : string) : Prop :=
  match cache_state c !! sr with
  | Some s => file_count s = cached_count (cache_dir c) sr d ∧
              size_sum s = cached_size (cache_dir c) sr d
  | None => cached (cache_dir c) sr d = ∅
  end.

Record accounted (c : CacheManager) (d : disk) : Prop := {
  acc_range sr : range_ok c d sr;
  acc_count : cache_count (metrics c) = wrap64 (map_sum file_count (cache_state c));
  acc_size : cache_size (metrics c) = wrap64 (map_sum size_sum (cache_state c))
}.

(** The disk is one the program can run on: sizes are not negative, and all
    cached files together fit the counters. *)
Record disk_ok (dir : string) (d : disk) : Prop := {
  size_nonneg p n : d !! p = Some n → 0 ≤ real_size n;
  files_fit : Z.of_nat (size d) ≤ u64_max;
  sizes_fit : map_sum real_size d ≤ u64_max;
  paths_files p n : d !! p = Some n → is_Some (range_of dir p) → is_file n = true
}.

End ops.

(** ** Lemmas *)

Section facts.
Context `{HexLaws}.
Implicit Types (d : disk) (c : CacheManager).

Lemma to_path_canonical i dir : to_path (canonical i) dir = to_path i dir.
Proof. unfold to_path. by rewrite file_name_canonical. Qed.

Lemma path_info_to_path i dir : info_ok i → path_info dir (to_path i dir) = Some (canonical i).
Proof.
  intros Hok. pose proof Hok as (Hl & _). unfold path_info.
  assert (of_bytes (drop (6 + String.length (with_sep dir)) (as_bytes (to_path i dir))) = file_name i) as ->.
  { rewrite to_path_eq by done. destruct (static_range_slices i Hl) as [-> ->].
    destruct (hex_slices _ Hl) as (x1 & x2 & y1 & y2 & -> & -> & _).
    rewrite as_bytes_app, Nat.add_comm, <- drop_drop, <- string_length_as_bytes, drop_app_length.
    simpl. apply of_as_bytes. }
  rewrite from_file_id_file_name by done. simpl.
  by rewrite decide_True by apply to_path_canonical.
Qed.

Lemma range_of_to_path i dir : info_ok i → range_of dir (to_path i dir) = Some (static_range i).
Proof. intros. unfold range_of. by rewrite path_info_to_path. Qed.

Lemma cached_lookup dir sr d p n :
  cached dir sr d !! p = Some n ↔ d !! p = Some n ∧ range_of dir p = Some sr ∧ is_file n = true.
Proof. unfold cached. apply map_lookup_filter_Some. Qed.

Lemma cached_delete dir sr d p : cached dir sr (delete p d) = delete p (cached dir sr d).
Proof. apply map_filter_delete. Qed.

Lemma cached_delete_other dir sr d p :
  range_of dir p ≠ Some sr → cached dir sr (delete p d) = cached dir sr d.
Proof.
  intros Hp. rewrite cached_delete. apply delete_id.
  destruct (cached dir sr d !! p) eqn:E; [|done]. by apply cached_lookup in E as (_ & ? & _).
Qed.

Lemma cached_insert_other dir sr d p n :
  range_of dir p ≠ Some sr → cached dir sr (<[p := n]> d) = cached dir sr d.
Proof.
  intros Hp. unfold cached. rewrite map_filter_insert_False by (simpl; by intros [? _]).
  by apply cached_delete_other.
Qed.

Lemma cached_insert_new dir sr d p n :
  range_of dir p = Some sr → is_file n = true → cached dir sr (<[p := n]> d) = <[p := n]> (cached dir sr d).
Proof. intros. unfold cached. by rewrite map_filter_insert_True. Qed.

Lemma cached_count_delete dir sr d p n :
  cached dir sr d !! p = Some n → cached_count dir sr (delete p d) = cached_count dir sr d - 1.
Proof.
  intros E. unfold cached_count. rewrite cached_delete, map_size_delete, E.
  assert (size (cached dir sr d) ≠ 0%nat); [|lia].
  intros Hz. apply map_size_empty_inv in Hz. rewrite Hz in E. by rewrite lookup_empty in E.
Qed.

Lemma cached_size_delete dir sr d p n :
  cached dir sr d !! p = Some n → cached_size dir sr (delete p d) = cached_size dir sr d - real_size n.
Proof. intros E. unfold cached_size. rewrite cached_delete, (map_sum_delete _ _ _ _ E). lia. Qed.

Lemma cached_count_range dir sr d : disk_ok dir d → in_u64 (cached_count dir sr d).
Proof.
  intros Hd. unfold cached_count, cached. pose proof (files_fit _ _ Hd).
  pose proof (map_size_filter_le d (λ e, range_of dir e.1 = Some sr ∧ is_file e.2 = true)). word.
Qed.

Lemma cached_size_range dir sr d : disk_ok dir d → in_u64 (cached_size dir sr d).
Proof.
  intros Hd. unfold cached_size, cached. pose proof (sizes_fit _ _ Hd).
  pose proof (map_sum_filter_le real_size d (λ e, range_of dir e.1 = Some sr ∧ is_file e.2 = true)
    (size_nonneg _ _ Hd)) as Hle.
  split; [|word]. apply map_sum_nonneg. intros k x [E _]%map_lookup_filter_Some.
  by apply (size_nonneg _ _ Hd k).
Qed.

Lemma disk_ok_delete dir d p : disk_ok dir d → disk_ok dir (delete p d).
Proof.
  intros [Hn Hf Hs Hp]. split.
  - intros q n [_ E]%lookup_delete_Some. by eapply Hn.
  - pose proof (map_subseteq_size _ _ (delete_subseteq d p)). lia.
  - destruct (d !! p) as [n|] eqn:E; [|by rewrite delete_id].
    rewrite (map_sum_delete _ _ _ _ E) in Hs. pose proof (Hn p n E). lia.
  - intros q n [_ E]%lookup_delete_Some. by apply Hp.
Qed.

(** The successful branch of [remove_cache]. *)
Lemma remove_accounted_ok c d info md :
  accounted c d → disk_ok (cache_dir c) d → info_ok info →
  let path := to_path info (cache_dir c) in
  d !! path = Some md →
  ∃ s, cache_state c !! static_range info = Some s ∧
    accounted (set_metrics (gauge_sub (real_size md) (metrics c))
      (set_state (<[static_range info := remove_file (real_size md) s]> (cache_state c)) c))
      (delete path d).
Proof.
  intros [Hr Hc Hs] Hd Hi path Hp. set (sr := static_range info).
  assert (range_of (cache_dir c) path = Some sr) as Hro by by apply range_of_to_path.
  assert (cached (cache_dir c) sr d !! path = Some md) as Hin.
  { apply cached_lookup. split_and!; [done|done|]. by eapply (paths_files _ _ Hd). }
  pose proof (Hr sr) as Hsr. unfold range_ok in Hsr.
  destruct (cache_state c !! sr) as [s|] eqn:Es; [|by rewrite Hsr, lookup_empty in Hin].
  exists s. split; [done|]. destruct Hsr as [Hcnt Hsz].
  assert (file_count (remove_file (real_size md) s) = file_count s - 1) as Ec.
  { simpl. apply wrap64_small. rewrite Hcnt, <- (cached_count_delete _ _ _ _ _ Hin).
    by apply cached_count_range, disk_ok_delete. }
  assert (size_sum (remove_file (real_size md) s) = size_sum s - real_size md) as Ez.
  { simpl. apply wrap64_small. rewrite Hsz, <- (cached_size_delete _ _ _ _ _ Hin).
    by apply cached_size_range, disk_ok_delete. }
  split.
  - intros sr'. unfold range_ok. cbn [cache_state cache_dir set_metrics set_state].
    destruct (decide (sr = sr')) as [<-|Hne].
    + rewrite lookup_insert_eq, Ec, Ez, (cached_count_delete _ _ _ _ _ Hin), (cached_size_delete _ _ _ _ _ Hin). lia.
    + rewrite lookup_insert_ne by done. pose proof (Hr sr') as H'. unfold range_ok in H'.
      unfold cached_count, cached_size. rewrite cached_delete_other by congruence. exact H'.
  - cbn. rewrite Hc, wrap64_sub_l. f_equal. rewrite (map_sum_update _ _ _ s) by done. rewrite Ec. lia.
  - cbn. rewrite Hs, wrap64_sub_l. f_equal. rewrite (map_sum_update _ _ _ s) by done. rewrite Ez. lia.
Qed.

(** [remove_cache] on every branch: it changes nothing, or it removes the file
    and its account. *)
Lemma remove_cache_spec io info c d r d' c' :
  accounted c d → disk_ok (cache_dir c) d → info_ok info →
  remove_cache io info d c = (r, d', c') →
  let path := to_path info (cache_dir c) in
  accounted c' d' ∧ disk_ok (cache_dir c') d' ∧ cache_dir c' = cache_dir c ∧
  (r = None → d' = d ∧ c' = c) ∧
  (r = Some () → d' = delete path d ∧ is_Some (d !! path)).
Proof.
  intros Ha Hd Hi E path. unfold remove_cache in E. fold path in E.
  unfold metadata in E. destruct (f_metadata io path); [by simplify_eq|].
  destruct (d !! path) as [md|] eqn:Ep; [|by simplify_eq].
  unfold async_filesize in E. destruct (f_filesize io path); [by simplify_eq|].
  unfold os_remove_file in E. rewrite Ep in E.
  destruct (f_remove io path || negb (is_file md)); [by simplify_eq|].
  destruct (remove_accounted_ok c d info md Ha Hd Hi Ep) as (s & Es & Hacc).
  rewrite Es in E. injection E as <- <- <-. split_and!; [done|by apply disk_ok_delete|done..|].
  intros _. split; [done|]. by eexists.
Qed.

(** Without faults an existing file is gone afterwards. *)
Lemma remove_cache_gone io info c d r d' c' :
  disk_ok (cache_dir c) d → info_ok info →
  let path := to_path info (cache_dir c) in
  f_metadata io path = false → f_filesize io path = false → f_remove io path = false →
  remove_cache io info d c = (r, d', c') → d' = delete path d.
Proof.
  intros Hd Hi path Hm Hf Hr E. unfold remove_cache in E. fold path in E.
  unfold metadata, async_filesize, os_remove_file in E. rewrite Hm, Hf, Hr in E.
  destruct (d !! path) as [md|] eqn:Ep; [|simplify_eq; by rewrite delete_id].
  rewrite (paths_files _ _ Hd path md Ep) in E by (unfold path; rewrite range_of_to_path by done; eauto).
  simpl in E. by simplify_eq.
Qed.

Lemma disk_ok_insert dir d p n :
  disk_ok dir d → d !! p = None → 0 ≤ real_size n → is_file n = true →
  Z.of_nat (size d) + 1 ≤ u64_max → map_sum real_size d + real_size n ≤ u64_max →
  disk_ok dir (<[p := n]> d).
Proof.
  intros [Hn Hc Hs Hfl] Hp Hz Hf Hcnt Hsz. split.
  - intros q m [[_ <-]|[_ Hq]]%lookup_insert_Some; eauto.
  - rewrite map_size_insert_None by done. lia.
  - rewrite map_sum_insert by done. lia.
  - intros q m [[_ <-]|[_ Hq]]%lookup_insert_Some; eauto.
Qed.

Lemma accounted_ext c d d' :
  (∀ sr, cached (cache_dir c) sr d' = cached (cache_dir c) sr d) → accounted c d → accounted c d'.
Proof.
  intros E [Hr Hc Hs]. split; [|done..]. intros sr. pose proof (Hr sr) as H'.
  unfold range_ok, cached_count, cached_size in *. by rewrite E.
Qed.

(** Adding a file and its account. *)
Lemma add_accounted now info c d n :
  accounted c d → disk_ok (cache_dir c) d → info_ok info →
  let path := to_path info (cache_dir c) in
  d !! path = None → is_file n = true → 0 ≤ real_size n →
  Z.of_nat (size d) + 1 ≤ u64_max → map_sum real_size d + real_size n ≤ u64_max →
  let s := default (CacheState_default now) (cache_state c !! static_range info) in
  accounted (set_metrics (gauge_add (real_size n) (metrics c))
    (set_state (<[static_range info := add_file (real_size n) s]> (cache_state c)) c))
    (<[path := n]> d).
Proof.
  intros [Hr Hc Hs] Hd Hi path Hp Hfile Hn Hcnt Hsz s. set (sr := static_range info) in *.
  assert (range_of (cache_dir c) path = Some sr) as Hro by by apply range_of_to_path.
  assert (cached (cache_dir c) sr d !! path = None) as Hno.
  { destruct (cached (cache_dir c) sr d !! path) eqn:E; [|done].
    apply cached_lookup in E as (E & _). congruence. }
  assert (file_count s = cached_count (cache_dir c) sr d ∧ size_sum s = cached_size (cache_dir c) sr d) as [Ec Ez].
  { pose proof (Hr sr) as H'. unfold range_ok in H'. unfold s.
    destruct (cache_state c !! sr); [done|]. simpl. unfold cached_count, cached_size.
    by rewrite H', map_sum_empty. }
  pose proof (map_size_filter_le d (λ e, range_of (cache_dir c) e.1 = Some sr ∧ is_file e.2 = true)) as L1.
  pose proof (map_sum_filter_le real_size d
    (λ e, range_of (cache_dir c) e.1 = Some sr ∧ is_file e.2 = true) (size_nonneg _ _ Hd)) as L2.
  pose proof (cached_count_range (cache_dir c) sr d Hd). pose proof (cached_size_range (cache_dir c) sr d Hd).
  assert (file_count (add_file (real_size n) s) = file_count s + 1) as Ec'.
  { simpl. apply wrap64_small. rewrite Ec. unfold cached_count, cached in *. word. }
  assert (size_sum (add_file (real_size n) s) = size_sum s + real_size n) as Ez'.
  { simpl. apply wrap64_small. rewrite Ez. unfold cached_size, cached in *. word. }
  assert (∀ f, f (add_file (real_size n) s) = f s + (f (add_file (real_size n) s) - f s) →
    f (CacheState_default now) = 0 →
    map_sum f (<[sr := add_file (real_size n) s]> (cache_state c)) =
    map_sum f (cache_state c) + (f (add_file (real_size n) s) - f s)) as Hsum.
  { intros f Hf Hz. unfold s in *. destruct (cache_state c !! sr) as [s0|] eqn:Es; simpl default in *.
    - rewrite (map_sum_update _ _ _ s0) by done. lia.
    - rewrite map_sum_insert by done. lia. }
  split.
  - intros sr'. unfold range_ok. cbn [cache_state cache_dir set_metrics set_state].
    unfold cached_count, cached_size. destruct (decide (sr = sr')) as [<-|Hne].
    + rewrite lookup_insert_eq, Ec', Ez', cached_insert_new by done.
      rewrite map_size_insert_None, map_sum_insert by done.
      unfold cached_count, cached_size in Ec, Ez. lia.
    + rewrite lookup_insert_ne, cached_insert_other by congruence. apply (Hr sr').
  - cbn. rewrite Hc, wrap64_add_l. f_equal. rewrite Hsum by (done || lia). rewrite Ec'. lia.
  - cbn. rewrite Hs, wrap64_add_l. f_equal. rewrite Hsum by (done || lia). rewrite Ez'. lia.
Qed.

End facts.

(** ** Theorems *)

Section theorems.
Context `{HexLaws}.

(** [remove_cache] keeps the accounting exact whatever calls fail: either
    nothing changes, or the file is deleted and its count and size leave the
    range and the gauges without underflow. *)
Theorem remove_cache_accounted io info c d r d' c' :
  accounted c d → disk_ok (cache_dir c) d → info_ok info →
  remove_cache io info d c = (r, d', c') →
  accounted c' d' ∧
  (r = None → d' = d ∧ c' = c) ∧
  (r = Some () → d' = delete (to_path info (cache_dir c)) d ∧
     is_Some (d !! to_path info (cache_dir c))).
Proof.
  intros Ha Hd Hi E. destruct (remove_cache_spec io info c d r d' c' Ha Hd Hi E) as (?&?&?&?&?). done.
Qed.

(** Importing a file. *)
Lemma import_cache_spec io now info tmp n c d d' c' :
  accounted c d → disk_ok (cache_dir c) d → info_ok info →
  let path := to_path info (cache_dir c) in
  import_io io path →
  d !! tmp = Some n → is_file n = true → range_of (cache_dir c) tmp = None →
  Z.of_nat (size d) + 1 ≤ u64_max → map_sum real_size d + real_size n ≤ u64_max →
  import_cache io now info tmp d c = (d', c') →
  accounted c' d' ∧ disk_ok (cache_dir c') d' ∧ cache_dir c' = cache_dir c ∧
  (d' = d ∨ d' !! path = None ∨ ∃ n', d' !! path = Some n' ∧ data n' = data n).
Proof.
  intros Ha Hd Hi path [Hm Hf Hr Htorn] Htmp Hfile Hro Hcnt Hsz E. unfold import_cache in E.
  fold path in E. destruct (f_mkdir io path); [simplify_eq; split_and!; try done; by left|].
  destruct (remove_cache io info d c) as [[r d1] c1] eqn:E1.
  pose proof (remove_cache_gone io info c d r d1 c1 Hd Hi Hm Hf Hr E1) as Ed1. fold path in Ed1.
  destruct (remove_cache_spec io info c d r d1 c1 Ha Hd Hi E1) as (Ha1 & Hd1 & Ec1 & _).
  assert (path ≠ tmp) as Hne.
  { intros <-. pose proof (range_of_to_path info (cache_dir c) Hi). unfold path in *. congruence. }
  assert (d1 !! tmp = Some n) as Htmp1 by (subst d1; by rewrite lookup_delete_ne).
  assert (d1 !! path = None) as Hp1 by (subst d1; apply lookup_delete_eq).
  assert (Z.of_nat (size d1) + 1 ≤ u64_max ∧ map_sum real_size d1 + real_size n ≤ u64_max) as [Hc1 Hs1].
  { subst d1. pose proof (map_subseteq_size _ _ (delete_subseteq d path)). split; [lia|].
    destruct (d !! path) as [o|] eqn:Eo; [|by rewrite delete_id].
    rewrite (map_sum_delete _ _ _ _ Eo) in Hsz. pose proof (size_nonneg _ _ Hd path o Eo). lia. }
  pose proof (size_nonneg _ _ Hd tmp n Htmp) as Hn.
  assert (to_path info (cache_dir c1) = path) as Ep1 by (unfold path; by rewrite Ec1).
  unfold place_file in E. rewrite Htmp1 in E.
  destruct (f_rename io path) eqn:Ern; cbn [negb] in E; [rename E into E'|].
  2:{ rewrite lookup_insert_eq in E. simpl in E. unfold async_filesize in E. rewrite Hf in E.
    assert (disk_ok (cache_dir c1) (delete tmp d1)) as Hdel by by apply disk_ok_delete.
    assert (Z.of_nat (size (delete tmp d1)) + 1 ≤ u64_max) as Hc2
      by (pose proof (map_subseteq_size _ _ (delete_subseteq d1 tmp)); lia).
    assert (map_sum real_size (delete tmp d1) + real_size n ≤ u64_max) as Hs2
      by (rewrite (map_sum_delete _ _ _ _ Htmp1) in Hs1; lia).
    injection E as <- <-. split_and!.
    + rewrite <- Ep1. apply add_accounted; try done.
      * eapply accounted_ext; [|exact Ha1]. intros sr. apply cached_delete_other.
        rewrite Ec1, Hro. done.
      * rewrite Ep1. by rewrite lookup_delete_ne.
    + apply disk_ok_insert; try done. by rewrite lookup_delete_ne.
    + exact Ec1.
    + right; right. exists n. by rewrite lookup_insert_eq. }
  rename E' into E. destruct (f_copy io path) eqn:Ecp.
  - rewrite Htorn in E by done. simplify_eq; split_and!; try done; eauto.
  - rewrite lookup_insert_eq in E. simpl in E. unfold async_filesize in E. rewrite Hf in E.
    injection E as <- <-. split_and!.
    + rewrite <- Ep1.
      apply (add_accounted now info c1 d1 (mkNode (is_file n) (data n) (real_size n) now)); try done.
      by rewrite Ep1.
    + by apply disk_ok_insert.
    + exact Ec1.
    + right; right. eexists. by rewrite lookup_insert_eq.
Qed.

(** [import_cache] keeps the accounting exact: importing a file again
    replaces the old account instead of adding to it, and a failed directory
    creation or rename, or a copy that fails before it creates the file, leaves
    the books balanced.  (The calls that inspect and delete an existing file must
    succeed.) *)
Theorem import_cache_accounted io now info tmp n c d d' c' :
  accounted c d → disk_ok (cache_dir c) d → info_ok info →
  let path := to_path info (cache_dir c) in
  import_io io path →
  d !! tmp = Some n → is_file n = true → range_of (cache_dir c) tmp = None →
  Z.of_nat (size d) + 1 ≤ u64_max → map_sum real_size d + real_size n ≤ u64_max →
  import_cache io now info tmp d c = (d', c') →
  accounted c' d' ∧
  (d' = d ∨ d' !! path = None ∨ ∃ n', d' !! path = Some n' ∧ data n' = data n).
Proof.
  intros. edestruct import_cache_spec as (? & _ & _ & ?); eauto.
Qed.

(** What an import does to the disk, whatever calls fail: it touches the temporary
    file and the path of the identifier, and there it leaves what was there, nothing,
    or a beginning of the imported contents. *)
Lemma import_cache_disk io now info tmp n c d d' c' :
  d !! tmp = Some n → import_cache io now info tmp d c = (d', c') →
  let path := to_path info (cache_dir c) in
  cache_dir c' = cache_dir c ∧
  (∀ p, p ≠ path → p ≠ tmp → d' !! p = d !! p) ∧
  (tmp ≠ path → d' !! path = d !! path ∨ d' !! path = None ∨
    ∃ n' k, d' !! path = Some n' ∧ data n' = take k (data n)).
Proof.
  intros Htmp E path. unfold import_cache in E. fold path in E.
  destruct (f_mkdir io path); [injection E as <- <-; auto|].
  destruct (remove_cache io info d c) as [[r d1] c1] eqn:E1.
  assert (cache_dir c1 = cache_dir c ∧ (d1 = d ∨ d1 = delete path d)) as [Ec1 Hd1].
  { unfold remove_cache, os_remove_file in E1. fold path in E1. destruct (metadata io d path) as [md|]; [|simplify_eq; auto].
    destruct (async_filesize io path md); [|simplify_eq; auto]. destruct (d !! path) as [m|]; [|simplify_eq; auto].
    destruct (_ || _); simplify_eq; auto. }
  assert (cache_dir c' = cache_dir c ∧ ∃ b, place_file io now tmp path d1 = (b, d')) as (Ec & b & Ep).
  { destruct (place_file io now tmp path d1) as [[] d2]; [|injection E as <- <-; eauto].
    destruct (d2 !! path ≫= async_filesize io path); injection E as <- <-; eauto. }
  clear E E1. split; [exact Ec|]. assert (∀ p, p ≠ path → d1 !! p = d !! p) as Hother.
  { intros p Hp. destruct Hd1 as [->| ->]; [done|by rewrite lookup_delete_ne]. }
  assert (d1 !! path = d !! path ∨ d1 !! path = None) as Hpath.
  { destruct Hd1 as [->| ->]; [by left|right; apply lookup_delete_eq]. }
  unfold place_file in Ep. split.
  - intros p Hp Ht. destruct (d1 !! tmp) as [m|]; [|injection Ep as <- <-; auto].
    destruct (negb (f_rename io path)); [injection Ep as <- <-; rewrite lookup_insert_ne, lookup_delete_ne by done; auto|].
    destruct (f_copy io path); [|injection Ep as <- <-; rewrite lookup_insert_ne by done; auto].
    injection Ep as <- <-. destruct (f_torn io path) as [[k sz]|]; [rewrite lookup_insert_ne by done|]; auto.
  - intros Hne. rewrite Hother, Htmp in Ep by done.
    assert (take (length (data n)) (data n) = data n) as Hall by by apply take_ge.
    destruct (negb (f_rename io path)).
    { injection Ep as <- <-. right; right. exists n, (length (data n)). rewrite lookup_insert_eq. by split. }
    destruct (f_copy io path); [|injection Ep as <- <-; right; right; eexists _, (length (data n)); rewrite lookup_insert_eq; by split].
    injection Ep as <- <-. destruct (f_torn io path) as [[k sz]|]; [|naive_solver].
    right; right. eexists _, k. rewrite lookup_insert_eq. by split.
Qed.

End theorems.

(** ** Defects

    An import whose file is already there counts it twice when the call that inspects
    the old file fails: [remove_cache] gives up, [rename] replaces the file, and its
    account is added to the old one. *)
Theorem import_counts_twice :
  let io := mkFaults (λ _, true) (λ _, false) (λ _, false) (λ _, false) (λ _, false) (λ _, false) (λ _, None) false false in
  let path := @to_path hex_ref sample_info "cache" in
  let n := mkNode true (as_bytes "x") 4096 0 in
  let c0 := mkManager "cache" ∅ 1000000 (mkGauges 0 0 0 0) None in
  let (d1, c1) := @import_cache hex_ref no_faults 7 sample_info "tmp/p1" {[ "tmp/p1" := n ]} c0 in
  let (d2, c2) := @import_cache hex_ref io 8 sample_info "tmp/p2" (<["tmp/p2" := n]> d1) c1 in
  d2 = {[ path := n ]} ∧ cache_count (metrics c2) = 2 ∧ cache_size (metrics c2) = 8192.
Proof. vm_compute. done. Qed.

(** A copy that fails after it created the file leaves a file that is in no account. *)
Theorem import_leaves_torn_file :
  let io := mkFaults (λ _, false) (λ _, false) (λ _, false) (λ _, false) (λ _, true) (λ _, true) (λ _, Some (1%nat, 4096)) false false in
  let path := @to_path hex_ref sample_info "cache" in
  let c0 := mkManager "cache" ∅ 1000000 (mkGauges 0 0 0 0) None in
  let (d1, c1) := @import_cache hex_ref io 7 sample_info "tmp/p1" {[ "tmp/p1" := mkNode true (as_bytes "xy") 8192 0 ]} c0 in
  data <$> d1 !! path = Some (as_bytes "x") ∧ cache_state c1 = ∅ ∧ cache_count (metrics c1) = 0.
Proof. vm_compute. done. Qed.

(** ** Witnesses *)

Definition sample_path : string := @to_path hex_ref sample_info "cache".
Definition sample_node : node := mkNode true (as_bytes "x") 4096 0.
Definition sample_disk : disk := {[ "tmp/p1" := sample_node ]}.
Definition sample_cm : CacheManager := mkManager "cache" ∅ 1000000 (mkGauges 0 0 0 0) None.

Lemma sample_accounted : @accounted hex_ref sample_cm sample_disk.
Proof.
  split; [|vm_compute; reflexivity..]. intros sr. unfold range_ok. simpl.
  apply map_empty. intros p. destruct (cached _ _ _ !! p) as [m|] eqn:E; [|done].
  apply cached_lookup in E as (E & Hr & _). unfold sample_disk in E.
  apply lookup_singleton_Some in E as [<- <-]. vm_compute in Hr. discriminate.
Qed.

Lemma sample_disk_ok : @disk_ok hex_ref "cache" sample_disk.
Proof.
  unfold sample_disk. split.
  - intros p n. rewrite lookup_singleton_Some. intros [_ <-]. vm_compute. discriminate.
  - vm_compute. discriminate.
  - vm_compute. discriminate.
  - intros p n. rewrite lookup_singleton_Some. by intros [_ <-].
Qed.

Lemma sample_info_ok : info_ok sample_info.
Proof. vm_compute. split_and!; try done. Qed.

Lemma import_cache_accounted_witness :
  let r := @import_cache hex_ref no_faults 7 sample_info "tmp/p1" sample_disk sample_cm in
  @accounted hex_ref r.2 r.1 ∧ cache_size (metrics r.2) = 4096.
Proof.
  split; [|vm_compute; reflexivity].
  destruct (@import_cache hex_ref no_faults 7 sample_info "tmp/p1" sample_disk sample_cm) as [d' c'] eqn:E.
  apply (import_cache_accounted no_faults 7 sample_info "tmp/p1" sample_node sample_cm sample_disk d' c'
    sample_accounted sample_disk_ok sample_info_ok ltac:(by split) eq_refl eq_refl eq_refl);
    [vm_compute; discriminate|vm_compute; discriminate|exact E].
Defined.

Lemma remove_cache_accounted_witness :
  @accounted hex_ref sample_cm sample_disk ∧
  (@remove_cache hex_ref no_faults sample_info sample_disk sample_cm).1.1 = None.
Proof.
  destruct (@remove_cache hex_ref no_faults sample_info sample_disk sample_cm) as [[r d'] c'] eqn:E.
  pose proof (remove_cache_accounted no_faults sample_info sample_cm sample_disk r d' c'
    sample_accounted sample_disk_ok sample_info_ok E) as (Ha & Hn & _).
  assert (r = None) as -> by (vm_compute in E; congruence).
  destruct (Hn eq_refl) as [-> ->]. split; [exact Ha|reflexivity].
Defined.
