(* ===== verification/CacheConc.v ===== *)
(** * CacheConc: imports and deletions at the same time

    [src/src/cache_manager.rs]: [import_cache] and [remove_cache] are called by the
    download workers, the readers that verify, the cleaner and the purge, at the same
    time.  Here each call is a task that takes one step between two points at which
    others run: a call of the file system, an update under the lock of the accounts,
    an update of the gauges.  [CacheStore] has each call as one step. *)

From S2P Require Import Prelude Text Extern FileId CacheStore.
From stdpp Require Import base gmap list strings numbers.

Local Open Scope Z_scope.
Local Open Scope rust_scope.

(** ** Tasks *)

(** Where a call is.  [import_cache] has the steps of [remove_cache] in its middle;
    [PFilesize] remembers the file that was placed. *)
Inductive call_pc :=
| PMkdir
| PMeta
| PSize (md : node)
| PDelete (sz : Z)
| PState (sz : Z)
| PGauge (sz : Z)
| PPlace
| PFilesize (placed : node)
| PAdd (sz : Z)
| PGaugeAdd (sz : Z).

(** A call of [import_cache] with its temporary file, or of [remove_cache]. *)
Record call := mkCall { t_info : CacheFileInfo; t_tmp : option string; t_pc : call_pc }.

Record conc := mkConc { k_disk : disk; k_cm : CacheManager; k_tasks : gmap string call }.

Inductive conc_act :=
| KStart (i : string) (info : CacheFileInfo) (tmp : option string)
| KTemp (tmp : string) (n : node)
| KStep (i : string).

Section conc.
Context `{HexCodec}.
Variable io : faults.
Variable now : Z.
Variable dir : string.

Definition call_path (t : call) : string := to_path (t_info t) dir.

(** No call for the same path is running. *)
Definition apart (path : string) (tasks : gmap string call) : bool :=
  bool_decide (map_Forall (λ _ t, call_path t ≠ path) tasks).

(** The next step of a call: the disk, the accounts, and where it goes on, if it does. *)
Definition call_next (t : call) (d : disk) (c : CacheManager) : option (disk * CacheManager * option call_pc) :=
  let path := call_path t in
  let sr := static_range (t_info t) in
  let removed := match t_tmp t with Some _ => Some PPlace | None => None end in
  match t_pc t with
  | PMkdir => Some (d, c, if f_mkdir io path then None else Some PMeta)
  | PMeta => Some (d, c, match metadata io d path with Some md => Some (PSize md) | None => removed end)
  | PSize md => Some (d, c, match async_filesize io path md with Some sz => Some (PDelete sz) | None => removed end)
  | PDelete sz =>
      Some (match os_remove_file io path d with
            | Some d => (d, c, Some (PState sz))
            | None => (d, c, removed)
            end)
  | PState sz =>
      let st := match cache_state c !! sr with
                | Some s => <[sr := remove_file sz s]> (cache_state c)
                | None => cache_state c
                end in
      Some (d, set_state st c, Some (PGauge sz))
  | PGauge sz => Some (d, set_metrics (gauge_sub sz (metrics c)) c, removed)
  | PPlace =>
      tmp ← t_tmp t;
      match place_file io now tmp path d with
      | (true, d') => n ← d' !! path; Some (d', c, Some (PFilesize n))
      | (false, d') => Some (d', c, None)
      end
  | PFilesize _ =>
      Some (d, c, match d !! path ≫= async_filesize io path with Some sz => Some (PAdd sz) | None => None end)
  | PAdd sz =>
      let s := default (CacheState_default now) (cache_state c !! sr) in
      Some (d, set_state (<[sr := add_file sz s]> (cache_state c)) c, Some (PGaugeAdd sz))
  | PGaugeAdd sz => Some (d, set_metrics (gauge_add sz (metrics c)) c, None)
  end.

Definition resume (i : string) (t : call) (o : option call_pc) (tasks : gmap string call) : gmap string call :=
  match o with
  | Some pc => <[i := mkCall (t_info t) (t_tmp t) pc]> tasks
  | None => delete i tasks
  end.

(** [exclusive]: callers have no two calls for a path at a time.  A call of
    [import_cache] comes with a temporary file that is there. *)
Definition conc_step (exclusive : bool) (x : conc_act) (s : conc) : option conc :=
  match x with
  | KStart i info tmp =>
      let ok := match tmp with
                | Some tmp => match k_disk s !! tmp with Some n => is_file n | None => false end
                | None => true
                end in
      if bool_decide (k_tasks s !! i = None) && ok && (negb exclusive || apart (to_path info dir) (k_tasks s))
      then Some (mkConc (k_disk s) (k_cm s)
             (<[i := mkCall info tmp (match tmp with Some _ => PMkdir | None => PMeta end)]> (k_tasks s)))
      else None
  | KTemp tmp n =>
      if bool_decide (k_disk s !! tmp = None) then Some (mkConc (<[tmp := n]> (k_disk s)) (k_cm s) (k_tasks s)) else None
  | KStep i =>
      t ← k_tasks s !! i;
      '(d, c, o) ← call_next t (k_disk s) (k_cm s);
      Some (mkConc d c (resume i t o (k_tasks s)))
  end.

Fixpoint conc_run (exclusive : bool) (l : list conc_act) (s : conc) : option conc :=
  match l with [] => Some s | x :: l => s ← conc_step exclusive x s; conc_run exclusive l s end.

(** What callers pass: file names that exist, temporary files outside the cache. *)
Definition act_ok (x : conc_act) : Prop :=
  match x with
  | KStart _ info tmp => info_ok info ∧ ∀ p, tmp = Some p → range_of dir p = None
  | KTemp tmp n => range_of dir tmp = None ∧ is_file n = true
  | KStep _ => True
  end.

(** ** The invariant *)

(** What is counted: files, or the space they take. *)
Inductive unit_of := Files | Space.

Definition weigh (u : unit_of) (sz : Z) : Z := match u with Files => 1 | Space => sz end.
Definition account (u : unit_of) : CacheState → Z := match u with Files => file_count | Space => size_sum end.
Definition gauge (u : unit_of) : gauges → Z := match u with Files => cache_count | Space => cache_size end.

(** What a call has done to the disk and not yet to the accounts ... *)
Definition owed (u : unit_of) (pc : call_pc) : Z :=
  match pc with
  | PState sz => weigh u sz
  | PFilesize n => - weigh u (real_size n)
  | PAdd sz => - weigh u sz
  | _ => 0
  end.
Definition range_owed (u : unit_of) (sr : string) (t : call) : Z :=
  if decide (static_range (t_info t) = sr) then owed u (t_pc t) else 0.
(** ... and to the accounts and not yet to the gauges. *)
Definition gauge_owed (u : unit_of) (pc : call_pc) : Z :=
  match pc with PGauge sz => weigh u sz | PGaugeAdd sz => - weigh u sz | _ => 0 end.

Definition placing (pc : call_pc) : bool := match pc with PFilesize _ | PAdd _ => true | _ => false end.

Definition on_disk (u : unit_of) (sr : string) (d : disk) : Z := map_sum (λ n, weigh u (real_size n)) (cached dir sr d).
Definition in_account (u : unit_of) (sr : string) (c : CacheManager) : Z :=
  default 0 (account u <$> cache_state c !! sr).

(** The file at the path of a call. *)
Definition call_at (d : disk) (t : call) : Prop :=
  match t_pc t with
  | PSize md => d !! call_path t = Some md
  | PDelete sz => ∃ md, d !! call_path t = Some md ∧ real_size md = sz
  | PState _ | PGauge _ | PPlace => d !! call_path t = None
  | PFilesize n => d !! call_path t = Some n
  | PAdd sz => ∃ n, d !! call_path t = Some n ∧ real_size n = sz
  | _ => True
  end.

Record call_ok (d : disk) (c : CacheManager) (t : call) : Prop := {
  o_info : info_ok (t_info t);
  o_at : call_at d t;
  o_out tmp : t_tmp t = Some tmp → range_of dir tmp = None;
  o_tmp tmp n : t_tmp t = Some tmp → d !! tmp = Some n → is_file n = true;
  o_state sz : t_pc t = PState sz → is_Some (cache_state c !! static_range (t_info t))
}.

Record conc_inv (s : conc) : Prop := {
  j_dir : cache_dir (k_cm s) = dir;
  j_files p n : k_disk s !! p = Some n → is_Some (range_of dir p) → is_file n = true;
  j_call i t : k_tasks s !! i = Some t → call_ok (k_disk s) (k_cm s) t;
  j_apart i j t t' : k_tasks s !! i = Some t → k_tasks s !! j = Some t' → call_path t = call_path t' → i = j;
  j_key p n sr : k_disk s !! p = Some n → range_of dir p = Some sr →
    is_Some (cache_state (k_cm s) !! sr) ∨ ∃ i t, k_tasks s !! i = Some t ∧ call_path t = p ∧ placing (t_pc t) = true;
  j_account u sr : in_account u sr (k_cm s) =
    wrap64 (on_disk u sr (k_disk s) + map_sum (range_owed u sr) (k_tasks s));
  j_gauge u : gauge u (metrics (k_cm s)) =
    wrap64 (map_sum (account u) (cache_state (k_cm s)) + map_sum (λ t, gauge_owed u (t_pc t)) (k_tasks s))
}.

End conc.

(** ** Lemmas *)

Section facts.
Context `{HexLaws}.
Variable io : faults.
Variable now : Z.
Variable dir : string.
Implicit Types (d : disk) (c : CacheManager) (t : call) (u : unit_of).

Definition pc_owed (f : call_pc → Z) (o : option call_pc) : Z := default 0 (f <$> o).

Lemma sum_resume (f : call → Z) i t o tasks :
  tasks !! i = Some t →
  map_sum f (resume i t o tasks) =
  map_sum f tasks - f t + pc_owed (λ pc, f (mkCall (t_info t) (t_tmp t) pc)) o.
Proof.
  intros E. destruct o as [pc|]; cbn.
  - by rewrite (map_sum_update _ _ _ _ _ E).
  - rewrite (map_sum_delete _ _ _ _ E). lia.
Qed.

Lemma range_owed_resume u sr i t o tasks :
  tasks !! i = Some t →
  map_sum (range_owed u sr) (resume i t o tasks) = map_sum (range_owed u sr) tasks +
    (if decide (static_range (t_info t) = sr) then pc_owed (owed u) o - owed u (t_pc t) else 0).
Proof.
  intros E. rewrite (sum_resume _ _ _ _ _ E). unfold range_owed. destruct o; cbn; case_decide; lia.
Qed.

Lemma gauge_owed_resume u i t o tasks :
  tasks !! i = Some t →
  map_sum (λ t, gauge_owed u (t_pc t)) (resume i t o tasks) =
  map_sum (λ t, gauge_owed u (t_pc t)) tasks + (pc_owed (gauge_owed u) o - gauge_owed u (t_pc t)).
Proof. intros E. rewrite (sum_resume _ _ _ _ _ E). destruct o; cbn; lia. Qed.

Lemma resume_lookup i t o tasks j t' :
  resume i t o tasks !! j = Some t' →
  (j = i ∧ ∃ pc, o = Some pc ∧ t' = mkCall (t_info t) (t_tmp t) pc) ∨ (j ≠ i ∧ tasks !! j = Some t').
Proof.
  destruct o as [pc|]; cbn.
  - intros [[<- <-]|[? ?]]%lookup_insert_Some; [left|right]; eauto.
  - intros [? ?]%lookup_delete_Some. right. eauto.
Qed.

Lemma resume_other i t o tasks j t' : j ≠ i → tasks !! j = Some t' → resume i t o tasks !! j = Some t'.
Proof. intros. destruct o; cbn; [by rewrite lookup_insert_ne|by rewrite lookup_delete_ne]. Qed.

(** Accounts of a range, when one state is replaced. *)
Lemma account_sum u c c' sr :
  (∀ sr', sr' ≠ sr → cache_state c' !! sr' = cache_state c !! sr') →
  map_sum (account u) (cache_state c') =
  map_sum (account u) (cache_state c) + (in_account u sr c' - in_account u sr c).
Proof.
  intros Hother. unfold in_account.
  assert (delete sr (cache_state c') = delete sr (cache_state c)) as E.
  { apply map_eq. intros k. destruct (decide (k = sr)) as [->|]; [by rewrite !lookup_delete_eq|].
    rewrite !lookup_delete_ne by done. by apply Hother. }
  assert (∀ m : gmap string CacheState,
    map_sum (account u) m = default 0 (account u <$> m !! sr) + map_sum (account u) (delete sr m)) as Hs.
  { intros m. destruct (m !! sr) as [x|] eqn:Ex; cbn; [by apply map_sum_delete|by rewrite delete_id]. }
  rewrite (Hs (cache_state c')), (Hs (cache_state c)), E. lia.
Qed.

(** Only the range of the path sees a change there. *)
Lemma cached_frame d d' p sr :
  (∀ q, q ≠ p → is_Some (range_of dir q) → d' !! q = d !! q) → range_of dir p ≠ Some sr →
  cached dir sr d' = cached dir sr d.
Proof.
  intros Hf Hp. apply map_eq. intros q. apply option_eq. intros n. rewrite !cached_lookup.
  split; intros (E & Hr & Hi); (split_and!; [|done..]); revert E; rewrite Hf; eauto; congruence.
Qed.

Lemma call_at_frame d d' t : d' !! call_path dir t = d !! call_path dir t → call_at dir d t → call_at dir d' t.
Proof. unfold call_at. by intros ->. Qed.

Section frame.
Variables (s : conc) (i : string) (t : call) (d' : disk) (c' : CacheManager) (o : option call_pc).
Let path := call_path dir t.
Let sr := static_range (t_info t).

(** What a step of call [i] keeps. *)
Record step_frame : Prop := {
  fr_dir : cache_dir c' = dir;
  fr_disk p : p ≠ path → is_Some (range_of dir p) → d' !! p = k_disk s !! p;
  fr_files p n : d' !! p = Some n → k_disk s !! p = Some n ∨ is_file n = true;
  fr_keys sr' : is_Some (cache_state (k_cm s) !! sr') → is_Some (cache_state c' !! sr');
  fr_state sr' : sr' ≠ sr → cache_state c' !! sr' = cache_state (k_cm s) !! sr';
  fr_at pc : o = Some pc → call_at dir d' (mkCall (t_info t) (t_tmp t) pc) ∧
    ∀ sz, pc = PState sz → is_Some (cache_state c' !! sr);
  fr_key n : d' !! path = Some n → is_Some (cache_state c' !! sr) ∨ ∃ pc, o = Some pc ∧ placing pc = true;
  fr_account u : in_account u sr c' = wrap64 (in_account u sr (k_cm s) +
    (on_disk dir u sr d' - on_disk dir u sr (k_disk s)) + (pc_owed (owed u) o - owed u (t_pc t)));
  fr_gauge u : gauge u (metrics c') = wrap64 (gauge u (metrics (k_cm s)) +
    (in_account u sr c' - in_account u sr (k_cm s)) + (pc_owed (gauge_owed u) o - gauge_owed u (t_pc t)))
}.

Hypothesis inv : conc_inv dir s.
Hypothesis task : k_tasks s !! i = Some t.
Hypothesis fr : step_frame.

Let ok := j_call dir s inv i t task.

Lemma path_range : range_of dir path = Some sr.
Proof. apply range_of_to_path, (o_info _ _ _ _ ok). Qed.

Lemma frame_other j t' : j ≠ i → k_tasks s !! j = Some t' → call_ok dir d' c' t'.
Proof.
  intros Hj E. destruct (j_call _ _ inv j t' E) as [Hi Ha Ho Ht Hs]. split; [done| |done| |].
  - eapply call_at_frame; [|done]. apply (fr_disk fr).
    + intros Hp. by destruct Hj; eapply (j_apart _ _ inv).
    + unfold call_path. rewrite range_of_to_path by done. eauto.
  - intros tmp n Et Ed. destruct (fr_files fr _ _ Ed); [by eapply Ht|done].
  - intros sz Ep. apply (fr_keys fr). by eapply Hs.
Qed.

Lemma frame_self pc : o = Some pc → call_ok dir d' c' (mkCall (t_info t) (t_tmp t) pc).
Proof.
  intros Eo. destruct (fr_at fr pc Eo) as [Ha Hs]. destruct ok as [Hi _ Ho Ht _]. split; [done..| |].
  - intros tmp n Et Ed. destruct (fr_files fr _ _ Ed); [by eapply Ht|done].
  - exact Hs.
Qed.

Lemma frame_account u sr' : in_account u sr' c' =
  wrap64 (on_disk dir u sr' d' + map_sum (range_owed u sr') (resume i t o (k_tasks s))).
Proof.
  rewrite range_owed_resume by done. fold sr. destruct (decide (sr = sr')) as [<-|Hne].
  - rewrite (fr_account fr), (j_account _ _ inv), <- Z.add_assoc, wrap64_add_l. f_equal. lia.
  - assert (in_account u sr' c' = in_account u sr' (k_cm s)) as ->
      by (unfold in_account; by rewrite (fr_state fr) by done).
    assert (on_disk dir u sr' d' = on_disk dir u sr' (k_disk s)) as ->.
    { unfold on_disk. f_equal. apply (cached_frame _ _ path); [apply (fr_disk fr)|]. rewrite path_range. congruence. }
    rewrite (j_account _ _ inv). f_equal. lia.
Qed.

Lemma frame_inv : conc_inv dir (mkConc d' c' (resume i t o (k_tasks s))).
Proof.
  split; cbn [k_disk k_cm k_tasks].
  - apply (fr_dir fr).
  - intros p n E Hr. destruct (fr_files fr p n E); [by eapply (j_files _ _ inv)|done].
  - intros j t' [(-> & pc & Eo & ->)|[? ?]]%resume_lookup; [by apply frame_self|by eapply frame_other].
  - assert (∀ k v, resume i t o (k_tasks s) !! k = Some v →
      ∃ v', k_tasks s !! k = Some v' ∧ call_path dir v' = call_path dir v) as Hold.
    { intros k v [(-> & pc & Eo & ->)|[? ?]]%resume_lookup; eauto. }
    intros j k t1 t2 (u1 & E1 & P1)%Hold (u2 & E2 & P2)%Hold Hp. eapply (j_apart _ _ inv); [done..|]. congruence.
  - intros p n sr' E Hr. destruct (decide (p = path)) as [->|Hp].
    + rewrite path_range in Hr. simplify_eq. destruct (fr_key fr n E) as [|(pc & Eo & Hpl)]; [by left|right].
      exists i, (mkCall (t_info t) (t_tmp t) pc). rewrite Eo. cbn. by rewrite lookup_insert_eq.
    + rewrite (fr_disk fr) in E by (rewrite ?Hr; eauto).
      destruct (j_key _ _ inv p n sr' E Hr) as [|(j & t' & Ej & Hpath & Hpl)]; [left; by apply (fr_keys fr)|right].
      exists j, t'. split_and!; [|done..]. apply resume_other; [|done]. intros ->. apply Hp. unfold path. congruence.
  - apply frame_account.
  - intros u. rewrite gauge_owed_resume by done. rewrite (fr_gauge fr), (j_gauge _ _ inv).
    rewrite (account_sum u (k_cm s) c' sr (fr_state fr)), <- Z.add_assoc, wrap64_add_l. f_equal. lia.
Qed.

End frame.

(** *** The steps *)

Lemma wrap64_mid a b e f : wrap64 (a + (wrap64 b - e) + f) = wrap64 (a + (b - e) + f).
Proof.
  replace (a + (wrap64 b - e) + f) with (wrap64 b + (a - e + f)) by lia. rewrite wrap64_add_l. f_equal. lia.
Qed.

Lemma account_wrap s u sr : conc_inv dir s → wrap64 (in_account u sr (k_cm s)) = in_account u sr (k_cm s).
Proof. intros inv. apply wrap64_small. rewrite (j_account _ _ inv). apply wrap64_range. Qed.

Lemma gauge_wrap s u : conc_inv dir s → wrap64 (gauge u (metrics (k_cm s))) = gauge u (metrics (k_cm s)).
Proof. intros inv. apply wrap64_small. rewrite (j_gauge _ _ inv). apply wrap64_range. Qed.

(** The account of the file at a call's path, unless the call itself just placed it. *)
Lemma key_at s i t n :
  conc_inv dir s → k_tasks s !! i = Some t → k_disk s !! call_path dir t = Some n → placing (t_pc t) = false →
  is_Some (cache_state (k_cm s) !! static_range (t_info t)).
Proof.
  intros inv E Ed Hp. pose proof (path_range s i t inv E) as Hr.
  destruct (j_key _ _ inv _ _ _ Ed Hr) as [|(j & t' & Ej & Hpath & Hpl)]; [done|].
  assert (j = i) as -> by (by eapply (j_apart _ _ inv)). congruence.
Qed.

(** Steps that read. *)
Lemma still_frame s i t o :
  conc_inv dir s → k_tasks s !! i = Some t →
  (∀ pc, o = Some pc → call_at dir (k_disk s) (mkCall (t_info t) (t_tmp t) pc) ∧ ∀ sz, pc ≠ PState sz) →
  (∀ u, pc_owed (owed u) o = owed u (t_pc t) ∧ pc_owed (gauge_owed u) o = gauge_owed u (t_pc t)) →
  (placing (t_pc t) = true → ∃ pc, o = Some pc ∧ placing pc = true) →
  step_frame s t (k_disk s) (k_cm s) o.
Proof.
  intros inv E Hat How Hpl. split; try done; eauto.
  - apply (j_dir _ _ inv).
  - intros pc Eo. destruct (Hat pc Eo) as [? Hn]. split; [done|]. intros sz Ep. by destruct (Hn sz).
  - intros n Ed. destruct (placing (t_pc t)) eqn:Ep; [right; eauto|left; by eapply key_at].
  - intros u. destruct (How u) as [-> _]. rewrite !Z.sub_diag, !Z.add_0_r. by rewrite account_wrap.
  - intros u. destruct (How u) as [_ ->]. rewrite !Z.sub_diag, !Z.add_0_r. by rewrite gauge_wrap.
Qed.

(** Steps that update the accounts of the range: [PState] and [PAdd]. *)
Lemma state_frame s i t x pc :
  conc_inv dir s → k_tasks s !! i = Some t →
  let sr := static_range (t_info t) in
  let c' := set_state (<[sr := x]> (cache_state (k_cm s))) (k_cm s) in
  call_at dir (k_disk s) (mkCall (t_info t) (t_tmp t) pc) →
  (∀ u, owed u pc = 0 ∧ gauge_owed u (t_pc t) = 0 ∧ gauge_owed u pc = owed u (t_pc t) ∧
    account u x = wrap64 (in_account u sr (k_cm s) - owed u (t_pc t))) →
  step_frame s t (k_disk s) c' (Some pc).
Proof.
  intros inv E sr c' Hat Hw.
  assert (∀ u, in_account u sr c' = account u x) as Hx.
  { intros u. unfold in_account, c'. cbn. by rewrite lookup_insert_eq. }
  split; try done; eauto.
  - apply (j_dir _ _ inv).
  - intros sr' [y Hy]. unfold c'. cbn. destruct (decide (sr' = sr)) as [->|]; [rewrite lookup_insert_eq|rewrite lookup_insert_ne by done]; eauto.
  - intros sr' Hne. unfold c'. cbn. by rewrite lookup_insert_ne.
  - intros pc' [= <-]. split; [done|]. intros sz _. unfold c'. cbn. fold sr. rewrite lookup_insert_eq. eauto.
  - intros n _. left. unfold c'. cbn. fold sr. rewrite lookup_insert_eq. eauto.
  - intros u. fold sr. rewrite Hx. destruct (Hw u) as (H1 & H2 & H3 & ->). cbn. rewrite H1. f_equal. lia.
  - intros u. fold sr. rewrite Hx. destruct (Hw u) as (H1 & H2 & H3 & ->). cbn. rewrite H2, H3.
    rewrite <- (gauge_wrap s u inv) at 1. symmetry.
    rewrite wrap64_mid. f_equal. lia.
Qed.

(** Steps that update the gauges: [PGauge] and [PGaugeAdd]. *)
Lemma gauge_frame s i t g o :
  conc_inv dir s → k_tasks s !! i = Some t → placing (t_pc t) = false →
  (∀ pc, o = Some pc → call_at dir (k_disk s) (mkCall (t_info t) (t_tmp t) pc) ∧ ∀ sz, pc ≠ PState sz) →
  (∀ u, pc_owed (owed u) o = 0 ∧ owed u (t_pc t) = 0 ∧ pc_owed (gauge_owed u) o = 0 ∧
    gauge u g = wrap64 (gauge u (metrics (k_cm s)) - gauge_owed u (t_pc t))) →
  step_frame s t (k_disk s) (set_metrics g (k_cm s)) o.
Proof.
  intros inv E Hnp Hat Hw. split; try done; eauto.
  - apply (j_dir _ _ inv).
  - intros pc Eo. destruct (Hat pc Eo) as [? Hn]. split; [done|]. intros sz Ep. by destruct (Hn sz).
  - intros n Ed. left. by eapply key_at.
  - intros u. destruct (Hw u) as (-> & -> & _). change (in_account u ?r (set_metrics _ ?c)) with (in_account u r c).
    rewrite !Z.sub_diag, !Z.add_0_r. by rewrite account_wrap.
  - intros u. destruct (Hw u) as (_ & _ & H3 & Hg). cbn [metrics set_metrics]. rewrite H3, Hg. f_equal.
    change (in_account u ?r (set_metrics _ ?c)) with (in_account u r c). lia.
Qed.

(** Steps that change the disk: [PDelete] and [PPlace]. *)
Lemma disk_frame s i t d' pc :
  conc_inv dir s → k_tasks s !! i = Some t → placing (t_pc t) = false →
  let sr := static_range (t_info t) in
  (∀ p, p ≠ call_path dir t → is_Some (range_of dir p) → d' !! p = k_disk s !! p) →
  (∀ p n, d' !! p = Some n → k_disk s !! p = Some n ∨ is_file n = true) →
  call_at dir d' (mkCall (t_info t) (t_tmp t) pc) →
  (∀ n, d' !! call_path dir t = Some n → placing pc = true) →
  (∀ sz, pc = PState sz → is_Some (cache_state (k_cm s) !! sr)) →
  (∀ u, on_disk dir u sr d' = on_disk dir u sr (k_disk s) - owed u pc ∧ owed u (t_pc t) = 0 ∧
    gauge_owed u (t_pc t) = 0 ∧ gauge_owed u pc = 0) →
  step_frame s t d' (k_cm s) (Some pc).
Proof.
  intros inv E Hnp sr Hd Hf Hat Hk Hs Hw. split; try done; eauto.
  - apply (j_dir _ _ inv).
  - by intros pc' [= <-].
  - intros u. destruct (Hw u) as (Ho & -> & _). fold sr. rewrite Ho. cbn.
    rewrite <- (account_wrap s u sr inv) at 1. f_equal. lia.
  - intros u. destruct (Hw u) as (_ & _ & -> & Hg). cbn. rewrite Hg, !Z.sub_diag, !Z.add_0_r. by rewrite gauge_wrap.
Qed.


Lemma on_disk_delete u sr d p n :
  cached dir sr d !! p = Some n → on_disk dir u sr (delete p d) = on_disk dir u sr d - weigh u (real_size n).
Proof. intros E. unfold on_disk. rewrite cached_delete, (map_sum_delete _ _ _ _ E). lia. Qed.

Lemma on_disk_insert u sr d p n :
  d !! p = None → range_of dir p = Some sr → is_file n = true →
  on_disk dir u sr (<[p := n]> d) = on_disk dir u sr d + weigh u (real_size n).
Proof.
  intros E Hr Hf. unfold on_disk. rewrite cached_insert_new by done. rewrite map_sum_insert; [lia|].
  destruct (cached dir sr d !! p) eqn:Ec; [|done]. apply cached_lookup in Ec as (Ec & _). congruence.
Qed.

Lemma on_disk_temp u sr d p : range_of dir p = None → on_disk dir u sr (delete p d) = on_disk dir u sr d.
Proof. intros Hr. unfold on_disk. by rewrite cached_delete_other by congruence. Qed.

(** The operating system answers questions and deletes what is there; making
    directories, renaming and copying may fail, but a failed copy leaves nothing. *)
Hypothesis answers : ∀ p, import_io io p.

Lemma delete_frame s i t sz d' :
  conc_inv dir s → k_tasks s !! i = Some t → t_pc t = PDelete sz →
  os_remove_file io (call_path dir t) (k_disk s) = Some d' →
  step_frame s t d' (k_cm s) (Some (PState sz)).
Proof.
  intros inv E Ep Hd. destruct (j_call _ _ inv i t E) as [Hi Hat _ _ _]. unfold call_at in Hat. rewrite Ep in Hat.
  destruct Hat as (md & Emd & <-). unfold os_remove_file in Hd. rewrite Emd in Hd.
  destruct (f_remove io _ || negb (is_file md)) eqn:Eb; [done|]. injection Hd as <-.
  apply orb_false_iff in Eb as [_ Ef%negb_false_iff].
  eapply disk_frame; try done.
  - by rewrite Ep.
  - intros p Hp _. by rewrite lookup_delete_ne.
  - intros p n [_ Ed]%lookup_delete_Some. by left.
  - unfold call_at. cbn. apply lookup_delete_eq.
  - intros n. by rewrite lookup_delete_eq.
  - intros sz' _. eapply key_at; try done. by rewrite Ep.
  - intros u. rewrite Ep. split_and!; try done. rewrite (on_disk_delete _ _ _ _ md); [cbn; reflexivity|].
    apply cached_lookup. split_and!; [done|by apply (path_range s i)|done].
Qed.

Lemma place_frame s i t tmp d' n :
  conc_inv dir s → k_tasks s !! i = Some t → t_pc t = PPlace → t_tmp t = Some tmp →
  place_file io now tmp (call_path dir t) (k_disk s) = (true, d') → d' !! call_path dir t = Some n →
  step_frame s t d' (k_cm s) (Some (PFilesize n)).
Proof.
  intros inv E Ep Et Hd En. destruct (j_call _ _ inv i t E) as [Hi Hat Hout Hfile _].
  unfold call_at in Hat. rewrite Ep in Hat. specialize (Hout tmp Et).
  pose proof (path_range s i t inv E) as Hr.
  assert (call_path dir t ≠ tmp) as Hne by (intros Heq; rewrite Heq in Hr; congruence).
  unfold place_file in Hd. destruct (k_disk s !! tmp) as [m|] eqn:Em; [|done].
  pose proof (Hfile tmp m Et Em) as Hm.
  assert (∃ d0, d' = <[call_path dir t := n]> d0 ∧ is_file n = true ∧ (d0 = k_disk s ∨ d0 = delete tmp (k_disk s))) as
    (d0 & -> & Hn & Hd0).
  { destruct (negb (f_rename io _)); [|destruct (f_copy io _); [done|]]; injection Hd as <-;
      rewrite lookup_insert_eq in En; injection En as <-; eauto. }
  assert (∀ p, is_Some (range_of dir p) → d0 !! p = k_disk s !! p) as Hsame.
  { intros p [x Hp]. destruct Hd0 as [->| ->]; [done|]. rewrite lookup_delete_ne; [done|]. congruence. }
  eapply disk_frame; try done.
  - by rewrite Ep.
  - intros p Hp Hs. rewrite lookup_insert_ne by done. by apply Hsame.
  - intros p m' [[_ <-]|[_ Ed]]%lookup_insert_Some; [by right|left].
    destruct Hd0 as [->| ->]; [done|]. by apply lookup_delete_Some in Ed as [_ ?].
  - intros u. rewrite Ep. split_and!; try done. rewrite on_disk_insert; [|by rewrite Hsame; eauto|done..].
    destruct Hd0 as [->| ->]; [|rewrite on_disk_temp by done]; cbn; lia.
Qed.

(** After its deletion [remove_cache] returns, to [import_cache] if that called it. *)
Lemma removed_at d t pc :
  d !! call_path dir t = None →
  match t_tmp t with Some _ => Some PPlace | None => None end = Some pc →
  call_at dir d (mkCall (t_info t) (t_tmp t) pc) ∧ ∀ sz, pc ≠ PState sz.
Proof. destruct (t_tmp t); by intros Hd [= <-]. Qed.

Lemma removed_owed t u :
  let o := match t_tmp t with Some _ => Some PPlace | None => None end in
  pc_owed (owed u) o = 0 ∧ pc_owed (gauge_owed u) o = 0.
Proof. by destruct (t_tmp t). Qed.

(** Every step of a call keeps the invariant. *)
Lemma call_next_frame s i t d' c' o :
  conc_inv dir s → k_tasks s !! i = Some t →
  call_next io now dir t (k_disk s) (k_cm s) = Some (d', c', o) → step_frame s t d' c' o.
Proof.
  intros inv E Hn. destruct (j_call _ _ inv i t E) as [Hi Hat Hout Hfile Hst].
  destruct (answers (call_path dir t)) as [A1 A2 A3 A4]. pose proof (path_range s i t inv E) as Hr.
  unfold call_next, metadata, async_filesize in Hn. unfold call_at in Hat. rewrite ?A1, ?A2 in Hn.
  destruct (t_pc t) as [| |md|sz|sz|sz| |m|sz|sz] eqn:Ep.
  - injection Hn as <- <- <-. apply (still_frame s i); rewrite ?Ep; try done; destruct (f_mkdir io _); try done.
    by intros pc [= <-].
  - injection Hn as <- <- <-. destruct (k_disk s !! call_path dir t) as [md|] eqn:Ed;
      apply (still_frame s i); rewrite ?Ep; try done; [by intros pc [= <-]|by intros pc; apply removed_at|intros u; by apply removed_owed].
  - injection Hn as <- <- <-. apply (still_frame s i); rewrite ?Ep; try done.
    intros pc [= <-]. split; [|done]. unfold call_at. cbn. eauto.
  - destruct (os_remove_file io _ _) as [d1|] eqn:Ed; injection Hn as <- <- <-; [by eapply delete_frame|].
    exfalso. destruct Hat as (md & Emd & _). unfold os_remove_file in Ed. rewrite Emd, A3 in Ed.
    by rewrite (j_files _ _ inv _ _ Emd) in Ed by (rewrite Hr; eauto).
  - destruct (Hst sz eq_refl) as [x Ex]. rewrite Ex in Hn. injection Hn as <- <- <-.
    apply (state_frame s i); try done. intros u. rewrite Ep. split_and!; try done.
    unfold in_account. rewrite Ex. by destruct u.
  - injection Hn as <- <- <-. apply (gauge_frame s i); rewrite ?Ep; try done; [by intros pc; apply removed_at|].
    intros u. destruct (removed_owed t u) as [-> ->]. split_and!; try done. by destruct u.
  - destruct (t_tmp t) as [tmp|] eqn:Et; [|done]. cbn in Hn.
    destruct (place_file io now tmp _ _) as [[] d1] eqn:Ed.
    + destruct (d1 !! call_path dir t) as [n|] eqn:En; [|done]. cbn in Hn. injection Hn as <- <- <-.
      by eapply place_frame.
    + injection Hn as <- <- <-. assert (d1 = k_disk s) as ->; [|by apply (still_frame s i); rewrite ?Ep].
      unfold place_file in Ed. destruct (k_disk s !! tmp); [|by injection Ed].
      destruct (f_rename io _); [|done]. destruct (f_copy io _); [|done]. cbn in Ed. rewrite A4 in Ed by done. by injection Ed.
  - rewrite Hat in Hn. cbn in Hn. injection Hn as <- <- <-.
    apply (still_frame s i); rewrite ?Ep; try done; eauto. intros pc [= <-]. split; [|done]. unfold call_at. cbn. eauto.
  - injection Hn as <- <- <-. apply (state_frame s i); try done. intros u. rewrite Ep. split_and!; try done.
    unfold in_account. destruct (cache_state (k_cm s) !! _); destruct u; cbn; f_equal; lia.
  - injection Hn as <- <- <-. apply (gauge_frame s i); rewrite ?Ep; try done.
    intros u. split_and!; try done. destruct u; cbn; f_equal; lia.
Qed.


(** *** Runs *)

Lemma sum_start (f : call → Z) i t (tasks : gmap string call) :
  tasks !! i = None → f t = 0 → map_sum f (<[i := t]> tasks) = map_sum f tasks.
Proof. intros E Hf. rewrite map_sum_insert by done. lia. Qed.

Lemma start_call s i t :
  conc_inv dir s → k_tasks s !! i = None → call_ok dir (k_disk s) (k_cm s) t →
  apart dir (call_path dir t) (k_tasks s) = true → (∀ u, owed u (t_pc t) = 0 ∧ gauge_owed u (t_pc t) = 0) →
  conc_inv dir (mkConc (k_disk s) (k_cm s) (<[i := t]> (k_tasks s))).
Proof.
  intros inv Ei Ht Hap%bool_decide_eq_true Hw. split; cbn [k_disk k_cm k_tasks].
  - apply (j_dir _ _ inv).
  - apply (j_files _ _ inv).
  - intros j t' [[_ <-]|[_ E]]%lookup_insert_Some; [done|]. by eapply (j_call _ _ inv).
  - intros j k t1 t2 [[<- <-]|[? E1]]%lookup_insert_Some [[<- <-]|[? E2]]%lookup_insert_Some Hp; try done.
    + by destruct (Hap k t2 E2).
    + by destruct (Hap j t1 E1).
    + by eapply (j_apart _ _ inv).
  - intros p n sr E Hr. destruct (j_key _ _ inv p n sr E Hr) as [|(j & t' & Ej & ?)]; [by left|right].
    exists j, t'. split; [|done]. rewrite lookup_insert_ne; [done|congruence].
  - intros u sr. rewrite sum_start; [apply (j_account _ _ inv)|done|].
    unfold range_owed. destruct (Hw u) as [-> _]. by case_decide.
  - intros u. rewrite sum_start; [apply (j_gauge _ _ inv)|done|apply Hw].
Qed.

Lemma conc_temp_inv s tmp n :
  conc_inv dir s → range_of dir tmp = None → is_file n = true →
  conc_inv dir (mkConc (<[tmp := n]> (k_disk s)) (k_cm s) (k_tasks s)).
Proof.
  intros inv Hr Hf.
  assert (∀ p, is_Some (range_of dir p) → (<[tmp := n]> (k_disk s)) !! p = k_disk s !! p) as Hsame.
  { intros p [x Hp]. rewrite lookup_insert_ne; [done|congruence]. }
  split; cbn [k_disk k_cm k_tasks].
  - apply (j_dir _ _ inv).
  - intros p m E Hp. rewrite Hsame in E by done. by eapply (j_files _ _ inv).
  - intros i t E. destruct (j_call _ _ inv i t E) as [Hi Ha Ho Hm Hs]. split; try done.
    + eapply call_at_frame; [|done]. apply Hsame. unfold call_path. rewrite range_of_to_path by done. eauto.
    + intros p m Ep [[<- <-]|[_ Ed]]%lookup_insert_Some; [done|by eapply Hm].
  - apply (j_apart _ _ inv).
  - intros p m sr E Hp. rewrite Hsame in E by (rewrite Hp; eauto). by apply (j_key _ _ inv p m sr).
  - intros u sr. unfold on_disk. rewrite cached_insert_other by congruence. apply (j_account _ _ inv).
  - apply (j_gauge _ _ inv).
Qed.

Lemma conc_step_inv s x s' :
  conc_inv dir s → act_ok dir x → conc_step io now dir true x s = Some s' → conc_inv dir s'.
Proof.
  intros inv Hx E. destruct x as [i info tmp|tmp n|i]; cbn in E.
  - destruct (bool_decide _) eqn:Ei; [|done]. destruct (match tmp with Some _ => _ | None => _ end) eqn:Et; [|done].
    cbn in E. destruct (apart _ _ _) eqn:Ea; [|done]. injection E as <-. apply bool_decide_eq_true in Ei.
    destruct Hx as [Hi Hout]. apply start_call; try done; [|by destruct tmp]. split; cbn; try done.
    + by destruct tmp.
    + intros p n -> Ed. by rewrite Ed in Et.
    + by destruct tmp.
  - case_bool_decide; [|done]. injection E as <-. destruct Hx. by apply conc_temp_inv.
  - apply bind_Some in E as (t & Et & E). apply bind_Some in E as ([[d' c'] o] & En & [= <-]).
    apply frame_inv; try done. by eapply call_next_frame.
Qed.

Lemma conc_run_inv l s s' :
  conc_inv dir s → Forall (act_ok dir) l → conc_run io now dir true l s = Some s' → conc_inv dir s'.
Proof.
  intros Hi Hl. revert s Hi. induction Hl as [|x l Hx Hl IH]; cbn; intros s Hi E; [by simplify_eq|].
  apply bind_Some in E as (s1 & E1 & E). eapply IH; [|done]. by eapply conc_step_inv.
Qed.

Lemma on_disk_cached sr d :
  on_disk dir Files sr d = cached_count dir sr d ∧ on_disk dir Space sr d = cached_size dir sr d.
Proof.
  split; [|done]. unfold on_disk, cached_count, map_sum. cbn [weigh].
  rewrite <- length_map_to_list.
  induction (map_to_list (cached dir sr d)) as [|e l IH]; cbn [sumZ foldr length]; [done|].
  unfold sumZ in IH. rewrite IH. lia.
Qed.

Lemma on_disk_range u sr d : disk_ok dir d → wrap64 (on_disk dir u sr d) = on_disk dir u sr d.
Proof.
  intros Hd. apply wrap64_small. destruct (on_disk_cached sr d) as [E1 E2].
  destruct u; rewrite ?E1, ?E2; [by apply cached_count_range|by apply cached_size_range].
Qed.

(** With no call running the invariant is that the accounts agree with the disk. *)
Lemma idle_inv c d : cache_dir c = dir → accounted c d → disk_ok dir d → conc_inv dir (mkConc d c ∅).
Proof.
  intros Hdir Ha Hd.
  assert (∀ u sr, in_account u sr c = on_disk dir u sr d) as Hacc.
  { intros u sr. pose proof (acc_range _ _ Ha sr) as Hr. unfold range_ok in Hr. rewrite Hdir in Hr.
    destruct (on_disk_cached sr d) as [E1 E2]. unfold in_account. destruct (cache_state c !! sr) as [x|].
    - destruct Hr. destruct u; cbn; congruence.
    - unfold on_disk. by rewrite Hr, map_sum_empty. }
  split; cbn [k_disk k_cm k_tasks]; try done.
  - apply (paths_files _ _ Hd).
  - intros p n sr E Hr. left. pose proof (acc_range _ _ Ha sr) as Ho. unfold range_ok in Ho. rewrite Hdir in Ho.
    destruct (cache_state c !! sr); [eauto|]. exfalso.
    assert (cached dir sr d !! p = Some n) as Ec.
    { apply cached_lookup. split_and!; [done..|]. eapply (paths_files _ _ Hd); eauto. }
    by rewrite Ho, lookup_empty in Ec.
  - intros u sr. rewrite Hacc, map_sum_empty, Z.add_0_r. symmetry. by apply on_disk_range.
  - intros u. rewrite map_sum_empty, Z.add_0_r. destruct u; [apply (acc_count _ _ Ha)|apply (acc_size _ _ Ha)].
Qed.

Lemma idle_accounted s : conc_inv dir s → k_tasks s = ∅ → disk_ok dir (k_disk s) → accounted (k_cm s) (k_disk s).
Proof.
  intros inv Ht Hd. split.
  - intros sr. unfold range_ok. rewrite (j_dir _ _ inv). destruct (on_disk_cached sr (k_disk s)) as [E1 E2].
    pose proof (λ u, j_account _ _ inv u sr) as Hacc. unfold in_account in Hacc. rewrite Ht in Hacc.
    destruct (cache_state (k_cm s) !! sr) as [x|] eqn:Ex.
    + rewrite <- E1, <- E2. pose proof (Hacc Files) as A1. pose proof (Hacc Space) as A2. cbn in A1, A2.
      rewrite map_sum_empty, Z.add_0_r, on_disk_range in A1, A2 by done. done.
    + apply map_empty. intros p. destruct (cached _ _ _ !! p) as [n|] eqn:Ec; [|done]. exfalso.
      apply cached_lookup in Ec as (Ed & Hr & _).
      destruct (j_key _ _ inv p n sr Ed Hr) as [[y Ey]|(i & t & Ei & _)]; [congruence|]. by rewrite Ht, lookup_empty in Ei.
  - pose proof (j_gauge _ _ inv Files) as Hg. by rewrite Ht, map_sum_empty, Z.add_0_r in Hg.
  - pose proof (j_gauge _ _ inv Space) as Hg. by rewrite Ht, map_sum_empty, Z.add_0_r in Hg.
Qed.

End facts.

(** ** Theorems *)

Section theorems.
Context `{HexLaws}.

(** C7: Imports and deletions that run at the same time, their steps interleaved in any
    order, keep the books: when the last of them has ended, every range and the gauges
    have exactly the files on disk and their space, also where counters wrapped in
    between and where making a directory or renaming failed.  No two calls are for the
    same file, the calls that inspect and delete files succeed, a copy that fails
    leaves no file, and the cache fits the counters at the end. *)
Theorem cache_concurrent_accounted io now c d l s :
  (∀ p, import_io io p) →
  accounted c d → disk_ok (cache_dir c) d → Forall (act_ok (cache_dir c)) l →
  conc_run io now (cache_dir c) true l (mkConc d c ∅) = Some s →
  k_tasks s = ∅ → disk_ok (cache_dir c) (k_disk s) →
  accounted (k_cm s) (k_disk s).
Proof.
  intros Hio Ha Hd Hl E Ht Hs. apply (idle_accounted (cache_dir c)); [|done..].
  eapply conc_run_inv; [done| |done..]. by apply idle_inv.
Qed.

End theorems.

(** ** Witnesses *)

Definition info_b : CacheFileInfo := mkInfo (fi_hash sample_info) 2 1280 720 Jpeg.

(** Two files of a range are imported at the same time, one of them again. *)
Definition busy_acts : list conc_act :=
  [KTemp "tmp/p2" (mkNode true (as_bytes "xy") 8192 0); KStart "a" sample_info (Some "tmp/p1");
   KStart "b" info_b (Some "tmp/p2")] ++
  (KStep <$> ["a"; "b"; "b"; "a"; "a"; "b"; "b"; "b"; "a"; "b"; "a"; "a"]) ++
  [KTemp "tmp/p1" (mkNode true (as_bytes "z") 12288 0); KStart "a" sample_info (Some "tmp/p1"); KStart "b" info_b None] ++
  (KStep <$> ["a"; "b"; "b"; "a"; "b"; "a"; "a"; "a"; "b"; "b"; "a"; "a"; "a"; "a"; "a"]).
Definition busy_end : conc :=
  default (mkConc ∅ sample_cm ∅) (@conc_run hex_ref no_faults 7 "cache" true busy_acts (mkConc sample_disk sample_cm ∅)).

Lemma busy_disk_ok : @disk_ok hex_ref "cache" (k_disk busy_end).
Proof.
  assert (map_Forall (λ _ n, 0 ≤ real_size n ∧ is_file n = true) (k_disk busy_end)) as Hall
    by (apply (bool_decide_eq_true_1 _); vm_compute; reflexivity).
  split; [by intros p n [? _]%Hall|vm_compute; discriminate..|by intros p n [_ ?]%Hall].
Qed.

Lemma busy_acts_ok : Forall (@act_ok hex_ref "cache") busy_acts.
Proof.
  assert (info_ok info_b) as Hb by (vm_compute; split_and!; done). pose proof sample_info_ok as Ha.
  unfold busy_acts. cbn [app fmap list_fmap].
  repeat (apply Forall_cons_2 || apply Forall_nil_2); try exact I; cbn [act_ok]; split; try assumption;
    first [intros p [=]; subst p; vm_compute; reflexivity | vm_compute; reflexivity].
Qed.

Lemma cache_concurrent_accounted_witness :
  @accounted hex_ref (k_cm busy_end) (k_disk busy_end) ∧ cache_count (metrics (k_cm busy_end)) = 1 ∧
  cache_size (metrics (k_cm busy_end)) = 12288.
Proof.
  split; [|vm_compute; done].
  apply (cache_concurrent_accounted (H := hex_ref) no_faults 7 sample_cm sample_disk busy_acts).
  - done.
  - exact sample_accounted.
  - exact sample_disk_ok.
  - exact busy_acts_ok.
  - vm_compute. reflexivity.
  - vm_compute. reflexivity.
  - exact busy_disk_ok.
Defined.

(** ** A defect

    Nothing keeps two calls for the same file apart: the purge deletes by name at any
    time, a reader deletes a file that fails its digest.  When the deletion falls
    between the placing of an imported file and the reading of its size, the file is
    taken from the accounts without ever having been added, and the counters wrap. *)
Definition tracked_cm : CacheManager :=
  set_state {[ @static_range hex_ref sample_info := mkState 0 0 0 ]} sample_cm.
Definition race_acts : list conc_act :=
  [KStart "import" sample_info (Some "tmp/p1")] ++ (KStep <$> ["import"; "import"; "import"]) ++
  [KStart "purge" sample_info None] ++ (KStep <$> ["purge"; "purge"; "purge"; "purge"; "purge"; "import"]).

Theorem cache_race_miscounts :
  let r := @conc_run hex_ref no_faults 7 "cache" false race_acts (mkConc sample_disk tracked_cm ∅) in
  ∃ s, r = Some s ∧ k_tasks s = ∅ ∧ k_disk s = ∅ ∧
    (cache_state (k_cm s) !! @static_range hex_ref sample_info) = Some (mkState u64_max (u64_max - 4095) 0) ∧
    cache_count (metrics (k_cm s)) = u64_max.
Proof. eexists. split; [vm_compute; reflexivity|]. vm_compute. done. Qed.
