(* ===== verification/CacheRead.v ===== *)
(** * CacheRead: serving a cached file

    [src/src/cache_manager.rs], [CacheManager::get_file] and
    [mark_recently_accessed].  A file used within the last week is streamed as it
    is; an older one is streamed through a task that hashes it and deletes it
    when the hash is wrong.  The answers of the operating system to the reads of
    that task are a list; the task runs to the end or until the list is used up. *)

From S2P Require Import Prelude Text Extern FileId FileReader CacheStore.
From stdpp Require Import base gmap list strings numbers fin_maps.

Local Open Scope Z_scope.

Definition blen (b : bytes) : Z := Z.of_nat (length b).

(** What the consumer of the stream receives. *)
Definition item : Type := bytes + io_error.

(** The stream that is returned: the reader itself, or the channel of the task
    with what was sent on it so far. *)
Inductive file_stream :=
| Reader (r : FileReader)
| Channel (items : list item).

(** [CacheFileResult]. *)
Inductive CacheFileResult :=
| Full (s : file_stream)
| Partial (s : file_stream)
| NotFound.

(** What opening the file answers: the contents, or an error. *)
Definition open_answer : Type := option bytes.

(** How the verifying task stands. *)
Inductive task_end :=
| HashDone (h : bytes)      (* the loop ended with this digest *)
| ReadFailed                (* a read error was sent and the task returned *)
| StillReading.             (* the loop goes on *)

(** What the loop sends for one buffer: the part behind the requested offset. *)
Definition cut_buffer (offset : option Z) (read_off : Z) (buffer : bytes) : list item :=
  match offset with
  | Some offset =>
      if offset <? read_off then
        if read_off - blen buffer <? offset then
          let cut := blen buffer - (read_off - offset) in
          [inl (drop (Z.to_nat cut) buffer)]
        else [inl buffer]
      else []
  | None => [inl buffer]
  end.

Section read.
Context `{HexCodec, Digest}.

(** The [while read_off < file_size] loop of the task. *)
Fixpoint verify_loop (answers : list task_answer) (file_size : Z) (offset : option Z)
    (read_off : Z) (hasher : ctx) (sent : list item) (r : FileReader) : task_end * list item :=
  if read_off <? file_size then
    match answers with
    | [] => (StillReading, sent)
    | a :: answers =>
        match read a r with
        | (inr err, _) => (ReadFailed, sent ++ [inr err])
        | (inl buffer, r) =>
            let read_off := read_off + blen buffer in
            let hasher := ctx_update hasher buffer in
            verify_loop answers file_size offset read_off hasher
              (sent ++ cut_buffer offset read_off buffer) r
        end
    end
  else (HashDone (ctx_finish hasher), sent).

(** [mark_recently_accessed]; [ok]: [set_file_mtime] succeeds. *)
Definition mark_recently_accessed (ok : bool) (now : Z) (info : CacheFileInfo) (d : disk)
    (c : CacheManager) : disk :=
  if ok then alter (λ n, mkNode (is_file n) (data n) (real_size n) now) (to_path info (cache_dir c)) d
  else d.

Definition one_week : Z := 60 * 60 * 24 * 7 * 1000000000.
Definition buffer_size : nat := 64 * 1024.

(** [CacheManager::get_file] at time [now], followed by the task it spawns. *)
Definition get_file (io : faults) (utime_ok : bool) (open : open_answer) (seek_ans : seek_answer)
    (answers : list task_answer) (now : Z) (info : CacheFileInfo) (offset : option Z)
    (d : disk) (c : CacheManager) : CacheFileResult * option task_end * disk * CacheManager :=
  let path := to_path info (cache_dir c) in
  match metadata io d path with
  | None => (NotFound, None, d, c)
  | Some md =>
      if negb (is_file md) || negb (len md =? fi_size info) then (NotFound, None, d, c)
      else match open with
      | None => (NotFound, None, d, c)
      | Some contents =>
          let file_reader := FileReader_new (mkFile contents 0) buffer_size in
          if now - one_week <=? mtime md then
            match offset with
            | Some off =>
                if negb (off =? 0) then
                  match seek seek_ans (Z.to_nat off) file_reader with
                  | (inl _, r) => (Partial (Reader r), None, d, c)
                  | (inr _, r) => (Full (Reader r), None, d, c)
                  end
                else (Full (Reader file_reader), None, d, c)
            | None => (Full (Reader file_reader), None, d, c)
            end
          else
            let d := mark_recently_accessed utime_ok now info d c in
            let (t, sent) := verify_loop answers (len md) offset 0 ctx_new [] file_reader in
            let '(d, c) :=
              match t with
              | HashDone hash =>
                  if decide (hash = fi_hash info) then (d, c)
                  else let '(_, d, c) := remove_cache io info d c in (d, c)
              | _ => (d, c)
              end in
            (match offset with Some _ => Partial | None => Full end (Channel sent), Some t, d, c)
      end
  end.

End read.

(** ** Vocabulary *)

Definition item_data (i : item) : bytes := match i with inl b => b | inr _ => [] end.

(** The bytes a stream carries: what a reader has left, or what was sent. *)
Definition stream_bytes (s : file_stream) : option bytes :=
  match s with
  | Reader r => rest r
  | Channel items => Some (concat (map item_data items))
  end.

(** Every read succeeds and makes progress. *)
Definition good_answer (a : task_answer) : Prop :=
  match a with Answer (OsRead n) => (0 < n)%nat | _ => False end.

(** The part of the contents from the offset on. *)
Definition from_offset (offset : option Z) (b : bytes) : bytes :=
  match offset with Some o => drop (Z.to_nat o) b | None => b end.

(** ** Lemmas *)

(** What the task sends for a buffer is exactly what the buffer adds to the part
    of the file behind the offset. *)
Lemma cut_buffer_spec offset p buffer :
  (∀ o, offset = Some o → 0 ≤ o) →
  from_offset offset (p ++ buffer) =
  from_offset offset p ++ concat (map item_data (cut_buffer offset (blen p + blen buffer) buffer)).
Proof.
  intros Ho. unfold cut_buffer, blen. destruct offset as [o|]; simpl; [|by rewrite app_nil_r].
  pose proof (Ho o eq_refl). rewrite drop_app.
  ztests; simpl; rewrite ?app_nil_r.
  - do 2 f_equal. lia.
  - by rewrite (proj2 (Nat.sub_0_le _ _)) by lia.
  - rewrite (drop_ge buffer) by lia. by rewrite app_nil_r.
Qed.

Section facts.
Context `{HexLaws, DigestLaws}.
Implicit Types (d : disk) (c : CacheManager).

(** The state of the loop after [k] bytes of [b]. *)
Lemma verify_loop_spec answers b file_size offset cap k hasher chunks sent :
  (∀ o, offset = Some o → 0 ≤ o) → (k ≤ length b)%nat →
  hasher = foldl ctx_update ctx_new chunks → concat chunks = take k b →
  concat (map item_data sent) = from_offset offset (take k b) →
  let (t, sent') := verify_loop answers file_size offset (Z.of_nat k) hasher sent
                      (mkReader (State (Some (mkFile b k, []))) cap) in
  ∃ k', (k' ≤ length b)%nat ∧
    concat (map item_data sent') = from_offset offset (take k' b) ∧
    (∀ h, t = HashDone h → h = digest (take k' b) ∧ file_size ≤ Z.of_nat k').
Proof.
  intros Ho. revert k hasher chunks sent.
  induction answers as [|a answers IH]; intros k hasher chunks sent Hk Hh Hc Hs; simpl.
  all: destruct (Z.ltb_spec (Z.of_nat k) file_size) as [Hlt|Hge];
    [|exists k; split_and!; [done|done|intros h [= <-]; by rewrite Hh, finish_chunks, Hc]].
  { by exists k. }
  assert (∀ e, concat (map item_data (sent ++ [inr e])) = from_offset offset (take k b)) as Herr.
  { intros e. rewrite map_app, concat_app, Hs. simpl. by rewrite app_nil_r. }
  destruct a as [[n|e]|]; simpl read; [|by exists k..].
  unfold read. cbn [state capacity]. rewrite read_file_ok. cbn [content pos].
  set (m := read_size (mkFile b k) cap n). set (buf := take m (drop k b)).
  pose proof (read_size_le (mkFile b k) cap n) as [_ Hm]. fold m in Hm. cbn in Hm. rewrite length_drop in Hm.
  assert (length buf = m) as Hlen by (unfold buf; rewrite length_take, length_drop; lia).
  assert (take k b ++ buf = take (k + m) b) as Htk by (unfold buf; apply take_take_drop).
  assert (Z.of_nat k + blen buf = Z.of_nat (k + m)) as -> by (unfold blen; lia).
  apply (IH (k + m)%nat _ (chunks ++ [buf])).
  - lia.
  - by rewrite foldl_app, <- Hh.
  - rewrite concat_app, Hc. simpl. by rewrite app_nil_r.
  - rewrite map_app, concat_app, Hs, <- Htk.
    rewrite (cut_buffer_spec offset (take k b) buf Ho).
    do 4 f_equal. unfold blen. rewrite length_take. lia.
Qed.

(** With reads that succeed and make progress the loop ends, after at most one
    read per byte. *)
Lemma verify_loop_ends answers b file_size offset cap k hasher sent buf :
  Forall good_answer answers → (0 < cap)%nat → file_size ≤ Z.of_nat (length b) →
  (k ≤ length b)%nat → file_size - Z.of_nat k ≤ Z.of_nat (length answers) →
  ∃ h, (verify_loop answers file_size offset (Z.of_nat k) hasher sent
         (mkReader (State (Some (mkFile b k, buf))) cap)).1 = HashDone h.
Proof.
  intros Hg Hcap Hfs. revert k hasher sent buf.
  induction Hg as [|a answers Ha Hg IH]; intros k hasher sent buf Hk Hn; simpl in *.
  all: destruct (Z.ltb_spec (Z.of_nat k) file_size) as [Hlt|Hge]; [|by eexists].
  { lia. }
  destruct a as [[n|e]|]; try done. cbn in Ha. unfold read. cbn [state capacity]. rewrite read_file_ok.
  cbn [content pos]. set (m := read_size (mkFile b k) cap n).
  assert (1 ≤ m ≤ length b - k)%nat as Hm by (unfold m, read_size; cbn; lia).
  assert (Z.of_nat k + blen (take m (drop k b)) = Z.of_nat (k + m)) as ->
    by (unfold blen; rewrite length_take, length_drop; lia).
  apply IH; lia.
Qed.

(** Changing only the time of a file does not change the accounts. *)
Lemma accounted_touch c d p n n' :
  d !! p = Some n → real_size n' = real_size n → is_file n' = is_file n →
  accounted c d → accounted c (<[p := n']> d).
Proof.
  intros Hp Hz Hf [Hr Hc Hs]. split; [|done..]. intros sr. pose proof (Hr sr) as Hsr.
  assert (cached (cache_dir c) sr (<[p := n']> d) = cached (cache_dir c) sr d ∨
          (cached (cache_dir c) sr d !! p = Some n ∧
           cached (cache_dir c) sr (<[p := n']> d) = <[p := n']> (cached (cache_dir c) sr d))) as Hcase.
  { destruct (decide (range_of (cache_dir c) p = Some sr)) as [Hro|Hro];
      [|left; by apply cached_insert_other].
    destruct (is_file n) eqn:Ef.
    - right. split; [by apply cached_lookup|]. by apply cached_insert_new.
    - left. unfold cached. rewrite map_filter_insert_False by (simpl; rewrite Hf; by intros [_ ?]).
      fold (cached (cache_dir c) sr (delete p d)). rewrite cached_delete. apply delete_id.
      destruct (cached (cache_dir c) sr d !! p) eqn:E; [|done].
      apply cached_lookup in E as (E & _ & ?). congruence. }
  unfold range_ok, cached_count, cached_size in *. destruct Hcase as [->|[Hin ->]]; [done|].
  destruct (cache_state c !! sr) as [s|]; [|by rewrite Hsr, lookup_empty in Hin].
  rewrite map_size_insert_Some, (map_sum_update _ _ _ n), Hz by eauto.
  destruct Hsr. split; [done|lia].
Qed.

Lemma disk_ok_touch dir d p n n' :
  d !! p = Some n → real_size n' = real_size n → is_file n' = is_file n →
  disk_ok dir d → disk_ok dir (<[p := n']> d).
Proof.
  intros Hp Hz Hf [Hn Hc Hs Hfl]. split.
  - intros q m. destruct (decide (p = q)) as [<-|]; [|rewrite lookup_insert_ne by done; eauto].
    rewrite lookup_insert_eq. intros [= <-]. rewrite Hz. eauto.
  - by rewrite map_size_insert_Some by eauto.
  - rewrite (map_sum_update _ _ _ n) by done. lia.
  - intros q m. destruct (decide (p = q)) as [<-|]; [|rewrite lookup_insert_ne by done; eauto].
    rewrite lookup_insert_eq. intros [= <-]. rewrite Hf. eauto.
Qed.

Lemma mark_spec ok now info c d md :
  accounted c d → disk_ok (cache_dir c) d → d !! to_path info (cache_dir c) = Some md →
  let d' := mark_recently_accessed ok now info d c in
  accounted c d' ∧ disk_ok (cache_dir c) d' ∧
  ∃ md', d' !! to_path info (cache_dir c) = Some md' ∧ data md' = data md ∧ is_file md' = is_file md.
Proof.
  intros Ha Hd Hp. unfold mark_recently_accessed. destruct ok; [|eauto 6].
  assert (∀ f : node → node, alter f (to_path info (cache_dir c)) d = <[to_path info (cache_dir c) := f md]> d) as ->.
  { intros f. apply map_eq. intros q. destruct (decide (to_path info (cache_dir c) = q)) as [<-|].
    - by rewrite lookup_alter_eq, lookup_insert_eq, Hp.
    - by rewrite lookup_alter_ne, lookup_insert_ne. }
  split_and!; [by eapply accounted_touch|by eapply disk_ok_touch|].
  eexists. by rewrite lookup_insert_eq.
Qed.

(** What [get_file] streams when the reads succeed. *)
Lemma get_file_stream io utime_ok seek_ans answers now info offset d c md :
  (∀ o, offset = Some o → 0 ≤ o) →
  metadata io d (to_path info (cache_dir c)) = Some md →
  is_file md = true → len md = fi_size info → seek_ans ≠ SeekLost →
  Forall good_answer answers → (length (data md) ≤ length answers)%nat →
  let '(res, t, _, _) :=
    get_file io utime_ok (Some (data md)) seek_ans answers now info offset d c in
  t ≠ Some StillReading ∧
  match res with
  | Full s => stream_bytes s = Some (data md)
  | Partial s => offset ≠ None ∧ stream_bytes s = Some (from_offset offset (data md))
  | NotFound => False
  end.
Proof.
  intros Ho Hmd Hf Hl Hsk Hg Hans. unfold get_file. rewrite Hmd, Hf, Hl, Z.eqb_refl. cbn [negb orb].
  destruct (now - one_week <=? mtime md).
  { destruct offset as [o|]; [|by cbn]. destruct (o =? 0); cbn [negb]; [by cbn|].
    unfold seek, FileReader_new; cbn [state capacity]. by destruct seek_ans. }
  destruct (verify_loop_ends answers (data md) (fi_size info) offset buffer_size 0 ctx_new [] []
    Hg ltac:(unfold buffer_size; lia)) as [h Ht]; [unfold len in *; lia..|].
  pose proof (verify_loop_spec answers (data md) (fi_size info) offset buffer_size 0 ctx_new [] [] Ho
    ltac:(lia) eq_refl eq_refl) as Hv. change (Z.of_nat 0) with 0 in *. unfold FileReader_new.
  destruct (verify_loop _ _ _ _ _ _ _) as [t sent]. cbn [fst] in Ht. subst t.
  destruct Hv as (k & Hk & Hsent & Hh); [by rewrite take_0; destruct offset; simpl; rewrite ?drop_nil|].
  destruct (Hh h eq_refl) as [_ Hge].
  rewrite (take_ge (data md) k) in Hsent by (unfold len in Hl; lia).
  destruct (if decide _ then _ else _) as [d' c']. destruct offset; cbn; rewrite Hsent; done.
Qed.

End facts.

(** ** Theorems *)

Section theorems.
Context `{HexLaws, DigestLaws}.

(** C9: a cached file of the right size is always served, and served right.
    With an offset the stream is either marked partial and carries exactly the
    contents from the offset on, or marked full and carries everything; without
    one it is full.  For a file not used for a week this includes that the
    verifying task ends, after at most one read per byte. *)
Theorem get_file_serves io utime_ok seek_ans answers now info offset d c md :
  (∀ o, offset = Some o → 0 ≤ o) →
  metadata io d (to_path info (cache_dir c)) = Some md →
  is_file md = true → len md = fi_size info → seek_ans ≠ SeekLost →
  Forall good_answer answers → (length (data md) ≤ length answers)%nat →
  let '(res, t, _, _) :=
    get_file io utime_ok (Some (data md)) seek_ans answers now info offset d c in
  t ≠ Some StillReading ∧
  match res with
  | Full s => stream_bytes s = Some (data md)
  | Partial s => offset ≠ None ∧ stream_bytes s = Some (from_offset offset (data md))
  | NotFound => False
  end.
Proof. apply get_file_stream. Qed.

(** C10: integrity.  Whatever the reads answer, the accounts stay exact; when the
    task has hashed the whole file, a file whose digest is its name's is still
    there with the same contents, and one whose digest is another is gone. *)
Theorem get_file_verifies io utime_ok seek_ans answers now info offset d c md res h d' c' :
  accounted c d → disk_ok (cache_dir c) d → info_ok info →
  (∀ o, offset = Some o → 0 ≤ o) →
  let path := to_path info (cache_dir c) in
  metadata io d path = Some md →
  get_file io utime_ok (Some (data md)) seek_ans answers now info offset d c =
    (res, Some (HashDone h), d', c') →
  accounted c' d' ∧ h = digest (data md) ∧
  (digest (data md) = fi_hash info → ∃ md', d' !! path = Some md' ∧ data md' = data md) ∧
  (digest (data md) ≠ fi_hash info → f_filesize io path = false → f_remove io path = false →
     d' !! path = None).
Proof.
  intros Ha Hd Hi Ho path Hmd E. unfold get_file in E. fold path in E. rewrite Hmd in E.
  destruct (negb (is_file md) || negb (len md =? fi_size info)) eqn:Eg; [done|].
  apply orb_false_iff in Eg as [Hf%negb_false_iff Hl%negb_false_iff%Z.eqb_eq].
  destruct (now - one_week <=? mtime md).
  { destruct offset as [o|]; [|done]. destruct (negb (o =? 0)); [|done].
    by destruct (seek _ _ _) as [[|] ?]. }
  assert (f_metadata io path = false ∧ d !! path = Some md) as [Hfm Hp]
    by (unfold metadata in Hmd; by destruct (f_metadata io path)).
  pose proof (verify_loop_spec answers (data md) (len md) offset buffer_size 0 ctx_new [] [] Ho
    ltac:(lia) eq_refl eq_refl) as Hv. change (Z.of_nat 0) with 0 in Hv. unfold FileReader_new in E.
  destruct (verify_loop _ _ _ _ _ _ _) as [t sent].
  destruct Hv as (k & Hk & Hsent & Hh); [by rewrite take_0; destruct offset; simpl; rewrite ?drop_nil|].
  destruct (mark_spec utime_ok now info c d md Ha Hd Hp) as (Ha1 & Hd1 & md1 & Hp1 & Hdat & _).
  set (d1 := mark_recently_accessed utime_ok now info d c) in *. clearbody d1.
  destruct t as [h'| |]; [|by simplify_eq..].
  destruct (Hh h' eq_refl) as [Eh Hge].
  rewrite (take_ge (data md) k) in Eh by (unfold len in Hge; lia).
  destruct (decide (h' = fi_hash info)) as [Hok|Hbad].
  { simplify_eq. split_and!; eauto. congruence. }
  destruct (remove_cache io info d1 c) as [[r d2] c2] eqn:Er.
  destruct (remove_cache_spec io info c d1 r d2 c2 Ha1 Hd1 Hi Er) as (Ha2 & _).
  simplify_eq. split_and!; [done|done|by intros|]. intros _ Hfs Hrm.
  rewrite (remove_cache_gone io info c d1 r d' c' Hd1 Hi Hfm Hfs Hrm Er). apply lookup_delete_eq.
Qed.

(** A file that became shorter than its directory entry said (truncated
    between [metadata] and the reads) is never given up: the verifying task
    keeps reading nothing at the end of the file, for every number of reads. *)
Theorem verify_loop_spins answers k b file_size offset hasher sent cap :
  Z.of_nat (length b) < file_size → (k ≤ length b)%nat →
  Forall (λ a, ∃ n, a = Answer (OsRead n)) answers →
  (verify_loop answers file_size offset (Z.of_nat k) hasher sent
     (mkReader (State (Some (mkFile b k, []))) cap)).1 = StillReading.
Proof.
  intros Hs Hk Hall. revert k hasher sent Hk.
  induction Hall as [|a answers [n ->] _ IH]; intros k hasher sent Hk; cbn [verify_loop];
    rewrite (proj2 (Z.ltb_lt (Z.of_nat k) file_size)) by lia; [done|].
  unfold read. cbn [state capacity]. rewrite read_file_ok. cbn [content pos].
  pose proof (read_size_le (mkFile b k) cap n) as [_ Hm]. cbn in Hm. rewrite length_drop in Hm.
  set (m := read_size (mkFile b k) cap n) in *.
  assert (Z.of_nat k + blen (take m (drop k b)) = Z.of_nat (k + m)) as ->
    by (unfold blen; rewrite length_take, length_drop; lia).
  apply IH. lia.
Qed.

End theorems.

(** ** Witnesses *)

(** A file whose name is its digest, and a corrupt one under the same name. *)
Definition good_data : bytes := as_bytes "ab".
Definition read_info : CacheFileInfo := mkInfo (@digest toy_digest good_data) 2 0 0 Jpeg.
Definition read_path : string := @to_path hex_ref read_info "cache".
Definition read_node (b : bytes) : node := mkNode true b 4096 0.
Definition read_cm : CacheManager :=
  mkManager "cache" {[ @static_range hex_ref read_info := mkState 1 4096 0 ]} 1000
    (mkGauges 1 4096 1 1000) None.
Definition read_disk (b : bytes) : disk := {[ read_path := read_node b ]}.
Definition two_reads : list task_answer := [Answer (OsRead 1); Answer (OsRead 1)].

Lemma get_file_serves_witness :
  let '(res, _, _, _) :=
    @get_file hex_ref toy_digest no_faults true (Some good_data) SeekOk two_reads
      (one_week + 1) read_info (Some 1) (read_disk good_data) read_cm in
  res = Partial (Channel [inl (as_bytes "b")]).
Proof.
  pose proof (get_file_serves (H:=hex_ref) (D:=toy_digest) no_faults true SeekOk two_reads (one_week + 1) read_info (Some 1)
    (read_disk good_data) read_cm (read_node good_data) ltac:(intros o [= <-]; lia) eq_refl eq_refl
    eq_refl ltac:(discriminate) ltac:(repeat constructor) ltac:(vm_compute; lia)) as Hs.
  revert Hs. vm_compute. intros [_ _]. reflexivity.
Defined.

Lemma read_info_ok : info_ok read_info.
Proof. vm_compute. by split_and!. Qed.

Lemma read_disk_ok b : @disk_ok hex_ref "cache" (read_disk b).
Proof.
  unfold read_disk. split.
  - intros p n. rewrite lookup_singleton_Some. intros [_ <-]. vm_compute. discriminate.
  - vm_compute. discriminate.
  - vm_compute. discriminate.
  - intros p n. rewrite lookup_singleton_Some. by intros [_ <-].
Qed.

Lemma read_accounted b : @accounted hex_ref read_cm (read_disk b).
Proof.
  assert (@accounted hex_ref (mkManager "cache" ∅ 1000 (mkGauges 0 0 1 1000) None) ∅) as H0.
  { split; [|vm_compute; reflexivity..]. intros sr. apply map_filter_empty. }
  assert (@disk_ok hex_ref "cache" ∅) as H1.
  { split; [intros p n E; by rewrite lookup_empty in E|vm_compute; discriminate..|intros p n E; by rewrite lookup_empty in E]. }
  pose proof (add_accounted 0 read_info _ ∅ (read_node b) H0 H1 read_info_ok
    (lookup_empty _) eq_refl) as H2.
  exact (H2 ltac:(vm_compute; discriminate) ltac:(vm_compute; discriminate) ltac:(vm_compute; discriminate)).
Qed.

Lemma get_file_verifies_witness :
  ∃ res h d' c',
    @get_file hex_ref toy_digest no_faults true (Some (as_bytes "xy")) SeekOk two_reads
      (one_week + 1) read_info None (read_disk (as_bytes "xy")) read_cm = (res, Some (HashDone h), d', c') ∧
    d' !! read_path = None.
Proof.
  do 4 eexists. split; [vm_compute; reflexivity|].
  refine (proj2 (proj2 (proj2 (get_file_verifies (H:=hex_ref) (D:=toy_digest) no_faults true SeekOk two_reads (one_week + 1) read_info None
    (read_disk (as_bytes "xy")) read_cm (read_node (as_bytes "xy")) _ _ _ _ (read_accounted _) (read_disk_ok _)
    read_info_ok _ eq_refl _))) _ eq_refl eq_refl).
  - intros o. discriminate.
  - vm_compute. reflexivity.
  - vm_compute. discriminate.
Defined.

Lemma verify_loop_spins_witness :
  (@verify_loop toy_digest two_reads 2 None 0 [] [] (FileReader_new (mkFile [] 0) 9)).1 = StillReading.
Proof.
  apply (verify_loop_spins (D:=toy_digest) two_reads 0 [] 2 None [] [] 9); [vm_compute; reflexivity|vm_compute; lia|].
  repeat constructor; eauto.
Defined.
