(* ===== verification/CacheCleaner.v ===== *)
(** * CacheCleaner: keeping the cache within its limit

    [src/src/cache_manager.rs], [CacheManager::check_cache_usage].  Times of files
    are nanoseconds; [chrono_ok] is [DateTime::from_timestamp_secs] succeeding
    (third-party); [lim k] is the size limit the loop test of iteration [k]
    reads, which another task may change. *)

From S2P Require Import Prelude Text Extern FileId CacheStore.
From stdpp Require Import base gmap list strings numbers fin_maps sorting.

Local Open Scope Z_scope.

Definition SIZE_100MB : Z := 100 * 1024 * 1024.

(** ** How much to free *)

(** [need_free] before the loop: what exceeds the limit, plus what is missing to
    100 MiB of free disk space, and at least 100 MiB when anything is. *)
Definition need_free0 (total limit : Z) (disk_free : option Z) : Z :=
  let need := sat_sub total limit in
  let need := match disk_free with
              | Some free => if free <? SIZE_100MB then wrap64 (need + sat_sub SIZE_100MB free) else need
              | None => need
              end in
  if need =? 0 then 0
  else if need <? SIZE_100MB then SIZE_100MB else need.

(** ** Choosing a directory *)

(** The first entry with the smallest [oldest] ([sort_unstable_by_key] and
    [state[0]]; which of several equal ones comes first is unspecified). *)
Definition min_oldest (l : list (string * CacheState)) : option (string * CacheState) :=
  foldr (λ e acc, match acc with
                  | Some e' => if oldest e.2 <=? oldest e'.2 then Some e else acc
                  | None => Some e
                  end) None l.

Definition ns : Z := 1000000000.
Definition day : Z := 86400.

(** The width of the window that may be deleted, by the age of the directory. *)
Definition window (chrono_ok : Z → bool) (now old : Z) : Z :=
  let age := now - old * ns in
  if chrono_ok old then
    if 180 * day * ns <? age then day * 30
    else if 90 * day * ns <? age then day * 7
    else if 30 * day * ns <? age then day * 3
    else day
  else day.

(** [FileTime::from_unix_time(state.oldest + offset, 0)]. *)
Definition cut_off (chrono_ok : Z → bool) (now old : Z) : Z :=
  wrap_i64 (old + window chrono_ok now old) * ns.

(** ** Listing a directory *)

(** The name of a path inside a directory, when it is a direct entry of it. *)
Definition str_strip_prefix (p s : string) : option string :=
  if starts_with s p then Some (of_bytes (drop (String.length p) (as_bytes s))) else None.

Definition entry_name (dir path : string) : option string :=
  name ← str_strip_prefix (with_sep dir) path;
  if bool_decide (name = EmptyString) || has_char "/"%char name then None else Some name.

Definition entry : Type := string * node.

(** [list_files] followed by the metadata filter: the regular files of the
    directory whose metadata can be read. *)
Definition dir_files (io : faults) (dir : string) (d : disk) : list entry :=
  omap (λ e, name ← entry_name dir e.1;
             md ← metadata io d e.1;
             if is_file md then Some (name, md) else None) (map_to_list d).

Definition by_mtime (a b : entry) : Prop := mtime a.2 ≤ mtime b.2.

#[export] Instance by_mtime_dec : RelDecision by_mtime.
Proof. intros a b. unfold by_mtime. apply _. Defined.

(** ** The loop *)

Section cleaner.
Context `{HexCodec}.
Variable chrono_ok : Z → bool.
Variable io : faults.
Variable opens : string → bool.       (* [open_dir] succeeds *)

(** The [for] loop over the sorted files of a directory. *)
Fixpoint clean_files (dir : string) (cut : Z) (files : list entry) (need new_oldest : Z)
    (d : disk) (c : CacheManager) : Z * Z * disk * CacheManager :=
  match files with
  | [] => (need, new_oldest, d, c)
  | (name, md) :: r =>
      if (cut <? mtime md) || (need =? 0) then (need, mtime md, d, c)
      else match from_file_id name with
           | None => clean_files dir cut r need new_oldest d c
           | Some info =>
               match async_filesize io (path_push dir name) md with
               | Some sz =>
                   let '(_, d, c) := remove_cache io info d c in
                   clean_files dir cut r (sat_sub need sz) new_oldest d c
               | None => clean_files dir cut r need new_oldest d c
               end
           end
  end.

(** [state.oldest = new_oldest.unix_seconds()] for the range, if it is tracked. *)
Definition set_oldest (sr : string) (t : Z) (c : CacheManager) : CacheManager :=
  match cache_state c !! sr with
  | Some s => set_state (<[sr := mkState (file_count s) (size_sum s) (unix_seconds t)]> (cache_state c)) c
  | None => c
  end.

(** One pass of the [while] body at time [now]; [None]: the loop is left. *)
Definition clean_pass (now need : Z) (d : disk) (c : CacheManager)
    : option (Z * disk * CacheManager) :=
  match min_oldest (map_to_list (cache_state c)) with
  | None => None
  | Some (sr, st) =>
      let dir := range_dir (cache_dir c) sr in
      if negb (opens dir) then None
      else
        let files := merge_sort by_mtime (dir_files io dir d) in
        let new_oldest := match list.last files with Some e => mtime e.2 | None => now end in
        let '(need, new_oldest, d, c) :=
          clean_files dir (cut_off chrono_ok now (oldest st)) files need new_oldest d c in
        Some (need, d, save_state io (set_oldest sr new_oldest c))
  end.

(** What a run of the loop ends in. *)
Inductive run_end := Stopped (need : Z) (d : disk) (c : CacheManager) | Running.

(** The [while] loop: [k] counts its tests, [now k] is the clock of pass [k]. *)
Fixpoint clean_loop (fuel k : nat) (limit : Z) (lim now : nat → Z) (need : Z)
    (d : disk) (c : CacheManager) : run_end :=
  match fuel with
  | O => Running
  | S fuel =>
      if (0 <? need) && (limit =? lim k) then
        match clean_pass (now k) need d c with
        | None => Stopped need d c
        | Some (need, d, c) => clean_loop fuel (S k) limit lim now need d c
        end
      else Stopped need d c
  end.

(** [CacheManager::check_cache_usage]. *)
Definition check_cache_usage (fuel : nat) (disk_free : option Z) (lim now : nat → Z)
    (d : disk) (c : CacheManager) : run_end :=
  let tot := wrap64 (map_sum size_sum (cache_state c)) in
  let limit := size_limit c in
  let g := metrics c in
  let c := set_metrics (mkGauges (cache_count g) tot (Z.of_nat (size (cache_state c)))
                          (cache_capacity g)) c in
  let need := need_free0 tot limit disk_free in
  if need =? 0 then Stopped 0 d c
  else clean_loop fuel 0 limit lim now need d c.

End cleaner.

(** ** Lemmas *)

Lemma min_oldest_elem l e : min_oldest l = Some e → e ∈ l.
Proof.
  revert e. induction l as [|a l IH]; intros e; simpl; [done|].
  destruct (min_oldest l) as [b|]; [|by intros [= <-]; left].
  destruct (oldest a.2 <=? oldest b.2); intros [= <-]; [left|right; auto].
Qed.

Lemma min_oldest_least l e : min_oldest l = Some e → ∀ x, x ∈ l → oldest e.2 ≤ oldest x.2.
Proof.
  revert e. induction l as [|a l IH]; intros e; simpl; [done|]. intros E x Hx.
  destruct (min_oldest l) as [b|] eqn:Em.
  - destruct (Z.leb_spec (oldest a.2) (oldest b.2)); injection E as <-;
      apply elem_of_cons in Hx as [->|Hx]; try lia; pose proof (IH b eq_refl x Hx); lia.
  - injection E as <-. apply elem_of_cons in Hx as [->|Hx]; [lia|]. destruct l as [|y l]; [by apply elem_of_nil in Hx|].
    simpl in Em. destruct (min_oldest l) as [z|]; [|done]. by destruct (oldest y.2 <=? oldest z.2).
Qed.

Lemma min_oldest_some l : l ≠ [] → ∃ e, min_oldest l = Some e.
Proof.
  destruct l as [|a l]; [done|]. intros _. simpl.
  destruct (min_oldest l) as [b|]; [|eauto]. destruct (oldest a.2 <=? oldest b.2); eauto.
Qed.

Lemma set_oldest_dom sr t c : dom (cache_state (set_oldest sr t c)) = dom (cache_state c).
Proof.
  unfold set_oldest. destruct (cache_state c !! sr) as [s|] eqn:E; [|done].
  cbn. rewrite dom_insert_L. apply elem_of_dom_2 in E. set_solver.
Qed.

Lemma set_oldest_dir sr t c : cache_dir (set_oldest sr t c) = cache_dir c.
Proof. unfold set_oldest. by destruct (cache_state c !! sr). Qed.

Lemma save_state_same io c :
  cache_state (save_state io c) = cache_state c ∧ cache_dir (save_state io c) = cache_dir c ∧
  metrics (save_state io c) = metrics c.
Proof. unfold save_state. by destruct (f_create_state io). Qed.

Section facts.
Context `{HexLaws}.
Implicit Types (d : disk) (c : CacheManager).
Variable chrono_ok : Z → bool.
Variable io : faults.
Variable opens : string → bool.

(** Neither the age of a range nor the saved file is part of the accounting. *)
Lemma accounted_same c c' d :
  cache_dir c' = cache_dir c → metrics c' = metrics c →
  (∀ sr, (λ s, (file_count s, size_sum s)) <$> cache_state c' !! sr =
         (λ s, (file_count s, size_sum s)) <$> cache_state c !! sr) →
  map_sum file_count (cache_state c') = map_sum file_count (cache_state c) →
  map_sum size_sum (cache_state c') = map_sum size_sum (cache_state c) →
  accounted c d → accounted c' d.
Proof.
  intros Hdir Hm Hs Hc Hz [Hr Hcnt Hsz]. split; [|by rewrite Hm, Hc, Hcnt|by rewrite Hm, Hz, Hsz].
  intros sr. pose proof (Hr sr) as H'. specialize (Hs sr). unfold range_ok in *. rewrite Hdir.
  destruct (cache_state c !! sr), (cache_state c' !! sr); simpl in Hs; try discriminate; [|exact H'].
  injection Hs as -> ->. exact H'.
Qed.

Lemma accounted_set_oldest sr t c d : accounted c d → accounted (set_oldest sr t c) d.
Proof.
  unfold set_oldest. destruct (cache_state c !! sr) as [s|] eqn:E; [|done].
  apply accounted_same; try done; cbn.
  - intros sr'. destruct (decide (sr = sr')) as [<-|]; [by rewrite lookup_insert_eq, E|].
    by rewrite lookup_insert_ne.
  - rewrite (map_sum_update _ _ _ _ _ E). cbn. lia.
  - rewrite (map_sum_update _ _ _ _ _ E). cbn. lia.
Qed.

Lemma accounted_save_state c d : accounted c d → accounted (save_state io c) d.
Proof. destruct (save_state_same io c) as (E1 & E2 & E3). apply accounted_same; by rewrite ?E1. Qed.

Lemma from_file_id_static name info : from_file_id name = Some info → info_ok info.
Proof. apply from_file_id_ok. Qed.

(** The inner loop: the books stay balanced, and a file disappears only if it
    was listed with a time before the cut. *)
Lemma clean_files_spec dir cut files need new d c need' new' d' c' :
  accounted c d → disk_ok (cache_dir c) d →
  clean_files io dir cut files need new d c = (need', new', d', c') →
  accounted c' d' ∧ disk_ok (cache_dir c') d' ∧ cache_dir c' = cache_dir c ∧ d' ⊆ d ∧
  ∀ p, is_Some (d !! p) → d' !! p = None →
    ∃ name md info, (name, md) ∈ files ∧ mtime md ≤ cut ∧
      from_file_id name = Some info ∧ p = to_path info (cache_dir c).
Proof.
  revert need new d c. induction files as [|[name md] files IH]; intros need new d c Ha Hd E; simpl in E.
  { injection E as <- <- <- <-. split_and!; try done. intros p [? Hp] Hn. congruence. }
  destruct ((cut <? mtime md) || (need =? 0)) eqn:Et.
  { injection E as <- <- <- <-. split_and!; try done. intros p [? Hp] Hn. congruence. }
  apply orb_false_iff in Et as [Hcut%Z.ltb_ge _].
  destruct (from_file_id name) as [info|] eqn:Ei; [destruct (async_filesize io _ md) as [sz|]|].
  - destruct (remove_cache io info d c) as [[r d1] c1] eqn:Er.
    destruct (remove_cache_spec io info c d r d1 c1 Ha Hd (from_file_id_ok _ _ Ei) Er)
      as (Ha1 & Hd1 & Edir & HN & HS).
    destruct (IH _ _ d1 c1 Ha1 Hd1 E) as (? & ? & Edir' & Hsub & Hdel).
    assert (d1 ⊆ d) as Hsub1.
    { destruct r as [[]|]; [destruct (HS eq_refl) as [-> _]; apply delete_subseteq|].
      by destruct (HN eq_refl) as [-> _]. }
    split_and!; try done; [congruence|by etrans|].
    intros p Hp Hn. destruct (d1 !! p) as [x|] eqn:E1.
    + destruct (Hdel p ltac:(eauto) Hn) as (nm & m & i & ? & ? & ? & ->).
      exists nm, m, i. rewrite Edir. split_and!; try done. by right.
    + exists name, md, info. split_and!; [left|done|done|].
      destruct r as [[]|].
      * destruct (HS eq_refl) as [-> _]. apply lookup_delete_None in E1 as [->|E1]; [done|].
        destruct Hp; congruence.
      * destruct (HN eq_refl) as [-> _]. destruct Hp; congruence.
  - destruct (IH _ _ d c Ha Hd E) as (? & ? & ? & ? & Hdel). split_and!; try done.
    intros p Hp Hn. destruct (Hdel p Hp Hn) as (nm & m & i & ? & ?). exists nm, m, i. split; [by right|done].
  - destruct (IH _ _ d c Ha Hd E) as (? & ? & ? & ? & Hdel). split_and!; try done.
    intros p Hp Hn. destruct (Hdel p Hp Hn) as (nm & m & i & ? & ?). exists nm, m, i. split; [by right|done].
Qed.

Lemma clean_pass_spec now need d c need' d' c' :
  accounted c d → disk_ok (cache_dir c) d →
  clean_pass chrono_ok io opens now need d c = Some (need', d', c') →
  accounted c' d' ∧ disk_ok (cache_dir c') d' ∧ cache_dir c' = cache_dir c ∧ d' ⊆ d.
Proof.
  intros Ha Hd E. unfold clean_pass in E.
  destruct (min_oldest (map_to_list (cache_state c))) as [[sr st]|]; [|done].
  destruct (negb (opens _)); [done|].
  destruct (clean_files _ _ _ _ _ _ d c) as [[[n1 o1] d1] c1] eqn:Ec. injection E as <- <- <-.
  destruct (clean_files_spec _ _ _ _ _ _ _ _ _ _ _ Ha Hd Ec) as (Ha1 & Hd1 & Edir & Hsub & _).
  destruct (save_state_same io (set_oldest sr o1 c1)) as (_ & E2 & _).
  split_and!; [by apply accounted_save_state, accounted_set_oldest|..];
    rewrite ?E2, ?set_oldest_dir; done.
Qed.

Lemma clean_loop_spec fuel k limit lim now need d c need' d' c' :
  accounted c d → disk_ok (cache_dir c) d →
  clean_loop chrono_ok io opens fuel k limit lim now need d c = Stopped need' d' c' →
  accounted c' d' ∧ d' ⊆ d ∧ cache_dir c' = cache_dir c.
Proof.
  revert k need d c. induction fuel as [|fuel IH]; intros k need d c Ha Hd E; simpl in E; [done|].
  destruct ((0 <? need) && (limit =? lim k)); [|by injection E as <- <- <-].
  destruct (clean_pass _ _ _ _ need d c) as [[[n1 d1] c1]|] eqn:Ep; [|by injection E as <- <- <-].
  destruct (clean_pass_spec _ _ _ _ _ _ _ Ha Hd Ep) as (Ha1 & Hd1 & Edir & Hsub).
  destruct (IH _ _ _ _ Ha1 Hd1 E) as (? & ? & ?). split_and!; [done|by etrans|congruence].
Qed.

(** Files whose names do not parse are passed over. *)
Lemma clean_files_stuck dir cut files need new d c :
  Forall (λ e, from_file_id e.1 = None) files →
  ∃ new', clean_files io dir cut files need new d c = (need, new', d, c).
Proof.
  induction 1 as [|[name md] files Hn _ IH]; simpl in *; [eauto|].
  destruct ((cut <? mtime md) || (need =? 0)); [eauto|]. by rewrite Hn.
Qed.

End facts.

(** ** Theorems *)

Section theorems.
Context `{HexLaws}.
Variable chrono_ok : Z → bool.
Variable io : faults.
Variable opens : string → bool.

(** The amount to free.  Nothing is freed exactly when the cache is within
    its limit and the disk has at least 100 MiB left; otherwise at least
    100 MiB, and at least the excess plus the missing disk space. *)
Theorem need_free_spec total limit disk_free :
  0 ≤ total ≤ i64_max → 0 ≤ limit → (∀ f, disk_free = Some f → 0 ≤ f) →
  let short := match disk_free with Some f => sat_sub SIZE_100MB f | None => 0 end in
  let n := need_free0 total limit disk_free in
  (n = 0 ↔ total ≤ limit ∧ short = 0) ∧
  (n ≠ 0 → SIZE_100MB ≤ n ∧ sat_sub total limit + short ≤ n).
Proof.
  intros Ht Hl Hf. unfold need_free0. assert (Hs : SIZE_100MB = 104857600) by done.
  unfold i64_max in Ht.
  assert (∀ a, 0 ≤ a → sat_sub total limit ≤ a → a ≤ 9223372036854775807 + 104857600 →
    wrap64 a = a) as Hw by (intros; apply wrap64_small; word).
  pose proof (sat_sub_nonneg total limit) as Hnn.
  assert (sat_sub total limit ≤ total) as Hle by word.
  assert (sat_sub total limit = 0 ↔ total ≤ limit) as Hz0 by word.
  set (e := sat_sub total limit) in *. clearbody e.
  destruct disk_free as [f|]; simpl; [|ztests; lia].
  pose proof (Hf f eq_refl). set (s := sat_sub SIZE_100MB f).
  assert (0 ≤ s ≤ 104857600 ∧ (f < SIZE_100MB → 0 < s) ∧ (SIZE_100MB ≤ f → s = 0)) as (? & ? & ?)
    by (unfold s, sat_sub; lia). clearbody s.
  destruct (Z.ltb_spec f SIZE_100MB); [rewrite (Hw (e + s)) by lia|]; ztests; lia.
Qed.

Lemma check_cache_usage_spec fuel disk_free lim now d c need' d' c' :
  accounted c d → disk_ok (cache_dir c) d →
  check_cache_usage chrono_ok io opens fuel disk_free lim now d c = Stopped need' d' c' →
  accounted c' d' ∧ d' ⊆ d ∧ cache_dir c' = cache_dir c.
Proof.
  intros Ha Hd E. unfold check_cache_usage in E.
  set (c1 := set_metrics _ c) in E.
  assert (accounted c1 d) as Ha1.
  { destruct Ha as [Hr Hc Hs]. split; [exact Hr|exact Hc|done]. }
  destruct (need_free0 _ _ _ =? 0); [by injection E as _ <- <-|].
  eapply (clean_loop_spec _ _ _ _ _ _ _ _ _ _ c1); [exact Ha1|exact Hd|exact E].
Qed.

(** When the cleaner stops, the books are balanced and no file was added
    or changed: what is left on disk was there before. *)
Theorem check_cache_usage_accounted fuel disk_free lim now d c need' d' c' :
  accounted c d → disk_ok (cache_dir c) d →
  check_cache_usage chrono_ok io opens fuel disk_free lim now d c = Stopped need' d' c' →
  accounted c' d' ∧ d' ⊆ d.
Proof.
  intros Ha Hd E. destruct (check_cache_usage_spec _ _ _ _ _ _ _ _ _ Ha Hd E) as (? & ? & _). done.
Qed.

(** A pass of the cleaner works on a range whose oldest file time is least,
    and deletes only files listed in that range's directory whose modification
    time lies in the window that starts there. *)
Theorem clean_pass_window now need d c need' d' c' p :
  accounted c d → disk_ok (cache_dir c) d →
  clean_pass chrono_ok io opens now need d c = Some (need', d', c') →
  is_Some (d !! p) → d' !! p = None →
  ∃ sr st name md info,
    cache_state c !! sr = Some st ∧
    (∀ sr' st', cache_state c !! sr' = Some st' → oldest st ≤ oldest st') ∧
    (name, md) ∈ dir_files io (range_dir (cache_dir c) sr) d ∧
    mtime md ≤ cut_off chrono_ok now (oldest st) ∧
    from_file_id name = Some info ∧ p = to_path info (cache_dir c).
Proof.
  intros Ha Hd E Hp Hn. unfold clean_pass in E.
  destruct (min_oldest (map_to_list (cache_state c))) as [[sr st]|] eqn:Em; [|done].
  destruct (negb (opens _)); [done|].
  destruct (clean_files _ _ _ _ _ _ d c) as [[[n1 o1] d1] c1] eqn:Ec. injection E as <- <- <-.
  destruct (clean_files_spec io _ _ _ _ _ _ _ _ _ _ _ Ha Hd Ec) as (_ & _ & _ & _ & Hdel).
  destruct (Hdel p Hp Hn) as (name & md & info & Hin & Hc & Hi & ->).
  exists sr, st, name, md, info. split_and!; try done.
  - apply elem_of_map_to_list. by eapply min_oldest_elem.
  - intros sr' st' E'%elem_of_map_to_list. exact (min_oldest_least _ _ Em (sr', st') E').
  - rewrite merge_sort_Permutation in Hin. exact Hin.
Qed.

(** The cleaner livelocks when there is nothing it can delete.  If space is
    needed, some range is tracked, every range directory can be listed, and
    none of them holds a file with a valid name (for instance because the cache
    is already empty and something else fills the disk), then the loop never
    ends, however long it runs. *)
Theorem clean_loop_livelock limit lim now need d c :
  0 < need → (∀ k, lim k = limit) → cache_state c ≠ ∅ →
  (∀ sr, sr ∈ dom (cache_state c) → opens (range_dir (cache_dir c) sr) = true ∧
     Forall (λ e, from_file_id e.1 = None) (dir_files io (range_dir (cache_dir c) sr) d)) →
  ∀ fuel k, clean_loop chrono_ok io opens fuel k limit lim now need d c = Running.
Proof.
  intros Hneed Hlim Hne Hdir fuel. revert c Hne Hdir.
  induction fuel as [|fuel IH]; intros c Hne Hdir k; [done|]. simpl.
  rewrite (proj2 (Z.ltb_lt 0 need) Hneed), Hlim, Z.eqb_refl. simpl.
  destruct (min_oldest_some (map_to_list (cache_state c))) as [[sr st] Em].
  { by rewrite map_to_list_empty_iff. }
  assert (sr ∈ dom (cache_state c)) as Hsr.
  { apply elem_of_dom. exists st. apply elem_of_map_to_list. by eapply min_oldest_elem. }
  destruct (Hdir sr Hsr) as [Ho Hf]. unfold clean_pass. rewrite Em, Ho. cbn [negb].
  match goal with |- context [clean_files _ ?a ?b ?f ?g ?h ?i ?j] =>
    destruct (clean_files_stuck io a b f g h i j) as [o' ->] end.
  { by rewrite merge_sort_Permutation. }
  destruct (save_state_same io (set_oldest sr o' c)) as (E1 & E2 & _).
  apply IH.
  - rewrite E1. intros E. apply (f_equal dom) in E. rewrite set_oldest_dom, dom_empty_L in E.
    by apply dom_empty_iff_L in E.
  - rewrite E1, E2, set_oldest_dom, set_oldest_dir. exact Hdir.
Qed.

(** It also livelocks when other ranges have enough to delete.  If the directory of
    the oldest range holds one file, which is not named as an identifier and is older
    than every other range, each pass sets the age of the range to that of the file
    and selects it again. *)
Theorem clean_loop_foreign limit lim now need d c sr s name md :
  0 < need → (∀ k, lim k = limit) → opens (range_dir (cache_dir c) sr) = true →
  dir_files io (range_dir (cache_dir c) sr) d = [(name, md)] → from_file_id name = None →
  cache_state c !! sr = Some s →
  (∀ sr' s', cache_state c !! sr' = Some s' → sr' ≠ sr → Z.max (oldest s) (unix_seconds (mtime md)) < oldest s') →
  ∀ fuel k, clean_loop chrono_ok io opens fuel k limit lim now need d c = Running.
Proof.
  intros Hneed Hlim Ho Hfiles Hname Hs Hother fuel. revert c s Ho Hfiles Hs Hother.
  induction fuel as [|fuel IH]; intros c s Ho Hfiles Hs Hother k; [done|]. simpl.
  rewrite (proj2 (Z.ltb_lt 0 need) Hneed), Hlim, Z.eqb_refl. simpl.
  destruct (min_oldest_some (map_to_list (cache_state c))) as [[sr0 st] Em].
  { rewrite map_to_list_empty_iff. intros E. by rewrite E, lookup_empty in Hs. }
  assert (sr0 = sr ∧ st = s) as [-> ->].
  { pose proof (min_oldest_elem _ _ Em) as Hin%elem_of_map_to_list.
    destruct (decide (sr0 = sr)) as [->|Hne]; [split; [done|congruence]|]. exfalso.
    pose proof (Hother _ _ Hin Hne). pose proof (min_oldest_least _ _ Em (sr, s)) as Hl. cbn in Hl.
    specialize (Hl ltac:(by apply elem_of_map_to_list)). lia. }
  unfold clean_pass. rewrite Em, Ho, Hfiles. cbn [negb].
  assert (merge_sort by_mtime [(name, md)] = [(name, md)]) as -> by reflexivity. cbn [list.last clean_files snd].
  rewrite Hname. set (t := mtime md).
  assert (∀ b : bool, (if b then (need, t, d, c) else (need, t, d, c)) = (need, t, d, c)) as -> by by intros [].
  assert (cache_state (save_state io (set_oldest sr t c)) =
    <[sr := mkState (file_count s) (size_sum s) (unix_seconds t)]> (cache_state c) ∧
    cache_dir (save_state io (set_oldest sr t c)) = cache_dir c) as [E1 E2].
  { destruct (save_state_same io (set_oldest sr t c)) as (-> & -> & _). rewrite set_oldest_dir. unfold set_oldest. by rewrite Hs. }
  eapply IH; [by rewrite E2|by rewrite E2|by rewrite E1, lookup_insert_eq|].
  intros sr' s'. rewrite E1. intros Hl Hne. rewrite lookup_insert_ne in Hl by done.
  pose proof (Hother _ _ Hl Hne). cbn. unfold t. lia.
Qed.

End theorems.

(** ** Witnesses *)

(** A cache with one file of 4096 bytes, last used at time 0. *)
Definition one_disk : disk := {[ sample_path := sample_node ]}.
Definition one_cm : CacheManager :=
  mkManager "cache" {[ @static_range hex_ref sample_info := mkState 1 4096 0 ]} 1000
    (mkGauges 1 4096 1 1000) None.

Lemma one_accounted : @accounted hex_ref one_cm one_disk.
Proof.
  assert (@accounted hex_ref (mkManager "cache" ∅ 1000 (mkGauges 0 0 1 1000) None) ∅) as H0.
  { split; [|vm_compute; reflexivity..]. intros sr. apply map_filter_empty. }
  assert (@disk_ok hex_ref "cache" ∅) as H1.
  { split; [intros p n E; by rewrite lookup_empty in E|vm_compute; discriminate..|intros p n E; by rewrite lookup_empty in E]. }
  pose proof (add_accounted 0 sample_info _ ∅ sample_node H0 H1 sample_info_ok
    (lookup_empty _) eq_refl) as H2.
  exact (H2 ltac:(vm_compute; discriminate) ltac:(vm_compute; discriminate) ltac:(vm_compute; discriminate)).
Qed.

Lemma one_disk_ok : @disk_ok hex_ref "cache" one_disk.
Proof.
  unfold one_disk. split.
  - intros p n. rewrite lookup_singleton_Some. intros [_ <-]. vm_compute. discriminate.
  - vm_compute. discriminate.
  - vm_compute. discriminate.
  - intros p n. rewrite lookup_singleton_Some. by intros [_ <-].
Qed.

Lemma need_free_spec_witness : need_free0 5000 1000 (Some 0) = SIZE_100MB + 4000.
Proof.
  assert (H : ∀ f, Some 0 = Some f → 0 ≤ f) by (intros f [= <-]; lia).
  pose proof (need_free_spec 5000 1000 (Some 0) ltac:(word) ltac:(lia) H) as [_ Hn].
  simpl in Hn. destruct (Hn ltac:(vm_compute; discriminate)) as [_ _]. vm_compute. reflexivity.
Defined.

Lemma check_cache_usage_accounted_witness :
  ∃ c', @check_cache_usage hex_ref (λ _, true) no_faults (λ _, true) 5 None
          (λ k, if decide (k < 2)%nat then 1000 else 0) (λ _, 0) one_disk one_cm = Stopped (SIZE_100MB - 4096) ∅ c'
        ∧ @accounted hex_ref c' ∅.
Proof.
  eexists. split; [vm_compute; reflexivity|].
  refine (proj1 (check_cache_usage_accounted (λ _, true) no_faults (λ _, true) 5 None
    (λ k, if decide (k < 2)%nat then 1000 else 0) (λ _, 0) one_disk one_cm _ _ _
    one_accounted one_disk_ok _)).
  vm_compute. reflexivity.
Defined.

Lemma clean_pass_window_witness :
  ∃ sr st, cache_state one_cm !! sr = Some st ∧ mtime sample_node ≤ cut_off (λ _, true) 0 (oldest st).
Proof.
  assert (∃ c', @clean_pass hex_ref (λ _, true) no_faults (λ _, true) 0 10 one_disk one_cm = Some (0, ∅, c')) as [c' E]
    by (eexists; vm_compute; reflexivity).
  destruct (clean_pass_window (λ _, true) no_faults (λ _, true) 0 10 one_disk one_cm 0 ∅ c' sample_path
    one_accounted one_disk_ok E ltac:(vm_compute; eauto) (lookup_empty _))
    as (sr & st & name & md & info & Hs & _ & Hin & Hc & _).
  exists sr, st. split; [exact Hs|].
  assert (mtime md = 0) as Hm.
  { apply list_elem_of_omap in Hin as ([p n] & Hin & E'). apply elem_of_map_to_list in Hin.
    unfold one_disk in Hin. apply lookup_singleton_Some in Hin as [<- <-].
    apply bind_Some in E' as (nm & _ & E'). apply bind_Some in E' as (m & Em & E').
    unfold metadata, one_disk in Em. cbn [f_metadata no_faults] in Em. apply lookup_singleton_Some in Em as [_ <-]. by injection E' as _ <-. }
  rewrite Hm in Hc. exact Hc.
Defined.

Lemma clean_loop_livelock_witness :
  @clean_loop hex_ref (λ _, true) no_faults (λ _, true) 1000 0 1000 (λ _, 1000) (λ _, 0)
    SIZE_100MB ∅ one_cm = Running.
Proof.
  apply (clean_loop_livelock (λ _, true) no_faults (λ _, true)); [vm_compute; reflexivity|done|done|].
  intros sr _. split; [done|constructor].
Defined.
