(* ===== verification/CacheScan.v ===== *)
(** * CacheScan: starting the cache

    [src/src/cache_manager.rs], [CacheManager::new] and [scan_cache]: loading the
    saved accounts, deleting what does not belong to the client's static ranges,
    and counting (and on request hashing) the files of every range whose number
    of entries differs from its account.  The concurrency of the scan of a
    directory is a list of entries processed in some order; [scan_files_order]
    shows that the order does not matter. *)

From S2P Require Import Prelude Text Extern FileId FileReader CacheStore CacheRead CacheCleaner.
From stdpp Require Import base gmap list strings numbers fin_maps sorting.

Local Open Scope Z_scope.
Local Open Scope rust_scope.

(** ** What the operating system answers *)

Record scan_env := mkEnv {
  se_io : faults;
  se_rmdir : string → bool;               (* a file [remove_dir_all] cannot delete *)
  se_open_count : string → bool;          (* the first [open_dir] of a range succeeds *)
  se_open_list : string → bool;           (* the second one *)
  se_open_file : string → bool;           (* [File::open] succeeds *)
  se_reads : string → list os_read        (* the reads of a file; then they fail *)
}.

(** An entry of a directory listing as [next_entry] yields it ([None] is an
    error): its name, and what [is_dir] says. *)
Definition l2_entry : Type := option (string * bool).
(** The first level: [None] for a file, else the answer of [read_dir]. *)
Definition l1_entry : Type := option (string * option (option (list l2_entry))).

(** ** Selecting directories *)

(** Deleting a directory tree. *)
Definition remove_dir_all (env : scan_env) (dir : string) (d : disk) : disk :=
  filter (λ e, starts_with e.1 (with_sep dir) = false ∨ se_rmdir env e.1 = true) d.

(** [static_range.iter().find(|sr| hash.eq_ignore_ascii_case(sr))]. *)
Definition find_range (ranges : list string) (hash : string) : option string :=
  head (filter (λ sr, eq_ignore_ascii_case hash sr = true) ranges).

(** The inner loop over a first-level directory. *)
Fixpoint scan_l2 (env : scan_env) (ranges : list string) (l1 l1_path : string)
    (es : list l2_entry) (dirs : list (string * string)) (d : disk)
    : option (list (string * string)) * disk :=
  match es with
  | [] => (Some dirs, d)
  | None :: _ => (None, d)
  | Some (l2, is_dir) :: es =>
      let l2_path := path_push l1_path l2 in
      if negb is_dir then scan_l2 env ranges l1 l1_path es dirs d
      else match find_range ranges (l1 +:+ l2) with
           | Some sr => scan_l2 env ranges l1 l1_path es (dirs ++ [(sr, l2_path)]) d
           | None => scan_l2 env ranges l1 l1_path es dirs (remove_dir_all env l2_path d)
           end
  end.

(** The outer loop over the cache directory. *)
Fixpoint scan_l1 (env : scan_env) (ranges : list string) (root : string)
    (es : list l1_entry) (dirs : list (string * string)) (d : disk)
    : option (list (string * string)) * disk :=
  match es with
  | [] => (Some dirs, d)
  | None :: _ => (None, d)
  | Some (l1, kind) :: es =>
      match kind with
      | None => scan_l1 env ranges root es dirs d
      | Some None => (None, d)
      | Some (Some l2s) =>
          match scan_l2 env ranges l1 (path_push root l1) l2s dirs d with
          | (Some dirs, d) => scan_l1 env ranges root es dirs d
          | (None, d) => (None, d)
          end
      end
  end.

(** ** Scanning a directory *)

(** The entries of a directory with their metadata. *)
Definition dir_entries (dir : string) (d : disk) : list entry :=
  omap (λ e, (λ name, (name, e.2)) <$> entry_name dir e.1) (map_to_list d).

(** [sort_by_inode]: [ino] gives the inodes; the sort is stable. *)
Definition by_inode (ino : string → Z) (a b : entry) : Prop := ino a.1 ≤ ino b.1.
#[export] Instance by_inode_dec ino : RelDecision (by_inode ino).
Proof. intros a b. unfold by_inode. apply _. Defined.

Definition sort_by_inode (ino : string → Z) (files : list entry) : list entry := merge_sort (by_inode ino) files.

(** [list_files] on the answers of [ReadDirStream]: failures ([None]) are dropped. *)
Definition list_files (ino : string → Z) (answers : list (option entry)) : list entry :=
  sort_by_inode ino (omap id answers).

Section scan.
Context `{HexCodec, Digest}.

(** The reading loop of the verification: it ends at the end of the file and
    also at an error. *)
Fixpoint hash_loop (answers : list os_read) (f : File) (hasher : ctx) : ctx :=
  match answers with
  | [] => hasher
  | a :: answers =>
      match read_file a f [] (1024 * 1024) with
      | inl (f, []) => hasher
      | inl (f, buf) => hash_loop answers f (ctx_update hasher buf)
      | inr _ => hasher
      end
  end.

(** [state.add_file(size)] and the minimum of the modification times. *)
Definition scan_account (now sz mt : Z) (sr : string) (m : gmap string CacheState) : gmap string CacheState :=
  let s := add_file sz (default (CacheState_default now) (m !! sr)) in
  <[sr := if mt <? oldest s then mkState (file_count s) (size_sum s) mt else s]> m.

(** What the closure does with one entry of a directory. *)
Definition scan_file (env : scan_env) (now : Z) (verify_cache : bool) (dir : string) (e : entry)
    (d : disk) (m : gmap string CacheState) : disk * gmap string CacheState :=
  let '(name, md) := e in
  let path := path_push dir name in
  let io := se_io env in
  let delete_corrupt := (default d (os_remove_file io path d), m) in
  if f_metadata io path then (d, m)
  else if is_dir md then (d, m)
  else match from_file_id name with
  | None => (d, m)
  | Some info =>
      if negb (len md =? fi_size info) then delete_corrupt
      else if verify_cache && negb (se_open_file env path) then (d, m)
      else if verify_cache &&
              negb (bool_decide (ctx_finish (hash_loop (se_reads env path) (mkFile (data md) 0) ctx_new)
                                 = fi_hash info))
      then delete_corrupt
      else match async_filesize io path md with
           | Some sz => (d, scan_account now sz (unix_seconds (mtime md)) (static_range info) m)
           | None => (d, m)
           end
  end.

(** [for_each_concurrent] over the files, in some order. *)
Definition scan_files (env : scan_env) (now : Z) (verify_cache : bool) (dir : string)
    (es : list entry) (d : disk) (m : gmap string CacheState) : disk * gmap string CacheState :=
  foldl (λ acc e, scan_file env now verify_cache dir e acc.1 acc.2) (d, m) es.

(** The [for] loop over the selected directories, with the progress counter. *)
Fixpoint scan_dirs (env : scan_env) (now : Z) (verify_cache : bool) (dirs : list (string * string))
    (counter : nat) (d : disk) (m : gmap string CacheState) : nat * disk * gmap string CacheState :=
  match dirs with
  | [] => (counter, d, m)
  | (sr, path) :: dirs =>
      if negb (se_open_count env path) then scan_dirs env now verify_cache dirs counter d m
      else
        let es := dir_entries path d in
        if Z.of_nat (length es) =? default 0 (file_count <$> m !! sr)
        then scan_dirs env now verify_cache dirs (S counter) d m
        else
          let m := delete sr m in
          if negb (se_open_list env path) then scan_dirs env now verify_cache dirs counter d m
          else
            let (d, m) := scan_files env now verify_cache path es d m in
            scan_dirs env now verify_cache dirs (S counter) d m
  end.

Inductive scan_error := ListError | CacheEmpty.

(** [CacheManager::scan_cache]. *)
Definition scan_cache (env : scan_env) (now : Z) (tree : option (list l1_entry))
    (ranges : list string) (verify_cache : bool) (d : disk) (c : CacheManager)
    : (unit + scan_error) * disk * CacheManager :=
  match tree with
  | None => (inr ListError, d, c)
  | Some es =>
      match scan_l1 env ranges (cache_dir c) es [] d with
      | (None, d) => (inr ListError, d, c)
      | (Some dirs, d) =>
          let '(counter, d, m) := scan_dirs env now verify_cache dirs 0 d (cache_state c) in
          let c := set_state m c in
          if bool_decide (counter = 0%nat) && bool_decide (20 < length ranges)%nat
          then (inr CacheEmpty, d, c)
          else
            (inl (), d, set_metrics (mkGauges (wrap64 (map_sum file_count m)) (wrap64 (map_sum size_sum m))
                           (Z.of_nat (size m)) (cache_capacity (metrics c))) c)
      end
  end.

(** ** Starting *)

(** [clean_temp_dir]; [ok]: the file could be removed. *)
Definition clean_temp_dir (ok : string → bool) (temp_dir : string) (d : disk) : disk :=
  filter (λ e, match entry_name temp_dir e.1 with
               | Some name => is_file e.2 && starts_with name "proxyfile_" && ok e.1
               | None => false
               end = false) d.

(** [delete_java_cache_data]. *)
Definition delete_java_cache_data (io : faults) (data_dir : string) (d : disk) : disk :=
  let rm name d := default d (os_remove_file io (path_push data_dir name) d) in
  rm "pcache_lru" (rm "pcache_ages" (rm "pcache_info" d)).

(** The loop of [new] over the saved accounts. *)
Definition load_state (ranges : list string) (old : list (string * CacheState)) (c : CacheManager) : CacheManager :=
  foldl (λ c e,
    if bool_decide (e.1 ∈ ranges) then
      let g := metrics c in
      set_state (<[e.1 := e.2]> (cache_state c))
        (set_metrics (mkGauges (cache_count g +w file_count e.2) (cache_size g +w size_sum e.2)
                        (static_ranges g + 1) (cache_capacity g)) c)
    else c) c old.

(** How the scan is run: before [new] returns with sixteen files at a time, or
    in a task with four. *)
Inductive scan_mode := Foreground | Background.

(** [CacheManager::new] up to the choice of the scan.  [old] is what
    [read_state] answers. *)
Definition new_manager (io : faults) (rm_ok : string → bool) (data_dir dir temp_dir : string)
    (limit : Z) (ranges : list string) (verify_cache force_background_scan : bool)
    (free : option Z) (old : option (gmap string CacheState)) (d : disk)
    : scan_mode * disk * CacheManager :=
  let c := update_settings limit (mkManager dir ∅ u64_max (mkGauges 0 0 0 0) old) in
  let d := clean_temp_dir rm_ok temp_dir (delete_java_cache_data io data_dir d) in
  let low_disk := match free with Some x => x <? SIZE_100MB | None => false end in
  let c := if verify_cache then c
           else load_state ranges (map_to_list (default ∅ old)) c in
  (if low_disk || (verify_cache && negb force_background_scan) then Foreground else Background, d, c).

End scan.

(** ** Lemmas *)

(** Removing a file if it is there and can be removed. *)
Definition try_remove (io : faults) (path : string) (d : disk) : disk :=
  default d (os_remove_file io path d).

(** What the closure decides about an entry, which depends on nothing else. *)
Inductive verdict := Skip | Corrupt | Keep (info : CacheFileInfo) (sz : Z).

Section facts.
Context `{HexLaws, DigestLaws}.
Implicit Types (d : disk) (m : gmap string CacheState).

Definition judge (env : scan_env) (verify_cache : bool) (dir : string) (e : entry) : verdict :=
  let path := path_push dir e.1 in
  if f_metadata (se_io env) path || negb (is_file e.2) then Skip
  else match from_file_id e.1 with
  | None => Skip
  | Some info =>
      if negb (len e.2 =? fi_size info) then Corrupt
      else if verify_cache && negb (se_open_file env path) then Skip
      else if verify_cache &&
              negb (bool_decide (ctx_finish (hash_loop (se_reads env path) (mkFile (data e.2) 0) ctx_new)
                                 = fi_hash info))
      then Corrupt
      else match async_filesize (se_io env) path e.2 with Some sz => Keep info sz | None => Skip end
  end.

Definition execute (env : scan_env) (now : Z) (dir : string) (v : verdict) (e : entry)
    (a : disk * gmap string CacheState) : disk * gmap string CacheState :=
  match v with
  | Skip => a
  | Corrupt => (try_remove (se_io env) (path_push dir e.1) a.1, a.2)
  | Keep info sz => (a.1, scan_account now sz (unix_seconds (mtime e.2)) (static_range info) a.2)
  end.

Lemma scan_file_judge env now v dir e d m :
  scan_file env now v dir e d m = execute env now dir (judge env v dir e) e (d, m).
Proof.
  destruct e as [name md]. unfold scan_file, judge, execute. cbn [fst snd].
  unfold is_dir. destruct (f_metadata _ _); [done|]. destruct (is_file md); [|done]. cbn [negb orb].
  destruct (from_file_id name) as [info|]; [|done]. destruct (negb _); [done|].
  destruct (v && negb (se_open_file _ _)); [done|]. destruct (v && _); [done|].
  by destruct (async_filesize _ _ _).
Qed.

Lemma try_remove_comm io p q d : try_remove io p (try_remove io q d) = try_remove io q (try_remove io p d).
Proof.
  destruct (decide (p = q)) as [->|Hne]; [done|]. unfold try_remove, os_remove_file.
  destruct (d !! p) as [a|] eqn:Ep, (d !! q) as [b|] eqn:Eq;
    try destruct (f_remove io p || _) eqn:Fp; try destruct (f_remove io q || _) eqn:Fq; simpl;
    rewrite ?lookup_delete_ne, ?Ep, ?Eq, ?Fp, ?Fq by done; simpl; try done.
  apply delete_delete.
Qed.

Lemma scan_account_eq now sz mt sr m :
  scan_account now sz mt sr m =
  let s := default (CacheState_default now) (m !! sr) in
  <[sr := mkState (wrap64 (file_count s + 1)) (wrap64 (size_sum s + sz)) (Z.min (oldest s) mt)]> m.
Proof.
  unfold scan_account. cbv zeta. f_equal. unfold add_file. simpl.
  ztests; f_equal; lia.
Qed.

Lemma scan_account_comm now sz1 mt1 sr1 sz2 mt2 sr2 m :
  scan_account now sz1 mt1 sr1 (scan_account now sz2 mt2 sr2 m) =
  scan_account now sz2 mt2 sr2 (scan_account now sz1 mt1 sr1 m).
Proof.
  rewrite !scan_account_eq. cbv zeta. destruct (decide (sr1 = sr2)) as [->|Hne].
  - rewrite !lookup_insert_eq, !insert_insert_eq. simpl default. cbn [file_count size_sum oldest].
    rewrite !wrap64_add_l. f_equal. f_equal; [f_equal; lia|lia].
  - rewrite !lookup_insert_ne by done. by apply insert_insert_ne.
Qed.

Lemma execute_comm env now dir v e v' e' a :
  execute env now dir v e (execute env now dir v' e' a) =
  execute env now dir v' e' (execute env now dir v e a).
Proof.
  destruct v, v'; simpl; try done.
  - f_equal. apply try_remove_comm.
  - f_equal. apply scan_account_comm.
Qed.

Lemma scan_files_judge env now v dir es d m :
  scan_files env now v dir es d m =
  foldl (λ a e, execute env now dir (judge env v dir e) e a) (d, m) es.
Proof.
  unfold scan_files. revert d m. induction es as [|e es IH]; intros d m; [done|]. simpl.
  rewrite scan_file_judge. destruct (execute _ _ _ _ _ _) as [d' m']. apply IH.
Qed.

(** The verification loop hashes the whole file when the reads succeed. *)
Lemma hash_loop_complete answers b k chunks :
  Forall (λ a, ∃ n, a = OsRead n ∧ (0 < n)%nat) answers →
  (k ≤ length b)%nat → (length b - k ≤ length answers)%nat → concat chunks = take k b →
  ctx_finish (hash_loop answers (mkFile b k) (foldl ctx_update ctx_new chunks)) = digest b.
Proof.
  intros Hg. revert k chunks.
  induction Hg as [|a answers (n & -> & Hn) Hg IH]; intros k chunks Hk Hl Hc; cbn [hash_loop length] in *.
  { rewrite finish_chunks, Hc. f_equal. apply take_ge. lia. }
  rewrite read_file_ok. cbn [content pos].
  assert (read_size (mkFile b k) (1024 * 1024) n = n `min` (1024 * 1024) `min` (length b - k))%nat as Em by done.
  set (r := read_size (mkFile b k) (1024 * 1024) n) in *.
  destruct (take r (drop k b)) as [|x l] eqn:E.
  - rewrite finish_chunks, Hc. f_equal. apply take_ge.
    apply (f_equal length) in E. rewrite length_take, length_drop in E. simpl in E.
    assert (n `min` (1024 * 1024) ≠ 0)%nat by lia. lia.
  - rewrite <- E.
    assert (length (take r (drop k b)) = r) as Hr by (rewrite length_take, length_drop; lia).
    assert (0 < r)%nat by (rewrite <- Hr, E; simpl; lia).
    specialize (IH (k + r)%nat (chunks ++ [take r (drop k b)])).
    rewrite foldl_app in IH. apply IH; [lia|lia|].
    rewrite concat_app, Hc. simpl. rewrite app_nil_r. apply take_take_drop.
Qed.

Lemma scan_files_perm env now verify_cache dir es es' d m :
  es ≡ₚ es' →
  scan_files env now verify_cache dir es d m = scan_files env now verify_cache dir es' d m.
Proof.
  intros Hp. rewrite !scan_files_judge. generalize (d, m). clear d m.
  induction Hp as [|e es es' _ IH|e e' es|es1 es2 es3 _ IH1 _ IH2]; intros a; simpl; [done|apply IH| |by rewrite IH1].
  by rewrite execute_comm.
Qed.

End facts.

(** ** A forced scan establishes the accounts *)

(** A file is what its name says. *)
Definition intact `{Digest} (i : CacheFileInfo) (n : node) : bool :=
  (len n =? fi_size i) && bool_decide (digest (data n) = fi_hash i).

(** Nothing fails, and reads make progress until the end of the file. *)
Record quiet (env : scan_env) (d : disk) : Prop := {
  q_metadata p : f_metadata (se_io env) p = false;
  q_filesize p : f_filesize (se_io env) p = false;
  q_remove p : f_remove (se_io env) p = false;
  q_open_count p : se_open_count env p = true;
  q_open_list p : se_open_list env p = true;
  q_open_file p : se_open_file env p = true;
  q_reads p n : d !! p = Some n →
    Forall (λ a, ∃ k, a = OsRead k ∧ (0 < k)%nat) (se_reads env p) ∧
    (length (data n) ≤ length (se_reads env p))%nat
}.

(** The directory of a range holds exactly the files of the range, under the
    names the program gives them. *)
Definition tidy `{HexCodec} (dir : string) (d : disk) (sr : string) : Prop :=
  ∀ p n, d !! p = Some n →
    match entry_name (range_dir dir sr) p with
    | Some name => is_file n = true ∧ range_of dir p = Some sr ∧
                   ∃ i, from_file_id name = Some i ∧ static_range i = sr
    | None => range_of dir p ≠ Some sr
    end.

Definition good_entry `{HexCodec, Digest} (e : entry) : bool :=
  match from_file_id e.1 with Some i => intact i e.2 | None => false end.

Lemma map_to_list_filter_perm {A} (P : string * A → Prop) `{!∀ e, Decision (P e)} (m : gmap string A) :
  map_to_list (filter P m) ≡ₚ filter P (map_to_list m).
Proof.
  rewrite map_filter_alt. apply map_to_list_to_map.
  eapply sublist_NoDup; [apply (NoDup_fst_map_to_list m)|].
  apply fmap_sublist, sublist_filter.
Qed.

Lemma entry_name_path dir p name : entry_name dir p = Some name → p = path_push dir name.
Proof.
  unfold entry_name, str_strip_prefix. destruct (starts_with p (with_sep dir)) eqn:E; [|simpl; discriminate].
  apply starts_with_inv in E as [t ->]. simpl.
  rewrite as_bytes_app, <- string_length_as_bytes, drop_app_length, of_as_bytes.
  destruct (bool_decide (t = EmptyString)) eqn:E1; [done|]. destruct (has_char "/"%char t) eqn:E2; [done|].
  simpl. intros [= <-]. rewrite path_push_rel; [done|].
  destruct t as [|a t]; [done|]. simpl. unfold has_char, as_bytes in E2. simpl in E2.
  apply orb_false_iff in E2 as [E2 _]. apply bool_decide_eq_false in E2. by rewrite decide_False by congruence.
Qed.

Lemma disk_ok_sub `{HexLaws} dir d d' : d' ⊆ d → disk_ok dir d → disk_ok dir d'.
Proof.
  intros Hsub [D1 D2 D3 D4]. split.
  - intros p n E. eapply D1. by eapply lookup_weaken.
  - pose proof (map_subseteq_size _ _ Hsub). lia.
  - pose proof (map_sum_subseteq_le real_size d d' Hsub D1). lia.
  - intros p n E. apply D4. by eapply lookup_weaken.
Qed.

Lemma quiet_sub env d d' : d' ⊆ d → quiet env d → quiet env d'.
Proof. intros Hsub []. split; try done. intros p n E. eapply q_reads0. by eapply lookup_weaken. Qed.

Lemma tidy_sub `{HexCodec} dir sr d d' : d' ⊆ d → tidy dir d sr → tidy dir d' sr.
Proof. intros Hsub Ht p n E. apply (Ht p n). by eapply lookup_weaken. Qed.

Section forced.
Context `{HexLaws, DigestLaws}.
Implicit Types (d : disk) (m : gmap string CacheState).
Variable env : scan_env.
Variable now : Z.
Variables dir sr : string.
Notation rdir := (range_dir dir sr).

Definition bad_paths (es : list entry) : list string :=
  (λ e, path_push rdir e.1) <$> filter (λ e, good_entry e = false) es.

Lemma judge_quiet d name md i :
  quiet env d → d !! path_push rdir name = Some md → is_file md = true →
  from_file_id name = Some i →
  judge env true rdir (name, md) = if intact i md then Keep i (real_size md) else Corrupt.
Proof.
  intros Hq Hp Hf Hi. destruct (q_reads _ _ Hq _ _ Hp) as [Hg Hl].
  unfold judge, async_filesize. cbn [fst snd].
  rewrite (q_metadata _ _ Hq), (q_filesize _ _ Hq), (q_open_file _ _ Hq), Hf, Hi. cbn [negb orb andb].
  unfold intact. destruct (len md =? fi_size i); [|done]. cbn [negb andb].
  pose proof (hash_loop_complete _ (data md) 0 [] Hg ltac:(lia) ltac:(lia) eq_refl) as Hh.
  simpl foldl in Hh. rewrite Hh. by destruct (bool_decide _).
Qed.

Lemma try_remove_quiet d d' p :
  quiet env d' → (∀ n, d !! p = Some n → is_file n = true) → try_remove (se_io env) p d = delete p d.
Proof.
  intros Hq Hf. unfold try_remove, os_remove_file. destruct (d !! p) as [n|] eqn:E.
  - by rewrite (q_remove _ _ Hq), (Hf n eq_refl).
  - by rewrite delete_id.
Qed.

(** The scan of a list of entries of the range. *)
Lemma scan_entries d0 es d m :
  quiet env d0 →
  (∀ e, e ∈ es → d0 !! path_push rdir e.1 = Some e.2 ∧ is_file e.2 = true ∧
     ∃ i, from_file_id e.1 = Some i ∧ static_range i = sr) →
  d ⊆ d0 →
  let s := default (CacheState_default now) (m !! sr) in
  in_u64 (file_count s) → in_u64 (size_sum s) →
  let r := foldl (λ a e, execute env now rdir (judge env true rdir e) e a) (d, m) es in
  let goods := filter (λ e, good_entry e = true) es in
  let s' := default (CacheState_default now) (r.2 !! sr) in
  (∀ p, r.1 !! p = if decide (p ∈ bad_paths es) then None else d !! p) ∧
  (∀ sr', sr' ≠ sr → r.2 !! sr' = m !! sr') ∧
  file_count s' = wrap64 (file_count s + Z.of_nat (length goods)) ∧
  size_sum s' = wrap64 (size_sum s + sumZ (λ e, real_size e.2) goods) ∧
  (is_Some (r.2 !! sr) ↔ is_Some (m !! sr) ∨ goods ≠ []).
Proof.
  intros Hq. revert d m. induction es as [|[name md] es IH]; intros d m Hes Hsub s Hc Hz.
  { simpl. rewrite !Z.add_0_r, !wrap64_small by done. split_and!; try done. naive_solver. }
  destruct (Hes (name, md) ltac:(left)) as (Hp & Hf & i & Hi & Hsr). cbn [fst snd] in *.
  assert (∀ e, e ∈ es → d0 !! path_push rdir e.1 = Some e.2 ∧ is_file e.2 = true ∧
     ∃ i, from_file_id e.1 = Some i ∧ static_range i = sr) as Hes' by (intros e He; apply Hes; by right).
  cbv zeta. cbn [foldl]. rewrite (judge_quiet d0 name md i Hq Hp Hf Hi).
  assert (good_entry (name, md) = intact i md) as Hgd by (unfold good_entry; cbn; by rewrite Hi).
  unfold bad_paths. rewrite !filter_cons, !Hgd.
  destruct (intact i md) eqn:Egood; cbn [execute fst snd].
  - rewrite (decide_True (P := true = true)), (decide_False (P := true = false)) by done.
    rewrite scan_account_eq, Hsr. fold s. cbv zeta.
    specialize (IH d (<[sr:=mkState (wrap64 (file_count s + 1)) (wrap64 (size_sum s + real_size md))
                     (Z.min (oldest s) (unix_seconds (mtime md)))]> m) Hes' Hsub).
    rewrite lookup_insert_eq in IH. cbn [from_option id file_count size_sum] in IH.
    destruct (IH ltac:(apply wrap64_range) ltac:(apply wrap64_range)) as (I1 & I2 & I3 & I4 & I5).
    split_and!.
    + exact I1.
    + intros sr' Hne. rewrite I2 by done. by rewrite lookup_insert_ne.
    + rewrite I3, wrap64_add_l. f_equal. simpl length. lia.
    + rewrite I4, wrap64_add_l. f_equal. simpl. lia.
    + rewrite I5. naive_solver.
  - rewrite (decide_False (P := false = true)), (decide_True (P := false = false)) by done.
    rewrite (try_remove_quiet d d0) by (try done; intros n Hn; pose proof (lookup_weaken _ _ _ _ Hn Hsub); congruence).
    specialize (IH (delete (path_push rdir name) d) m Hes' ltac:(by etrans; [apply delete_subseteq|])).
    fold s in IH. destruct (IH Hc Hz) as (I1 & I2 & I3 & I4 & I5). split_and!; try done.
    intros p. rewrite I1. fold (bad_paths es). cbn [fmap list_fmap fst].
    destruct (decide (p = path_push rdir name)) as [->|Hne].
    + rewrite lookup_delete_eq, (decide_True (P := _ ∈ _ :: _)) by left. by destruct (decide _).
    + rewrite lookup_delete_ne by done. apply decide_ext. rewrite elem_of_cons. unfold bad_paths. naive_solver.
Qed.

(** The good files of the range among all files of the disk. *)
Definition good_file (e : string * node) : bool :=
  match entry_name rdir e.1 with Some name => good_entry (name, e.2) | None => false end.

Lemma goods_list (l : list (string * node)) :
  let goods := filter (λ e, good_entry e = true) (omap (λ e, (λ name, (name, e.2)) <$> entry_name rdir e.1) l) in
  let files := filter (λ e, good_file e = true) l in
  length goods = length files ∧ sumZ (λ e, real_size e.2) goods = sumZ (λ e, real_size e.2) files.
Proof.
  induction l as [|[p n] l IH]; [done|]. cbv zeta in *. cbn [omap list_omap fst snd].
  rewrite (filter_cons (λ e, good_file e = true)).
  assert (good_file (p, n) = match entry_name rdir p with Some name => good_entry (name, n) | None => false end)
    as -> by done.
  destruct (entry_name rdir p) as [name|]; cbn [fmap option_fmap option_map]; [|exact IH].
  rewrite filter_cons. destruct (good_entry (name, n)); [|exact IH].
  rewrite !decide_True by done. destruct IH as [E1 E2]. simpl. split; f_equal; [exact E1|exact E2].
Qed.

Lemma dir_entries_elem d name n :
  (name, n) ∈ dir_entries rdir d ↔ ∃ p, d !! p = Some n ∧ entry_name rdir p = Some name.
Proof.
  unfold dir_entries. rewrite list_elem_of_omap. split.
  - intros ([p n'] & Hin%elem_of_map_to_list & E). cbn in E.
    destruct (entry_name rdir p) eqn:En; simplify_eq/=. eauto.
  - intros (p & Hp & E). exists (p, n). rewrite elem_of_map_to_list. cbn. by rewrite E.
Qed.

Lemma bad_paths_elem d p :
  p ∈ bad_paths (dir_entries rdir d) ↔
  ∃ n name, d !! p = Some n ∧ entry_name rdir p = Some name ∧ good_entry (name, n) = false.
Proof.
  unfold bad_paths. rewrite list_elem_of_fmap. split.
  - intros ([name n] & -> & [Hg Hin]%list_elem_of_filter).
    apply dir_entries_elem in Hin as (p & Hp & En). cbn [fst].
    rewrite <- (entry_name_path _ _ _ En). eauto.
  - intros (n & name & Hp & En & Hg). exists (name, n).
    split; [by apply entry_name_path|]. apply list_elem_of_filter. split; [done|].
    apply dir_entries_elem. eauto.
Qed.

(** Scanning the directory of a range: the corrupt files go, everything else
    stays, and the account of the range is right afterwards. *)
Lemma scan_range d m :
  quiet env d → tidy dir d sr → disk_ok dir d → m !! sr = None →
  let (d', m') := scan_files env now true rdir (dir_entries rdir d) d m in
  (∀ p n, d' !! p = Some n ↔
     d !! p = Some n ∧ (∀ name, entry_name rdir p = Some name → good_entry (name, n) = true)) ∧
  (∀ sr', sr' ≠ sr → m' !! sr' = m !! sr' ∧ cached dir sr' d' = cached dir sr' d) ∧
  match m' !! sr with
  | Some s => file_count s = cached_count dir sr d' ∧ size_sum s = cached_size dir sr d'
  | None => cached dir sr d' = ∅
  end.
Proof.
  intros Hq Ht Hd Hm. rewrite scan_files_judge.
  pose proof (scan_entries d (dir_entries rdir d) d m Hq) as Hs. cbv zeta in Hs.
  rewrite Hm in Hs. cbn [from_option id CacheState_default file_count size_sum] in Hs.
  destruct (foldl _ (d, m) _) as [d' m']. cbn [fst snd] in Hs.
  destruct Hs as (I1 & I2 & I3 & I4 & I5); [|done|word|word|].
  { intros [name n] (p & Hp & En)%dir_entries_elem. cbn [fst snd].
    rewrite <- (entry_name_path _ _ _ En). pose proof (Ht p n Hp) as Htp. rewrite En in Htp.
    destruct Htp as (? & _ & ?). done. }
  assert (∀ p n, d' !! p = Some n ↔
     d !! p = Some n ∧ (∀ name, entry_name rdir p = Some name → good_entry (name, n) = true)) as Hd'.
  { intros p n. rewrite I1. destruct (decide (p ∈ _)) as [Hb|Hb]; rewrite bad_paths_elem in Hb.
    - destruct Hb as (n' & name & Hp & En & Hg). split; [done|]. intros [Hp' Hgood].
      specialize (Hgood name En). congruence.
    - split; [|by intros [? _]]. intros Hp. split; [done|]. intros name En.
      destruct (good_entry (name, n)) eqn:E; [done|]. exfalso. eauto 7. }
  assert (cached dir sr d' = filter (λ e, good_file e = true) d) as Ec.
  { apply map_eq. intros p. apply option_eq. intros n.
    rewrite cached_lookup, map_lookup_filter_Some, Hd'. unfold good_file. cbn [fst snd]. split.
    - intros ([Hp Hg] & Hro & _). pose proof (Ht p n Hp) as Htp.
      destruct (entry_name rdir p); [auto|done].
    - intros [Hp Hg]. pose proof (Ht p n Hp) as Htp. destruct (entry_name rdir p); [|done].
      destruct Htp as (? & ? & _). split_and!; try done. intros ? [= <-]. done. }
  split_and!; [done|..].
  - intros sr' Hne. split; [by apply I2|]. apply map_eq. intros p. apply option_eq. intros n.
    rewrite !cached_lookup, Hd'. split; [naive_solver|]. intros (Hp & Hro & Hf). split_and!; try done.
    intros name En. pose proof (Ht p n Hp) as Htp. rewrite En in Htp. destruct Htp as (_ & ? & _). congruence.
  - destruct (goods_list (map_to_list d)) as [G1 G2]. fold (dir_entries rdir d) in G1, G2.
    assert (Z.of_nat (length (filter (λ e, good_entry e = true) (dir_entries rdir d))) = cached_count dir sr d') as E1.
    { unfold cached_count. etrans; [exact (f_equal Z.of_nat G1)|].
      rewrite Ec, <- (Permutation_length (map_to_list_filter_perm _ d)).
      by rewrite length_map_to_list. }
    assert (sumZ (λ e, real_size e.2) (filter (λ e, good_entry e = true) (dir_entries rdir d)) = cached_size dir sr d') as E2.
    { unfold cached_size, map_sum. etrans; [exact G2|]. rewrite Ec.
      by rewrite <- (sumZ_perm _ _ _ (map_to_list_filter_perm (λ e, good_file e = true) d)). }
    assert (disk_ok dir d') as Hdk.
    { apply (disk_ok_sub dir d); [|done]. apply map_subseteq_spec. intros p n E. apply Hd' in E. tauto. }
    destruct (m' !! sr) as [s'|] eqn:Es; cbn in I3, I4.
    + rewrite I3, I4, E1, E2, !wrap64_small; [done|..].
      * by apply cached_size_range.
      * by apply cached_count_range.
    + destruct (filter _ (dir_entries rdir d)) as [|e l] eqn:Eg.
      * apply map_size_empty_inv. unfold cached_count in E1. simpl in E1. lia.
      * assert (is_Some (None : option CacheState)) as [? ?] by (apply I5; by right). done.
Qed.

End forced.

(** The account of a range in a table. *)
Definition range_acc `{HexCodec} (dir : string) (m : gmap string CacheState) (d : disk) (sr : string) : Prop :=
  match m !! sr with
  | Some s => file_count s = cached_count dir sr d ∧ size_sum s = cached_size dir sr d
  | None => cached dir sr d = ∅
  end.

Lemma scan_dirs_forced `{HexLaws, DigestLaws} env now dir srs counter d m :
  NoDup srs → quiet env d → disk_ok dir d →
  (∀ sr, sr ∈ srs → tidy dir d sr ∧ m !! sr = None) →
  (∀ sr, sr ∉ srs → range_acc dir m d sr) →
  let '(k, d', m') := scan_dirs env now true ((λ sr, (sr, range_dir dir sr)) <$> srs) counter d m in
  k = (counter + length srs)%nat ∧ (∀ sr, range_acc dir m' d' sr) ∧
  (∀ p n, d' !! p = Some n ↔ d !! p = Some n ∧
     ∀ sr name, sr ∈ srs → entry_name (range_dir dir sr) p = Some name → good_entry (name, n) = true).
Proof.
  revert counter d m. induction srs as [|sr srs IH]; intros counter d m Hnd Hq Hd Hin Hout; cbn [fmap list_fmap scan_dirs].
  { split_and!; [simpl; lia|intros sr; apply Hout; by apply not_elem_of_nil|]. intros p n. split; [|by intros [? _]].
    intros ?. split; [done|]. by intros ? ? ?%elem_of_nil. }
  apply NoDup_cons in Hnd as [Hni Hnd]. destruct (Hin sr ltac:(left)) as [Ht Hm].
  rewrite (q_open_count _ _ Hq), (q_open_list _ _ Hq), Hm. cbn [negb fmap option_fmap option_map from_option id].
  destruct (Z.eqb_spec (Z.of_nat (length (dir_entries (range_dir dir sr) d))) 0) as [Hz|Hz].
  - assert (∀ p n, d !! p = Some n → entry_name (range_dir dir sr) p = None) as Hno.
    { intros p n Hp. destruct (entry_name _ p) as [name|] eqn:En; [|done].
      assert ((name, n) ∈ dir_entries (range_dir dir sr) d) as Hin' by (apply dir_entries_elem; eauto).
      destruct (dir_entries _ d); [by apply elem_of_nil in Hin'|]. simpl in Hz. lia. }
    specialize (IH (S counter) d m Hnd Hq Hd ltac:(intros; apply Hin; by right)).
    destruct (scan_dirs _ _ _ _ _ _ _) as [[k d'] m']. destruct IH as (Hk & Hacc & Hd').
    { intros sr' Hni'. destruct (decide (sr' = sr)) as [->|Hne]; [|apply Hout; set_solver].
      unfold range_acc. rewrite Hm. apply map_empty. intros p. destruct (cached _ _ _ !! p) as [n|] eqn:E; [|done].
      apply cached_lookup in E as (Hp & Hro & _). pose proof (Ht p n Hp) as Htp. by rewrite (Hno p n Hp) in Htp. }
    split_and!; [simpl; lia|done|]. intros p n. rewrite Hd'. split; [|set_solver].
    intros [Hp Hg]. split; [done|]. intros sr' name [->|Hin']%elem_of_cons En; [|by eapply Hg].
    by rewrite (Hno p n Hp) in En.
  - rewrite (delete_id m sr Hm).
    pose proof (scan_range env now dir sr d m Hq Ht Hd Hm) as Hs.
    destruct (scan_files _ _ _ _ _ _ _) as [d1 m1]. destruct Hs as (S1 & S2 & S3).
    assert (d1 ⊆ d) as Hsub by (apply map_subseteq_spec; intros p n E; apply S1 in E; tauto).
    specialize (IH (S counter) d1 m1 Hnd (quiet_sub _ _ _ Hsub Hq) (disk_ok_sub _ _ _ Hsub Hd)).
    destruct (scan_dirs _ _ _ _ _ _ _) as [[k d'] m']. destruct IH as (Hk & Hacc & Hd').
    { intros sr' Hin'. assert (sr' ≠ sr) as Hne by congruence. destruct (Hin sr' ltac:(by right)) as [Ht' Hm'].
      split; [by eapply tidy_sub|]. by rewrite (proj1 (S2 sr' Hne)). }
    { intros sr' Hni'. destruct (decide (sr' = sr)) as [->|Hne]; [exact S3|].
      destruct (S2 sr' Hne) as [E1 E2]. unfold range_acc, cached_count, cached_size. rewrite E1, E2.
      apply Hout. set_solver. }
    split_and!; [simpl; lia|done|]. intros p n. rewrite Hd', S1. split; [|set_solver].
    intros [[Hp Hg1] Hg2]. split; [done|]. intros sr' name [->|Hin']%elem_of_cons En; eauto.
Qed.

Lemma remove_dir_all_sub env dir d : remove_dir_all env dir d ⊆ d.
Proof. apply map_filter_subseteq. Qed.

(** What the selection deletes lies in directories of no range. *)
Lemma scan_l2_deletes env ranges l1 l1_path es dirs d p n :
  d !! p = Some n → (scan_l2 env ranges l1 l1_path es dirs d).2 !! p = None →
  ∃ l2, find_range ranges (l1 +:+ l2) = None ∧ starts_with p (with_sep (path_push l1_path l2)) = true.
Proof.
  revert dirs d. induction es as [|[[l2 is_dir]|] es IH]; intros dirs d Hp Hn; simpl in Hn; [congruence| |congruence].
  destruct (negb is_dir); [by eapply IH|].
  destruct (find_range ranges (l1 +:+ l2)) eqn:Ef; [by eapply IH|].
  destruct (remove_dir_all env (path_push l1_path l2) d !! p) as [n'|] eqn:Er.
  - eapply IH; [|done]. assert (n' = n) as ->; [|exact Er].
    pose proof (lookup_weaken _ _ _ _ Er (remove_dir_all_sub _ _ _)). congruence.
  - exists l2. split; [done|]. apply map_lookup_filter_None in Er as [Er|Er]; [congruence|].
    specialize (Er n Hp). cbn in Er. destruct (starts_with p _); [done|]. naive_solver.
Qed.

Lemma scan_l2_sub env ranges l1 l1_path es dirs d : (scan_l2 env ranges l1 l1_path es dirs d).2 ⊆ d.
Proof.
  revert dirs d. induction es as [|[[l2 is_dir]|] es IH]; intros dirs d; simpl; [done| |done].
  destruct (negb is_dir); [done|]. destruct (find_range _ _); [done|].
  etrans; [apply IH|apply remove_dir_all_sub].
Qed.

Lemma load_state_spec ranges l c :
  NoDup l.*1 → (∀ sr, sr ∈ l.*1 → cache_state c !! sr = None) →
  cache_count (metrics c) = wrap64 (map_sum file_count (cache_state c)) →
  cache_size (metrics c) = wrap64 (map_sum size_sum (cache_state c)) →
  let c' := load_state ranges l c in
  (∀ sr s, cache_state c' !! sr = Some s ↔ cache_state c !! sr = Some s ∨ (sr ∈ ranges ∧ (sr, s) ∈ l)) ∧
  cache_count (metrics c') = wrap64 (map_sum file_count (cache_state c')) ∧
  cache_size (metrics c') = wrap64 (map_sum size_sum (cache_state c')) ∧
  cache_dir c' = cache_dir c.
Proof.
  revert c. induction l as [|[sr s] l IH]; intros c Hnd Hno Hc Hz; cbv zeta.
  { split_and!; try done. intros sr s. simpl. rewrite elem_of_nil. tauto. }
  apply NoDup_cons in Hnd as [Hni Hnd]. unfold load_state. cbn [foldl fst snd].
  case_bool_decide as Hr.
  - match goal with |- context [foldl ?f ?c1 l] => set (c1' := c1); change (foldl f c1' l) with (load_state ranges l c1') end.
    assert (cache_state c !! sr = None) as Hsr by (apply Hno; left).
    destruct (IH c1' Hnd) as (I1 & I2 & I3 & I4).
    + intros sr' Hin. cbn. rewrite lookup_insert_ne by (intros ->; done). apply Hno. by right.
    + cbn. rewrite Hc, wrap64_add_l, map_sum_insert by done. f_equal. lia.
    + cbn. rewrite Hz, wrap64_add_l, map_sum_insert by done. f_equal. lia.
    + split_and!; try done. intros sr' s'. rewrite I1. cbn.
      rewrite lookup_insert_Some, elem_of_cons. split; [naive_solver|].
      intros [Hs|[Hr' [[= <- <-]|Hin]]]; [|by left; left|by right].
      destruct (decide (sr = sr')) as [<-|]; [congruence|naive_solver].
  - destruct (IH c Hnd ltac:(intros; apply Hno; by right) Hc Hz) as (I1 & I2 & I3 & I4).
    split_and!; try done. intros sr' s'. unfold load_state in I1. rewrite I1, elem_of_cons. naive_solver.
Qed.

(** ** Theorems *)

Section theorems.
Context `{HexLaws, DigestLaws}.

(** C33: A directory may be listed in any order, sorted by any inodes, and its files
    scanned in any order, each of them in one step: the disk and the accounts at the end
    are those of scanning its readable entries one after the other. *)
Theorem scan_files_order env now verify_cache dir ino answers es d m :
  omap id answers ≡ₚ es →
  scan_files env now verify_cache dir (list_files ino answers) d m = scan_files env now verify_cache dir es d m.
Proof.
  intros Hp. apply scan_files_perm. unfold list_files, sort_by_inode. by rewrite merge_sort_Permutation.
Qed.

(** C14: a forced scan of a well-kept cache establishes the accounts from nothing.
    If no call fails, the selected directories are those of the ranges in lower case,
    at least one and each once, they hold only files that are named as identifiers and
    lie where the program puts them, and no other directory holds cached files, then
    the scan succeeds; afterwards every account and gauge is exact, and a file of a
    range is still there exactly if its size and its digest are those of its name. *)
Theorem scan_cache_establishes env now es ranges srs d0 d1 c :
  cache_state c = ∅ →
  scan_l1 env ranges (cache_dir c) es [] d0 =
    (Some ((λ sr, (sr, range_dir (cache_dir c) sr)) <$> srs), d1) →
  NoDup srs → srs ≠ [] → quiet env d1 → disk_ok (cache_dir c) d1 →
  (∀ sr, sr ∈ srs → tidy (cache_dir c) d1 sr) →
  (∀ sr, sr ∉ srs → cached (cache_dir c) sr d1 = ∅) →
  let '(r, d', c') := scan_cache env now (Some es) ranges true d0 c in
  r = inl () ∧ accounted c' d' ∧
  (∀ p n, d' !! p = Some n ↔ d1 !! p = Some n ∧
     ∀ sr name, sr ∈ srs → entry_name (range_dir (cache_dir c) sr) p = Some name →
       good_entry (name, n) = true).
Proof.
  intros Hempty Hl1 Hnd Hne Hq Hd Ht Hout. unfold scan_cache. rewrite Hl1, Hempty.
  pose proof (scan_dirs_forced env now (cache_dir c) srs 0 d1 ∅ Hnd Hq Hd) as Hs.
  destruct (scan_dirs _ _ _ _ _ _ _) as [[k d'] m']. destruct Hs as (Hk & Hacc & Hd').
  { intros sr Hin. split; [by apply Ht|apply lookup_empty]. }
  { intros sr Hni. unfold range_acc. rewrite lookup_empty. by apply Hout. }
  rewrite (bool_decide_false (k = 0%nat)) by (destruct srs; [done|simpl in Hk; lia]). cbn [andb].
  split_and!; [done| |done]. split; [exact Hacc|done..].
Qed.

(** Before the scan, a file is deleted only with a second-level directory
    whose name, the two levels joined, is none of the client's static ranges
    (compared without case). *)
Theorem scan_l1_deletes_foreign env ranges root es dirs d p n :
  d !! p = Some n → (scan_l1 env ranges root es dirs d).2 !! p = None →
  ∃ l1 l2, (∀ sr, sr ∈ ranges → eq_ignore_ascii_case (l1 +:+ l2) sr = false) ∧
    starts_with p (with_sep (path_push (path_push root l1) l2)) = true.
Proof.
  revert dirs d. induction es as [|[[l1 [[l2s|]|]]|] es IH]; intros dirs d Hp Hn; simpl in Hn;
    try congruence; [|by eapply IH].
  destruct (scan_l2 env ranges l1 (path_push root l1) l2s dirs d) as [odirs d1] eqn:E2.
  destruct (d1 !! p) as [n1|] eqn:E1.
  - assert (n1 = n) as ->.
    { pose proof (scan_l2_sub env ranges l1 (path_push root l1) l2s dirs d) as Hsub. rewrite E2 in Hsub.
      pose proof (lookup_weaken _ _ _ _ E1 Hsub). congruence. }
    destruct odirs as [dirs'|]; [by eapply IH|]. simpl in Hn. congruence.
  - destruct (scan_l2_deletes env ranges l1 (path_push root l1) l2s dirs d p n Hp) as (l2 & Hf & Hst).
    { by rewrite E2. }
    exists l1, l2. split; [|done]. intros sr Hin. unfold find_range in Hf. apply head_None in Hf.
    destruct (eq_ignore_ascii_case (l1 +:+ l2) sr) eqn:E; [|done].
    assert (sr ∈ filter (λ sr, eq_ignore_ascii_case (l1 +:+ l2) sr = true) ranges) as Hin'
      by (by apply list_elem_of_filter). rewrite Hf in Hin'. by apply elem_of_nil in Hin'.
Qed.

(** A read error during a forced scan costs an intact file: when the first
    read fails the hash of nothing is compared, and the file is deleted although
    its contents are right. *)
Theorem scan_file_read_error env now dir name md i d m code rest :
  let path := path_push dir name in
  quiet (mkEnv (se_io env) (se_rmdir env) (se_open_count env) (se_open_list env) (se_open_file env) (λ _, [])) ∅ →
  d !! path = Some md → is_file md = true → from_file_id name = Some i →
  intact i md = true → fi_hash i ≠ digest [] →
  se_reads env path = OsFail code :: rest →
  scan_file env now true dir (name, md) d m = (delete path d, m).
Proof.
  intros path Hq Hp Hf Hi Hin Hne Hr. unfold intact in Hin. apply andb_true_iff in Hin as [Hl _].
  unfold scan_file, is_dir. fold path. pose proof (q_metadata _ _ Hq path) as Q1. pose proof (q_remove _ _ Hq path) as Q2.
  pose proof (q_open_file _ _ Hq path) as Q3. cbn in Q1, Q2, Q3.
  rewrite Q1, Hf, Hi, Hl, Q3, Hr. cbn [negb andb hash_loop read_file].
  pose proof (finish_chunks []) as Hfc. cbn in Hfc. rewrite Hfc, bool_decide_false by congruence.
  cbn [negb]. unfold os_remove_file. by rewrite Hp, Q2, Hf.
Qed.

(** What [new] loads.  Without a forced check the accounts are the saved
    ones of the ranges the client still has, whatever order they are read in,
    and the gauges are their totals; with it nothing is loaded.  The scan runs
    before the client starts exactly if the disk is almost full or a forced
    check was asked for and not moved to the background. *)
Theorem new_manager_loads io rm_ok data_dir dir temp_dir limit ranges verify_cache force_bg free old d :
  let '(mode, _, c) :=
    new_manager io rm_ok data_dir dir temp_dir limit ranges verify_cache force_bg free old d in
  (∀ sr s, cache_state c !! sr = Some s ↔
     verify_cache = false ∧ sr ∈ ranges ∧ default ∅ old !! sr = Some s) ∧
  cache_count (metrics c) = wrap64 (map_sum file_count (cache_state c)) ∧
  cache_size (metrics c) = wrap64 (map_sum size_sum (cache_state c)) ∧
  (mode = Foreground ↔ (∃ f, free = Some f ∧ f < SIZE_100MB) ∨ (verify_cache = true ∧ force_bg = false)).
Proof.
  unfold new_manager. split_and!.
  1-3: destruct verify_cache; [try done|].
  - intros sr s. cbn. rewrite lookup_empty. split; [done|]. by intros [? _].
  - destruct (load_state_spec ranges (map_to_list (default ∅ old))
      (update_settings limit (mkManager dir ∅ u64_max (mkGauges 0 0 0 0) old))) as (I1 & _).
    1: apply NoDup_fst_map_to_list. 1: done. 1,2: done.
    intros sr s. rewrite I1, elem_of_map_to_list. cbn. rewrite lookup_empty. naive_solver.
  - destruct (load_state_spec ranges (map_to_list (default ∅ old))
      (update_settings limit (mkManager dir ∅ u64_max (mkGauges 0 0 0 0) old))) as (_ & I2 & _); try done.
    apply NoDup_fst_map_to_list.
  - destruct (load_state_spec ranges (map_to_list (default ∅ old))
      (update_settings limit (mkManager dir ∅ u64_max (mkGauges 0 0 0 0) old))) as (_ & _ & I3 & _); try done.
    apply NoDup_fst_map_to_list.
  - destruct free as [f|]; [destruct (Z.ltb_spec f SIZE_100MB)|]; destruct verify_cache, force_bg; cbn;
      split; try done; try (by intros [(? & [= <-] & ?)|[? ?]]; lia); try (by intros [(? & ? & ?)|[? ?]]); eauto.
    all: try (intros [(? & [= <-] & ?)|[? ?]]; [lia|done]).
Qed.

End theorems.

(** ** Witnesses *)

Definition scan_sr : string := @static_range hex_ref read_info.
Definition good_env : scan_env :=
  mkEnv no_faults (λ _, false) (λ _, true) (λ _, true) (λ _, true) (λ _, replicate 5 (OsRead 1)).
Definition bad_env : scan_env :=
  mkEnv no_faults (λ _, false) (λ _, true) (λ _, true) (λ _, true) (λ _, [OsFail 5]).
Definition scan_tree : list l1_entry :=
  [Some (String.substring 0 2 scan_sr, Some (Some [Some (String.substring 2 2 scan_sr, true)]))].
Definition empty_cm : CacheManager := mkManager "cache" ∅ 1000 (mkGauges 0 0 0 0) None.
Definition scan_name : string := @file_name hex_ref read_info.

Lemma scan_files_order_witness :
  @scan_files hex_ref toy_digest good_env 0 true "d"
    (list_files (λ n, if decide (n = "a") then 2 else 1) [Some ("a", read_node []); None; Some ("b", read_node [])]) ∅ ∅ =
  @scan_files hex_ref toy_digest good_env 0 true "d" [("a", read_node []); ("b", read_node [])] ∅ ∅.
Proof. apply (scan_files_order (H:=hex_ref) (D:=toy_digest)). vm_compute. reflexivity. Defined.

Lemma scan_cache_establishes_witness :
  let '(r, d', c') := @scan_cache hex_ref toy_digest good_env 0 (Some scan_tree) [scan_sr] true
                        (read_disk good_data) empty_cm in
  r = inl () ∧ @accounted hex_ref c' d' ∧ cache_count (metrics c') = 1.
Proof.
  pose proof (scan_cache_establishes (H:=hex_ref) (D:=toy_digest) good_env 0 scan_tree [scan_sr] [scan_sr]
    (read_disk good_data) (read_disk good_data) empty_cm eq_refl) as Hw.
  assert (cache_count (metrics (@scan_cache hex_ref toy_digest good_env 0 (Some scan_tree) [scan_sr] true
                        (read_disk good_data) empty_cm).2) = 1) as Hc by (vm_compute; reflexivity).
  destruct (@scan_cache hex_ref toy_digest good_env 0 (Some scan_tree) [scan_sr] true
                        (read_disk good_data) empty_cm) as [[r d'] c'].
  destruct Hw as (Hr & Ha & _); [vm_compute; reflexivity|by repeat constructor; set_solver|done| |apply read_disk_ok|..].
  - split; try done. intros p n E. unfold read_disk in E. apply lookup_singleton_Some in E as [_ <-]. split; [apply Forall_replicate; exists 1%nat; split; [done|lia]|vm_compute; lia].
  - intros sr ->%list_elem_of_singleton p n E. unfold read_disk in E.
    apply lookup_singleton_Some in E as [<- <-]. vm_compute. eauto 10.
  - intros sr Hsr. apply map_empty. intros p. destruct (cached _ _ _ !! p) as [n|] eqn:E; [|done].
    apply cached_lookup in E as (E & Hro & _). unfold read_disk in E. apply lookup_singleton_Some in E as [<- _].
    assert (sr = scan_sr) by (vm_compute in Hro; vm_compute; congruence). set_solver.
  - done.
Defined.

Lemma scan_l1_deletes_foreign_witness :
  (scan_l1 good_env [] "cache" scan_tree [] (read_disk good_data)).2 !! read_path = None ∧
  ∃ l1 l2, starts_with read_path (with_sep (path_push (path_push "cache" l1) l2)) = true.
Proof.
  assert ((scan_l1 good_env [] "cache" scan_tree [] (read_disk good_data)).2 !! read_path = None) as E
    by (vm_compute; reflexivity).
  split; [exact E|].
  destruct (scan_l1_deletes_foreign good_env [] "cache" scan_tree [] (read_disk good_data) read_path
    (read_node good_data) ltac:(vm_compute; reflexivity) E) as (l1 & l2 & _ & Hs). eauto.
Defined.

Lemma scan_file_read_error_witness :
  let dir := @range_dir "cache" scan_sr in
  @scan_file hex_ref toy_digest bad_env 0 true dir (scan_name, read_node good_data)
    (read_disk good_data) ∅ = (delete (path_push dir scan_name) (read_disk good_data), ∅).
Proof.
  refine (scan_file_read_error (H:=hex_ref) (D:=toy_digest) bad_env 0 (range_dir "cache" scan_sr) scan_name
    (read_node good_data) read_info (read_disk good_data) ∅ 5 [] _ _ _ _ _ _ _).
  - split; done.
  - vm_compute. reflexivity.
  - reflexivity.
  - vm_compute. reflexivity.
  - vm_compute. reflexivity.
  - vm_compute. discriminate.
  - reflexivity.
Defined.
