(* ===== verification/CleanerProgress.v ===== *)
(** * CleanerProgress: the cleaner reaches its goal

    [src/src/cache_manager.rs], [CacheManager::check_cache_usage]: when no call
    fails, the range directories hold only cache files, file times are in the
    past, and the cache holds what has to be freed, the loop ends, has freed
    enough and not more than one file too many.  The measure counts each file
    twice and each range whose recorded age would make the next pass over it
    delete nothing. *)

From S2P Require Import Prelude Text Extern FileId FileReader CacheStore CacheRead CacheCleaner CacheScan.
From stdpp Require Import base gmap list strings numbers fin_maps sorting.

Local Open Scope Z_scope.

(** ** Vocabulary *)

Definition total (c : CacheManager) : Z := map_sum size_sum (cache_state c).

(** No call on a file fails. *)
Record healthy (io : faults) : Prop := {
  h_metadata p : f_metadata io p = false;
  h_filesize p : f_filesize io p = false;
  h_remove p : f_remove io p = false
}.

(** The recorded age of every range. *)
Definition ages (c : CacheManager) : gmap string Z := oldest <$> cache_state c.

(** The space a list of files takes. *)
Definition freed (l : list entry) : Z := sumZ (λ e, real_size e.2) l.

(** A listed entry is a file of the disk under the path of its identifier. *)
Definition listed `{HexCodec} (dir sr : string) (d : disk) (e : entry) : Prop :=
  ∃ i, from_file_id e.1 = Some i ∧ static_range i = sr ∧ d !! to_path i dir = Some e.2 ∧
       path_push (range_dir dir sr) e.1 = to_path i dir.

Lemma omap_keys_NoDup {K A B} (f : K * A → option B) (g : B → K) (l : list (K * A)) :
  (∀ e x, f e = Some x → g x = e.1) → NoDup l.*1 → NoDup (g <$> omap f l).
Proof.
  intros Hf. induction l as [|e l IH]; intros Hnd; [constructor|].
  cbn in Hnd. apply NoDup_cons in Hnd as [Hnin Hnd]. specialize (IH Hnd).
  cbn [omap list_omap]. destruct (f e) as [x|] eqn:Ef; [|exact IH].
  cbn. constructor; [|exact IH]. rewrite (Hf _ _ Ef).
  intros (y & Hy & (e' & He' & Ef')%list_elem_of_omap)%list_elem_of_fmap.
  apply Hnin. rewrite Hy, (Hf _ _ Ef'). by apply list_elem_of_fmap_2.
Qed.

Section files.
Context `{HexLaws}.
Implicit Types (d : disk) (c : CacheManager).
Variable io : faults.
Hypothesis Hio : healthy io.

Lemma entry_name_sep dir p name : entry_name dir p = Some name → p = with_sep dir +:+ name.
Proof.
  unfold entry_name, str_strip_prefix. destruct (starts_with p (with_sep dir)) eqn:E; [|simpl; discriminate].
  apply starts_with_inv in E as [t ->]. simpl.
  rewrite as_bytes_app, <- string_length_as_bytes, drop_app_length, of_as_bytes.
  destruct (_ || _); [done|]. by intros [= <-].
Qed.

(** In a tidy directory every entry is listed. *)
Lemma tidy_listed dir sr d p n name :
  tidy dir d sr → d !! p = Some n → entry_name (range_dir dir sr) p = Some name →
  listed dir sr d (name, n) ∧ range_of dir p = Some sr ∧ is_file n = true.
Proof.
  intros Ht Hp En. pose proof (Ht p n Hp) as Hn. rewrite En in Hn. destruct Hn as (Hf & Hr & _).
  split; [|done]. unfold range_of, path_info in Hr. cbn [mbind option_bind] in Hr.
  destruct (from_file_id _) as [i|] eqn:Ei; [|done]. cbn in Hr.
  destruct (decide (to_path i dir = p)) as [Ep|]; [|done]. simpl in Hr. injection Hr as Hsr.
  pose proof (from_file_id_ok _ _ Ei) as Hok. pose proof Hok as (Hl & _).
  assert (name = file_name i) as ->.
  { apply (str_app_inj_length (with_sep (range_dir dir sr)) (with_sep (range_dir dir sr))); [done|].
    rewrite <- (entry_name_sep _ _ _ En), <- Ep, <- path_push_rel.
    - unfold to_path, range_dir. rewrite <- Hsr. by destruct (static_range_slices i Hl) as [-> ->].
    - destruct (hex_slices _ Hl) as (x1 & x2 & y1 & y2 & _ & _ & Hx1 & _ & _ & _ & r & Er).
      unfold file_name. rewrite Er. destruct (0 <? fi_xres i); simpl;
        (rewrite decide_False; [done|]); intros <-; by apply lower_hex_not_sep in Hx1. }
  exists (canonical i). cbn [fst snd]. rewrite to_path_canonical, Ep, <- (entry_name_path _ _ _ En).
  split_and!; try done. by apply from_file_id_file_name.
Qed.

(** Removing one listed file. *)
Lemma remove_listed dir sr d c e i :
  accounted c d → disk_ok dir d → cache_dir c = dir →
  from_file_id e.1 = Some i → static_range i = sr → d !! to_path i dir = Some e.2 →
  ∃ c', remove_cache io i d c = (Some (), delete (to_path i dir) d, c') ∧
    accounted c' (delete (to_path i dir) d) ∧ cache_dir c' = dir ∧
    ages c' = ages c ∧ total c' = total c - real_size e.2.
Proof.
  intros Ha Hd <- Hi Hs Hp. pose proof (from_file_id_ok _ _ Hi) as Hok.
  destruct (remove_accounted_ok c d i e.2 Ha Hd Hok Hp) as (s & Es & Ha').
  eexists. split; [|split; [exact Ha'|]].
  { unfold remove_cache, metadata, async_filesize, os_remove_file.
    rewrite (h_metadata io Hio), Hp, (h_filesize io Hio), (h_remove io Hio).
    rewrite (paths_files _ _ Hd _ _ Hp) by (rewrite range_of_to_path by done; eauto).
    cbn [orb negb]. by rewrite Es. }
  split; [done|]. split.
  - unfold ages. cbn. rewrite fmap_insert. apply insert_id. by rewrite lookup_fmap, Es.
  - unfold total. cbn. rewrite (map_sum_update _ _ _ _ _ Es).
    pose proof (acc_range _ _ Ha' (static_range i)) as Hr. pose proof (acc_range _ _ Ha (static_range i)) as Hr0.
    unfold range_ok in Hr, Hr0. cbn [cache_state cache_dir set_metrics set_state] in Hr.
    rewrite lookup_insert_eq in Hr. rewrite Es in Hr0. destruct Hr as [_ ->], Hr0 as [_ ->].
    rewrite (cached_size_delete _ _ _ _ e.2); [lia|]. apply cached_lookup.
    rewrite range_of_to_path by done. split_and!; [done..|]. apply (paths_files _ _ Hd _ _ Hp).
    rewrite range_of_to_path by done. eauto.
Qed.

(** What the inner loop does to a sorted list of listed files: it deletes a
    beginning of the list, [del], and keeps the rest. *)
Record swept (dir sr : string) (cut : Z) (need new : Z) d c (del keep : list entry)
    (need' new' : Z) (d' : disk) (c' : CacheManager) : Prop := {
  sw_accounted : accounted c' d';
  sw_disk : disk_ok dir d';
  sw_dir : cache_dir c' = dir;
  sw_ages : ages c' = ages c;
  sw_sub : d' ⊆ d;
  sw_size : (size d' + length del = size d)%nat;
  sw_other sr' : sr' ≠ sr → cached dir sr' d' = cached dir sr' d;
  sw_gone e : e ∈ del → d' !! path_push (range_dir dir sr) e.1 = None;
  sw_kept : Forall (listed dir sr d') keep;
  sw_total : total c' = total c - freed del;
  sw_need : need' = sat_sub need (freed del);
  sw_new : new' = match keep with e :: _ => mtime e.2 | [] => new end;
  sw_stop : keep = [] ∨ need' = 0 ∨ ∃ e r, keep = e :: r ∧ cut < mtime e.2;
  sw_idle : need = 0 → del = [];
  sw_enough : 0 < need → need' = 0 → ∃ e, e ∈ del ∧ freed del < need + real_size e.2
}.

Notation paths dir sr := (fmap (λ e : entry, path_push (range_dir dir sr) e.1)).

Lemma freed_cons name md l : freed ((name, md) :: l) = real_size md + freed l.
Proof. done. Qed.

Lemma listed_nonneg dir sr d e : disk_ok dir d → listed dir sr d e → 0 ≤ real_size e.2.
Proof. intros Hd (i & _ & _ & Hp & _). by eapply (size_nonneg _ _ Hd). Qed.

Lemma clean_files_run dir sr cut files need new d c :
  accounted c d → disk_ok dir d → cache_dir c = dir → 0 ≤ need →
  Forall (listed dir sr d) files → NoDup (paths dir sr files) →
  ∃ del keep need' new' d' c',
    clean_files io (range_dir dir sr) cut files need new d c = (need', new', d', c') ∧
    files = del ++ keep ∧ swept dir sr cut need new d c del keep need' new' d' c'.
Proof.
  revert need d c. induction files as [|e files IH]; intros need d c Ha Hd Hc Hn Hl Hnd.
  { exists [], [], need, new, d, c. split_and!; [done..|]. by split; simpl; try done; try word; auto; intros e He%elem_of_nil. }
  apply Forall_cons in Hl as [(i & Hi & Hs & Hp & Hpath) Hl]. destruct e as [name md].
  cbn [fst snd clean_files] in *. apply NoDup_cons in Hnd as [Hnin Hnd].
  destruct ((cut <? mtime md) || (need =? 0)) eqn:Et.
  { exists [], ((name, md) :: files), need, (mtime md), d, c. split_and!; [done..|].
    split; simpl; try done; try word; auto; [by intros e He%elem_of_nil|by constructor; [exists i|]|].
    apply orb_true_iff in Et as [Hcut%Z.ltb_lt| ->%Z.eqb_eq]; [|by auto]. right. right. by eexists _, _. }
  apply orb_false_iff in Et as [Hcut%Z.ltb_ge Hn0%Z.eqb_neq].
  rewrite Hi. unfold async_filesize at 1. rewrite (h_filesize io Hio).
  destruct (remove_listed dir sr d c (name, md) i Ha Hd Hc Hi Hs Hp) as (c1 & -> & Ha1 & Hc1 & Hg1 & Ht1).
  cbn [fst snd] in *. set (d1 := delete (to_path i dir) d) in *.
  destruct (IH (sat_sub need (real_size md)) d1 c1) as (del & keep & n' & o' & d' & c' & E & -> & Hsw); try done.
  { by apply disk_ok_delete. } { word. }
  { apply Forall_forall. intros e He. destruct (proj1 (Forall_forall _ _) Hl e He) as (j & Hj & Hsj & Hpj & Hpathj).
    exists j. split_and!; try done. unfold d1. rewrite lookup_delete_ne; [done|]. intros Heq.
    apply Hnin. rewrite Hpath, Heq, <- Hpathj. apply list_elem_of_fmap. eauto. }
  exists ((name, md) :: del), keep, n', o', d', c'. split_and!; [done..|].
  destruct Hsw as [S1 S2 S3 S4 S5 S6 S7 S8 S9 S10 S11 S12 S13 S14 S15].
  assert (0 ≤ real_size md) as Hsz by by eapply (size_nonneg _ _ Hd).
  split; try done.
  - congruence.
  - etrans; [exact S5|apply delete_subseteq].
  - simpl. unfold d1 in S6. rewrite map_size_delete, Hp in S6.
    assert (size d ≠ 0%nat); [|lia]. intros Hz. apply map_size_empty_inv in Hz. rewrite Hz in Hp. by rewrite lookup_empty in Hp.
  - intros sr' Hne. rewrite S7 by done. apply cached_delete_other.
    rewrite range_of_to_path by by eapply from_file_id_ok. congruence.
  - intros e [->|He]%elem_of_cons; [|by apply S8]. cbn [fst]. rewrite Hpath.
    destruct (d' !! to_path i dir) eqn:El; [|done].
    pose proof (lookup_weaken _ _ _ _ El S5) as El'. unfold d1 in El'. by rewrite lookup_delete_eq in El'.
  - rewrite S10, Ht1, freed_cons. lia.
  - rewrite S11, freed_cons. assert (0 ≤ freed del) as Hnn; [|word].
    apply sumZ_nonneg. intros e He. apply (listed_nonneg dir sr d); [done|].
    apply (proj1 (Forall_forall _ _) Hl). apply elem_of_app. by left.
  - intros _ E0. destruct (decide (real_size md < need)).
    + destruct (S15 ltac:(word) E0) as (e & He & Hlt). exists e. split; [by right|].
      rewrite freed_cons. word.
    + exists (name, md). split; [left|]. simpl.
      rewrite (S14 ltac:(word)). unfold freed. simpl. lia.
Qed.

(** The listing of a tidy directory is that of the cached files of its range. *)
Lemma dir_files_elem dir sr d name n :
  tidy dir d sr →
  (name, n) ∈ dir_files io (range_dir dir sr) d ↔
  ∃ p, d !! p = Some n ∧ entry_name (range_dir dir sr) p = Some name.
Proof.
  intros Ht. unfold dir_files. rewrite list_elem_of_omap. split.
  - intros ([p n'] & Hin%elem_of_map_to_list & E). cbn in E.
    destruct (entry_name _ p) as [nm|] eqn:En; [|done]. cbn in E.
    unfold metadata in E. rewrite (h_metadata io Hio), Hin in E. cbn in E.
    destruct (is_file n'); simplify_eq. eauto.
  - intros (p & Hp & En). exists (p, n). rewrite elem_of_map_to_list. split; [done|]. cbn. rewrite En. cbn.
    unfold metadata. rewrite (h_metadata io Hio), Hp. cbn.
    by destruct (tidy_listed _ _ _ _ _ _ Ht Hp En) as (_ & _ & ->).
Qed.

Lemma dir_files_listed dir sr d : tidy dir d sr → Forall (listed dir sr d) (dir_files io (range_dir dir sr) d).
Proof.
  intros Ht. apply Forall_forall. intros [name n] (p & Hp & En)%dir_files_elem; [|done].
  by apply (tidy_listed _ _ _ p).
Qed.

Lemma dir_files_cached dir sr d p n :
  tidy dir d sr →
  cached dir sr d !! p = Some n ↔
  ∃ name, (name, n) ∈ dir_files io (range_dir dir sr) d ∧ p = path_push (range_dir dir sr) name.
Proof.
  intros Ht. rewrite cached_lookup. split.
  - intros (Hp & Hr & _). pose proof (Ht p n Hp) as Hn.
    destruct (entry_name (range_dir dir sr) p) as [name|] eqn:En; [|done].
    exists name. split; [apply dir_files_elem; eauto|]. by apply entry_name_path.
  - intros (name & (p' & Hp & En)%dir_files_elem & ->); [|done].
    rewrite <- (entry_name_path _ _ _ En). split; [done|]. by apply (tidy_listed _ _ d p' n name).
Qed.

Lemma dir_files_NoDup dir sr d : NoDup (paths dir sr (dir_files io (range_dir dir sr) d)).
Proof.
  apply omap_keys_NoDup; [|apply NoDup_fst_map_to_list].
  intros [p n] [name md] E. cbn in *. destruct (entry_name _ p) as [nm|] eqn:En; [|done]. cbn in E.
  destruct (metadata io d p) as [m|]; [|done]. cbn in E. destruct (is_file m); simplify_eq.
  symmetry. by apply entry_name_path.
Qed.

End files.

(** ** Progress of a pass *)

Section progress.
Context `{HexLaws}.
Implicit Types (d : disk) (c : CacheManager).
Variable chrono_ok : Z → bool.
Variable io : faults.
Variable opens : string → bool.
Variable dir : string.
Variable T : Z.                       (* seconds; all file times are before it *)
Hypothesis Hio : healthy io.
Hypothesis Hopens : ∀ p, opens p = true.
Hypothesis HT : 0 ≤ T ≤ 2 ^ 62.

(** The next pass over the range deletes a file, or the range has none and is
    recorded as young. *)
Definition settled (sr : string) (o : Z) d : bool :=
  if decide (cached dir sr d = ∅) then T <=? o
  else existsb (λ e, mtime e.2 <=? (o + day) * ns) (map_to_list (cached dir sr d)).

Definition unsettled d c : gmap string Z := filter (λ e, settled e.1 e.2 d = false) (ages c).

Definition measure d c : nat := (2 * size d + size (unsettled d c))%nat.

Record ready d c : Prop := {
  r_accounted : accounted c d;
  r_disk : disk_ok dir d;
  r_dir : cache_dir c = dir;
  r_tidy sr : is_Some (ages c !! sr) → tidy dir d sr;
  r_ages sr o : ages c !! sr = Some o → 0 ≤ o ≤ 2 ^ 62 ∧ (cached dir sr d ≠ ∅ → o < T);
  r_times p n : d !! p = Some n → is_Some (range_of dir p) → 0 ≤ mtime n < T * ns
}.

Lemma window_ge now o : day ≤ window chrono_ok now o ≤ 30 * day.
Proof. unfold window, day. destruct (chrono_ok o); [|lia]. repeat case_match; lia. Qed.

Lemma cut_off_ge now o : 0 ≤ o ≤ 2 ^ 62 → (o + day) * ns ≤ cut_off chrono_ok now o.
Proof.
  intros Ho. unfold cut_off. pose proof (window_ge now o) as Hw.
  change (2 ^ 62) with 4611686018427387904 in Ho.
  rewrite wrap_i64_small by (unfold day in *; word). unfold ns, day in *. lia.
Qed.

Lemma ages_set_oldest sr t c :
  is_Some (ages c !! sr) → ages (save_state io (set_oldest sr t c)) = <[sr := unix_seconds t]> (ages c).
Proof.
  intros [o Ho]. unfold ages in *. destruct (save_state_same io (set_oldest sr t c)) as (-> & _).
  rewrite lookup_fmap in Ho. unfold set_oldest. destruct (cache_state c !! sr) as [s|]; [|done].
  cbn. by rewrite fmap_insert.
Qed.

Lemma total_set_oldest sr t c : total (save_state io (set_oldest sr t c)) = total c.
Proof.
  unfold total. destruct (save_state_same io (set_oldest sr t c)) as (-> & _).
  unfold set_oldest. destruct (cache_state c !! sr) as [s|] eqn:E; [|done].
  cbn. rewrite (map_sum_update _ _ _ _ _ E). cbn. lia.
Qed.

(** The range a pass selects. *)
Lemma select c :
  cache_state c ≠ ∅ →
  ∃ sr st, min_oldest (map_to_list (cache_state c)) = Some (sr, st) ∧ ages c !! sr = Some (oldest st) ∧
    ∀ sr' o, ages c !! sr' = Some o → oldest st ≤ o.
Proof.
  intros Hne. destruct (min_oldest_some (map_to_list (cache_state c))) as [[sr st] Em].
  { by rewrite map_to_list_empty_iff. }
  exists sr, st. split; [done|]. split.
  - unfold ages. rewrite lookup_fmap.
    by rewrite (proj1 (elem_of_map_to_list _ _ _) (min_oldest_elem _ _ Em)).
  - intros sr' o. unfold ages. rewrite lookup_fmap. destruct (cache_state c !! sr') as [s|] eqn:E; [|done].
    cbn. intros [= <-]. by apply (min_oldest_least _ _ Em (sr', s)), elem_of_map_to_list.
Qed.

(** While something is cached, some tracked range has a file. *)
Lemma total_cached d c : accounted c d → 0 < total c →
  ∃ sr, is_Some (ages c !! sr) ∧ cached (cache_dir c) sr d ≠ ∅.
Proof.
  intros Ha Ht. unfold total, map_sum in Ht.
  destruct (decide (Exists (λ e : string * CacheState, 0 < size_sum e.2) (map_to_list (cache_state c)))) as [He|He].
  - apply Exists_exists in He as ([sr s] & Hin%elem_of_map_to_list & Hs). exists sr. split.
    + unfold ages. rewrite lookup_fmap, Hin. by eexists.
    + intros E. pose proof (acc_range _ _ Ha sr) as Hr. unfold range_ok in Hr. rewrite Hin in Hr.
      destruct Hr as [_ Hr]. unfold cached_size in Hr. rewrite E, map_sum_empty in Hr. cbn in Hs. lia.
  - exfalso. apply not_Exists_Forall in He; [|apply _].
    assert (∀ l : list (string * CacheState), Forall (λ e, ¬ 0 < size_sum e.2) l → sumZ (λ e, size_sum e.2) l ≤ 0) as Hl.
    { induction 1 as [|x l Hx _ IH]; simpl; lia. }
    pose proof (Hl _ He). lia.
Qed.

Lemma settled_cached sr o d : settled sr o d = true ↔
  (cached dir sr d = ∅ ∧ T ≤ o) ∨ ∃ p n, cached dir sr d !! p = Some n ∧ mtime n ≤ (o + day) * ns.
Proof.
  unfold settled. destruct (decide (cached dir sr d = ∅)) as [E|E].
  - rewrite Z.leb_le. split; [by left|]. intros [[_ ?]|(p & n & Hp & _)]; [done|].
    by rewrite E, lookup_empty in Hp.
  - rewrite existsb_exists. split.
    + intros ([p n] & Hin%list_elem_of_In%elem_of_map_to_list & Ht%Z.leb_le). right. eauto.
    + intros [[? _]|(p & n & Hp & Ht)]; [done|]. exists (p, n).
      rewrite <- list_elem_of_In, elem_of_map_to_list, Z.leb_le. done.
Qed.

(** A pass changes one range. *)
Lemma measure_lt d c d' c' sr o o' :
  (∀ sr', sr' ≠ sr → cached dir sr' d' = cached dir sr' d) →
  ages c !! sr = Some o → ages c' = <[sr := o']> (ages c) →
  ((size d' < size d)%nat ∨ d' = d ∧ settled sr o d = false ∧ settled sr o' d' = true) →
  (measure d' c' < measure d c)%nat.
Proof.
  intros Hoth Ho Ha Hcase. unfold measure.
  assert (delete sr (unsettled d' c') = delete sr (unsettled d c)) as Hdel.
  { apply map_eq. intros sr'. destruct (decide (sr = sr')) as [<-|Hne]; [by rewrite !lookup_delete_eq|].
    rewrite !lookup_delete_ne by done. unfold unsettled. rewrite !map_lookup_filter, Ha, lookup_insert_ne by done.
    destruct (ages c !! sr') as [x|]; [|done]. cbn. unfold settled. by rewrite Hoth. }
  apply (f_equal size) in Hdel. rewrite !map_size_delete in Hdel.
  destruct Hcase as [Hlt|(-> & Hs & Hs')].
  - destruct (unsettled d' c' !! sr), (unsettled d c !! sr); cbn in Hdel; lia.
  - assert (unsettled d c !! sr = Some o) as E1 by by apply map_lookup_filter_Some.
    assert (unsettled d c' !! sr = None) as E2.
    { apply map_lookup_filter_None. right. intros x. rewrite Ha, lookup_insert_eq. intros [= <-]. cbn. congruence. }
    rewrite E1, E2 in Hdel. cbn in Hdel.
    assert (size (unsettled d c) ≠ 0%nat); [|lia]. intros Hz%map_size_empty_inv. by rewrite Hz in E1.
Qed.

Lemma by_mtime_sorted l : StronglySorted by_mtime (merge_sort by_mtime l).
Proof. apply StronglySorted_merge_sort; unfold by_mtime; [intros x y z; lia|intros x y; lia]. Qed.

(** A pass that deletes nothing finds an unsettled range and settles it. *)
Lemma pass_settles d c sr o now (files : list entry) :
  ready d c → 0 < total c → ages c !! sr = Some o → (∀ sr' o', ages c !! sr' = Some o' → o ≤ o') →
  T * ns ≤ now → files = merge_sort by_mtime (dir_files io (range_dir dir sr) d) →
  (∀ e r, files = e :: r → cut_off chrono_ok now o < mtime e.2) →
  settled sr o d = false ∧
  settled sr (unix_seconds match files with e :: _ => mtime e.2 | [] => now end) d = true.
Proof.
  intros Hr Ht Ho Hmin Hnow Ef Hcut. pose proof (r_tidy _ _ Hr sr ltac:(eauto)) as Htidy.
  assert (∀ p n, cached dir sr d !! p = Some n ↔ ∃ name, (name, n) ∈ files ∧ p = path_push (range_dir dir sr) name) as Hin.
  { intros p n. rewrite (dir_files_cached io Hio _ _ _ _ _ Htidy). rewrite Ef.
    split; intros (x & Hx & ->); exists x; (split; [|done]);
      [by rewrite merge_sort_Permutation|by rewrite merge_sort_Permutation in Hx]. }
  pose proof (by_mtime_sorted (dir_files io (range_dir dir sr) d)) as Hsort. rewrite <- Ef in Hsort. clear Ef.
  destruct (r_ages _ _ Hr _ _ Ho) as [Hob _]. pose proof (cut_off_ge now o Hob) as Hge. split.
  - apply not_true_is_false. intros [[He HTo]|(p & n & Hp & Hm)]%settled_cached.
    + destruct (total_cached d c (r_accounted _ _ Hr) Ht) as (sr' & [o' Ho'] & Hne).
      rewrite (r_dir _ _ Hr) in Hne.
      pose proof (proj2 (r_ages _ _ Hr _ _ Ho') Hne). pose proof (Hmin _ _ Ho'). lia.
    + apply Hin in Hp as (name & Hf & _). destruct files as [|h r]; [by apply elem_of_nil in Hf|].
      pose proof (Hcut h r eq_refl). apply StronglySorted_inv in Hsort as [_ Hfa].
      apply elem_of_cons in Hf as [<-|Hf]; [cbn in *; lia|].
      pose proof (proj1 (Forall_forall _ _) Hfa _ Hf) as Hle. unfold by_mtime in Hle. cbn in Hle. lia.
  - apply settled_cached. destruct files as [|[name n] r].
    + left. split.
      * apply map_empty. intros p. destruct (cached dir sr d !! p) eqn:E; [|done].
        apply Hin in E as (? & ?%elem_of_nil & _). done.
      * unfold unix_seconds. apply Z.div_le_lower_bound; unfold ns in *; lia.
    + right. exists (path_push (range_dir dir sr) name), n. split; [apply Hin; exists name; split; [left|done]|].
      cbn. unfold unix_seconds, day, ns. pose proof (Z.mul_succ_div_gt (mtime n) 1000000000). lia.
Qed.

Lemma new_oldest_range now (files : list entry) t :
  (∀ e, e ∈ files → 0 ≤ mtime e.2 < T * ns) → T * ns ≤ now ≤ 2 ^ 62 * ns →
  t = now ∨ (∃ e, e ∈ files ∧ t = mtime e.2) → 0 ≤ unix_seconds t ≤ 2 ^ 62.
Proof.
  intros Hf Hnow Ht. assert (0 ≤ t ≤ 2 ^ 62 * ns) as [H1 H2].
  { destruct Ht as [->|(e & He & ->)]; [unfold ns in *; lia|]. pose proof (Hf e He). lia. }
  unfold unix_seconds, ns in *. split; [apply Z.div_pos; lia|].
  apply Z.div_le_upper_bound; lia.
Qed.

(** When every listed file was deleted the range is empty. *)
Lemma swept_empty d c sr cut need new del need' new' d' c' :
  tidy dir d sr → merge_sort by_mtime (dir_files io (range_dir dir sr) d) = del ++ [] →
  swept dir sr cut need new d c del [] need' new' d' c' → cached dir sr d' = ∅.
Proof.
  intros Ht Ef Hsw. apply map_empty. intros p. destruct (cached dir sr d' !! p) as [n|] eqn:E; [|done].
  apply cached_lookup in E as (Hp & Hro & Hfile). exfalso.
  assert (cached dir sr d !! p = Some n) as Hc.
  { apply cached_lookup. split_and!; try done. eapply lookup_weaken; [done|]. apply Hsw. }
  apply (dir_files_cached io Hio _ _ _ _ _ Ht) in Hc as (name & Hin & ->).
  rewrite <- (merge_sort_Permutation by_mtime), Ef, app_nil_r in Hin.
  pose proof (sw_gone _ _ _ _ _ _ _ _ _ _ _ _ _ Hsw _ Hin) as Hg. cbn in Hg. congruence.
Qed.

(** A pass keeps the cleaner ready: what it records as the age of the range is
    the time of a file it keeps, unless it leaves none. *)
Lemma pass_ready d c sr o now need del keep need' new' d' c' :
  ready d c → ages c !! sr = Some o → T * ns ≤ now ≤ 2 ^ 62 * ns →
  let files := merge_sort by_mtime (dir_files io (range_dir dir sr) d) in
  files = del ++ keep →
  swept dir sr (cut_off chrono_ok now o) need
    (match list.last files with Some e => mtime e.2 | None => now end) d c del keep need' new' d' c' →
  ready d' (save_state io (set_oldest sr new' c')).
Proof.
  intros Hr Ho Hnow files Ef Hsw. pose proof (r_tidy _ _ Hr sr ltac:(eauto)) as Htidy.
  assert (∀ e, e ∈ files → 0 ≤ mtime e.2 < T * ns) as Htimes.
  { intros [name n] Hin. unfold files in Hin. rewrite merge_sort_Permutation in Hin.
    assert (cached dir sr d !! path_push (range_dir dir sr) name = Some n) as Hc.
    { apply (dir_files_cached io Hio); eauto. }
    apply cached_lookup in Hc as (Hp & Hro & _). apply (r_times _ _ Hr _ _ Hp). eauto. }
  assert (ages (save_state io (set_oldest sr new' c')) = <[sr := unix_seconds new']> (ages c)) as Hages.
  { rewrite ages_set_oldest; rewrite (sw_ages _ _ _ _ _ _ _ _ _ _ _ _ _ Hsw); eauto. }
  destruct (save_state_same io (set_oldest sr new' c')) as (_ & Edir & _). rewrite set_oldest_dir in Edir.
  pose proof (sw_sub _ _ _ _ _ _ _ _ _ _ _ _ _ Hsw) as Hsub. split.
  - apply accounted_save_state, accounted_set_oldest, Hsw.
  - apply Hsw.
  - rewrite Edir. apply Hsw.
  - intros sr' Hs. apply (tidy_sub _ _ d); [done|]. apply (r_tidy _ _ Hr). rewrite Hages in Hs.
    destruct (decide (sr = sr')) as [<-|]; [eauto|]. by rewrite lookup_insert_ne in Hs.
  - intros sr' o'. rewrite Hages. destruct (decide (sr = sr')) as [<-|Hne].
    + rewrite lookup_insert_eq. intros [= <-]. split.
      * apply (new_oldest_range now files); [done|exact Hnow|].
        rewrite (sw_new _ _ _ _ _ _ _ _ _ _ _ _ _ Hsw). destruct keep as [|e r].
        -- destruct (list.last files) as [e|] eqn:El; [|by left]. right. exists e. split; [|done]. by apply list.last_Some_elem_of.
        -- right. exists e. split; [|done]. rewrite Ef. apply elem_of_app. right. left.
      * intros Hc. rewrite (sw_new _ _ _ _ _ _ _ _ _ _ _ _ _ Hsw). destruct keep as [|e r].
        -- exfalso. apply Hc. eapply swept_empty; [exact Htidy|exact Ef|exact Hsw].
        -- pose proof (Htimes e ltac:(rewrite Ef; set_solver)). unfold unix_seconds, ns in *.
           apply Z.div_lt_upper_bound; lia.
    + rewrite lookup_insert_ne by done. rewrite (sw_other _ _ _ _ _ _ _ _ _ _ _ _ _ Hsw) by done. apply (r_ages _ _ Hr).
  - intros p n Hp. apply (r_times _ _ Hr p). by eapply lookup_weaken.
Qed.

(** What is freed: everything needed, and the last file at most in addition. *)
Definition frees (need : Z) d c (need' : Z) d' c' : Prop :=
  0 ≤ need' ≤ total c' ∧ d' ⊆ d ∧
  (0 < need' → total c' + need = total c + need') ∧
  (need' = 0 → total c' + need ≤ total c ∧
     ∃ p n, d !! p = Some n ∧ is_Some (range_of dir p) ∧ total c < total c' + need + real_size n).

Lemma swept_frees d c sr cut need new del keep need' new' d' c' :
  0 < need ≤ total c → Forall (listed dir sr d) (del ++ keep) →
  swept dir sr cut need new d c del keep need' new' d' c' → 0 ≤ freed del →
  frees need d c need' d' (save_state io (set_oldest sr new' c')).
Proof.
  intros Hn Hl [S1 S2 S3 S4 S5 S6 S7 S8 S9 S10 S11 S12 S13 S14 S15] Hf.
  unfold frees. rewrite total_set_oldest, S10.
  assert (need' = 0 → ∃ p n, d !! p = Some n ∧ is_Some (range_of dir p) ∧ freed del < need + real_size n) as Hlast.
  { intros E. destruct (S15 ltac:(lia) E) as ([name n] & He & Hlt).
    destruct (proj1 (Forall_forall _ _) Hl (name, n) ltac:(set_solver)) as (i & Hi & Hs & Hp & _).
    exists (to_path i dir), n. split_and!; [done| |done].
    rewrite range_of_to_path by by eapply from_file_id_ok. eauto. }
  assert (0 ≤ total c - freed del) as Hpos.
  { rewrite <- S10. apply map_sum_nonneg. intros sr' s E. pose proof (acc_range _ _ S1 sr') as Hr.
    unfold range_ok in Hr. rewrite E in Hr. destruct Hr as [_ ->]. rewrite S3. apply cached_size_range. done. }
  split_and!; [word|word|done|word|]. intros E. split; [word|].
  destruct (Hlast E) as (p & n & ? & ? & ?). exists p, n. split_and!; try done. lia.
Qed.

Lemma pass_progress now need d c :
  ready d c → 0 < need ≤ total c → T * ns ≤ now ≤ 2 ^ 62 * ns →
  ∃ need' d' c', clean_pass chrono_ok io opens now need d c = Some (need', d', c') ∧
    ready d' c' ∧ (measure d' c' < measure d c)%nat ∧ frees need d c need' d' c'.
Proof.
  intros Hr Hn Hnow. destruct (select c) as (sr & st & Em & Ho & Hmin).
  { intros E. unfold total in Hn. rewrite E, map_sum_empty in Hn. lia. }
  pose proof (r_tidy _ _ Hr sr ltac:(eauto)) as Htidy.
  unfold clean_pass. rewrite Em, Hopens, (r_dir _ _ Hr). cbn [negb].
  set (files := merge_sort by_mtime (dir_files io (range_dir dir sr) d)).
  set (last := match list.last files with Some e => mtime e.2 | None => now end).
  assert (Forall (listed dir sr d) files) as Hl.
  { unfold files. rewrite merge_sort_Permutation. by apply dir_files_listed. }
  destruct (clean_files_run io Hio dir sr (cut_off chrono_ok now (oldest st)) files need last d c)
    as (del & keep & need' & new' & d' & c' & -> & Ef & Hsw); try done; try apply Hr; [lia| |].
  { unfold files. rewrite merge_sort_Permutation. by apply dir_files_NoDup. }
  pose proof (pass_ready d c sr (oldest st) now need del keep need' new' d' c' Hr Ho Hnow Ef Hsw) as Hr'.
  assert (0 ≤ freed del) as Hf.
  { apply sumZ_nonneg. intros e He. apply (listed_nonneg dir sr d); [apply Hr|].
    apply (proj1 (Forall_forall _ _) Hl). rewrite Ef. set_solver. }
  rewrite Ef in Hl.
  eexists _, _, _. split_and!; [done|done| |by eapply swept_frees].
  apply (measure_lt _ _ _ _ sr (oldest st) (unix_seconds new')); [apply Hsw|done| |].
  { rewrite ages_set_oldest; rewrite (sw_ages _ _ _ _ _ _ _ _ _ _ _ _ _ Hsw); eauto. }
  destruct Hsw as [S1 S2 S3 S4 S5 S6 S7 S8 S9 S10 S11 S12 S13 S14 S15].
  destruct del as [|e del]; [right|left; simpl in S6; lia].
  assert (d' = d) as -> by (apply map_subseteq_size_eq; [done|simpl in S6; lia]).
  simpl in Ef. split; [done|]. rewrite S12.
  destruct (pass_settles d c sr (oldest st) now files Hr ltac:(lia) Ho Hmin ltac:(lia) eq_refl) as [H1 H2].
  { intros e r E. rewrite Ef in E. destruct S13 as [->|[->|(e' & r' & -> & Hc)]]; [done| |by simplify_eq].
    unfold freed, sat_sub in S11. simpl in S11. lia. }
  split; [done|]. rewrite Ef in H2. unfold last. rewrite Ef. by destruct keep.
Qed.

Lemma loop_progress limit lim now fuel :
  (∀ k, lim k = limit) → (∀ k, T * ns ≤ now k ≤ 2 ^ 62 * ns) →
  ∀ k need d c, ready d c → 0 < need ≤ total c → (measure d c < fuel)%nat →
  ∃ d' c', clean_loop chrono_ok io opens fuel k limit lim now need d c = Stopped 0 d' c' ∧
    accounted c' d' ∧ frees need d c 0 d' c'.
Proof.
  intros Hlim Hnow. induction fuel as [|fuel IH]; intros k need d c Hr Hn Hm; [lia|].
  cbn [clean_loop]. rewrite Hlim, Z.eqb_refl, (proj2 (Z.ltb_lt 0 need)) by lia. cbn [andb].
  destruct (pass_progress (now k) need d c Hr Hn (Hnow k)) as (need' & d1 & c1 & -> & Hr1 & Hm1 & Hf1).
  pose proof Hf1 as (Hn1 & Hsub & Hpos & Hz). destruct (decide (need' = 0)) as [->|Hne].
  - exists d1, c1. split; [|split; [apply Hr1|done]]. destruct fuel as [|fuel]; [lia|done].
  - destruct (IH (S k) need' d1 c1 Hr1 ltac:(lia) ltac:(lia)) as (d2 & c2 & -> & Ha & Hn2 & Hsub2 & _ & Hz2).
    destruct (Hz2 eq_refl) as (? & p & n & Hp & Hro & ?). pose proof (Hpos ltac:(lia)).
    exists d2, c2. split_and!; [done..|]. split_and!; [lia|lia|by etrans|lia|]. intros _. split; [lia|].
    exists p, n. split_and!; [by eapply lookup_weaken|done|lia].
Qed.

End progress.

(** ** Theorem *)

(** C25: The cleaner does its work.  If no call fails, the directories of the
    tracked ranges hold only cache files, all file times are before the present, the
    limit does not change meanwhile and the cache holds at least what has to be freed,
    then the loop ends after at most two passes per file and one per range; the books are
    balanced, the cache is within its limit, at least the needed amount is gone, and without
    the last deleted file it would not have been enough. *)
Theorem check_cache_usage_frees `{HexLaws} chrono_ok io opens T disk_free lim now d c :
  healthy io → (∀ p, opens p = true) → 0 ≤ T ≤ 2 ^ 62 → ready (cache_dir c) T d c →
  (∀ k, T * ns ≤ now k ≤ 2 ^ 62 * ns) → (∀ k, lim k = size_limit c) →
  0 ≤ size_limit c → total c ≤ i64_max → (∀ f, disk_free = Some f → 0 ≤ f) →
  let need := need_free0 (total c) (size_limit c) disk_free in
  need ≤ total c →
  ∃ d' c',
    check_cache_usage chrono_ok io opens (S (2 * size d + size (cache_state c))) disk_free lim now d c =
      Stopped 0 d' c' ∧
    accounted c' d' ∧ d' ⊆ d ∧ total c' ≤ size_limit c ∧ total c' + need ≤ total c ∧
    (need = 0 ∧ d' = d ∨
     ∃ p n, d !! p = Some n ∧ is_Some (range_of (cache_dir c) p) ∧ total c < total c' + need + real_size n).
Proof.
  intros Hio Hop HT Hr Hnow Hlim Hl0 Hmax Hfree need Hneed.
  assert (0 ≤ total c) as Ht0.
  { apply map_sum_nonneg. intros sr s E. pose proof (acc_range _ _ (r_accounted _ _ _ _ Hr) sr) as H'.
    unfold range_ok in H'. rewrite E in H'. destruct H' as [_ ->]. apply cached_size_range, Hr. }
  destruct (need_free_spec (total c) (size_limit c) disk_free) as [Hz Hnz]; [lia|done|done|].
  fold need in Hz, Hnz. unfold check_cache_usage. fold (total c).
  rewrite (wrap64_small (total c)) by word. fold need. set (c1 := set_metrics _ c).
  assert (ready (cache_dir c) T d c1) as Hr1.
  { destruct Hr as [[A1 A2 A3] B2 B3 B4 B5 B6]. split; try done. split; [exact A1|exact A2|].
    cbn. symmetry. apply wrap64_small. fold (total c). word. }
  destruct (Z.eqb_spec need 0) as [E0|E0].
  { exists d, c1. pose proof (proj1 Hz E0). split_and!; [done|apply Hr1|done|change (total c1) with (total c); lia..|by left]. }
  destruct (Hnz E0) as [Hmin Hge]. unfold SIZE_100MB in Hmin.
  destruct (loop_progress chrono_ok io opens (cache_dir c) T Hio Hop HT (size_limit c) lim now
    (S (2 * size d + size (cache_state c))) Hlim Hnow 0 need d c1 Hr1) as (d' & c' & E & Ha & Hn & Hsub & _ & Hf).
  - change (total c1) with (total c). lia.
  - unfold measure, unsettled. pose proof (map_size_filter_le (ages c1) (λ e, settled (cache_dir c) T e.1 e.2 d = false)) as Hle.
    unfold ages in Hle at 2. rewrite map_size_fmap in Hle. cbn in Hle |- *. lia.
  - change (total c1) with (total c) in Hf. destruct (Hf eq_refl) as [Hfr (p & n & ? & ? & ?)].
    exists d', c'. split_and!; [done..| |done|right; eauto 10].
    assert (0 ≤ match disk_free with Some f => sat_sub SIZE_100MB f | None => 0 end) by (destruct disk_free; word).
    word.
Qed.

(** ** Witness *)

(** A cache with one file of 200 MiB, last used at time 0, and a limit of 1000. *)
Definition big_node : node := mkNode true (as_bytes "x") (2 * SIZE_100MB) 0.
Definition big_disk : disk := {[ sample_path := big_node ]}.
Definition big_cm : CacheManager :=
  mkManager "cache" {[ @static_range hex_ref sample_info := mkState 1 (2 * SIZE_100MB) 0 ]} 1000
    (mkGauges 1 (2 * SIZE_100MB) 1 1000) None.

Lemma big_ready : @ready hex_ref "cache" 1 big_disk big_cm.
Proof.
  assert (@accounted hex_ref (mkManager "cache" ∅ 1000 (mkGauges 0 0 1 1000) None) ∅) as H0.
  { split; [|vm_compute; reflexivity..]. intros sr. apply map_filter_empty. }
  assert (@disk_ok hex_ref "cache" ∅) as H1.
  { split; [intros p n E; by rewrite lookup_empty in E|vm_compute; discriminate..|intros p n E; by rewrite lookup_empty in E]. }
  assert (∀ sr, is_Some (ages big_cm !! sr) → sr = @static_range hex_ref sample_info) as Hsr.
  { intros sr. unfold ages, big_cm. cbn [cache_state]. rewrite map_fmap_singleton. intros [x Hx].
    by apply lookup_singleton_Some in Hx as [<- _]. }
  split.
  - pose proof (add_accounted 0 sample_info _ ∅ big_node H0 H1 sample_info_ok (lookup_empty _) eq_refl) as H2.
    exact (H2 ltac:(vm_compute; discriminate) ltac:(vm_compute; discriminate) ltac:(vm_compute; discriminate)).
  - unfold big_disk. split; [|vm_compute; discriminate..|]; intros p n; rewrite lookup_singleton_Some; intros [_ <-];
      [vm_compute; discriminate|done].
  - done.
  - intros sr ->%Hsr p n. unfold big_disk. rewrite lookup_singleton_Some. intros [<- <-].
    destruct (entry_name (range_dir "cache" (@static_range hex_ref sample_info)) sample_path) as [name|] eqn:E;
      [|vm_compute in E; discriminate].
    split; [done|]. split; [vm_compute; reflexivity|]. exists sample_info.
    assert (name = @file_name hex_ref sample_info) as -> by (vm_compute in E; vm_compute; congruence).
    split; vm_compute; reflexivity.
  - intros sr o Ho. pose proof (Hsr sr ltac:(eauto)) as ->. vm_compute in Ho. injection Ho as <-. split; lia.
  - intros p n. unfold big_disk. rewrite lookup_singleton_Some. intros [_ <-] _. vm_compute. split; [discriminate|done].
Qed.

Lemma check_cache_usage_frees_witness :
  ∃ d' c', @check_cache_usage hex_ref (λ _, true) no_faults (λ _, true) 4 None (λ _, 1000) (λ _, ns) big_disk big_cm =
    Stopped 0 d' c' ∧ @accounted hex_ref c' d' ∧ total c' ≤ 1000.
Proof.
  assert (∀ f : Z, None = Some f → 0 ≤ f) as Hf by done.
  destruct (check_cache_usage_frees (H:=hex_ref) (λ _, true) no_faults (λ _, true) 1 None (λ _, 1000) (λ _, ns) big_disk big_cm
    ltac:(by split) ltac:(done) ltac:(lia) big_ready ltac:(vm_compute; split; discriminate) ltac:(done)
    ltac:(vm_compute; discriminate) ltac:(vm_compute; discriminate) Hf ltac:(vm_compute; discriminate))
    as (d' & c' & E & Ha & _ & Hl & _).
  exists d', c'. split_and!; [exact E|exact Ha|exact Hl].
Defined.
