(* ===== verification/CacheLife.v ===== *)
(** * CacheLife: the cache while the client runs

    What [CacheManager] ([src/src/cache_manager.rs]) keeps while the client runs, and
    that the operations keep it: temporary files come and go outside the ranges,
    requests read files and delete corrupt ones, and every ten minutes
    [start_background_task] saves the accounts and cleans.  [CacheSpec] puts the
    operations together. *)

From S2P Require Import Prelude Text Extern FileId FileReader CacheStore CacheRead CacheCleaner CacheScan.
From stdpp Require Import base gmap list strings numbers relations.

Local Open Scope Z_scope.

Section life.
Context `{HexCodec, Digest}.
Variable chrono_ok : Z → bool.
Variable opens : string → bool.

(** One tick of [start_background_task]. *)
Definition background_tick (io : faults) (fuel : nat) (disk_free : option Z) (lim now : nat → Z)
    (d : disk) (c : CacheManager) : run_end :=
  check_cache_usage chrono_ok io opens fuel disk_free lim now d (save_state io c).

(** The disk has room in the counters for one more file of this size. *)
Definition room (sz : Z) (d : disk) : Prop :=
  Z.of_nat (size d) + 1 ≤ u64_max ∧ map_sum real_size d + sz ≤ u64_max.

End life.

Section facts.
Context `{HexLaws, DigestLaws}.
Variable chrono_ok : Z → bool.
Variable opens : string → bool.

(** What every step keeps. *)
Definition cache_inv (dir : string) (s : disk * CacheManager) : Prop :=
  accounted s.2 s.1 ∧ disk_ok dir s.1 ∧ cache_dir s.2 = dir.

(** Files outside the ranges do not count. *)
Lemma temp_inv dir tmp n d c :
  cache_inv dir (d, c) → range_of dir tmp = None → is_file n = true → 0 ≤ real_size n → d !! tmp = None →
  room (real_size n) d → cache_inv dir (<[tmp := n]> d, c).
Proof.
  intros (Ha & Hd & Ed) Hr Hf Hn Hp [Hc Hs]. cbn [fst snd] in *. split_and!; cbn [fst snd].
  - eapply accounted_ext; [|exact Ha]. intros sr. apply cached_insert_other. by rewrite Ed, Hr.
  - by apply disk_ok_insert.
  - done.
Qed.

Lemma temp_removed_inv dir tmp d c :
  cache_inv dir (d, c) → range_of dir tmp = None → cache_inv dir (delete tmp d, c).
Proof.
  intros (Ha & Hd & Ed) Hr. cbn [fst snd] in *. split_and!; cbn [fst snd].
  - eapply accounted_ext; [|exact Ha]. intros sr. apply cached_delete_other. by rewrite Ed, Hr.
  - by apply disk_ok_delete.
  - done.
Qed.

Lemma remove_inv dir io info d c :
  cache_inv dir (d, c) → info_ok info →
  cache_inv dir ((remove_cache io info d c).1.2, (remove_cache io info d c).2).
Proof.
  intros (Ha & Hd & Ed) Hi. cbn [fst snd] in *. subst dir.
  destruct (remove_cache io info d c) as [[r d'] c'] eqn:E.
  destruct (remove_cache_spec io info c d r d' c' Ha Hd Hi E) as (? & ? & Ec & _).
  rewrite Ec in *. done.
Qed.

Lemma get_file_inv dir io utime_ok open seek_ans answers now info offset d c :
  cache_inv dir (d, c) → info_ok info →
  cache_inv dir (let '(_, _, d, c) := get_file io utime_ok open seek_ans answers now info offset d c in (d, c)).
Proof.
  intros Hc Hi. pose proof Hc as (Ha & Hd & Ed). cbn [fst snd] in *. unfold get_file.
  destruct (metadata io d _) as [md|] eqn:Em; [|done].
  destruct (negb (is_file md) || _); [done|]. destruct open as [contents|]; [|done].
  destruct (now - one_week <=? mtime md).
  { destruct offset as [off|]; [|done]. destruct (negb (off =? 0)); [|done]. by destruct (seek _ _ _) as [[|] ?]. }
  assert (d !! to_path info (cache_dir c) = Some md) as Hp by (unfold metadata in Em; by destruct (f_metadata io _)).
  destruct (mark_spec utime_ok now info c d md Ha ltac:(by rewrite Ed) Hp) as (Ha1 & Hd1 & _).
  set (d1 := mark_recently_accessed utime_ok now info d c) in *.
  destruct (verify_loop _ _ _ _ _ _ _) as [t sent].
  assert (cache_inv dir (d1, c)) as Hc1 by (split_and!; [done|by rewrite <- Ed|done]).
  destruct t as [hash| |]; [|done..]. destruct (decide (hash = fi_hash info)); [done|].
  pose proof (remove_inv dir io info d1 c Hc1 Hi) as Hr. by destruct (remove_cache io info d1 c) as [[? ?] ?].
Qed.

Lemma tick_inv dir io fuel disk_free lim now d c need d' c' :
  cache_inv dir (d, c) →
  background_tick chrono_ok opens io fuel disk_free lim now d c = Stopped need d' c' → cache_inv dir (d', c').
Proof.
  intros (Ha & Hd & Ed) E. cbn [fst snd] in *. unfold background_tick in E.
  destruct (save_state_same io c) as (_ & Es & _).
  destruct (check_cache_usage_spec chrono_ok io opens fuel disk_free lim now d (save_state io c) need d' c') as (Ha' & Hsub & Ed').
  - by apply accounted_save_state.
  - rewrite Es, Ed. exact Hd.
  - exact E.
  - split_and!; cbn [fst snd]; [done|by eapply disk_ok_sub|congruence].
Qed.

End facts.
