(* ===== verification/CacheSpec.v ===== *)
(** * CacheSpec: the cache as a map from identifiers to contents

    What [CacheManager] ([src/src/cache_manager.rs]) promises to the rest of the
    program.  The module [Spec] is the abstract cache: a finite map with
    nondeterministic failures and evictions, and no paths, directories, accounts or
    clocks.  [exec] runs the operations of the manager on the disk; [cache_refines]
    is the simulation, and the contract for clients is proved about the abstract
    cache alone. *)

From S2P Require Import Prelude Text Extern FileId FileReader CacheStore CacheRead CacheCleaner CacheScan CacheLife.
From stdpp Require Import base gmap list strings numbers fin_maps relations.

Local Open Scope Z_scope.

(** ** The abstract cache *)

Module Spec.

(** Contents by canonical identifier. *)
Abbreviation acache := (gmap string bytes).

(** What a read returns: nothing, or the bytes of a stream, which starts at the
    offset when it is partial. *)
Inductive got := Missing | Bytes (partial : bool) (bs : bytes).

(** What a client sees of an operation.  [healthy]: the file system answered the
    calls of the read. *)
Inductive label :=
| Put (k : string) (b : bytes)
| PutFailed (k : string)
| Dropped (k : string) (done : bool)
| Got (k : string) (offset : option Z) (healthy : bool) (r : got)
| Evicted
| Quiet.

Section spec.
Context `{HexCodec, Digest}.

(** The contents an identifier promises. *)
Definition right (k : string) (b : bytes) : Prop :=
  ∃ i, from_file_id k = Some i ∧ digest b = fi_hash i.
Definition right_size (k : string) (b : bytes) : Prop :=
  ∃ i, from_file_id k = Some i ∧ blen b = fi_size i.

Inductive step (a : acache) : label → acache → Prop :=
| put k b : step a (Put k b) (<[k := b]> a)
| put_failed k : step a (PutFailed k) a
| put_lost k : step a (PutFailed k) (delete k a)          (* the old contents were removed first *)
| dropped k : is_Some (a !! k) → step a (Dropped k true) (delete k a)
| not_dropped k : step a (Dropped k false) a
| got_missing k o (healthy : bool) :
    (healthy = true → ∀ b, a !! k = Some b → ¬ right_size k b) → step a (Got k o healthy Missing) a
| got_bytes k o healthy (partial : bool) b bs :
    a !! k = Some b → bs `prefix_of` (if partial then from_offset o b else b) →
    step a (Got k o healthy (Bytes partial bs)) a
| got_corrupt k o healthy (partial : bool) b bs :          (* found out while it was read *)
    a !! k = Some b → ¬ right k b → bs `prefix_of` (if partial then from_offset o b else b) →
    step a (Got k o healthy (Bytes partial bs)) (delete k a)
| evicted a' : a' ⊆ a → step a Evicted a'
| quiet : step a Quiet a.

Inductive steps : acache → list label → acache → Prop :=
| steps_nil a : steps a [] a
| steps_cons a l a1 ls a2 : step a l a1 → steps a1 ls a2 → steps a (l :: ls) a2.

(** The contents an identifier was given last. *)
Definition latest (a : acache) (ls : list label) (k : string) : option bytes :=
  foldl (λ acc l, match l with Put k' b => if decide (k' = k) then Some b else acc | _ => acc end) (a !! k) ls.

(** Every change other than [Put] only loses contents. *)
Lemma step_lookup a l a' k b :
  step a l a' → a' !! k = Some b → l = Put k b ∨ (a !! k = Some b ∧ ∀ b', l ≠ Put k b').
Proof.
  assert (∀ k', delete k' a !! k = Some b → a !! k = Some b) as Hdel by (intros k' [_ ?]%lookup_delete_Some; done).
  intros Hs Hk. destruct Hs as [k' b'|k'|k'|k' Hk'|k'| | | |a' Hsub|]; try (right; split; [done|discriminate]).
  - apply lookup_insert_Some in Hk as [[-> ->]|[Hne Hk]]; [by left|]. right. split; [done|]. congruence.
  - right. split; [by eapply Hdel|discriminate].
  - right. split; [by eapply Hdel|discriminate].
  - right. split; [by eapply Hdel|discriminate].
  - right. split; [by eapply lookup_weaken|discriminate].
Qed.

Lemma steps_app a ls1 ls2 a2 : steps a (ls1 ++ ls2) a2 → ∃ a1, steps a ls1 a1 ∧ steps a1 ls2 a2.
Proof.
  revert a. induction ls1 as [|l ls1 IH]; intros a Hs; [by exists a; split; [constructor|]|].
  cbn in Hs. inversion Hs as [|? ? a1 ? ? H1 H2]; subst. destruct (IH a1 H2) as (a3 & H3 & H4).
  exists a3. split; [by econstructor|done].
Qed.

Lemma steps_snoc a ls a1 l a2 : steps a ls a1 → step a1 l a2 → steps a (ls ++ [l]) a2.
Proof.
  intros Hs Hl. induction Hs as [a|a l0 a0 ls a1 H01 _ IH]; cbn; [|econstructor; [done|by apply IH]].
  econstructor; [done|constructor].
Qed.

Lemma steps_latest a ls a' k b : steps a ls a' → a' !! k = Some b → latest a ls k = Some b.
Proof.
  intros Hs Hk. assert (∀ acc, (a !! k = None ∨ acc = a !! k) →
    foldl (λ acc l, match l with Put k' b => if decide (k' = k) then Some b else acc | _ => acc end) acc ls = Some b) as Hgen;
    [|by apply Hgen; right].
  induction Hs as [a|a l a1 ls a2 H1 _ IH]; intros acc Hacc; cbn [foldl].
  { destruct Hacc as [E|E]; congruence. }
  apply IH; [done|]. destruct (a1 !! k) as [b1|] eqn:E1; [|by left]. right.
  destruct (step_lookup a l a1 k b1 H1 E1) as [->|[Ea Hl]]; [by rewrite decide_True|].
  destruct Hacc as [E|E]; [congruence|]. destruct l as [k' b'| | | | |]; try congruence.
  case_decide as Ek; [subst; by destruct (Hl b')|congruence].
Qed.

(** Puts of verified contents keep a cache verified. *)
Lemma steps_right a ls a' :
  steps a ls a' → (∀ k b, a !! k = Some b → right k b) → (∀ k b, Put k b ∈ ls → right k b) →
  ∀ k b, a' !! k = Some b → right k b.
Proof.
  intros Hs Ha Hput. induction Hs as [a|a l a1 ls a2 H1 _ IH]; [done|].
  apply IH; [|intros; apply Hput; by right]. intros k b Hk.
  destruct (step_lookup a l a1 k b H1 Hk) as [->|[? _]]; [apply Hput; by left|by apply Ha].
Qed.

(** ... and so is everything that was read in between. *)
Lemma steps_got a ls a' k o healthy (partial : bool) bs :
  steps a ls a' → (∀ k b, a !! k = Some b → right k b) → (∀ k b, Put k b ∈ ls → right k b) →
  Got k o healthy (Bytes partial bs) ∈ ls → ∃ b, right k b ∧ bs `prefix_of` (if partial then from_offset o b else b).
Proof.
  intros Hs Ha Hput Hin. induction Hs as [a|a l a1 ls a2 H1 _ IH]; [by apply elem_of_nil in Hin|].
  apply elem_of_cons in Hin as [<-|Hin].
  - inversion H1; subst; eauto.
  - apply IH; [|intros; apply Hput; by right|done]. intros k' b' Hk.
    destruct (step_lookup a l a1 k' b' H1 Hk) as [->|[? _]]; [apply Hput; by left|by apply Ha].
Qed.

(** The contract: a read returns a piece of what the identifier was given last. *)
Lemma read_contract a ls k o healthy partial bs a' :
  steps a (ls ++ [Got k o healthy (Bytes partial bs)]) a' →
  ∃ b, latest a ls k = Some b ∧ bs `prefix_of` (if partial then from_offset o b else b) ∧
    ((∀ k b, a !! k = Some b → right k b) → (∀ k b, Put k b ∈ ls → right k b) →
     right k b ∧ a' !! k = Some b).
Proof.
  intros (a1 & H1 & H2)%steps_app. inversion H2 as [|? ? a2 ? ? Hs Hnil]; subst. inversion Hnil; subst. clear H2 Hnil.
  inversion Hs as [| | | | | |? ? ? ? b ? Hk Hp|? ? ? ? b ? Hk Hr Hp| |]; subst; exists b;
    (split; [by eapply steps_latest|split; [done|]]); intros Ha Hput.
  - split; [by eapply steps_right|done].
  - exfalso. apply Hr. by eapply steps_right.
Qed.

End spec.
End Spec.

(** ** The abstraction *)

Section impl.
Context `{HexCodec, Digest}.
Variable chrono_ok : Z → bool.

(** The cached files of a disk, by identifier. *)
Definition abs (dir : string) (d : disk) : gmap string bytes :=
  list_to_map (omap (λ e : string * node,
    i ← path_info dir e.1; if is_file e.2 then Some (file_name i, data e.2) else None) (map_to_list d)).

(** *** The operations with what the system answers *)

Inductive op :=
| OpTemp (tmp : string) (n : node)            (* a download writes its temporary file *)
| OpUntemp (tmp : string)
| OpImport (io : faults) (now : Z) (info : CacheFileInfo) (tmp : string)
| OpRemove (io : faults) (info : CacheFileInfo)
| OpGet (io : faults) (utime_ok open_ok : bool) (sk : seek_answer) (answers : list task_answer) (now : Z)
    (info : CacheFileInfo) (offset : option Z)
| OpLimit (limit : Z)
| OpTick (io : faults) (opens : string → bool) (fuel : nat) (disk_free : option Z) (lim now : nat → Z).

Definition got_of (r : CacheFileResult) : Spec.got :=
  match r with
  | Full s => Spec.Bytes false (default [] (stream_bytes s))
  | Partial s => Spec.Bytes true (default [] (stream_bytes s))
  | NotFound => Spec.Missing
  end.

(** One operation and what its caller sees; [None]: a cleaner that is still running. *)
Definition exec (o : op) (s : disk * CacheManager) : option (Spec.label * (disk * CacheManager)) :=
  let (d, c) := s in
  match o with
  | OpTemp tmp n => Some (Spec.Quiet, (<[tmp := n]> d, c))
  | OpUntemp tmp => Some (Spec.Quiet, (delete tmp d, c))
  | OpImport io now info tmp =>
      let path := to_path info (cache_dir c) in
      let failed := f_mkdir io path || (f_rename io path && f_copy io path) in
      Some (if failed then Spec.PutFailed (file_name info)
            else Spec.Put (file_name info) (default [] (data <$> d !! tmp)), import_cache io now info tmp d c)
  | OpRemove io info =>
      let '(r, d, c) := remove_cache io info d c in
      Some (Spec.Dropped (file_name info) (bool_decide (is_Some r)), (d, c))
  | OpGet io utime_ok open_ok sk answers now info offset =>
      let path := to_path info (cache_dir c) in
      let open := if open_ok then data <$> d !! path else None in
      let '(r, _, d, c) := get_file io utime_ok open sk answers now info offset d c in
      Some (Spec.Got (file_name info) offset (open_ok && negb (f_metadata io path)) (got_of r), (d, c))
  | OpLimit limit => Some (Spec.Quiet, (d, update_settings limit c))
  | OpTick io opens fuel disk_free lim now =>
      match background_tick chrono_ok opens io fuel disk_free lim now d c with
      | Stopped _ d c => Some (Spec.Evicted, (d, c))
      | Running => None
      end
  end.

(** What the callers see to: temporary files lie outside the ranges and fit the
    counters, identifiers are parsed ones, offsets are [u64], and an import can
    look at and delete the file it replaces and leaves no torn copy. *)
Definition op_ok (o : op) (s : disk * CacheManager) : Prop :=
  let (d, c) := s in
  match o with
  | OpTemp tmp n =>
      range_of (cache_dir c) tmp = None ∧ is_file n = true ∧ 0 ≤ real_size n ∧ d !! tmp = None ∧ room (real_size n) d
  | OpUntemp tmp => range_of (cache_dir c) tmp = None
  | OpImport io now info tmp =>
      let path := to_path info (cache_dir c) in
      info_ok info ∧ range_of (cache_dir c) tmp = None ∧ import_io io path ∧
      ∃ n, d !! tmp = Some n ∧ is_file n = true ∧ room (real_size n) d
  | OpRemove _ info => info_ok info
  | OpGet _ _ _ _ _ _ info offset => info_ok info ∧ ∀ o, offset = Some o → 0 ≤ o
  | OpLimit _ => True
  | OpTick _ _ _ _ _ _ => True
  end.

(** Sequences of operations. *)
Inductive runs : disk * CacheManager → list Spec.label → disk * CacheManager → Prop :=
| runs_nil s : runs s [] s
| runs_cons o s l s1 ls s2 : op_ok o s → exec o s = Some (l, s1) → runs s1 ls s2 → runs s (l :: ls) s2.

End impl.

(** ** Lemmas *)

Section facts.
Context `{HexLaws, DigestLaws}.
Implicit Types (d : disk) (c : CacheManager).

Lemma path_info_inv dir p i :
  path_info dir p = Some i → info_ok i ∧ to_path i dir = p.
Proof.
  unfold path_info. set (name := of_bytes _). intros E.
  destruct (from_file_id name) as [j|] eqn:Ej; cbn in E; [|done]. case_decide; simplify_eq.
  split; [by eapply from_file_id_ok|done].
Qed.

(** Identifiers and paths determine each other. *)
Lemma file_name_path i j dir : info_ok i → info_ok j → file_name i = file_name j ↔ to_path i dir = to_path j dir.
Proof.
  intros Hi Hj. split.
  - intros E%file_name_inj; [|done..]. by rewrite <- (to_path_canonical i), E, to_path_canonical.
  - apply to_path_file_name_inj; [apply Hi|apply Hj].
Qed.

Lemma abs_lookup dir d k b :
  abs dir d !! k = Some b ↔
  ∃ i n, info_ok i ∧ file_name i = k ∧ d !! to_path i dir = Some n ∧ is_file n = true ∧ data n = b.
Proof.
  unfold abs. set (f := λ e : string * node, i ← path_info dir e.1; if is_file e.2 then Some (file_name i, data e.2) else None).
  assert (∀ e k b, f e = Some (k, b) ↔ ∃ i, info_ok i ∧ to_path i dir = e.1 ∧ is_file e.2 = true ∧ file_name i = k ∧ data e.2 = b) as Hf.
  { intros [p n] k' b'. unfold f. cbn [fst snd]. split.
    - destruct (path_info dir p) as [i|] eqn:Ei; cbn; [|done]. destruct (is_file n); [|done]. intros [= <- <-].
      destruct (path_info_inv dir p i Ei). eauto 6.
    - intros (i & Hi & <- & -> & <- & <-). rewrite path_info_to_path by done. cbn. by rewrite file_name_canonical. }
  rewrite <- elem_of_list_to_map.
  - rewrite list_elem_of_omap. split.
    + intros ([p n] & Hin & (i & Hi & Hp & Hn & Hk & Hb)%Hf). cbn [fst snd] in *. apply elem_of_map_to_list in Hin. exists i, n. by rewrite Hp.
    + intros (i & n & Hi & <- & Hp & Hn & <-). exists (to_path i dir, n). split; [by apply elem_of_map_to_list|].
      apply Hf. eauto 6.
  - pose proof (NoDup_fst_map_to_list d) as Hnd. revert Hnd. generalize (map_to_list d). intros l.
    induction l as [|e l IH]; [constructor|]. cbn [fmap list_fmap omap list_omap]. rewrite NoDup_cons. intros [Hni Hnd].
    destruct (f e) as [[k' b']|] eqn:E; [|by apply IH]. cbn. apply NoDup_cons. split; [|by apply IH].
    intros ([k2 b2] & Hk & (e2 & Hin & E2)%list_elem_of_omap)%list_elem_of_fmap. cbn in Hk. subst k2.
    apply Hf in E as (i & Hi & Hp & _ & Hk & _). apply Hf in E2 as (j & Hj & Hp2 & _ & Hk2 & _).
    apply Hni. apply list_elem_of_fmap. exists e2. split; [|done]. rewrite <- Hp, <- Hp2. apply file_name_path; congruence.
Qed.

(** The contents of an identifier. *)
Lemma abs_path dir d i : disk_ok dir d → info_ok i → abs dir d !! file_name i = data <$> d !! to_path i dir.
Proof.
  intros Hd Hi. destruct (d !! to_path i dir) as [n|] eqn:E; cbn.
  - apply abs_lookup. exists i, n. split_and!; try done. eapply (paths_files _ _ Hd); [done|]. rewrite range_of_to_path by done. eauto.
  - destruct (abs dir d !! file_name i) as [b|] eqn:Ea; [|done]. apply abs_lookup in Ea as (j & n & Hj & Hk & Hp & _).
    apply (file_name_path j i dir) in Hk; [congruence|done..].
Qed.

Lemma abs_delete dir d i : info_ok i → abs dir (delete (to_path i dir) d) = delete (file_name i) (abs dir d).
Proof.
  intros Hi. apply map_eq. intros k. apply option_eq. intros b. rewrite lookup_delete_Some, !abs_lookup. split.
  - intros (j & n & Hj & <- & [Hne Hp]%lookup_delete_Some & Hn & Hb). split; [|eauto 7].
    intros E. apply Hne. by apply (file_name_path i j dir).
  - intros (Hne & j & n & Hj & <- & Hp & Hn & Hb). exists j, n. split_and!; try done. apply lookup_delete_Some. split; [|done].
    intros E. apply Hne. by apply (file_name_path i j dir).
Qed.

Lemma abs_insert dir d i n :
  info_ok i → is_file n = true → abs dir (<[to_path i dir := n]> d) = <[file_name i := data n]> (abs dir d).
Proof.
  intros Hi Hn. apply map_eq. intros k. apply option_eq. intros b. rewrite lookup_insert_Some, !abs_lookup. split.
  - intros (j & m & Hj & <- & Hp & Hm & Hb). apply lookup_insert_Some in Hp as [[Hp ->]|[Hne Hp]].
    + left. split; [by apply (file_name_path i j dir)|done].
    + right. split; [|eauto 7]. intros E. apply Hne. by apply (file_name_path i j dir).
  - intros [[<- <-]|(Hne & j & m & Hj & <- & Hp & Hm & Hb)].
    + exists i, n. by rewrite lookup_insert_eq.
    + exists j, m. split_and!; try done. apply lookup_insert_Some. right. split; [|done].
      intros E. apply Hne. by apply (file_name_path i j dir).
Qed.

Lemma abs_sub dir d d' : d' ⊆ d → abs dir d' ⊆ abs dir d.
Proof.
  intros Hs. apply map_subseteq_spec. intros k b. rewrite !abs_lookup. intros (i & n & ? & ? & Hp & ? & ?).
  exists i, n. split_and!; try done. by eapply lookup_weaken.
Qed.

(** Files outside the ranges are not part of the cache. *)
Lemma abs_agree dir d d' :
  (∀ p, is_Some (range_of dir p) → d' !! p = d !! p) → abs dir d' = abs dir d.
Proof.
  intros Hag. apply map_eq. intros k. apply option_eq. intros b. rewrite !abs_lookup.
  assert (∀ i, info_ok i → is_Some (range_of dir (to_path i dir))) as Hr by (intros; rewrite range_of_to_path by done; eauto).
  split; intros (i & n & Hi & Hk & Hp & Hn & Hb); exists i, n; split_and!; try done;
    [rewrite <- Hag by auto|rewrite Hag by auto]; done.
Qed.

Lemma abs_other_insert dir d p n : range_of dir p = None → abs dir (<[p := n]> d) = abs dir d.
Proof. intros Hp. apply abs_agree. intros q [? Hq]. apply lookup_insert_ne. intros ->. congruence. Qed.

Lemma abs_other_delete dir d p : range_of dir p = None → abs dir (delete p d) = abs dir d.
Proof. intros Hp. apply abs_agree. intros q [? Hq]. apply lookup_delete_ne. intros ->. congruence. Qed.

(** *** Each operation follows the abstract cache *)

Lemma import_sim dir io now info tmp d c :
  cache_inv dir (d, c) → op_ok (OpImport io now info tmp) (d, c) →
  let path := to_path info dir in
  let d' := (import_cache io now info tmp d c).1 in
  if f_mkdir io path then d' = d
  else if f_rename io path && f_copy io path then abs dir d' = delete (file_name info) (abs dir d)
  else abs dir d' = <[file_name info := default [] (data <$> d !! tmp)]> (abs dir d).
Proof.
  intros (Ha & Hd & Ed) (Hi & Hr & [Hm Hf Hrm Htorn] & n & Ht & Hn & _). cbn [fst snd] in *. subst dir.
  cbv zeta. set (path := to_path info (cache_dir c)) in *. rewrite Ht. cbn [fmap option_fmap option_map default].
  unfold import_cache. fold path. destruct (f_mkdir io path); [done|].
  destruct (remove_cache io info d c) as [[r d1] c1] eqn:Er.
  assert (d1 = delete path d) as -> by exact (remove_cache_gone io info c d r d1 c1 Hd Hi Hm Hf Hrm Er). clear Er.
  assert (path ≠ tmp) as Hne by (intros <-; unfold path in Hr; rewrite range_of_to_path in Hr by done; done).
  unfold place_file. rewrite lookup_delete_ne, Ht by done.
  fold path in Htorn. destruct (f_rename io path); cbn [negb andb]; [destruct (f_copy io path)|].
  - rewrite Htorn by done. by apply abs_delete.
  - rewrite lookup_insert_eq. cbn [mbind option_bind]. unfold async_filesize. rewrite Hf. cbn [fst].
    unfold path. rewrite abs_insert, abs_delete, insert_delete_eq by done. done.
  - rewrite lookup_insert_eq. cbn [mbind option_bind]. unfold async_filesize. rewrite Hf. cbn [fst].
    unfold path. rewrite abs_insert, abs_other_delete, abs_delete, insert_delete_eq by done. done.
Qed.

Lemma abs_mark dir ok now info d c :
  cache_inv dir (d, c) → info_ok info → abs dir (mark_recently_accessed ok now info d c) = abs dir d.
Proof.
  intros (Ha & Hd & Ed) Hi. cbn [fst snd] in *. subst dir. unfold mark_recently_accessed. destruct ok; [|done].
  set (path := to_path info (cache_dir c)). set (f := λ n : node, _).
  destruct (d !! path) as [md|] eqn:Ep; [|by rewrite alter_id by (intros ? ?; congruence)].
  assert (alter f path d = <[path := f md]> d) as ->.
  { apply map_eq. intros q. destruct (decide (path = q)) as [<-|].
    - by rewrite lookup_alter_eq, lookup_insert_eq, Ep.
    - by rewrite lookup_alter_ne, lookup_insert_ne. }
  unfold path. rewrite abs_insert by (done || (cbn; eapply (paths_files _ _ Hd); [exact Ep|]; unfold path; rewrite range_of_to_path by done; eauto)).
  apply insert_id. rewrite abs_path by done. fold path. by rewrite Ep.
Qed.

Lemma remove_sim dir io info d c :
  cache_inv dir (d, c) → info_ok info →
  let '(r, d', _) := remove_cache io info d c in
  (r = None ∧ d' = d) ∨ (r = Some () ∧ abs dir d' = delete (file_name info) (abs dir d) ∧ is_Some (abs dir d !! file_name info)).
Proof.
  intros (Ha & Hd & Ed) Hi. cbn [fst snd] in *. subst dir. destruct (remove_cache io info d c) as [[r d'] c'] eqn:Er.
  destruct (remove_cache_spec io info c d r d' c' Ha Hd Hi Er) as (_ & _ & _ & Hnone & Hsome).
  destruct r as [[]|]; [right|left; split; [done|by apply Hnone]].
  destruct (Hsome eq_refl) as [-> Hp]. split_and!; [done|by apply abs_delete|]. rewrite abs_path by done. by rewrite fmap_is_Some.
Qed.

(** What was sent is a beginning of what was asked for. *)
Lemma from_offset_prefix o (k : nat) (b : bytes) : from_offset o (take k b) `prefix_of` from_offset o b.
Proof.
  destruct o as [o|]; cbn; [|by eexists; rewrite take_drop].
  rewrite <- (take_drop k b) at 2. rewrite drop_app. by eexists.
Qed.

(** The unmarked stream of a reader. *)
Lemma seek_bytes sk off b r :
  default [] (stream_bytes (Reader (seek sk off (FileReader_new (mkFile b 0) buffer_size)).2))
    `prefix_of` (if (match r : unit + io_error with inl _ => true | inr _ => false end) then drop off b else b) ∨
  (seek sk off (FileReader_new (mkFile b 0) buffer_size)).1 ≠ r.
Proof.
  destruct sk as [|e|]; cbn.
  - destruct r as [[]|]; [by left|by right].
  - destruct r as [|]; [by right|by left].
  - left. apply prefix_nil.
Qed.

(** The task that verifies an old file. *)
Lemma verify_sim dir io utime_ok answers now info offset d c md :
  cache_inv dir (d, c) → info_ok info → (∀ o, offset = Some o → 0 ≤ o) → d !! to_path info dir = Some md →
  let d1 := mark_recently_accessed utime_ok now info d c in
  let (t, sent) := verify_loop answers (len md) offset 0 ctx_new [] (FileReader_new (mkFile (data md) 0) buffer_size) in
  let '(d2, _) := match t with
                  | HashDone hash => if decide (hash = fi_hash info) then (d1, c)
                                     else let '(_, d, c) := remove_cache io info d1 c in (d, c)
                  | _ => (d1, c)
                  end in
  Spec.step (abs dir d) (Spec.Got (file_name info) offset true
    (got_of (match offset with Some _ => Partial | None => Full end (Channel sent)))) (abs dir d2).
Proof.
  intros Hc Hi Ho Ep. pose proof Hc as (Ha & Hd & Ed). cbn [fst snd] in *. subst dir. cbv zeta.
  pose proof (abs_path (cache_dir c) d info Hd Hi) as Habs. rewrite Ep in Habs. cbn in Habs.
  pose proof (abs_mark (cache_dir c) utime_ok now info d c Hc Hi) as Hmark.
  destruct (mark_spec utime_ok now info c d md Ha Hd Ep) as (Ha1 & Hd1 & _).
  set (d1 := mark_recently_accessed utime_ok now info d c) in *. clearbody d1.
  pose proof (verify_loop_spec answers (data md) (len md) offset buffer_size 0 ctx_new [] [] Ho
    ltac:(lia) eq_refl eq_refl) as Hv. change (Z.of_nat 0) with 0 in Hv. unfold FileReader_new.
  destruct (verify_loop _ _ _ _ _ _ _) as [t sent].
  destruct Hv as (k & Hk & Hsent & Hh); [by rewrite take_0; destruct offset; simpl; rewrite ?drop_nil|].
  assert (∃ p : bool, got_of (match offset with Some _ => Partial | None => Full end (Channel sent)) = Spec.Bytes p (concat (map item_data sent)) ∧
    concat (map item_data sent) `prefix_of` (if p then from_offset offset (data md) else data md)) as (p & -> & Hpre).
  { rewrite Hsent. destruct offset as [o|]; [exists true|exists false]; (split; [cbn; by rewrite Hsent|]);
      [apply (from_offset_prefix (Some o))|apply (from_offset_prefix None)]. }
  assert (Spec.step (abs (cache_dir c) d) (Spec.Got (file_name info) offset true (Spec.Bytes p (concat (map item_data sent))))
    (abs (cache_dir c) d1)) as Hkeep by (rewrite Hmark; by apply (Spec.got_bytes _ _ _ _ _ (data md))).
  destruct t as [h| |]; [|done..]. destruct (decide (h = fi_hash info)) as [|Hbad]; [done|].
  pose proof (remove_sim (cache_dir c) io info d1 c ltac:(done) Hi) as Hrm.
  destruct (remove_cache io info d1 c) as [[r d2] c2]. destruct Hrm as [[_ ->]|(_ & -> & _)]; [done|]. rewrite Hmark.
  apply (Spec.got_corrupt _ _ _ _ _ (data md)); [done| |done].
  intros (i & Hk' & Hdig). rewrite from_file_id_file_name in Hk' by done. injection Hk' as <-.
  destruct (Hh h eq_refl) as [-> Hge]. apply Hbad. rewrite take_ge by (unfold len in Hge; lia). done.
Qed.

Lemma get_sim chrono_ok dir io utime_ok open_ok sk answers now info offset d c l s' :
  cache_inv dir (d, c) → info_ok info → (∀ o, offset = Some o → 0 ≤ o) →
  exec chrono_ok (OpGet io utime_ok open_ok sk answers now info offset) (d, c) = Some (l, s') →
  Spec.step (abs dir d) l (abs dir s'.1).
Proof.
  intros Hc Hi Ho E. pose proof Hc as (Ha & Hd & Ed). cbn [fst snd] in *. subst dir. unfold exec, get_file in E.
  set (path := to_path info (cache_dir c)) in *.
  pose proof (abs_path (cache_dir c) d info Hd Hi) as Habs. fold path in Habs.
  assert (d !! path = None → Spec.step (abs (cache_dir c) d)
    (Spec.Got (file_name info) offset (open_ok && negb (f_metadata io path)) Spec.Missing) (abs (cache_dir c) d)) as Hnone.
  { intros Hp. constructor. intros _ b Hb. pose proof (eq_trans (eq_sym Hb) Habs) as Hb2. rewrite Hp in Hb2. done. }
  unfold metadata in E. destruct (f_metadata io path) eqn:Efm.
  { injection E as <- <-. constructor. rewrite andb_false_r. done. }
  destruct (d !! path) as [md|] eqn:Ep; [|injection E as <- <-; by apply Hnone]. cbn [fmap option_fmap option_map] in *.
  destruct (negb (is_file md) || negb (len md =? fi_size info)) eqn:Eg.
  { injection E as <- <-. constructor. intros _ b Hb (i & Hk & Hsz). pose proof (eq_trans (eq_sym Hb) Habs) as Hb2. injection Hb2 as ->.
    rewrite from_file_id_file_name in Hk by done. injection Hk as <-. unfold blen in Hsz. cbn in Hsz.
    unfold len in Eg. rewrite Hsz, Z.eqb_refl, orb_false_r in Eg. rewrite (paths_files _ _ Hd path md Ep) in Eg; [done|].
    unfold path. rewrite range_of_to_path by done. eauto. }
  apply orb_false_iff in Eg as [_ Hl%negb_false_iff%Z.eqb_eq].
  destruct open_ok; cbn [andb negb] in E; [|by injection E as <- <-; constructor].
  assert (∀ (p : bool) s (a : gmap string bytes), a = abs (cache_dir c) d → default [] (stream_bytes s) `prefix_of` (if p then from_offset offset (data md) else data md) →
    Spec.step (abs (cache_dir c) d) (Spec.Got (file_name info) offset true (Spec.Bytes p (default [] (stream_bytes s)))) a) as Hgot.
  { intros p s a -> Hp. by apply (Spec.got_bytes _ _ _ _ _ (data md)). }
  destruct (now - one_week <=? mtime md).
  { pose proof (λ Hp, Hgot false (Reader (FileReader_new (mkFile (data md) 0) buffer_size)) _ eq_refl Hp) as Hfull.
    destruct offset as [off|]; [|injection E as <- <-; by apply Hfull].
    destruct (negb (off =? 0)); [|injection E as <- <-; by apply Hfull].
    pose proof (seek_bytes sk (Z.to_nat off) (data md)) as Hsk.
    destruct (seek _ _ _) as [r rd]. destruct (Hsk r) as [Hpre|]; [|done].
    destruct r; injection E as <- <-; [exact (Hgot true (Reader rd) _ eq_refl Hpre)|exact (Hgot false (Reader rd) _ eq_refl Hpre)]. }
  pose proof (verify_sim (cache_dir c) io utime_ok answers now info offset d c md Hc Hi Ho Ep) as Hv. cbv zeta in Hv, E.
  destruct (verify_loop _ _ _ _ _ _ _) as [t sent].
  destruct (match t with HashDone _ => _ | _ => _ end) as [d2 c2]. by injection E as <- <-.
Qed.

(** Every operation keeps the invariant of the cache. *)
Lemma exec_inv chrono_ok dir o s l s' :
  cache_inv dir s → op_ok o s → exec chrono_ok o s = Some (l, s') → cache_inv dir s'.
Proof.
  destruct s as [d c]. intros Hc Hok E. pose proof Hc as (Ha & Hd & Ed). cbn [fst snd] in *.
  destruct o as [tmp n|tmp|io now info tmp|io info|io u op sk an now info off|limit|io opens fuel df lim now]; cbn [exec op_ok] in *.
  - injection E as <- <-. destruct Hok as (? & ? & ? & ? & ?). apply temp_inv; congruence || done.
  - injection E as <- <-. apply temp_removed_inv; congruence || done.
  - injection E as <- <-. destruct Hok as (Hi & Hr & Hio & n & Ht & Hn & Hcnt & Hsz).
    destruct (import_cache io now info tmp d c) as [d' c'] eqn:E. subst dir.
    destruct (import_cache_spec io now info tmp n c d d' c' Ha Hd) as (? & ? & ? & _); try done.
    split_and!; cbn [fst snd]; [done|congruence|done].
  - pose proof (remove_inv dir io info d c Hc Hok) as Hr. destruct (remove_cache io info d c) as [[r d'] c']. by injection E as <- <-.
  - destruct Hok as [Hi _]. pose proof (get_file_inv dir io u (if op then data <$> d !! to_path info (cache_dir c) else None)
      sk an now info off d c Hc Hi) as Hg. destruct (get_file _ _ _ _ _ _ _ _ _ _) as [[[r t] d'] c']. by injection E as <- <-.
  - injection E as <- <-. destruct Ha as [Ar Ac As]. split_and!; cbn [fst snd]; [|done|done]. by split.
  - destruct (background_tick _ _ _ _ _ _ _ _ _) as [need d' c'|] eqn:Et; [|done]. injection E as <- <-. by eapply tick_inv.
Qed.

(** The simulation diagram of one operation. *)
Lemma exec_sim chrono_ok dir o s l s' :
  cache_inv dir s → op_ok o s → exec chrono_ok o s = Some (l, s') →
  Spec.step (abs dir s.1) l (abs dir s'.1).
Proof.
  destruct s as [d c]. intros Hc Hok E. pose proof Hc as (Ha & Hd & Ed). cbn [fst snd] in *.
  destruct o as [tmp n|tmp|io now info tmp|io info|io u op sk an now info off|limit|io opens fuel df lim now].
  - cbn in E, Hok. injection E as <- <-. destruct Hok as (Hr & _). cbn [fst]. rewrite abs_other_insert by congruence. constructor.
  - cbn in E, Hok. injection E as <- <-. cbn [fst]. rewrite abs_other_delete by congruence. constructor.
  - pose proof (import_sim dir io now info tmp d c Hc Hok) as Hs. cbn [exec] in E. injection E as <- <-. rewrite Ed. cbv zeta in Hs.
    destruct (f_mkdir io (to_path info dir)); cbn [orb]; [rewrite Hs; constructor|].
    destruct (_ && _); rewrite Hs; [apply Spec.put_lost|constructor].
  - pose proof (remove_sim dir io info d c Hc Hok) as Hs. cbn [exec] in E. destruct (remove_cache io info d c) as [[r d'] c'].
    injection E as <- <-. cbn [fst]. destruct Hs as [[-> ->]|(-> & -> & Hk)].
    + rewrite bool_decide_false by (by intros []). constructor.
    + rewrite bool_decide_true by eauto. by constructor.
  - destruct Hok. by eapply get_sim.
  - cbn in E. injection E as <- <-. constructor.
  - cbn in E. destruct (background_tick _ _ _ _ _ _ _ _ _) as [need d' c'|] eqn:Et; [|done]. injection E as <- <-. cbn [fst].
    constructor. apply abs_sub. unfold background_tick in Et. destruct (save_state_same io c) as (_ & Es & _).
    eapply (check_cache_usage_spec chrono_ok io opens fuel df lim now d (save_state io c)); [|rewrite Es, Ed; exact Hd|exact Et].
    by apply accounted_save_state.
Qed.

Lemma runs_sim chrono_ok dir s ls s' :
  runs chrono_ok s ls s' → cache_inv dir s → Spec.steps (abs dir s.1) ls (abs dir s'.1) ∧ cache_inv dir s'.
Proof.
  intros Hr. induction Hr as [s|o s l s1 ls s2 Hok E _ IH]; intros Hc; [by split; [constructor|]|].
  destruct IH as [Hs Hi]; [by eapply exec_inv|]. split; [|done]. econstructor; [by eapply exec_sim|exact Hs].
Qed.

(** ** Theorems *)

(** C1: [CacheManager] with its files on disk refines the abstract cache, a map from
    identifiers to contents: for every sequence of imports, deletions, reads with
    their verification, temporary files, changes of the limit and background
    ticks the abstract cache can take the same steps with the same visible results.
    Every call of the system may fail in any of them, with one exception: an import
    can inspect and delete the file it replaces, and if its copy fails it leaves no
    torn file ([import_counts_twice] and [import_leaves_torn_file] show what happens
    otherwise).  An import stores the contents under the
    identifier and under no other, a read answers with the stored contents, only a
    failed import, a deletion, an eviction or a wrong digest loses contents; and
    the accounts stay exact. *)
Theorem cache_refines chrono_ok d c ls d' c' :
  accounted c d → disk_ok (cache_dir c) d → runs chrono_ok (d, c) ls (d', c') →
  Spec.steps (abs (cache_dir c) d) ls (abs (cache_dir c) d') ∧ accounted c' d' ∧ cache_dir c' = cache_dir c.
Proof.
  intros Ha Hd Hr. destruct (runs_sim chrono_ok (cache_dir c) (d, c) ls (d', c') Hr) as [Hs (Ha' & _ & Hdir)]; done.
Qed.

(** C2: What a client may rely on: the bytes a read returns are a beginning of the
    contents that were stored last under the identifier (from the offset on, when
    the stream is marked partial); and when everything stored had the digest of its
    identifier, so do the contents the read serves, and they stay cached. *)
Theorem cache_reads_stored chrono_ok d c ls k offset healthy partial bs d' c' :
  accounted c d → disk_ok (cache_dir c) d →
  runs chrono_ok (d, c) (ls ++ [Spec.Got k offset healthy (Spec.Bytes partial bs)]) (d', c') →
  ∃ b, Spec.latest (abs (cache_dir c) d) ls k = Some b ∧
    bs `prefix_of` (if partial then from_offset offset b else b) ∧
    ((∀ k b, abs (cache_dir c) d !! k = Some b → Spec.right k b) → (∀ k b, Spec.Put k b ∈ ls → Spec.right k b) →
     Spec.right k b ∧ abs (cache_dir c) d' !! k = Some b).
Proof.
  intros Ha Hd Hr. destruct (runs_sim chrono_ok (cache_dir c) (d, c) _ (d', c') Hr) as [Hs _]; [done|].
  by apply (Spec.read_contract _ _ _ _ healthy).
Qed.

End facts.

(** ** Witnesses *)

(** A verified download is imported and read back from the second byte on. *)
Definition put_node : node := mkNode true good_data 4096 0.
Definition put_disk : disk := {[ "tmp/p1" := put_node ]}.
Definition put_labels : list Spec.label :=
  [Spec.Put (@file_name hex_ref read_info) good_data;
   Spec.Got (@file_name hex_ref read_info) (Some 1) true (Spec.Bytes true (as_bytes "b"))].

Lemma put_accounted : @accounted hex_ref sample_cm put_disk.
Proof.
  split; [|vm_compute; reflexivity..]. intros sr. unfold range_ok. simpl.
  apply map_empty. intros p. destruct (cached _ _ _ !! p) as [m|] eqn:E; [|done].
  apply cached_lookup in E as (E & Hr & _). unfold put_disk in E.
  apply lookup_singleton_Some in E as [<- <-]. vm_compute in Hr. discriminate.
Qed.

Lemma put_disk_ok : @disk_ok hex_ref "cache" put_disk.
Proof.
  unfold put_disk. split.
  - intros p n. rewrite lookup_singleton_Some. intros [_ <-]. vm_compute. discriminate.
  - vm_compute. discriminate.
  - vm_compute. discriminate.
  - intros p n. rewrite lookup_singleton_Some. by intros [_ <-].
Qed.

Definition put_import : op := OpImport no_faults 7 read_info "tmp/p1".
Definition put_read : op := OpGet no_faults true true SeekOk [] 8 read_info (Some 1).
Definition put_state (o : op) (s : disk * CacheManager) : disk * CacheManager :=
  from_option snd s (@exec hex_ref toy_digest (λ _, true) o s).
Definition put_mid : disk * CacheManager := put_state put_import (put_disk, sample_cm).

Lemma put_runs : @runs hex_ref toy_digest (λ _, true) (put_disk, sample_cm) put_labels (put_state put_read put_mid).
Proof.
  apply (runs_cons (H := hex_ref) (H0 := toy_digest) (λ _, true) put_import _ _ put_mid).
  - split; [exact read_info_ok|]. split; [vm_compute; reflexivity|]. split; [by split|].
    exists put_node. split; [reflexivity|]. split; [reflexivity|]. split; vm_compute; discriminate.
  - vm_compute. reflexivity.
  - apply (runs_cons (H := hex_ref) (H0 := toy_digest) (λ _, true) put_read _ _ (put_state put_read put_mid)).
    + unfold put_mid. destruct (put_state put_import (put_disk, sample_cm)). split; [exact read_info_ok|]. intros o [= <-]. lia.
    + vm_compute. reflexivity.
    + constructor.
Qed.

Lemma cache_refines_witness :
  ∃ a, @Spec.steps hex_ref toy_digest ∅ put_labels a.
Proof.
  pose proof put_runs as Hr. destruct (put_state put_read put_mid) as [d' c']. exists (@abs hex_ref "cache" d').
  pose proof (cache_refines (H := hex_ref) (D := toy_digest) (λ _, true) put_disk sample_cm put_labels d' c'
    put_accounted put_disk_ok Hr) as [Hs _].
  assert (@abs hex_ref (cache_dir sample_cm) put_disk = ∅) as E by (vm_compute; reflexivity).
  rewrite E in Hs. exact Hs.
Defined.

Lemma cache_reads_stored_witness :
  ∃ d', @Spec.right hex_ref toy_digest (@file_name hex_ref read_info) good_data ∧
    @abs hex_ref "cache" d' !! @file_name hex_ref read_info = Some good_data.
Proof.
  pose proof put_runs as Hr. destruct (put_state put_read put_mid) as [d' c']. exists d'.
  destruct (cache_reads_stored (H := hex_ref) (D := toy_digest) (λ _, true) put_disk sample_cm
    [Spec.Put (@file_name hex_ref read_info) good_data] (@file_name hex_ref read_info) (Some 1) true true (as_bytes "b") d' c'
    put_accounted put_disk_ok Hr) as (b & Hb & _ & Hright).
  assert (b = good_data) as -> by (vm_compute in Hb; injection Hb as <-; vm_compute; reflexivity).
  apply Hright.
  - intros k b Hk. assert (@abs hex_ref (cache_dir sample_cm) put_disk = ∅) as E by (vm_compute; reflexivity).
    rewrite E in Hk. by destruct (lookup_empty_Some k b Hk).
  - intros k b Hin. apply list_elem_of_singleton in Hin as [= -> ->].
    exists read_info. split; vm_compute; reflexivity.
Defined.
