(* ===== verification/Net.v ===== *)
(** * Net: reading and writing IP addresses

    [FromStr] and [Display] of the standard library's [IpAddr], which the RPC
    client uses to normalise the list of servers and the server to compare the
    address of a peer with it. *)

From S2P Require Import Prelude Text FloodControl.
From stdpp Require Import base list strings numbers.

Local Open Scope Z_scope.

(** ** Reading *)

(** An octet: one to three digits, at most 255, no leading zero. *)
Definition parse_octet (s : string) : option Z :=
  if (3 <? String.length s)%nat then None
  else match s with
       | String a (String _ _) => if decide (a = "0"%char) then None else in_range 0 255 (parse_nat s)
       | _ => in_range 0 255 (parse_nat s)
       end.

Definition of_octets (a b c d : Z) : Z := ((a * 256 + b) * 256 + c) * 256 + d.

Definition parse_v4 (s : string) : option Z :=
  match split_on "."%char s with
  | [a; b; c; d] =>
      a ← parse_octet a; b ← parse_octet b; c ← parse_octet c; d ← parse_octet d;
      Some (of_octets a b c d)
  | _ => None
  end.

(** One to four hexadecimal digits. *)
Definition hex_digit_val (c : byte) : option Z :=
  if is_digit c then Some (code c - 48)
  else if (97 <=? code c) && (code c <=? 102) then Some (code c - 87)
  else if (65 <=? code c) && (code c <=? 70) then Some (code c - 55)
  else None.

Fixpoint parse_hex (acc : Z) (s : string) : option Z :=
  match s with
  | EmptyString => Some acc
  | String c t => d ← hex_digit_val c; parse_hex (acc * 16 + d) t
  end.

Definition parse_group (s : string) : option Z :=
  match s with
  | EmptyString => None
  | _ => if (4 <? String.length s)%nat then None else parse_hex 0 s
  end.

(** Groups; the last one may be an embedded IPv4 address if [v4] allows it. *)
Fixpoint parse_groups (v4 : bool) (l : list string) : option (list Z) :=
  match l with
  | [] => Some []
  | [x] =>
      match (if v4 then parse_v4 x else None) with
      | Some a => Some [a / 65536; a mod 65536]
      | None => (λ g, [g]) <$> parse_group x
      end
  | x :: r => g ← parse_group x; gs ← parse_groups v4 r; Some (g :: gs)
  end.

(** The first [::]: what is before and after it. *)
Fixpoint split_double (s : string) : option (string * string) :=
  match s with
  | EmptyString => None
  | String a t =>
      match t with
      | String b t' =>
          if decide (a = ":"%char ∧ b = ":"%char) then Some (EmptyString, t')
          else (λ p, (String a p.1, p.2)) <$> split_double t
      | EmptyString => None
      end
  end.

Definition pieces (s : string) : list string :=
  if decide (s = EmptyString) then [] else split_on ":"%char s.

Definition of_groups (l : list Z) : Z := foldl (λ acc g, acc * 65536 + g) 0 l.

Definition parse_v6 (s : string) : option Z :=
  match split_double s with
  | None =>
      gs ← parse_groups true (pieces s);
      if decide (length gs = 8%nat) then Some (of_groups gs) else None
  | Some (a, b) =>
      hd ← parse_groups false (pieces a);
      tl ← parse_groups true (pieces b);
      if decide (length hd + length tl ≤ 7)%nat
      then Some (of_groups (hd ++ replicate (8 - length hd - length tl) 0 ++ tl)) else None
  end.

(** [IpAddr::from_str]. *)
Definition parse_ip (s : string) : option IpAddr :=
  match parse_v4 s with
  | Some a => Some (V4 a)
  | None => V6 <$> parse_v6 s
  end.

(** ** Writing *)

Definition octet (a : Z) (k : Z) : Z := a / 256 ^ k mod 256.

Definition show_v4 (a : Z) : string :=
  str_join "." [show (octet a 3); show (octet a 2); show (octet a 1); show (octet a 0)].

Definition hex_char (d : Z) : byte :=
  Ascii.ascii_of_nat (Z.to_nat (if d <? 10 then d + 48 else d + 87)).

(** Four bits at a time, without leading zeros. *)
Fixpoint show_hex_digits (fuel : nat) (n : Z) (acc : string) : string :=
  let acc' := String (hex_char (n mod 16)) acc in
  match fuel with
  | O => acc'
  | S f => if n <? 16 then acc' else show_hex_digits f (n / 16) acc'
  end.
Definition show_hex (n : Z) : string := show_hex_digits 3 n EmptyString.

Definition groups (a : Z) : list Z :=
  (λ k, a / 65536 ^ Z.of_nat k mod 65536) <$> [7; 6; 5; 4; 3; 2; 1; 0]%nat.

(** The first longest run of zero groups: its start and length. *)
Fixpoint zero_run (l : list Z) : nat :=
  match l with 0 :: r => S (zero_run r) | _ => O end.
Fixpoint longest_run (i : nat) (l : list Z) : nat * nat :=
  match l with
  | [] => (i, O)
  | _ :: r => let (j, n) := longest_run (S i) r in
              if (n <=? zero_run l)%nat then (i, zero_run l) else (j, n)
  end.

Definition show_groups (l : list Z) : string := str_join ":" (show_hex <$> l).

Definition show_v6 (a : Z) : string :=
  match to_canonical (V6 a) with
  | V4 b => "::ffff:" +:+ show_v4 b
  | V6 _ =>
      let gs := groups a in
      let (i, n) := longest_run 0 gs in
      if (1 <? n)%nat then show_groups (take i gs) +:+ "::" +:+ show_groups (drop (i + n) gs)
      else show_groups gs
  end.

(** [IpAddr::to_string]. *)
Definition show_ip (ip : IpAddr) : string :=
  match ip with V4 a => show_v4 a | V6 a => show_v6 a end.

(** ** Lemmas *)

Lemma octet_range a k : 0 ≤ octet a k < 256.
Proof. apply Z.mod_pos_bound. lia. Qed.

Lemma parse_octet_show n : 0 ≤ n < 256 → parse_octet (show n) = Some n.
Proof.
  intros Hn. assert (∃ k, (k < 256)%nat ∧ n = Z.of_nat k) as (k & Hk & ->) by (exists (Z.to_nat n); lia).
  clear Hn. revert k Hk.
  assert (forallb (λ k, bool_decide (parse_octet (show (Z.of_nat k)) = Some (Z.of_nat k))) (seq 0 256) = true) as Hall
    by (vm_compute; reflexivity).
  intros k Hk. rewrite forallb_forall in Hall. specialize (Hall k).
  apply bool_decide_eq_true in Hall; [done|]. apply in_seq. lia.
Qed.

Lemma of_octets_octet a : 0 ≤ a < 2 ^ 32 →
  of_octets (octet a 3) (octet a 2) (octet a 1) (octet a 0) = a.
Proof.
  intros Ha. unfold of_octets, octet. change (256 ^ 3) with 16777216. change (256 ^ 2) with 65536.
  change (256 ^ 1) with 256. change (256 ^ 0) with 1. change (2 ^ 32) with 4294967296 in Ha.
  rewrite Z.div_1_r. Z.to_euclidean_division_equations. lia.
Qed.

(** Reading a written IPv4 address gives it back. *)
Lemma parse_show_v4 a : 0 ≤ a < 2 ^ 32 → parse_v4 (show_v4 a) = Some a.
Proof.
  intros Ha. unfold parse_v4, show_v4.
  rewrite (split_on_join "."%char); [|done|].
  - rewrite !parse_octet_show by apply octet_range. simpl. by rewrite of_octets_octet.
  - repeat constructor; apply show_no_char; try done; apply octet_range.
Qed.

Lemma show_v4_inj a b : 0 ≤ a < 2 ^ 32 → 0 ≤ b < 2 ^ 32 → show_v4 a = show_v4 b → a = b.
Proof.
  intros Ha Hb E. pose proof (parse_show_v4 a Ha) as H. rewrite E, parse_show_v4 in H by done. congruence.
Qed.

(** Some addresses in their usual spellings. *)
Example parse_ip_samples :
  parse_ip "1.2.3.4" = Some (V4 16909060) ∧ parse_ip "01.2.3.4" = None ∧ parse_ip "1.2.3.256" = None ∧
  parse_ip "::1" = Some (V6 1) ∧ parse_ip "::ffff:1.2.3.4" = Some (V6 (65535 * 2 ^ 32 + 16909060)) ∧
  parse_ip "1:::2" = None ∧ parse_ip "::" = Some (V6 0) ∧ parse_ip "1:2:3:4:5:6:7::" = parse_ip "1:2:3:4:5:6:7:0" ∧
  show_ip (V6 1) = "::1" ∧ show_ip (V6 0) = "::" ∧ show_ip (V6 (2 ^ 112 + 5)) = "1::5" ∧
  show_ip (V4 16909060) = "1.2.3.4".
Proof. vm_compute. done. Qed.
