(* ===== verification/Rpc.v ===== *)
(** * Rpc: the client of the Hentai@Home RPC servers

    [src/src/rpc.rs].  Every operation is a function in the state monad [rpc]: the
    state is the client ([RPCClient], its locks and atomics as plain fields) and
    the log of requests; [None] is a panic.  What the network, the clocks and the
    random choice answer comes from an oracle [ev], one event per request, so
    the theorems hold for every behaviour of the network. *)

From S2P Require Import Prelude Text Extern FloodControl Net.
From stdpp Require Import base gmap list strings numbers.

Local Open Scope Z_scope.

(** ** Data *)

Definition API_VERSION : Z := 181.
Definition DEFAULT_SERVER : string := "rpc.hentaiathome.net".

(** [Settings]: all fields but the last are atomics. *)
Record Settings := mkSettings {
  s_size_limit : Z;        (* u64 *)
  s_throttle_bytes : Z;    (* u64 *)
  s_disable_logging : bool;
  s_max_connection : Z;    (* u64 *)
  s_disable_ip_check : bool
}.

Record InitSettings := mkInit {
  client_port : Z;         (* u16 *)
  client_host : string;
  verify_cache : bool;
  static_ranges : list string
}.

(** A [Url] of the API: host, last path segment and query pairs. *)
Record Url := mkUrl { u_host : string; u_segment : string; u_query : list (string * string) }.

Record RPCClient := mkClient {
  api_base : Url;
  clock_offset : Z;        (* i64, seconds *)
  id : Z;                  (* i32 *)
  key : string;
  rpc_servers : list string;
  running : bool;
  settings : Settings
}.

Record ApiResponse := mkResp { status : string; resp_data : list string }.

(** [Error] of [src/src/error.rs]. *)
Inductive Error :=
| VersionTooOld
| ApiResponseFail (fail_code message : string)
| ConnectTestFail
| ServerStartFail
| InitSettingsMissing (s : string)
| HashMismatch (expected actual : bytes).

Definition connection_error (message : string) : Error :=
  ApiResponseFail "CONNECTION_FAILED" message.

(** [reqwest::Error], by what the code asks of it. *)
Inductive NetError :=
| NetConnect
| NetTimeout
| NetStatus (status_code : Z)
| NetOther.

(** [RequestError] of [send_action]. *)
Inductive RequestError := NotConnected | BadHash | Net (e : NetError).

(** ** The world *)

(** What happens at one request: the clock when its URL is built and when its
    answer has been processed, how long it took, the answer, and the number a
    random choice after it draws. *)
Record event := mkEvent {
  ev_now : Z;              (* nanoseconds since the epoch *)
  ev_after : Z;
  ev_elapsed : Z;          (* nanoseconds *)
  ev_answer : string + NetError;
  ev_pick : nat
}.

Definition rpc (A : Type) : Type :=
  RPCClient → list Url → option (A * RPCClient * list Url).

#[export] Instance rpc_ret : MRet rpc := λ A a c log, Some (a, c, log).
#[export] Instance rpc_fmap : FMap rpc := λ A B f m c log,
  match m c log with Some (a, c, log) => Some (f a, c, log) | None => None end.
#[export] Instance rpc_bind : MBind rpc := λ A B f m c log,
  match m c log with Some (a, c, log) => f a c log | None => None end.

Definition panic {A} : rpc A := λ _ _, None.
Definition get_client : rpc RPCClient := λ c log, Some (c, c, log).
Definition put_client (c : RPCClient) : rpc () := λ _ log, Some ((), c, log).

(** The host parser of the [url] crate ([None] is an error); a dotted IPv4
    address is a host as it stands. *)
Class UrlHost := { url_host : string → option string }.
Class UrlHostLaws (U : UrlHost) : Prop := {
  url_host_v4 a : 0 ≤ a < 2 ^ 32 → url_host (show_v4 a) = Some (show_v4 a);
  url_host_default : url_host DEFAULT_SERVER = Some DEFAULT_SERVER
}.

(** ** Settings *)

(** [Settings::max_connection]. *)
Definition max_connection (s : Settings) : Z :=
  let max := s_max_connection s in
  if negb (max =? 0) then max else 20 + Z.min 480 (s_throttle_bytes s / 10000).

(** [Settings::update]. *)
Definition Settings_update (m : gmap string string) (s : Settings) : Settings :=
  mkSettings
    (default (s_size_limit s) (m !! "disklimit_bytes" ≫= parse_u64))
    (default (s_throttle_bytes s) (m !! "throttle_bytes" ≫= parse_u64))
    (default false (m !! "disable_logging" ≫= parse_bool))
    (s_max_connection s) (s_disable_ip_check s).

(** ** Responses *)

Definition is_ok (r : ApiResponse) : bool := bool_decide (status r = "OK").
Definition is_key_expired (r : ApiResponse) : bool := bool_decide (status r = "KEY_EXPIRED").
Definition is_hash_fail (r : ApiResponse) : bool := bool_decide (status r = "RESPONSE_HASH_FAILED").

(** The pair before and after the first [=] (up to a second one). *)
Definition key_value (kv : string) : option (string * string) :=
  match split_on "="%char kv with k :: v :: _ => Some (k, v) | _ => None end.

(** [ApiResponse::to_map]: the last value of a key wins. *)
Definition to_map (r : ApiResponse) : gmap string string :=
  foldl (λ m kv, match key_value kv with Some (k, v) => <[k := v]> m | None => m end) ∅ (resp_data r).

Section client.
Context `{HexCodec, Digest, UrlHost}.
Variable chrono_ok : Z → bool.      (* a time in seconds [chrono] can represent *)
Variable ev : nat → event.

(** What the server signs. *)
Definition hash_body (time : Z) (key : string) (data : list string) : string :=
  show time +:+ "-" +:+ key +:+
  (if bool_decide (data = []) then "" else nl_str +:+ str_join nl_str data).

(** [RPCClient::parse_response]. *)
Definition parse_response (c : RPCClient) (res : string) : ApiResponse :=
  match lines res with
  | s :: data =>
      if starts_with s "OK" then
        let status_line := split_on "-"%char s in
        let status := default "" (status_line !! 0%nat) in
        let time := default 0 (status_line !! 1%nat ≫= parse_i32) in
        let hash := default "" (status_line !! 2%nat) in
        if negb (bool_decide (hash = "")) && bool_decide (string_to_hash (hash_body time (key c) data) = hash)
        then mkResp status data
        else mkResp "RESPONSE_HASH_FAILED" [u_host (api_base c)]
      else mkResp s data
  | [] => mkResp "NO_RESPONSE" []
  end.

(** [RPCClient::get_timestemp] when the clock reads [now]. *)
Definition get_timestemp (now : Z) (c : RPCClient) : Z :=
  let offset := if Z.abs (clock_offset c) <=? i64_max / 1000 then clock_offset c else 0 in
  let t := now + offset * sec in
  if chrono_ok (t / sec) then t / sec else now / sec.

(** [RPCClient::build_url]. *)
Definition build_url (now : Z) (action additional : string) (endpoint : option string) (c : RPCClient) : Url :=
  let timestamp := show (get_timestemp now c) in
  let hash := string_to_hash ("hentai@home-" +:+ action +:+ "-" +:+ additional +:+ "-" +:+ show (id c) +:+
                              "-" +:+ timestamp +:+ "-" +:+ key c) in
  mkUrl (u_host (api_base c)) (default (u_segment (api_base c)) endpoint)
    (u_query (api_base c) ++
     [("act", action); ("add", additional); ("cid", show (id c)); ("acttime", timestamp); ("actkey", hash)]).

(** [self.send_request(self.build_url(..))]: the request is logged and the event
    of its number is the answer. *)
Definition request (action additional : string) (endpoint : option string) : rpc event :=
  λ c log, let e := ev (length log) in
           Some (e, c, log ++ [build_url (ev_now e) action additional endpoint c]).

(** [Vec::swap_remove]. *)
Definition swap_remove {A} (i : nat) (l : list A) : list A :=
  match list.last l with
  | Some x => take (length l - 1) (<[i := x]> l)
  | None => l
  end.

(** [iter().position(|x| *x == s)]. *)
Fixpoint position (s : string) (l : list string) : option nat :=
  match l with
  | [] => None
  | x :: r => if decide (x = s) then Some 0%nat else S <$> position s r
  end.

(** [RPCClient::change_server] when the random choice draws [pick]. *)
Definition change_server (pick : nat) : rpc () :=
  c ← get_client;
  if (length (rpc_servers c) <=? 1)%nat then mret ()
  else
    let servers := match position (u_host (api_base c)) (rpc_servers c) with
                   | Some pos => swap_remove pos (rpc_servers c)
                   | None => rpc_servers c
                   end in
    let server := default DEFAULT_SERVER (servers !! (pick mod length servers)%nat) in
    match url_host server with
    | Some h =>
        put_client (mkClient (mkUrl h (u_segment (api_base c)) (u_query (api_base c)))
          (clock_offset c) (id c) (key c) (rpc_servers c) (running c) (settings c))
    | None => panic       (* [unwrap] of a parse error *)
    end.

(** [RPCClient::update_settings]. *)
Definition update_settings (pick : nat) (m : gmap string string) : rpc () :=
  match m !! "rpc_server_ip" with
  | Some ips =>
      c ← get_client;
      let servers := omap (λ s, (λ ip, show_ip (to_canonical ip)) <$> parse_ip s) (split_on ";"%char ips) in
      put_client (mkClient (api_base c) (clock_offset c) (id c) (key c) servers (running c) (settings c));;
      change_server pick
  | None => mret ()
  end;;
  c ← get_client;
  put_client (mkClient (api_base c) (clock_offset c) (id c) (key c) (rpc_servers c) (running c)
                (Settings_update m (settings c))).

(** The clock offset a [server_stat] answer gives: the server's time plus a
    quarter of the request time, less the local time. *)
Definition server_offset (e : event) (data : gmap string string) : option Z :=
  let request_time := if ev_elapsed e <=? i64_max * 1000000 then ev_elapsed e else 0 in
  time ← data !! "server_time" ≫= parse_i64;
  if chrono_ok time then
    let t := time * sec + Z.quot request_time 4 in
    if chrono_ok (t / sec) then Some (Z.quot (t - ev_after e) sec) else None
  else None.

(** [RPCClient::check_stat]. *)
Definition check_stat : rpc (option (Z * Z) + Error) :=
  e ← request "server_stat" "" None;
  match ev_answer e with
  | inr _ => mret (inr (connection_error "Failed to get initial stat from server."))
  | inl body =>
      c ← get_client;
      let res := parse_response c body in
      if is_ok res then
        let data := to_map res in
        match server_offset e data with
        | Some off => put_client (mkClient (api_base c) off (id c) (key c) (rpc_servers c) (running c) (settings c))
        | None => mret ()
        end;;
        match data !! "min_client_build" ≫= parse_i32, data !! "cur_client_build" ≫= parse_i32 with
        | Some min, Some new => mret (inl (Some (min, new)))
        | _, _ => mret (inl None)
        end
      else mret (inr (ApiResponseFail (status res) (str_join nl_str (resp_data res))))
  end.

(** [err.is_connect() || err.is_timeout() || err.status().is_some_and(is_server_error)]. *)
Definition should_change (e : NetError) : bool :=
  match e with
  | NetConnect | NetTimeout => true
  | NetStatus s => (500 <=? s) && (s <? 600)
  | NetOther => false
  end.

(** The [for _ in 0..3] loop of [send_action]. *)
Fixpoint send_loop (n : nat) (action additional : string) (error : RequestError) : rpc (ApiResponse + RequestError) :=
  match n with
  | O => mret (inr error)
  | S n =>
      e ← request action additional None;
      match ev_answer e with
      | inl body =>
          c ← get_client;
          let response := parse_response c body in
          if is_key_expired response then
            check_stat;;
            send_loop n action additional error
          else if is_hash_fail response then
            change_server (ev_pick e);;
            send_loop n action additional BadHash
          else mret (inl response)
      | inr err =>
          (if should_change err then change_server (ev_pick e) else mret ());;
          send_loop n action additional (Net err)
      end
  end.

(** [RPCClient::send_action]. *)
Definition send_action (action : string) (additional : option string) : rpc (ApiResponse + RequestError) :=
  send_loop 3 action (default "" additional) NotConnected.

(** ** The actions *)

(** [RPCClient::new]; [host] is the parsed bootstrap server. *)
Definition RPCClient_new (cid : Z) (k : string) (disable_ip_check : bool) (max_conn : Z)
    (bootstrap_server : option string) : option RPCClient :=
  h ← url_host (default DEFAULT_SERVER bootstrap_server);
  Some (mkClient (mkUrl h "rpc" [("clientbuild", show API_VERSION)]) 0 cid k [] false
          (mkSettings u64_max 0 false max_conn disable_ip_check)).

(** The settings [login] reads from the answer. *)
Definition init_settings (m : gmap string string) : InitSettings + Error :=
  match m !! "port" ≫= parse_u16 with
  | None => inr (InitSettingsMissing "port")
  | Some port =>
      match m !! "host" with
      | None => inr (InitSettingsMissing "host")
      | Some host =>
          inl (mkInit port host (default false (m !! "verify_cache" ≫= parse_bool))
                 (default [] (split_on ";"%char <$> m !! "static_ranges")))
      end
  end.

(** [RPCClient::login]; [pick] is the random choice of [update_settings]. *)
Definition login (pick : nat) : rpc (InitSettings + Error) :=
  st ← check_stat;
  match st with
  | inr e => mret (inr e)
  | inl versions =>
      let too_old := match versions with Some (min, _) => API_VERSION <? min | None => false end in
      if too_old then mret (inr VersionTooOld)
      else
        res ← send_action "client_login" None;
        match res with
        | inr _ => mret (inr (connection_error "Failed to get a login response from server."))
        | inl res =>
            if is_ok res then
              let m := to_map res in
              match init_settings m with
              | inr e => mret (inr e)
              | inl init => update_settings pick m;; mret (inl init)
              end
            else mret (inr (ApiResponseFail (status res) (str_join nl_str (resp_data res))))
        end
  end.

(** [if let Ok(res) = .. && res.is_ok()]: the data of a successful answer. *)
Definition ok_data (r : ApiResponse + RequestError) : option (list string) :=
  match r with
  | inl res => if is_ok res then Some (resp_data res) else None
  | inr _ => None
  end.

Definition get_purgelist (delta_time : Z) : rpc (option (list string)) :=
  ok_data <$> send_action "get_blacklist" (Some (show delta_time)).

Definition set_running (b : bool) (c : RPCClient) : RPCClient :=
  mkClient (api_base c) (clock_offset c) (id c) (key c) (rpc_servers c) b (settings c).

(** [RPCClient::connect_check]. *)
Definition connect_check : rpc (option ()) :=
  r ← send_action "client_start" None;
  match ok_data r with
  | Some _ => c ← get_client; put_client (set_running true c);; mret (Some ())
  | None => mret None
  end.

(** [RPCClient::refresh_settings]. *)
Definition refresh_settings (pick : nat) : rpc () :=
  r ← send_action "client_settings" None;
  match r with
  | inl res => if is_ok res then update_settings pick (to_map res) else mret ()
  | inr _ => mret ()
  end.

(** [RPCClient::is_vaild_rpc_server]. *)
Definition is_vaild_rpc_server (ip : string) (c : RPCClient) : bool :=
  s_disable_ip_check (settings c) || existsb (λ s, bool_decide (s = ip)) (rpc_servers c).

Definition sr_fetch (file_index xres file_id : string) : rpc (option (list string)) :=
  ok_data <$> send_action "srfetch" (Some (file_index +:+ ";" +:+ xres +:+ ";" +:+ file_id)).

(** [RPCClient::dl_fails]; [choose] is [fastrand::choose_multiple(_, 50)]. *)
Definition dl_fails (choose : list string → list string) (failures : list string) : rpc () :=
  if bool_decide (failures = []) then mret ()
  else
    let l := if (50 <? length failures)%nat then choose failures else failures in
    send_action "dlfails" (Some (str_join ";" l));; mret ().

(** [RPCClient::fetch_queue]; the gallery is given by its [gid] and [minxres]. *)
Definition fetch_queue (gallery : option (Z * string)) : rpc (option (list string)) :=
  let additional := match gallery with Some (gid, minxres) => show gid +:+ ";" +:+ minxres | None => "" end in
  e ← request "fetchqueue" additional (Some "dl");
  mret match ev_answer e with
       | inl res =>
           match head (lines res) with
           | Some l => if decide (l = "INVALID_REQUEST") then None
                       else if decide (l = "NO_PENDING_DOWNLOADS") then None
                       else Some (lines res)
           | None => Some (lines res)
           end
       | inr _ => None
       end.

(** [RPCClient::dl_fetch]. *)
Definition dl_fetch (gid page fileindex : Z) (xres : string) (retry : Z) : rpc (option (list string)) :=
  ok_data <$> send_action "dlfetch"
    (Some (show gid +:+ ";" +:+ show page +:+ ";" +:+ show fileindex +:+ ";" +:+ xres +:+ ";" +:+ show retry)).

(** [RPCClient::shutdown]. *)
Definition shutdown : rpc () :=
  c ← get_client;
  put_client (set_running false c);;
  if running c then send_action "client_stop" None;; mret () else mret ().

(** [RPCClient::still_alive]: [false] asks for a shutdown. *)
Definition still_alive (resume : bool) : rpc bool :=
  r ← send_action "still_alive" (Some (if resume then "resume" else ""));
  mret match r with
       | inl res =>
           if is_ok res then true
           else if starts_with (status res) "TERM_BAD_NETWORK" then false
           else if starts_with (status res) "FAIL_NOT_LOGGED_IN" then false
           else true
       | inr _ => true
       end.

Definition notify_overload : rpc () := send_action "overload" None;; mret ().

(** [Drop]: the [unwrap] of a failed action panics. *)
Definition drop_client : rpc () :=
  c ← get_client;
  if running c then
    r ← send_action "client_stop" None;
    match r with inl _ => mret () | inr _ => panic end
  else mret ().

End client.

(** ** Lemmas *)

Lemma strip_cr_id s : has_char cr s = false → strip_cr s = s.
Proof.
  induction s as [|a s IH]; [done|]. rewrite has_char_cons. intros [Ha Hs]%orb_false_iff.
  apply bool_decide_eq_false in Ha. destruct s as [|b s].
  - simpl. by rewrite decide_False.
  - change (strip_cr (String a (String b s))) with (String a (strip_cr (String b s))). by rewrite IH.
Qed.

(** [lines] inverts joining with newlines, for lines without line ends whose
    last one is not empty. *)
Lemma lines_join l :
  Forall (λ x, has_char nl x = false ∧ has_char cr x = false) l → list.last l ≠ Some "" →
  lines (str_join nl_str l) = l.
Proof.
  intros Hl Hlast. destruct l as [|x l]; [done|]. unfold lines, nl_str.
  rewrite split_on_join; [|done|by eapply Forall_impl; [|exact Hl]; intros ? [? ?]].
  revert x Hl Hlast. induction l as [|y l IH]; intros x Hl Hlast.
  - simpl. rewrite decide_False; [done|]. intros ->. done.
  - apply Forall_cons_1 in Hl as [[_ Hx] Hl]. cbn [lines_of]. rewrite strip_cr_id by done. f_equal.
    apply IH; done.
Qed.

Lemma swap_remove_elem {A} (i : nat) (l : list A) x : x ∈ swap_remove i l → x ∈ l.
Proof.
  unfold swap_remove. destruct (list.last l) as [y|] eqn:E; [|done].
  intros Hx%elem_of_take. destruct Hx as (j & Hx & _). apply list_lookup_insert_Some in Hx.
  destruct Hx as [(_ & -> & _)|[_ Hx]]; [by apply last_Some_elem_of|by apply list_elem_of_lookup_2 in Hx].
Qed.

Lemma position_spec s l :
  match position s l with
  | Some i => l !! i = Some s
  | None => s ∉ l
  end.
Proof.
  induction l as [|x l IH]; simpl; [by apply not_elem_of_nil|].
  destruct (decide (x = s)) as [->|Hne]; [done|].
  destruct (position s l); simpl; [exact IH|]. set_solver.
Qed.

Lemma swap_remove_not_elem {A} (l : list A) i x :
  NoDup l → l !! i = Some x → x ∉ swap_remove i l.
Proof.
  intros Hnd Hi Hin. unfold swap_remove in Hin. destruct (list.last l) as [y|] eqn:Ey.
  2:{ apply last_None in Ey as ->. done. }
  apply elem_of_take in Hin as (j & Hj & Hlt). apply list_lookup_insert_Some in Hj.
  destruct Hj as [(<- & <- & _)|[Hne Hj]].
  - rewrite last_lookup in Ey. pose proof (NoDup_lookup _ _ _ _ Hnd Hi Ey). lia.
  - pose proof (NoDup_lookup _ _ _ _ Hnd Hi Hj). lia.
Qed.

Lemma swap_remove_length {A} (l : list A) i : length (swap_remove i l) = (length l - 1)%nat.
Proof.
  unfold swap_remove. destruct (list.last l) as [y|] eqn:E.
  - rewrite length_take, length_insert. lia.
  - apply last_None in E as ->. done.
Qed.

Lemma show_v4_no_char a k : is_digit k = false → k ≠ "."%char → has_char k (show_v4 a) = false.
Proof.
  intros Hd Hk. unfold show_v4. cbn [str_join]. pose proof (octet_range a) as Ho.
  rewrite !has_char_app, !show_no_char by (done || apply Ho).
  rewrite !has_char_cons, bool_decide_false by congruence. done.
Qed.

Lemma omap_parse_servers l :
  Forall (λ a, 0 ≤ a < 2 ^ 32) l →
  omap (λ s, (λ ip, show_ip (to_canonical ip)) <$> parse_ip s) (show_v4 <$> l) = show_v4 <$> l.
Proof.
  induction 1 as [|a l Ha _ IH]; [done|]. cbn [fmap list_fmap omap list_omap].
  unfold parse_ip at 1. rewrite parse_show_v4 by done. cbn. by f_equal.
Qed.

Section facts.
Context `{HexLaws, DigestLaws, UrlHostLaws}.
Implicit Types (c : RPCClient) (log : list Url).
Variable chrono_ok : Z → bool.
Variable ev : nat → event.

(** An answer body that carries the signature of [data] under [k]. *)
Definition signed (k body : string) (data : list string) : Prop :=
  ∃ l t h r time, lines body = l :: data ∧ split_on "-"%char l = "OK" :: t :: h :: r ∧
    time = default 0 (parse_i32 t) ∧ h = string_to_hash (hash_body time k data).

Lemma parse_response_signed c body data :
  parse_response c body = mkResp "OK" data → signed (key c) body data.
Proof.
  unfold parse_response. destruct (lines body) as [|l ls] eqn:El; [done|].
  destruct (starts_with l "OK") eqn:Es.
  - destruct (split_on_ne "-"%char l) as (p & ps & Ep). rewrite Ep.
    destruct (negb _ && _) eqn:Eh; [|done]. intros [= -> ->].
    apply andb_true_iff in Eh as [Hne Hh]. apply negb_true_iff, bool_decide_eq_false in Hne.
    apply bool_decide_eq_true in Hh.
    destruct ps as [|t [|h r]]; [done|done|]. simpl in *. by exists l, t, h, r, (default 0 (parse_i32 t)).
  - intros [= -> ->]. by vm_compute in Es.
Qed.

(** The servers are hosts, so that changing to one cannot panic. *)
Definition hosts_ok c : Prop := Forall (λ s, is_Some (url_host s)) (rpc_servers c).

(** What no request changes. *)
Definition same_identity c c' : Prop :=
  key c' = key c ∧ id c' = id c ∧ rpc_servers c' = rpc_servers c ∧ settings c' = settings c ∧
  running c' = running c.

Lemma same_identity_trans c1 c2 c3 : same_identity c1 c2 → same_identity c2 c3 → same_identity c1 c3.
Proof. unfold same_identity. intros (?&?&?&?&?) (?&?&?&?&?). split_and!; congruence. Qed.

Lemma change_server_total pick c log :
  hosts_ok c → ∃ c', change_server pick c log = Some ((), c', log) ∧ same_identity c c'.
Proof.
  intros Hh. unfold change_server, mbind, rpc_bind, get_client.
  destruct (length (rpc_servers c) <=? 1)%nat; [by exists c|].
  set (servers := match position _ _ with Some pos => _ | None => _ end).
  assert (is_Some (url_host (default DEFAULT_SERVER (servers !! (pick mod length servers)%nat)))) as [h ->].
  { destruct (servers !! _) as [s|] eqn:E; simpl; [|rewrite url_host_default; eauto].
    apply list_elem_of_lookup_2 in E. unfold hosts_ok in Hh. rewrite Forall_forall in Hh. apply Hh, list_elem_of_In.
    unfold servers in E. destruct (position _ _); [by eapply swap_remove_elem|done]. }
  eexists. split; [reflexivity|]. done.
Qed.

Lemma check_stat_total c log :
  ∃ r c', check_stat chrono_ok ev c log =
    Some (r, c', log ++ [build_url chrono_ok (ev_now (ev (length log))) "server_stat" "" None c]) ∧
    same_identity c c' ∧ api_base c' = api_base c.
Proof.
  unfold check_stat, mbind, rpc_bind, request, get_client. cbv zeta.
  destruct (ev_answer (ev (length log))) as [body|e]; [|by do 2 eexists].
  destruct (is_ok (parse_response c body)); [|by do 2 eexists].
  destruct (server_offset _ _ _) as [off|]; cbn; repeat case_match; by do 2 eexists.
Qed.

(** The loop of [send_action]. *)
Lemma send_loop_spec n act add err c log :
  hosts_ok c →
  ∃ r c' log' sent, send_loop chrono_ok ev n act add err c log = Some (r, c', log') ∧
    same_identity c c' ∧ log' = log ++ sent ∧ (length sent ≤ 2 * n)%nat ∧
    (∀ resp, r = inl resp → is_key_expired resp = false ∧ is_hash_fail resp = false ∧
       ∃ k body c0, (length log ≤ k < length log')%nat ∧ ev_answer (ev k) = inl body ∧
         same_identity c c0 ∧ resp = parse_response c0 body ∧
         log' !! k = Some (build_url chrono_ok (ev_now (ev k)) act add None c0)).
Proof.
  revert err c log. induction n as [|n IH]; intros err c log Hh.
  { exists (inr err), c, log, []. rewrite app_nil_r. split_and!; try done. }
  cbn [send_loop]. unfold request at 1, mbind, rpc_bind. cbv zeta.
  set (e := ev (length log)). set (u := build_url chrono_ok (ev_now e) act add None c).
  (* a further round after [c1], [log1] *)
  assert (∀ err c1 log1, same_identity c c1 → (∃ s, log1 = log ++ s ∧ (1 ≤ length s ≤ 2)%nat) →
    ∃ r c' log' sent, send_loop chrono_ok ev n act add err c1 log1 = Some (r, c', log') ∧
    same_identity c c' ∧ log' = log ++ sent ∧ (length sent ≤ 2 * S n)%nat ∧
    (∀ resp, r = inl resp → is_key_expired resp = false ∧ is_hash_fail resp = false ∧
       ∃ k body c0, (length log ≤ k < length log')%nat ∧ ev_answer (ev k) = inl body ∧
         same_identity c c0 ∧ resp = parse_response c0 body ∧
         log' !! k = Some (build_url chrono_ok (ev_now (ev k)) act add None c0))) as Hnext.
  { intros err' c1 log1 Hs (s & -> & Hl).
    destruct (IH err' c1 (log ++ s)) as (r & c' & log' & sent & E & Hs' & -> & Hlen & Hr).
    { unfold hosts_ok. destruct Hs as (_ & _ & -> & _). exact Hh. }
    exists r, c', ((log ++ s) ++ sent), (s ++ sent). split; [exact E|].
    split_and!; [by eapply same_identity_trans|by rewrite (assoc_L (++))|rewrite length_app; lia|].
    intros resp ->. destruct (Hr resp eq_refl) as (? & ? & k & body & c0 & Hk & ? & ? & ? & ?).
    split_and!; [done..|]. exists k, body, c0. rewrite length_app in Hk.
    split_and!; try done; [lia|lia|by eapply same_identity_trans]. }
  destruct (ev_answer e) as [body|err'] eqn:Ea.
  - cbn [get_client]. destruct (is_key_expired (parse_response c body)) eqn:Ek.
    { destruct (check_stat_total c (log ++ [u])) as (r & c' & -> & Hs & _).
      apply Hnext; [done|]. eexists. rewrite <- (assoc_L (++)). split; [done|simpl; lia]. }
    destruct (is_hash_fail (parse_response c body)) eqn:Ef.
    { destruct (change_server_total (ev_pick e) c (log ++ [u]) Hh) as (c' & -> & Hs).
      apply Hnext; [done|]. eexists. split; [done|simpl; lia]. }
    eexists _, c, (log ++ [u]), [u]. split; [reflexivity|]. split_and!; try done; [simpl; lia|].
    intros resp [= <-]. split_and!; try done. exists (length log), body, c.
    rewrite length_app. split_and!; try done; [simpl; lia|]. by rewrite lookup_app_r, Nat.sub_diag.
  - destruct (should_change err').
    + destruct (change_server_total (ev_pick e) c (log ++ [u]) Hh) as (c' & -> & Hs).
      apply Hnext; [done|]. eexists. split; [done|simpl; lia].
    + apply Hnext; [done|]. eexists. split; [done|simpl; lia].
Qed.

End facts.

(** ** Theorems *)

(** What the server sends for [data] at [time]. *)
Definition sign_response `{HexCodec, Digest} (time : Z) (k : string) (data : list string) : string :=
  str_join nl_str
    (("OK-" +:+ show time +:+ "-" +:+ string_to_hash (hash_body time k data)) :: data).

Section theorems.
Context `{HexLaws, DigestLaws, UrlHostLaws}.
Variable chrono_ok : Z → bool.
Variable ev : nat → event.

Lemma signed_lines time k data :
  Forall (λ x, has_char nl x = false ∧ has_char cr x = false) data → list.last data ≠ Some "" →
  0 ≤ time →
  let l := "OK-" +:+ show time +:+ "-" +:+ string_to_hash (hash_body time k data) in
  lines (sign_response time k data) = l :: data ∧ starts_with l "OK" = true ∧
  split_on "-"%char l = ["OK"; show time; string_to_hash (hash_body time k data)].
Proof.
  intros Hd Hlast Ht l. set (h := string_to_hash _) in *.
  assert (∀ a, is_digit a = false → is_lower_hex a = false → a ≠ "O"%char → a ≠ "K"%char → a ≠ "-"%char →
    has_char a l = false) as Hno.
  { intros a Ha1 Ha2 ? ? ?. unfold l. rewrite !has_char_app, (show_no_char a) by done.
    unfold h. rewrite string_to_hash_no_char by done. by rewrite !has_char_cons, !bool_decide_false by congruence. }
  split_and!; [|done|].
  - apply lines_join.
    + constructor; [|done]. split; by apply Hno.
    + destruct data; [|done]. unfold l. by intros [= ?].
  - change l with (str_join "-" ["OK"; show time; h]). apply (split_on_join "-"%char); [done|].
    repeat constructor; [by apply show_no_char|by apply string_to_hash_no_char].
Qed.

(** C22: Every answer the key holder signs is accepted and read back exactly: any
    lines without line ends, the last one not empty, at any time an [i32] holds. *)
Theorem parse_response_roundtrip c time data :
  Forall (λ x, has_char nl x = false ∧ has_char cr x = false) data → list.last data ≠ Some "" →
  0 ≤ time ≤ i32_max →
  parse_response c (sign_response time (key c) data) = mkResp "OK" data.
Proof.
  intros Hd Hlast Ht. destruct (signed_lines time (key c) data Hd Hlast) as (El & Es & Ep); [lia|].
  unfold parse_response. rewrite El, Es, Ep. cbn [lookup list_lookup from_option Datatypes.id mbind option_bind].
  assert (parse_i32 (show time) = Some time) as -> by (apply parse_int_show; word).
  cbn [from_option Datatypes.id]. rewrite bool_decide_false, bool_decide_true; [done..|].
  intros E. pose proof (string_to_hash_length (hash_body time (key c) data)) as Hl. by rewrite E in Hl.
Qed.

(** The signed time is read as [i32]: from 2038 on it is taken for zero, and
    every correctly signed answer is rejected (unless the digest collides). *)
Theorem parse_response_after_2038 c time data :
  Forall (λ x, has_char nl x = false ∧ has_char cr x = false) data → list.last data ≠ Some "" →
  i32_max < time →
  string_to_hash (hash_body 0 (key c) data) ≠ string_to_hash (hash_body time (key c) data) →
  is_hash_fail (parse_response c (sign_response time (key c) data)) = true.
Proof.
  intros Hd Hlast Ht Hc. destruct (signed_lines time (key c) data Hd Hlast) as (El & Es & Ep); [word|].
  unfold parse_response. rewrite El, Es, Ep. cbn [lookup list_lookup from_option Datatypes.id mbind option_bind].
  assert (parse_i32 (show time) = None) as ->.
  { destruct (parse_i32 (show time)) as [z|] eqn:E; [|done]. apply in_range_inv in E as [E Hz].
    assert (parse_int i32_min time (show time) = Some time) as E' by (apply parse_int_show; word).
    apply in_range_inv in E' as [E' _]. rewrite E in E'. simplify_eq. word. }
  cbn [from_option Datatypes.id].
  by rewrite (bool_decide_false (string_to_hash (hash_body 0 (key c) data) = _) Hc), andb_false_r.
Qed.

(** C16: [send_action].  As long as the listed servers are hosts it returns
    after at most six requests, without a panic; it never returns an answer
    that reports an expired key or a wrong hash; and an answer it returns as OK
    was received for this action and carries the digest of its data under the
    client's key. *)
Theorem send_action_authentic act add c log :
  hosts_ok c →
  ∃ r c' sent, send_action chrono_ok ev act add c log = Some (r, c', log ++ sent) ∧
    (length sent ≤ 6)%nat ∧
    ∀ resp, r = inl resp →
      is_key_expired resp = false ∧ is_hash_fail resp = false ∧
      (is_ok resp = true →
       ∃ k body url, ev_answer (ev k) = inl body ∧ signed (key c) body (resp_data resp) ∧
         (length log ≤ k)%nat ∧ (log ++ sent) !! k = Some url ∧ ("act", act) ∈ u_query url).
Proof.
  intros Hh. destruct (send_loop_spec chrono_ok ev 3 act (default "" add) NotConnected c log Hh)
    as (r & c' & log' & sent & E & _ & -> & Hl & Hr).
  exists r, c', sent. split_and!; [exact E|lia|]. intros resp ->.
  destruct (Hr resp eq_refl) as (H1' & H2' & k & body & c0 & Hk & Ha & Hs & -> & Hlog).
  split_and!; [done..|]. intros Hok. apply bool_decide_eq_true in Hok. destruct Hs as (Ekey & _).
  exists k, body, (build_url chrono_ok (ev_now (ev k)) act (default "" add) None c0).
  split_and!; [done| |lia|done|unfold build_url; set_solver].
  rewrite <- Ekey. apply parse_response_signed. destruct (parse_response c0 body). simpl in *. by subst.
Qed.

(** Changing the server after a failure: with two or more distinct listed
    servers the next one is a listed one and not the one that failed, whatever
    the random draw; nothing else changes. *)
Theorem change_server_moves pick c log :
  NoDup (rpc_servers c) → (1 < length (rpc_servers c))%nat →
  (∀ s, s ∈ rpc_servers c → url_host s = Some s) →
  ∃ c', change_server pick c log = Some ((), c', log) ∧ same_identity c c' ∧
    u_host (api_base c') ∈ rpc_servers c ∧ u_host (api_base c') ≠ u_host (api_base c).
Proof.
  intros Hnd Hlen Hu. unfold change_server, mbind, rpc_bind, get_client.
  rewrite (proj2 (Nat.leb_gt _ _)) by lia.
  set (old := u_host (api_base c)).
  set (servers := match position old (rpc_servers c) with Some pos => _ | None => _ end).
  assert (0 < length servers)%nat as Hl.
  { unfold servers. destruct (position old (rpc_servers c)); [rewrite swap_remove_length|]; lia. }
  destruct (lookup_lt_is_Some_2 servers (pick mod length servers)) as [s Hs].
  { apply Nat.mod_upper_bound. lia. }
  rewrite Hs. cbn [from_option Datatypes.id]. apply list_elem_of_lookup_2 in Hs.
  assert (s ∈ rpc_servers c ∧ s ≠ old) as [Hin Hne].
  { unfold servers in Hs. pose proof (position_spec old (rpc_servers c)) as Hp.
    destruct (position old (rpc_servers c)) as [i|]; split.
    - by eapply swap_remove_elem.
    - intros ->. by eapply swap_remove_not_elem.
    - done.
    - by intros ->. }
  rewrite (Hu s Hin). eexists. by split.
Qed.

(** A listed server that is no host of a URL, such as a bare IPv6 address,
    makes the client panic when it is drawn. *)
Theorem change_server_panics pick c log s :
  (1 < length (rpc_servers c))%nat → position (u_host (api_base c)) (rpc_servers c) = None →
  rpc_servers c !! (pick mod length (rpc_servers c))%nat = Some s → url_host s = None →
  change_server pick c log = None.
Proof.
  intros Hlen Hp Hs Hu. unfold change_server, mbind, rpc_bind, get_client.
  rewrite (proj2 (Nat.leb_gt _ _)) by lia. by rewrite Hp, Hs; cbn [from_option Datatypes.id]; rewrite Hu.
Qed.

(** Accuracy of the clock.  If the server's clock is [delta] ahead of the
    local one, its answer states its time in whole seconds at some moment [u]
    of the request, and the request took [ev_elapsed], then the time stamps the
    client uses afterwards are off by less than the request time plus three
    seconds. *)
Theorem server_offset_accurate e data delta u off now c :
  0 ≤ ev_elapsed e ≤ i64_max * 1000000 →
  ev_after e - ev_elapsed e ≤ u ≤ ev_after e →
  data !! "server_time" ≫= parse_i64 = Some ((u + delta) / sec) →
  server_offset chrono_ok e data = Some off → clock_offset c = off →
  Z.abs off ≤ i64_max / 1000 → chrono_ok ((now + off * sec) / sec) = true →
  Z.abs (get_timestemp chrono_ok now c - (now + delta) / sec) * sec < ev_elapsed e + 3 * sec.
Proof.
  intros He Hu Ht Ho Hc Hb Hok. unfold server_offset in Ho.
  rewrite (proj2 (Z.leb_le _ _)), Ht in Ho by lia. cbn [mbind option_bind] in Ho.
  destruct (chrono_ok _); [|done]. destruct (chrono_ok (_ / sec)); [|done]. injection Ho as Ho.
  unfold get_timestemp. rewrite Hc, (proj2 (Z.leb_le _ _)), Hok by lia. clear Hok Ht Hb Hc.
  unfold sec in *. rewrite Z.div_add by lia.
  Z.to_euclidean_division_equations. lia.
Qed.

(** Who may send server commands.  After the server has listed IPv4
    addresses as its own, a connection is taken for one of its servers exactly
    if its address, seen directly or mapped into IPv6, is one of them (or the
    check is disabled). *)
Theorem rpc_server_check pick m l c log :
  m !! "rpc_server_ip" = Some (str_join ";" (show_v4 <$> l)) → l ≠ [] →
  Forall (λ a, 0 ≤ a < 2 ^ 32) l →
  ∃ c', update_settings pick m c log = Some ((), c', log) ∧
    ∀ peer a, to_canonical (addr_ip peer) = V4 a → 0 ≤ a < 2 ^ 32 →
      is_vaild_rpc_server (show_ip (addr_ip (accept_addr peer))) c' = true ↔
      s_disable_ip_check (settings c) = true ∨ a ∈ l.
Proof.
  intros Hm Hne Hl. unfold update_settings, mbind, rpc_bind. rewrite Hm. cbn [get_client put_client].
  rewrite (split_on_join ";"%char); cycle 1.
  { by destruct l. }
  { apply Forall_fmap, Forall_true. intros a. by apply show_v4_no_char. }
  rewrite omap_parse_servers by done.
  match goal with |- context [change_server pick ?c1 log] => set (c1' := c1) end.
  destruct (change_server_total pick c1' log) as (c' & -> & _ & _ & Es & Eset & _).
  { unfold hosts_ok, c1'. cbn. apply Forall_fmap. eapply Forall_impl; [|exact Hl].
    intros a Ha. simpl. rewrite url_host_v4 by done. eauto. }
  eexists. split; [reflexivity|]. intros peer a Hp Ha.
  unfold is_vaild_rpc_server, Settings_update, accept_addr. cbn [settings rpc_servers s_disable_ip_check addr_ip].
  rewrite Hp, Es, Eset, orb_true_iff. cbn. rewrite existsb_exists. split.
  - intros [?|(s & Hs & E)]; [by left|right]. apply bool_decide_eq_true in E as ->.
    apply list_elem_of_In, list_elem_of_fmap in Hs as (b & E & Hb).
    rewrite Forall_forall in Hl. specialize (Hl b (proj1 (list_elem_of_In _ _) Hb)).
    by rewrite (show_v4_inj a b).
  - intros [?|Hin]; [by left|right]. exists (show_v4 a). split; [|by apply bool_decide_eq_true].
    apply list_elem_of_In, list_elem_of_fmap. eauto.
Qed.

(** The number of connections allowed: what the user set, or between 20 and
    500 by the bandwidth the server assigns; an update keeps the user's value
    and never yields a value outside [u64]. *)
Theorem max_connection_bounds s m :
  in_u64 (s_throttle_bytes s) → in_u64 (s_size_limit s) →
  let s' := Settings_update m s in
  in_u64 (s_throttle_bytes s') ∧ in_u64 (s_size_limit s') ∧
  (s_max_connection s ≠ 0 → max_connection s' = s_max_connection s) ∧
  (s_max_connection s = 0 → 20 ≤ max_connection s' ≤ 500).
Proof.
  intros Ht Hz s'.
  assert (∀ k d, in_u64 d → in_u64 (default d (m !! k ≫= parse_u64))) as Hu.
  { intros k d Hd. destruct (m !! k) as [v|]; [|done]. simpl.
    destruct (parse_u64 v) eqn:E; [|done]. by apply parse_uint_range in E. }
  assert (in_u64 (s_throttle_bytes s')) as Hs' by by apply Hu.
  split_and!; [done|by apply Hu|..]; unfold max_connection; cbn [s' Settings_update s_max_connection].
  - intros Hn. by rewrite (proj2 (Z.eqb_neq _ _)).
  - intros ->. cbn [Z.eqb negb]. pose proof (Z.div_pos (s_throttle_bytes s') 10000).
    unfold s' in *. cbn [s_throttle_bytes Settings_update] in *. word.
Qed.

Lemma change_server_identity pick c log r c' log' :
  change_server pick c log = Some (r, c', log') → same_identity c c'.
Proof.
  unfold change_server, mbind, rpc_bind, get_client. intros E.
  destruct (_ <=? 1)%nat; [by injection E as _ <- _|].
  destruct (url_host _); [|done]. by injection E as _ <- _.
Qed.

Lemma update_settings_settings pick m c log r c' log' :
  update_settings pick m c log = Some (r, c', log') → settings c' = Settings_update m (settings c).
Proof.
  unfold update_settings, mbind, rpc_bind. cbn [get_client put_client]. intros E.
  destruct (m !! "rpc_server_ip") as [ips|].
  - destruct (change_server pick _ log) as [[[[] c1] log1]|] eqn:Ec; [|done].
    apply change_server_identity in Ec as (_ & _ & _ & Es & _). cbn in Es, E. injection E as _ <- _. cbn. by rewrite Es.
  - by injection E as _ <- _.
Qed.

(** C23: The client starts only with settings the key holder signed: a
    successful login read its port, host, ranges and limits from an answer that
    carries the digest of its lines under the client's key (the listed servers being
    hosts). *)
Theorem login_authentic pick c log init c' log' :
  hosts_ok c → login chrono_ok ev pick c log = Some (inl init, c', log') →
  ∃ k body data, ev_answer (ev k) = inl body ∧ signed (key c) body data ∧
    init_settings (to_map (mkResp "OK" data)) = inl init ∧
    settings c' = Settings_update (to_map (mkResp "OK" data)) (settings c).
Proof.
  intros Hh E. unfold login, mbind, rpc_bind in E.
  destruct (check_stat_total chrono_ok ev c log) as (st & c1 & E1 & Hs1 & _). rewrite E1 in E.
  destruct st as [versions|]; [|by injection E].
  destruct (match versions with Some (min, _) => API_VERSION <? min | None => false end); [by injection E|].
  set (log1 := log ++ _) in E. unfold send_action in E.
  assert (hosts_ok c1) as Hh1 by (unfold hosts_ok; by destruct Hs1 as (_ & _ & -> & _)).
  destruct (send_loop_spec chrono_ok ev 3 "client_login" (default "" None) NotConnected c1 log1 Hh1)
    as (r & c2 & log2 & sent & E2 & Hs2 & _ & _ & Hr). rewrite E2 in E.
  destruct r as [res|]; [|by injection E].
  destruct (Hr res eq_refl) as (_ & _ & k & body & c0 & _ & Ha & Hs0 & -> & _).
  destruct (is_ok (parse_response c0 body)) eqn:Eok; [|by injection E].
  apply bool_decide_eq_true in Eok.
  destruct (parse_response c0 body) as [st data] eqn:Ep. cbn in Eok. subst st.
  destruct (init_settings _) as [init'|] eqn:Ei; [|by injection E].
  destruct (update_settings pick _ c2 log2) as [[[[] c3] log3]|] eqn:Eu; [|done].
  apply update_settings_settings in Eu. injection E as <- <- <-.
  destruct Hs1 as (K1 & _ & _ & S1 & _). destruct Hs2 as (_ & _ & _ & S2 & _). destruct Hs0 as (K0 & _).
  exists k, body, data. split_and!; [done| |exact Ei|by rewrite Eu, S2, S1].
  rewrite <- K1, <- K0. by apply parse_response_signed.
Qed.

End theorems.

(** ** Witnesses *)

(** A host parser that refuses bare IPv6 addresses, as the [url] crate does. *)
Definition host_ref : UrlHost := {| url_host s := if has_char ":"%char s then None else Some s |}.

#[export] Instance host_ref_laws : UrlHostLaws host_ref.
Proof. split; [|done]. intros a _. simpl. by rewrite show_v4_no_char. Qed.

Definition test_client (servers : list string) : RPCClient :=
  mkClient (mkUrl DEFAULT_SERVER "rpc" []) 0 7 "key" servers false (mkSettings 0 0 false 0 false).

(** A network that first drops the connection and then answers [body]. *)
Definition flaky (body : string) (n : nat) : event :=
  mkEvent 0 0 0 (if decide (n = 0%nat) then inr NetTimeout else inl body) n.

Definition login_data : list string :=
  ["port=443"; "host=example.org"; "static_ranges=0a1b;ffff"; "throttle_bytes=1000000"].
Definition login_body : string := @sign_response hex_ref toy_digest 1700000000 "key" login_data.

Lemma parse_response_roundtrip_witness :
  @parse_response hex_ref toy_digest (test_client []) login_body = mkResp "OK" login_data.
Proof.
  apply (parse_response_roundtrip (H:=hex_ref) (D:=toy_digest) (test_client []) 1700000000 login_data).
  - repeat constructor.
  - discriminate.
  - word.
Defined.

Lemma parse_response_after_2038_witness :
  is_hash_fail (@parse_response hex_ref toy_digest (test_client [])
    (@sign_response hex_ref toy_digest 4000000000 "key" ["ok"])) = true.
Proof.
  apply (parse_response_after_2038 (H:=hex_ref) (D:=toy_digest) (test_client []) 4000000000 ["ok"]).
  - repeat constructor.
  - discriminate.
  - word.
  - vm_compute. discriminate.
Defined.

Lemma send_action_authentic_witness :
  ∃ r c' sent, @send_action hex_ref toy_digest host_ref (λ _, true) (flaky login_body) "client_login" None
    (test_client ["1.2.3.4"; "5.6.7.8"]) [] = Some (r, c', sent) ∧ r = inl (mkResp "OK" login_data) ∧
    length sent = 2%nat.
Proof.
  destruct (send_action_authentic (H:=hex_ref) (D:=toy_digest) (U:=host_ref) (λ _, true) (flaky login_body) "client_login" None
    (test_client ["1.2.3.4"; "5.6.7.8"]) []) as (r & c' & sent & E & _ & _).
  { repeat constructor; vm_compute; eauto. }
  exists r, c', sent. split; [exact E|].
  vm_compute in E. injection E as <- _ <-. split; vm_compute; reflexivity.
Defined.

Lemma change_server_moves_witness :
  ∃ c', @change_server host_ref 5 (test_client ["1.2.3.4"; "5.6.7.8"]) [] = Some ((), c', []) ∧
    u_host (api_base c') ∈ ["1.2.3.4"; "5.6.7.8"].
Proof.
  destruct (change_server_moves (U:=host_ref) 5 (test_client ["1.2.3.4"; "5.6.7.8"]) []) as (c' & E & _ & Hin & _).
  - by apply (bool_decide_unpack _); vm_compute.
  - vm_compute. lia.
  - intros s Hs. repeat (apply elem_of_cons in Hs as [->|Hs]; [vm_compute; reflexivity|]). by apply elem_of_nil in Hs.
  - eauto.
Defined.

Lemma change_server_panics_witness :
  @change_server host_ref 1 (test_client ["1.2.3.4"; "2001:db8::1"]) [] = None.
Proof. apply (change_server_panics (U:=host_ref) 1 _ [] "2001:db8::1"); vm_compute; reflexivity || lia. Defined.

Lemma server_offset_accurate_witness :
  let e := mkEvent 0 (105 * sec) (2 * sec) (inr NetOther) 0 in
  server_offset (λ _, true) e {[ "server_time" := "1104" ]} = Some 999 ∧
  Z.abs (get_timestemp (λ _, true) (200 * sec) (mkClient (mkUrl "" "" []) 999 0 "" [] false
           (mkSettings 0 0 false 0 false)) - (200 * sec + 1000 * sec) / sec) * sec < 2 * sec + 3 * sec.
Proof.
  split; [vm_compute; reflexivity|].
  apply (server_offset_accurate (λ _, true) (mkEvent 0 (105 * sec) (2 * sec) (inr NetOther) 0)
    {[ "server_time" := "1104" ]} (1000 * sec) (104 * sec) 999); vm_compute; intuition discriminate.
Defined.

Lemma rpc_server_check_witness :
  ∃ c', @update_settings host_ref 0 {[ "rpc_server_ip" := "1.2.3.4;5.6.7.8" ]} (test_client []) [] = Some ((), c', []) ∧
    is_vaild_rpc_server (show_ip (addr_ip (accept_addr (mkAddr (V6 (65535 * 2 ^ 32 + 16909060)) 1)))) c' = true.
Proof.
  destruct (rpc_server_check (U:=host_ref) 0 {[ "rpc_server_ip" := "1.2.3.4;5.6.7.8" ]} [16909060; 84281096]
    (test_client []) []) as (c' & E & Hc).
  - vm_compute. reflexivity.
  - discriminate.
  - repeat constructor; vm_compute; intuition discriminate.
  - exists c'. split; [exact E|]. apply (Hc (mkAddr (V6 (65535 * 2 ^ 32 + 16909060)) 1) 16909060).
    + vm_compute. reflexivity.
    + vm_compute. intuition discriminate.
    + right. left.
Defined.

Lemma max_connection_bounds_witness :
  20 ≤ max_connection (Settings_update {[ "throttle_bytes" := "1000000" ]} (mkSettings 0 0 false 0 false)) ≤ 500.
Proof.
  apply (max_connection_bounds (mkSettings 0 0 false 0 false) {[ "throttle_bytes" := "1000000" ]});
    [vm_compute; intuition discriminate..|reflexivity].
Defined.

Lemma login_authentic_witness :
  ∃ c' log' init, @login hex_ref toy_digest host_ref (λ _, true)
    (λ _, mkEvent 0 0 0 (inl login_body) 0) 0 (test_client []) [] = Some (inl init, c', log') ∧
    client_port init = 443 ∧ max_connection (settings c') = 120.
Proof.
  do 3 eexists. split; [vm_compute; reflexivity|].
  destruct (login_authentic (H:=hex_ref) (D:=toy_digest) (U:=host_ref) (λ _, true)
    (λ _, mkEvent 0 0 0 (inl login_body) 0) 0 (test_client []) []
    (mkInit 443 "example.org" false ["0a1b"; "ffff"])
    (mkClient (mkUrl DEFAULT_SERVER "rpc" []) 0 7 "key" [] false (mkSettings 0 1000000 false 0 false))
    (match @login hex_ref toy_digest host_ref (λ _, true)
    (λ _, mkEvent 0 0 0 (inl login_body) 0) 0 (test_client []) [] with Some (_, _, l) => l | None => [] end))
    as (k & body & data & _ & _ & _ & _); [constructor|vm_compute; reflexivity|].
  split; vm_compute; reflexivity.
Defined.
