(* ===== verification/Cert.v ===== *)
(** * Cert: the server's certificate

    [src/src/server/cert.rs]: reading the key store the RPC server sends, and the
    store that hands the certificate to the TLS library and can be updated while
    the server runs; [get_cert] of [src/src/rpc.rs] and the retry of the command
    task of [src/src/main.rs].  The PKCS 12 parser and the TLS library are
    third-party: their operations are the fields of [CertLib]. *)

From S2P Require Import Prelude Text Extern Rpc.
From stdpp Require Import base list strings numbers.

(** ** The libraries *)

Class CertLib := {
  PFX : Type;
  pfx_parse : bytes → option PFX;                             (* [PFX::parse] *)
  key_bags : PFX → string → option (list bytes);
  cert_x509_bags : PFX → string → option (list bytes);
  CertifiedKey : Type;
  from_der : list bytes → bytes → option CertifiedKey;        (* [CertifiedKey::from_der] *)
  ServerName : Type;
  parse_name : string → option ServerName;
  verify_server_name : CertifiedKey → ServerName → option bool  (* [None]: the end entity certificate is unreadable *)
}.

Section cert.
Context `{CertLib}.

(** [ParsedCert]. *)
Record ParsedCert := mkParsed { certs : list bytes; pkey : bytes }.

(** [Vec::pop]. *)
Definition pop {A} (l : list A) : option A := list.last l.

(** [ParsedCert::from_p12]. *)
Definition from_p12 (p12 : bytes) (password : string) : option ParsedCert :=
  pfx ← pfx_parse p12;
  bags ← key_bags pfx password;
  key ← pop bags;
  certs ← cert_x509_bags pfx password;
  Some (mkParsed certs key).

(** [CertStore]. *)
Record CertStore := mkStore { cert : CertifiedKey; strict : bool }.

(** [CertStore::new] unwraps; [CertStore::update] keeps the old one on an error. *)
Definition CertStore_new (c : ParsedCert) (strict : bool) : outcome unit CertStore :=
  match from_der (certs c) (pkey c) with Some k => Ret (mkStore k strict) | None => Panic end.
Definition update (c : ParsedCert) (s : CertStore) : bool * CertStore :=
  match from_der (certs c) (pkey c) with
  | Some k => (true, mkStore k (strict s))
  | None => (false, s)
  end.

(** [ResolvesServerCert::resolve] for the server name of a client hello. *)
Definition resolve (server_name : option string) (s : CertStore) : option CertifiedKey :=
  if strict s then
    name ← server_name ≫= parse_name;
    ok ← verify_server_name (cert s) name;
    if ok : bool then Some (cert s) else None
  else Some (cert s).

(** [RPCClient::get_cert]: the answer's bytes with the client's key as password. *)
Definition get_cert `{HexCodec, Digest} (chrono_ok : Z → bool) (ev : nat → event) : rpc (option ParsedCert) :=
  e ← request chrono_ok ev "get_cert" "" None;
  c ← get_client;
  mret match ev_answer e with
       | inl data => from_p12 (as_bytes data) (key c)
       | inr _ => None
       end.

(** The [ReloadCert] command on the certificate that was fetched, if any: whether
    a retry is scheduled, and the store. *)
Definition reload_cert (fetched : option ParsedCert) (s : CertStore) : bool * CertStore :=
  match fetched with
  | Some c => let (ok, s) := update c s in (negb ok, s)
  | None => (true, s)
  end.

(** Reloads in the order in which their fetches answer. *)
Definition reloads (l : list (option ParsedCert)) (s : CertStore) : CertStore :=
  foldl (λ s f, (reload_cert f s).2) s l.

(** ** Theorems *)

(** The certificate in use is always a valid one: after any sequence of reloads
    it is the last one that could be fetched and loaded, or the first one; the
    strictness never changes; and a reload schedules a retry exactly if it
    changed nothing because it failed. *)
Theorem reload_keeps_valid l s :
  let valid := omap (λ f, c ← f; from_der (certs c) (pkey c)) l in
  cert (reloads l s) = default (cert s) (list.last valid) ∧ strict (reloads l s) = strict s ∧
  ∀ f s, (reload_cert f s).1 = true ↔ (f ≫= λ c, from_der (certs c) (pkey c)) = None.
Proof.
  assert (∀ l s, cert (reloads l s) = default (cert s) (list.last (omap (λ f, c ← f; from_der (certs c) (pkey c)) l)) ∧
    strict (reloads l s) = strict s) as Hgen.
  { clear. induction l as [|f l IH]; intros s; [done|].
    change (reloads (f :: l) s) with (reloads l (reload_cert f s).2). destruct (IH (reload_cert f s).2) as [-> ->].
    cbn [omap list_omap]. unfold reload_cert, update. destruct f as [c|]; cbn [mbind option_bind]; [|done].
    destruct (from_der (certs c) (pkey c)) as [k|]; cbn [fst snd cert strict]; [|done].
    rewrite list.last_cons. by destruct (list.last _). }
  destruct (Hgen l s) as [-> ->]. split_and!; [done..|].
  intros f s'. unfold reload_cert, update. destruct f as [c|]; cbn; [|done]. by destruct (from_der _ _).
Qed.

(** With strict names a client gets the certificate only for a name it gave, that
    is a name, and that the certificate is valid for; otherwise always. *)
Theorem resolve_strict name s :
  resolve name s =
    if strict s
    then match name ≫= parse_name with
         | Some n => if decide (verify_server_name (cert s) n = Some true) then Some (cert s) else None
         | None => None
         end
    else Some (cert s).
Proof.
  unfold resolve. destruct (strict s); [|done]. destruct (name ≫= parse_name) as [n|]; [|done]. cbn.
  destruct (verify_server_name (cert s) n) as [[]|]; cbn; by case_decide.
Qed.

End cert.
