(* ===== verification/RouteCache.v ===== *)
(** * RouteCache: the file handler, from the request to a cache hit

    [src/src/route/cache.rs], [hath] up to the cache miss, and [parse_additional]
    of [src/src/route/mod.rs]; also [src/src/route/speed_test.rs].  The parser of
    range headers is third-party: what it answers after [validate] is a
    parameter, and a valid range lies inside the file. *)

From S2P Require Import Prelude Text Extern FileId FloodControl FileReader Body CacheStore CacheRead Rpc.
From stdpp Require Import base gmap list strings numbers.

Local Open Scope Z_scope.

(** ** Requests and responses *)

(** The headers the handler looks at, when they are visible ASCII. *)
Record Headers := mkHeaders {
  h_if_none_match : option string;
  h_if_range : option string;
  h_range : option string
}.

(** A response body: empty, a text, a stream, a truncated stream, or random bytes. *)
Inductive RBody :=
| BEmpty
| BText (s : string)
| BStream (s : file_stream)
| BTruncate (limit : Z) (s : file_stream)
| BRandom (size : Z).                      (* the stream of [random_response] *)

Record Response := mkResponse {
  r_status : Z;
  r_content_length : option Z;
  r_content_range : option string;
  r_etag : option string;
  r_type : option string;
  r_cache_control : option string;
  r_disposition : option string;
  r_accept_ranges : option string;
  r_body : RBody
}.

(** A text with its media type, as [Html] and [str] become responses. *)
Definition text_response (status : Z) (media text : string) : Response :=
  mkResponse status None None None (Some media) None None None (BText text).
Definition html : string := "text/html; charset=utf-8".
Definition plain : string := "text/plain; charset=utf-8".

Definition forbidden : Response := text_response 403 html "An error has occurred. (403)".
Definition not_found : Response := text_response 404 plain "An error has occurred. (404)".

(** [parse_additional]: the last value of a key wins. *)
Definition parse_additional (additional : string) : gmap string string :=
  foldl (λ m kv, match key_value kv with Some (k, v) => <[k := v]> m | None => m end) ∅
    (split_on ";"%char additional).

(** ** The handler *)

(** [TTL]: fifteen minutes either way; [i64] subtraction wraps. *)
Definition in_ttl (timestemp time : Z) : bool :=
  let time_diff := wrap_i64 (timestemp - time) in (-900 <=? time_diff) && (time_diff <=? 900).

(** What a parsed range header yields for a file of this size: the ranges that
    passed [validate], as inclusive bounds. *)
Definition range_parser : Type := string → Z → option (list (Z * Z)).

Section hath.
Context `{HexCodec, Digest}.

(** The text whose digest a key stamp starts with. *)
Definition keystamp_text (time file_id key : string) : string :=
  time +:+ "-" +:+ file_id +:+ "-" +:+ key +:+ "-hotlinkthis".

(** The key stamp check. *)
Definition keystamp_ok (timestemp : Z) (key file_id keystamp : string) : bool :=
  let parts := split_on "-"%char keystamp in
  let time := default "" (parts !! 0%nat) in
  let hash := default "" (parts !! 1%nat) in
  negb (bool_decide (time = "") || bool_decide (hash = "") ||
        negb (in_ttl timestemp (default 0 (parse_i64 time))) ||
        negb (starts_with (string_to_hash (keystamp_text time file_id key)) hash)).

Definition etag_of (info : CacheFileInfo) : string :=
  let q := String (Ascii.ascii_of_nat 34) EmptyString in
  q +:+ hex_encode (take 4 (fi_hash info)) +:+ q.

(** The single valid range of the request, unless [If-Range] names another tag. *)
Definition request_range (parser : range_parser) (headers : Headers) (etag : string) (file_size : Z)
    : option (Z * Z) :=
  let range := match h_range headers ≫= (λ h, parser h file_size) with
               | Some [r] => Some r
               | _ => None
               end in
  match h_if_range headers with
  | Some s => if bool_decide (s ≠ etag) then None else range
  | None => range
  end.

Definition CACHE_HEADER : string := "public, max-age=31536000, immutable".
Definition DEFAULT_CD : string := "inline".

(** The [Content-Disposition] header; [header_ok] is the check of the [http] crate
    on the bytes of a header value. *)
Definition disposition (header_ok : string → bool) (file_name : string) : string :=
  let q := String (Ascii.ascii_of_nat 34) EmptyString in
  let cd := "inline; filename=" +:+ q +:+ file_name +:+ q in
  if header_ok cd then cd else DEFAULT_CD.

(** The response builder of the handler with what a branch adds to it. *)
Definition file_response (info : CacheFileInfo) (cd : string) (status content_length : Z)
    (content_range accept_ranges : option string) (body : RBody) : Response :=
  mkResponse status (Some content_length) content_range (Some (etag_of info)) (Some (to_mime (fi_mime info)))
    (Some CACHE_HEADER) (Some cd) accept_ranges body.

(** The response to a cache hit. *)
Definition hit_response (info : CacheFileInfo) (cd : string) (range : option (Z * Z)) (res : CacheFileResult)
    : option Response :=
  let file_size := fi_size info in
  let respond range s :=
    match range with
    | Some (a, b) =>
        let content_length := b - a + 1 in
        file_response info cd 206 content_length
          (Some ("bytes " +:+ show a +:+ "-" +:+ show b +:+ "/" +:+ show file_size)) (Some "bytes")
          (BTruncate content_length s)
    | None => file_response info cd 200 file_size None (Some "bytes") (BStream s)
    end in
  match res with
  | Full s =>
      let range := match range with Some (a, b) => if negb (a =? 0) then None else range | None => None end in
      Some (respond range s)
  | Partial s => Some (respond range s)
  | NotFound => None
  end.

(** What the handler does before it proxies: an answer, or a cache miss. *)
Inductive hath_result := Answer (r : Response) | Miss (info : CacheFileInfo) (cd file_index xres : string).

(** [hath] up to the cache miss; [get] is [CacheManager::get_file] and [S] the state
    it changes. *)
Definition hath {S : Type} (timestemp : Z) (key : string) (header_ok : string → bool) (parser : range_parser)
    (get : CacheFileInfo → option Z → S → CacheFileResult * S)
    (file_id additional file_name : string) (headers : Headers) (s : S) : hath_result * S :=
  let additional := parse_additional additional in
  let keystamp := default "" (additional !! "keystamp") in
  let file_index := default "" (additional !! "fileindex") in
  let xres := default "" (additional !! "xres") in
  if negb (keystamp_ok timestemp key file_id keystamp) then (Answer forbidden, s)
  else match from_file_id file_id with
  | None => (Answer not_found, s)
  | Some info =>
      let cd := disposition header_ok file_name in
      let etag := etag_of info in
      if match h_if_none_match headers with Some s => bool_decide (s = etag) | None => false end
      then (Answer (mkResponse 304 (Some (fi_size info)) None (Some etag) None (Some CACHE_HEADER) None None BEmpty), s)
      else
        let range := request_range parser headers etag (fi_size info) in
        let (res, s) := get info (fst <$> range) s in
        (match hit_response info cd range res with
         | Some r => Answer r
         | None => Miss info cd file_index xres
         end, s)
  end.

(** [CacheManager::get_file] with the disk as the state. *)
Definition get_from_disk (io : faults) (utime_ok : bool) (open : open_answer) (seek_ans : seek_answer)
    (answers : list task_answer) (now : Z) (info : CacheFileInfo) (offset : option Z)
    (s : disk * CacheManager) : CacheFileResult * (disk * CacheManager) :=
  let '(r, _, d, c) := get_file io utime_ok open seek_ans answers now info offset s.1 s.2 in (r, (d, c)).

(** ** The speed test *)

Definition in_drift (timestemp time : Z) : bool :=
  let d := wrap_i64 (timestemp - time) in (-300 <=? d) && (d <=? 300).

Definition BUFFER_SIZE : Z := 16384.

(** The stream of [random_response]: the sizes of its chunks; [fuel] bounds
    their number. *)
Fixpoint random_chunks (fuel : nat) (size filled : Z) : option (list Z) :=
  if filled <? size then
    match fuel with
    | O => None
    | S fuel =>
        let n := Z.min (size - filled) BUFFER_SIZE in
        (λ l, n :: l) <$> random_chunks fuel size (filled + n)
    end
  else Some [].

(** [speedtest]: the size of the random response, or [None] for 403. *)
Definition speedtest (timestemp : Z) (c : RPCClient) (size time : Z) (hash : string) : option Z :=
  let hash_string := "hentai@home-speedtest-" +:+ show size +:+ "-" +:+ show time +:+ "-" +:+
                     show (id c) +:+ "-" +:+ key c in
  if negb (in_drift timestemp time) || negb (bool_decide (string_to_hash hash_string = hash))
  then None else Some size.

(** [random_response]. *)
Definition random_response (size : Z) : Response :=
  mkResponse 200 (Some size) None None None None None None (BRandom size).

End hath.

(** ** Vocabulary *)

(** The law of the range parser: a validated range lies inside the file. *)
Definition ranges_valid (parser : range_parser) : Prop :=
  ∀ h n l a b, parser h n = Some l → (a, b) ∈ l → 0 ≤ a ≤ b ∧ b < n.

(** What a client that reads the body to its end receives, however the stream
    is cut into frames. *)
Definition delivers (b : RBody) (bs : bytes) : Prop :=
  match b with
  | BEmpty => bs = []
  | BText s => bs = as_bytes s
  | BStream s => stream_bytes s = Some bs
  | BTruncate limit s =>
      ∃ whole, stream_bytes s = Some whole ∧
        ∀ inner : list (poll io_error), stream_data inner = whole →
          concat (map poll_data (drain inner (Z.to_nat limit)).1) = bs
  | BRandom size => Z.of_nat (length bs) = size
  end.

(** Bytes [a] to [b] inclusive. *)
Definition slice (a b : Z) (l : bytes) : bytes := take (Z.to_nat (b - a + 1)) (drop (Z.to_nat a) l).

(** ** Lemmas *)

Lemma request_range_valid `{HexCodec} parser headers etag n a b :
  ranges_valid parser → request_range parser headers etag n = Some (a, b) → 0 ≤ a ≤ b ∧ b < n.
Proof.
  unfold request_range. intros Hv E.
  assert (match h_range headers ≫= (λ h, parser h n) with Some [r] => Some r | _ => None end = Some (a, b)) as E'.
  { destruct (h_if_range headers); [|done]. by destruct (bool_decide _). }
  destruct (h_range headers) as [h|]; [|done]. simpl in E'.
  destruct (parser h n) as [l|] eqn:Ep; [|done]. destruct l as [|r [|]]; simplify_eq/=.
  eapply Hv; [exact Ep|left].
Qed.

(** What a request for a cached file with these contents may be answered. *)
Definition hit_correct `{HexCodec} (parser : range_parser) (headers : Headers) (info : CacheFileInfo) (b : bytes)
    (r : Response) : Prop :=
  r_etag r = Some (etag_of info) ∧ r_cache_control r = Some CACHE_HEADER ∧
  match r_status r with
  | 304 => h_if_none_match headers = Some (etag_of info) ∧ r_body r = BEmpty
  | 206 => ∃ x y, request_range parser headers (etag_of info) (fi_size info) = Some (x, y) ∧
             r_content_range r = Some ("bytes " +:+ show x +:+ "-" +:+ show y +:+ "/" +:+ show (fi_size info)) ∧
             delivers (r_body r) (slice x y b) ∧ r_type r = Some (to_mime (fi_mime info)) ∧
             r_content_length r = Some (Z.of_nat (length (slice x y b)))
  | 200 => delivers (r_body r) b ∧ r_type r = Some (to_mime (fi_mime info)) ∧
           r_content_length r = Some (Z.of_nat (length b))
  | _ => False
  end.

Section hit.
Context `{HexLaws, DigestLaws}.

(** The streams [get_file] returns give right responses. *)
Lemma hit_response_range parser headers info cd a b (bs : bytes) res :
  0 ≤ a ≤ b → b < fi_size info → Z.of_nat (length bs) = fi_size info →
  request_range parser headers (etag_of info) (fi_size info) = Some (a, b) →
  match res with
  | Full s => stream_bytes s = Some bs
  | Partial s => stream_bytes s = Some (drop (Z.to_nat a) bs)
  | NotFound => False
  end →
  ∃ r, hit_response info cd (Some (a, b)) res = Some r ∧ hit_correct parser headers info bs r.
Proof.
  intros Hab Hb Hl Er Hs.
  assert (length (slice a b bs) = Z.to_nat (b - a + 1)) as Hlen by (unfold slice; rewrite length_take, length_drop; lia).
  destruct res as [s|s|]; [| |done]; cbn [hit_response].
  - destruct (Z.eqb_spec a 0) as [->|Hne]; cbn [negb]; (eexists; split; [done|]; split; [done|]; split; [done|]).
    + cbn [r_status file_response]. exists 0, b. split_and!; try done.
      * exists bs. split; [done|]. intros inner Hin. by rewrite drain_data, Hin.
      * cbn. rewrite Hlen. f_equal. lia.
    + cbn. split_and!; [done|done|]. f_equal. lia.
  - eexists. split; [done|]. split; [done|]. split; [done|]. cbn [r_status file_response]. exists a, b. split_and!; try done.
    + exists (drop (Z.to_nat a) bs). split; [done|]. intros inner Hin. by rewrite drain_data, Hin.
    + cbn. rewrite Hlen. f_equal. lia.
Qed.

(** A request with a valid key stamp for a cached file is a hit. *)
Lemma hath_hit timestemp header_ok parser io utime_ok seek_ans answers now file_id additional file_name
    headers d c info md k :
  ranges_valid parser →
  keystamp_ok timestemp k file_id (default "" (parse_additional additional !! "keystamp")) = true →
  from_file_id file_id = Some info →
  metadata io d (to_path info (cache_dir c)) = Some md → is_file md = true → len md = fi_size info →
  seek_ans ≠ SeekLost → Forall good_answer answers → (length (data md) ≤ length answers)%nat →
  let get := get_from_disk io utime_ok (Some (data md)) seek_ans answers now in
  ∃ r s, hath timestemp k header_ok parser get file_id additional file_name headers (d, c) = (Answer r, s) ∧
    hit_correct parser headers info (data md) r.
Proof.
  intros Hv Hk Hi Hmd Hf Hl Hsk Hg Hans get. unfold hath. rewrite Hk, Hi. cbn [negb].
  destruct (match h_if_none_match headers with Some s => bool_decide (s = etag_of info) | None => false end) eqn:En.
  { do 2 eexists. split; [done|]. split; [done|]. split; [done|]. cbn. split; [|done].
    destruct (h_if_none_match headers); [|done]. by apply bool_decide_eq_true in En as ->. }
  pose proof (λ off Ho, get_file_stream io utime_ok seek_ans answers now info off d c md Ho Hmd Hf Hl Hsk Hg Hans) as Hs.
  unfold get, get_from_disk. cbn [fst snd].
  destruct (request_range parser headers (etag_of info) (fi_size info)) as [[a b]|] eqn:Er; cbn [fmap option_fmap option_map fst].
  - pose proof (request_range_valid _ _ _ _ _ _ Hv Er) as [Hab Hb].
    specialize (Hs (Some a) ltac:(intros o [= <-]; lia)).
    destruct (get_file _ _ _ _ _ _ _ _ _ _) as [[[res t] d'] c']. destruct Hs as [_ Hs].
    destruct (hit_response_range parser headers info (disposition header_ok file_name) a b (data md) res) as (r & -> & Hr);
      try done; [by destruct res as [| |]; naive_solver|]. by eexists _, _.
  - specialize (Hs None ltac:(done)). destruct (get_file _ _ _ _ _ _ _ _ _ _) as [[[res t] d'] c']. destruct Hs as [_ Hs].
    destruct res as [s|s|]; [|by destruct Hs|done]. do 2 eexists. split; [done|]. split; [done|]. split; [done|].
    cbn. split_and!; [done|done|]. f_equal. unfold len in Hl. lia.
Qed.

End hit.

Section theorems.
Context `{HexLaws, DigestLaws}.

(** C11: A cache hit is answered right.  For a request with a valid key stamp for
    a cached file of the right size, the answer is 304 with no body when the
    client has the tag; else 206 with exactly the bytes of the single requested
    range, their number as length and the range in the header; else 200 with the
    whole file and its size as length. *)
Theorem hath_hit_correct timestemp header_ok parser io utime_ok seek_ans answers now file_id additional file_name
    headers d c info md k :
  ranges_valid parser →
  keystamp_ok timestemp k file_id (default "" (parse_additional additional !! "keystamp")) = true →
  from_file_id file_id = Some info →
  metadata io d (to_path info (cache_dir c)) = Some md → is_file md = true → len md = fi_size info →
  seek_ans ≠ SeekLost → Forall good_answer answers → (length (data md) ≤ length answers)%nat →
  let get := get_from_disk io utime_ok (Some (data md)) seek_ans answers now in
  ∃ r s, hath timestemp k header_ok parser get file_id additional file_name headers (d, c) = (Answer r, s) ∧
    hit_correct parser headers info (data md) r.
Proof.
  intros. by apply hath_hit.
Qed.

(** A key stamp is accepted only within fifteen minutes of its time, although
    the difference is computed with wrap-around, and only with a non-empty
    prefix of the digest of its time, the file and the client's key; otherwise
    the answer is 403 whatever is cached, and the cache is not touched. *)
Theorem keystamp_checked {S} timestemp k header_ok parser get file_id additional file_name headers (s : S) :
  0 ≤ timestemp < 2 ^ 62 →
  let keystamp := default "" (parse_additional additional !! "keystamp") in
  hath timestemp k header_ok parser get file_id additional file_name headers s = (Answer forbidden, s) ∨
  ∃ time h r, split_on "-"%char keystamp = time :: h :: r ∧ h ≠ "" ∧
    Z.abs (timestemp - default 0 (parse_i64 time)) ≤ 900 ∧
    ∃ t, string_to_hash (keystamp_text time file_id k) = h +:+ t.
Proof.
  intros Ht keystamp. unfold hath. fold keystamp.
  destruct (keystamp_ok timestemp k file_id keystamp) eqn:Ek; [right|by left].
  unfold keystamp_ok in Ek. apply negb_true_iff in Ek.
  apply orb_false_iff in Ek as [Ek E4%negb_false_iff]. apply orb_false_iff in Ek as [Ek E3%negb_false_iff].
  apply orb_false_iff in Ek as [_ E2%bool_decide_eq_false].
  destruct (split_on "-"%char keystamp) as [|time [|h r]] eqn:Es; [done|done|]. simpl in *.
  exists time, h, r. split_and!; [done|done| |by apply starts_with_inv].
  assert (in_i64 (default 0 (parse_i64 time))) as Hi.
  { destruct (parse_i64 time) eqn:E; [by apply parse_int_range in E|simpl; word]. }
  unfold in_ttl in E3. apply andb_true_iff in E3 as [E3 E3']. apply Z.leb_le in E3, E3'.
  apply (wrap_i64_near timestemp _ 900); try done; lia.
Qed.

(** The digest is compared by prefix without a minimum length: for every
    file and every fresh time stamp one hexadecimal digit is a valid key stamp,
    so that sixteen guesses suffice without the key. *)
Theorem keystamp_one_digit timestemp k file_id t :
  0 ≤ t → in_i64 t → in_ttl timestemp t = true →
  ∃ digit, is_lower_hex digit = true ∧
    keystamp_ok timestemp k file_id (show t +:+ "-" +:+ String digit EmptyString) = true.
Proof.
  intros Ht0 Hi Htl. destruct (string_to_hash (keystamp_text (show t) file_id k)) as [|digit rest'] eqn:Eh.
  { pose proof (string_to_hash_length (keystamp_text (show t) file_id k)) as Hl. by rewrite Eh in Hl. }
  pose proof (hex_encode_lower (digest (as_bytes (keystamp_text (show t) file_id k)))) as Hlow.
  unfold string_to_hash in Eh. rewrite Eh, all_chars_cons in Hlow. apply andb_true_iff in Hlow as [Hd _].
  exists digit. split; [done|]. unfold keystamp_ok.
  assert (has_char "-"%char (String digit EmptyString) = false) as Hnd.
  { rewrite has_char_cons, bool_decide_false; [done|]. intros ->. done. }
  change (show t +:+ "-" +:+ String digit EmptyString) with (show t +:+ String "-"%char (String digit EmptyString)).
  rewrite split_on_app by (by apply show_no_char). rewrite split_on_none by done. cbn [lookup list_lookup from_option Datatypes.id].
  assert (parse_i64 (show t) = Some t) as -> by (apply parse_int_show; exact Hi). cbn [from_option Datatypes.id].
  rewrite Htl. unfold string_to_hash. rewrite Eh. rewrite (bool_decide_false (show t = "")).
  - pose proof (starts_with_app (String digit EmptyString) rest') as Hs.
    change (String digit EmptyString +:+ rest') with (String digit rest') in Hs. by rewrite Hs.
  - intros E. pose proof (parse_int_show i64_min i64_max t Hi) as Hp. by rewrite E in Hp.
Qed.

(** The speed test sends exactly the requested number of bytes in chunks of
    at most 16 KiB, and only for a request signed within five minutes. *)
Theorem speedtest_sends timestemp c size time hash :
  0 ≤ size → 0 ≤ timestemp < 2 ^ 62 → in_i64 time →
  speedtest timestemp c size time hash = None ∨
  (speedtest timestemp c size time hash = Some size ∧ Z.abs (timestemp - time) ≤ 300 ∧
   hash = string_to_hash ("hentai@home-speedtest-" +:+ show size +:+ "-" +:+ show time +:+ "-" +:+
                     show (id c) +:+ "-" +:+ key c) ∧
   ∃ l, random_chunks (Z.to_nat size) size 0 = Some l ∧ sumZ (λ n, n) l = size ∧
     Forall (λ n, 0 < n ≤ BUFFER_SIZE) l).
Proof.
  intros Hs Ht Hi. unfold speedtest. destruct (negb _ || negb _) eqn:E; [by left|right].
  apply orb_false_iff in E as [E1%negb_false_iff E2%negb_false_iff%bool_decide_eq_true]. split_and!; [done| |done|].
  - unfold in_drift in E1. apply andb_true_iff in E1 as [E3 E3']. apply Z.leb_le in E3, E3'.
    apply (wrap_i64_near timestemp _ 300); try done; lia.
  - assert (∀ fuel filled, 0 ≤ filled ≤ size → size - filled ≤ Z.of_nat fuel →
      ∃ l, random_chunks fuel size filled = Some l ∧ sumZ (λ n, n) l = size - filled ∧
        Forall (λ n, 0 < n ≤ BUFFER_SIZE) l) as Hgen.
    { assert (BUFFER_SIZE = 16384) as HB by done.
      induction fuel as [|fuel IH]; intros filled Hf Hle; cbn [random_chunks];
        destruct (Z.ltb_spec filled size); try lia;
        try (exists []; split_and!; [done|simpl; lia|constructor]).
      destruct (IH (filled + Z.min (size - filled) BUFFER_SIZE)) as (l & -> & Hsum & Hall); [lia..|].
      eexists. split; [reflexivity|]. split; [simpl; lia|]. constructor; [lia|done]. }
    destruct (Hgen (Z.to_nat size) 0) as (l & ? & Hsum & ?); [lia..|]. exists l. split_and!; [done|lia|done].
Qed.

End theorems.

(** ** Witnesses *)

Definition one_range (h : string) (n : Z) : option (list (Z * Z)) := if 1 <? n then Some [(1, 1)] else None.
Definition range_headers : Headers := mkHeaders None None (Some "bytes=1-1").
Definition hit_id : string := @file_name hex_ref read_info.

Lemma one_range_valid : ranges_valid one_range.
Proof.
  intros h n l a b E Hin. unfold one_range in E. destruct (Z.ltb_spec 1 n); [|done]. injection E as <-.
  apply list_elem_of_singleton in Hin as [= -> ->]. lia.
Qed.

Lemma hath_hit_correct_witness :
  ∃ r s, @hath hex_ref toy_digest _ 1000 "key" (λ _, true) one_range
    (@get_from_disk hex_ref toy_digest no_faults true (Some good_data) SeekOk two_reads (one_week + 1))
    hit_id "keystamp=1000-31" "a.jpg" range_headers (read_disk good_data, read_cm) = (RouteCache.Answer r, s) ∧
  r_status r = 206 ∧ delivers (r_body r) (as_bytes "b").
Proof.
  destruct (hath_hit_correct (H:=hex_ref) (D:=toy_digest) 1000 (λ _, true) one_range no_faults true SeekOk two_reads
    (one_week + 1) hit_id "keystamp=1000-31" "a.jpg" range_headers (read_disk good_data) read_cm read_info
    (read_node good_data) "key" one_range_valid) as (r & s & E & _ & _ & Hr).
  all: try (vm_compute; reflexivity).
  - discriminate.
  - repeat constructor.
  - exists r, s. assert (r_status r = 206) as Hst by (vm_compute in E; by injection E as <- _).
    split; [exact E|]. split; [exact Hst|]. rewrite Hst in Hr. destruct Hr as (a & b & Er & _ & Hd & _).
    assert (a = 1 ∧ b = 1) as [-> ->] by (vm_compute in Er; by injection Er as <- <-). exact Hd.
Defined.

Lemma keystamp_checked_witness :
  @hath hex_ref toy_digest _ 5000 "key" (λ _, true) one_range (λ _ _ s, (NotFound, s)) hit_id "keystamp=1000-31" "" range_headers ()
  = (RouteCache.Answer forbidden, ()).
Proof.
  destruct (keystamp_checked (H:=hex_ref) (D:=toy_digest) 5000 "key" (λ _, true) one_range (λ _ _ s, (NotFound, s)) hit_id
    "keystamp=1000-31" "" range_headers () ltac:(lia)) as [E|(time & h & r & E & _ & Hd & _)]; [exact E|].
  vm_compute in E. injection E as <- <- <-. vm_compute in Hd. exfalso. apply Hd. reflexivity.
Defined.

Lemma keystamp_one_digit_witness :
  ∃ digit, is_lower_hex digit = true ∧
    @keystamp_ok hex_ref toy_digest 1000 "secret" hit_id (show 900 +:+ "-" +:+ String digit EmptyString) = true.
Proof. apply (keystamp_one_digit (H:=hex_ref) (D:=toy_digest) 1000 "secret" hit_id 900); [lia|word|vm_compute; reflexivity]. Defined.

Lemma speedtest_sends_witness :
  let hash := @string_to_hash hex_ref toy_digest "hentai@home-speedtest-20000-10-7-key" in
  @speedtest hex_ref toy_digest 20 (test_client []) 20000 10 hash = Some 20000.
Proof.
  destruct (speedtest_sends (H:=hex_ref) (D:=toy_digest) 20 (test_client []) 20000 10
    (@string_to_hash hex_ref toy_digest "hentai@home-speedtest-20000-10-7-key"))
    as [E|(E & _)]; [lia|lia|word| |exact E]. vm_compute in E. discriminate.
Defined.
