(* ===== verification/Download.v ===== *)
(** * Download: proxying a file that is not cached

    [src/src/route/cache.rs], [hath] after a cache miss: the worker that downloads
    into a temporary file with up to three attempts, resuming where the last one
    stopped; the stream that follows the file for the client; and who keeps the
    progress channel open.  What the operating system and the network do is an
    argument, one [attempt] per retry. *)

From S2P Require Import Prelude Text Extern FileId FileReader CacheRead.
From stdpp Require Import base list strings numbers relations.

Local Open Scope Z_scope.

(** ** The worker *)

(** An item of the response stream: bytes, with the outcome of writing them, or
    an error. *)
Inductive dl_chunk := Chunk (b : bytes) (write_ok : bool) | ChunkErr.

(** What one retry meets. *)
Inductive attempt :=
| OpenErr
| SeekErr
| RequestErr (is_connect : bool)
| Served (chunks : list dl_chunk) (flush_ok : bool).

Record worker `{Digest} := mkWorker {
  w_progress : Z;            (* u64 *)
  w_file : bytes;            (* the temporary file *)
  w_ctx : ctx;
  w_proxy : bool;            (* requests go through the proxy *)
  w_source : nat;            (* sources taken so far *)
  w_sent : list Z            (* progress values sent on the channel *)
}.

#[global] Arguments mkWorker {_} _ _ _ _ _ _.

(** Writing at a position: a gap is filled with zeros. *)
Definition write_at (pos : nat) (b file : bytes) : bytes :=
  take pos file ++ replicate (pos - length file) (Ascii.ascii_of_nat 0) ++ b ++ drop (pos + length b) file.

Inductive recv_end := StreamDone | StreamErr | WriteErr.

Section worker.
Context `{Digest}.

(** The [while let Some(bytes) = stream.next().await] loop. *)
Fixpoint receive (chunks : list dl_chunk) (download : Z) (w : worker) : recv_end * worker :=
  match chunks with
  | [] => (StreamDone, w)
  | ChunkErr :: _ => (StreamErr, w)
  | Chunk b write_ok :: r =>
      let download := download + blen b in
      if download <=? w_progress w then receive r download w
      else
        let write_size := download - w_progress w in
        let start := blen b - write_size in
        let data := drop (Z.to_nat start) b in
        if negb write_ok then (WriteErr, w)
        else
          let progress := w_progress w + write_size in
          receive r download
            (mkWorker progress (write_at (Z.to_nat (w_progress w)) data (w_file w))
               (ctx_update (w_ctx w) data) (w_proxy w) (w_source w) (w_sent w ++ [progress]))
  end.

(** How the worker ends: with the digest of what it downloaded, without success,
    or with a panic. *)
Inductive worker_end := WDone (h : bytes) | WFailed | WPanic.

Definition next_source (w : worker) : worker :=
  mkWorker (w_progress w) (w_file w) (w_ctx w) (w_proxy w) (S (w_source w)) (w_sent w).
Definition set_proxy (b : bool) (w : worker) : worker :=
  mkWorker (w_progress w) (w_file w) (w_ctx w) b (w_source w) (w_sent w).

(** The ['retry: for retry in 0..3] loop over what the retries meet. *)
Fixpoint worker_loop (attempts : list attempt) (retry : nat) (sources : list string) (file_size : Z)
    (w : worker) : worker_end * worker :=
  match attempts with
  | [] => (WFailed, w)
  | a :: r =>
      match a with
      | OpenErr | SeekErr => worker_loop r (S retry) sources file_size w
      | RequestErr is_connect =>
          if bool_decide (sources = []) then (WPanic, w)
          else
            let w := next_source w in
            let w := if w_proxy w && (is_connect || bool_decide (retry = 1%nat)) then set_proxy false w else w in
            worker_loop r (S retry) sources file_size w
      | Served chunks flush_ok =>
          if bool_decide (sources = []) then (WPanic, w)
          else
            match receive chunks 0 (next_source w) with
            | (StreamErr, w) => worker_loop r (S retry) sources file_size w
            | (WriteErr, w) => (WFailed, w)
            | (StreamDone, w) =>
                if w_progress w =? file_size then
                  if flush_ok then
                    (WDone (ctx_finish (w_ctx w)),
                     mkWorker (w_progress w) (w_file w) (w_ctx w) (w_proxy w) (w_source w)
                       (w_sent w ++ [w_progress w]))
                  else (WFailed, w)
                else worker_loop r (S retry) sources file_size w
            end
      end
  end.

Definition worker_new (has_proxy : bool) : worker := mkWorker 0 [] ctx_new has_proxy 0 [].

(** The worker with its three retries. *)
Definition download (attempts : nat → attempt) (sources : list string) (has_proxy : bool) (file_size : Z)
    : worker_end * worker :=
  worker_loop [attempts 0%nat; attempts 1%nat; attempts 2%nat] 0 sources file_size (worker_new has_proxy).

(** Whether the file is imported afterwards. *)
Definition imports (info : CacheFileInfo) (e : worker_end) : bool :=
  match e with WDone h => bool_decide (h = fi_hash info) | _ => false end.

End worker.

(** ** The stream for the client *)

(** How a read of the temporary file ends: at most [n] bytes, or an error. *)
Inductive tmp_read := TmpRead (n : nat) | TmpErr (code : Z).

Inductive serve_end := ServeDone | ServeStopped | ServeWaiting.

(** The stream body: [reads] are the reads in order, [changes] the values the
    channel announces ([None]: closed, or nothing for thirty seconds).  [b] is
    what the worker writes; a read may see more of it than was announced. *)
Fixpoint serve (fuel : nat) (reads : list tmp_read) (changes : list (option Z)) (b : bytes)
    (file_size read_off write_off : Z) : serve_end * list item :=
  match fuel with
  | O => (ServeWaiting, [])
  | S fuel =>
      if read_off <? write_off then
        match reads with
        | [] => (ServeWaiting, [])
        | TmpRead n :: reads =>
            let s := (n `min` (length b - Z.to_nat read_off))%nat in
            if bool_decide (s = 0%nat) then serve fuel reads changes b file_size read_off write_off
            else
              let data := take s (drop (Z.to_nat read_off) b) in
              let read_off := read_off + Z.of_nat s in
              if read_off =? file_size then (ServeDone, [inl data])
              else let (e, l) := serve fuel reads changes b file_size read_off write_off in (e, inl data :: l)
        | TmpErr code :: reads =>
            if read_off =? file_size then (ServeDone, [inr (OsError code); inl []])
            else let (e, l) := serve fuel reads changes b file_size read_off write_off in
                 (e, inr (OsError code) :: inl [] :: l)
        end
      else
        match changes with
        | [] => (ServeWaiting, [])
        | Some w :: changes => serve fuel reads changes b file_size read_off w
        | None :: _ => (ServeStopped, [])
        end
  end.

(** ** Who holds the progress channel *)

(** The owners of a sender: the handler that started the download (its local
    [tx]), the entry of [download_state], and the worker ([tx2]). *)
Record channel := mkChannel {
  by_handler : bool;
  by_state : bool;
  by_worker : bool;
  announced : Z
}.

Definition closed (c : channel) : bool := negb (by_handler c || by_state c || by_worker c).

(** The handler that started the download, after it subscribed. *)
Inductive phase := Waiting | Streaming | Answered404 | TimedOut.

(** What can happen next. *)
Inductive miss_step : phase * channel → phase * channel → Prop :=
| worker_progress p c n :
    by_worker c = true → announced c < n →
    miss_step (p, c) (p, mkChannel (by_handler c) (by_state c) (by_worker c) n)
| worker_finish p c :
    (* the guard removes the entry and [tx2] is dropped *)
    by_worker c = true → miss_step (p, c) (p, mkChannel (by_handler c) false false (announced c))
| handler_stream c :
    (* [*rx.borrow() != 0], or [rx.changed()] succeeded; [tx] is dropped on return *)
    0 < announced c →
    miss_step (Waiting, c) (Streaming, mkChannel false (by_state c) (by_worker c) (announced c))
| handler_404 c :
    (* [*rx.borrow() == 0 && rx.changed().await.is_err()] *)
    announced c = 0 → closed c = true →
    miss_step (Waiting, c) (Answered404, mkChannel false (by_state c) (by_worker c) (announced c))
| handler_timeout c :
    (* the [TimeoutLayer] drops the handler *)
    miss_step (Waiting, c) (TimedOut, mkChannel false (by_state c) (by_worker c) (announced c)).

Definition miss_start : phase * channel := (Waiting, mkChannel true true true 0).

Definition reachable : phase * channel → Prop := rtc miss_step miss_start.

(** ** Lemmas *)

Lemma write_at_end b file : write_at (length file) b file = file ++ b.
Proof.
  unfold write_at. rewrite take_ge, Nat.sub_diag, drop_ge by lia. simpl. by rewrite app_nil_r.
Qed.

(** The bytes a stream delivers before its end or its first error. *)
Fixpoint served (chunks : list dl_chunk) : bytes :=
  match chunks with Chunk b _ :: r => b ++ served r | _ => [] end.

(** A stream without errors, all of whose bytes could be written. *)
Definition clean_stream (chunks : list dl_chunk) : Prop :=
  Forall (λ c, match c with Chunk _ ok => ok = true | ChunkErr => False end) chunks.

Section facts.
Context `{DigestLaws}.
Implicit Types (w : worker).

(** The file holds what was counted and hashed. *)
Definition consistent w : Prop :=
  blen (w_file w) = w_progress w ∧
  ∃ chunks, w_ctx w = foldl ctx_update ctx_new chunks ∧ concat chunks = w_file w.

Lemma receive_step b w download :
  0 ≤ download ≤ w_progress w → w_progress w < download + blen b → blen (w_file w) = w_progress w →
  let data := drop (Z.to_nat (blen b - (download + blen b - w_progress w))) b in
  write_at (Z.to_nat (w_progress w)) data (w_file w) = w_file w ++ data ∧
  blen data = download + blen b - w_progress w.
Proof.
  intros Hd Hlt Hl data. split.
  - rewrite <- Hl. unfold blen. rewrite Nat2Z.id. apply write_at_end.
  - unfold data, blen in *. rewrite length_drop. lia.
Qed.

Lemma receive_consistent chunks download w :
  0 ≤ download ≤ w_progress w → consistent w → consistent (receive chunks download w).2.
Proof.
  revert download w. induction chunks as [|[b ok|] chunks IH]; intros download w Hd Hc; [done| |done].
  cbn [receive]. destruct (Z.leb_spec (download + blen b) (w_progress w)).
  { apply IH; [unfold blen in *; lia|done]. }
  destruct ok; [|done]. cbn [negb]. destruct Hc as (Hl & cs & Ec & Ecat).
  destruct (receive_step b w download) as [Ew El]; [done..|].
  apply IH; cbn [w_progress].
  - unfold blen in *. lia.
  - split; cbn [w_file w_progress w_ctx].
    + rewrite Ew. unfold blen in *. rewrite length_app. lia.
    + exists (cs ++ [drop (Z.to_nat (blen b - (download + blen b - w_progress w))) b]).
      rewrite foldl_app, concat_app, <- Ec, Ew, Ecat. cbn. by rewrite app_nil_r.
Qed.

Lemma worker_loop_consistent attempts retry sources file_size w :
  0 ≤ w_progress w → consistent w →
  let '(e, w') := worker_loop attempts retry sources file_size w in
  consistent w' ∧ ∀ h, e = WDone h → h = digest (w_file w') ∧ w_progress w' = file_size.
Proof.
  revert retry w. induction attempts as [|a attempts IH]; intros retry w Hp Hc; cbn [worker_loop]; [done|].
  destruct a as [| |ic|chunks flush]; try (by apply IH); (case_bool_decide; [done|]).
  - cbv zeta. destruct (w_proxy (next_source w) && _); by apply IH.
  - pose proof (receive_consistent chunks 0 (next_source w) ltac:(simpl; lia) Hc) as Hr.
    destruct (receive chunks 0 (next_source w)) as [e w1]. cbn [snd] in Hr.
    assert (0 ≤ w_progress w1) as Hp1 by (destruct Hr as [<- _]; unfold blen; lia).
    destruct e; [|by apply IH|done].
    destruct (Z.eqb_spec (w_progress w1) file_size); [|by apply IH].
    destruct flush; [|done]. split; [done|]. intros h [= <-]. split; [|done].
    destruct Hr as (_ & cs & -> & <-). apply finish_chunks.
Qed.

(** A download that ends with a digest has written contents with it, of the size asked for. *)
Lemma download_done attempts sources has_proxy size h w :
  download attempts sources has_proxy size = (WDone h, w) → digest (w_file w) = h ∧ blen (w_file w) = size.
Proof.
  intros E. pose proof (worker_loop_consistent [attempts 0%nat; attempts 1%nat; attempts 2%nat] 0 sources
    size (worker_new has_proxy) ltac:(simpl; lia)) as Hw.
  unfold download in E. rewrite E in Hw. destruct Hw as [(Hl & _) Hd]; [split; [done|by exists []]|].
  destruct (Hd h eq_refl) as [-> Hp]. split; [done|lia].
Qed.

(** With streams that are prefixes of [b], the file is a prefix of [b]. *)
Definition follows (b : bytes) w : Prop :=
  consistent w ∧ w_file w = take (Z.to_nat (w_progress w)) b ∧ w_progress w ≤ blen b.

Lemma receive_follows b chunks download w :
  0 ≤ download ≤ w_progress w → follows b w →
  take (Z.to_nat download) b ++ served chunks `prefix_of` b →
  let '(e, w') := receive chunks download w in
  follows b w' ∧ w_progress w ≤ w_progress w' ∧
  (clean_stream chunks → e = StreamDone ∧ download + blen (served chunks) ≤ w_progress w').
Proof.
  revert download w. induction chunks as [|[c ok|] chunks IH]; intros download w Hd Hf Hpre; cbn [receive served].
  { split_and!; [done|lia|]. intros _. unfold blen. simpl. split; [done|lia]. }
  2:{ split_and!; [done|lia|]. by intros [? _]%Forall_cons_1. }
  destruct Hf as (Hc & Ef & Hle). cbn [served] in Hpre. rewrite (assoc_L (++)) in Hpre.
  assert (take (Z.to_nat download) b ++ c = take (Z.to_nat (download + blen c)) b) as Etk.
  { destruct Hpre as [k Hk]. rewrite Hk at 2.
    assert (Z.to_nat download ≤ length b)%nat by (unfold blen in *; lia).
    rewrite !take_app_le by (rewrite ?length_app, length_take; unfold blen; lia).
    symmetry. apply take_ge. rewrite length_app, length_take. unfold blen. lia. }
  rewrite Etk in Hpre.
  assert (download + blen c ≤ blen b) as Hlen.
  { apply (f_equal length) in Etk. rewrite length_app, !length_take in Etk. unfold blen in *. lia. }
  assert (clean_stream (Chunk c ok :: chunks) → ok = true ∧ clean_stream chunks) as Hclean
    by (intros ?%Forall_cons_1; done).
  assert (blen (c ++ served chunks) = blen c + blen (served chunks)) as -> by (unfold blen; rewrite length_app; lia).
  destruct (Z.leb_spec (download + blen c) (w_progress w)) as [Hs|Hs].
  - specialize (IH (download + blen c) w ltac:(unfold blen in *; lia) (conj Hc (conj Ef Hle)) Hpre).
    destruct (receive chunks (download + blen c) w) as [e w']. destruct IH as (I1 & I2 & I3).
    split_and!; [done|done|]. intros [_ Hcl]%Hclean. destruct (I3 Hcl). split; [done|lia].
  - destruct ok; cbn [negb]; [|split_and!; [done|lia|by intros [? _]%Hclean]].
    destruct (receive_step c w download) as [Ew El]; [done|done|apply Hc|].
    set (w1 := mkWorker _ _ _ _ _ _).
    assert (w_progress w1 = download + blen c) as Ep by (simpl; lia).
    assert (follows b w1) as Hf1.
    { split_and!.
      - pose proof (receive_consistent [Chunk c true] download w Hd Hc) as Hr. cbn [receive] in Hr.
        rewrite (proj2 (Z.leb_gt _ _)) in Hr by lia. exact Hr.
      - rewrite Ep, <- Etk. unfold w1. cbn [w_file]. rewrite Ew, Ef.
        set (k := Z.to_nat (blen c - (download + blen c - w_progress w))).
        transitivity (take (Z.to_nat download) b ++ (take k c ++ drop k c)); [|by rewrite take_drop].
        rewrite (assoc_L (++)). f_equal.
        assert (take (Z.to_nat (w_progress w)) (take (Z.to_nat download) b ++ c) = take (Z.to_nat (w_progress w)) b) as <-.
        { rewrite Etk, take_take. f_equal. lia. }
        rewrite take_app_ge by (rewrite length_take; unfold blen in *; lia).
        f_equal. f_equal. rewrite length_take. unfold k, blen in *. lia.
      - lia. }
    specialize (IH (download + blen c) w1 ltac:(unfold blen in *; lia) Hf1 Hpre).
    destruct (receive chunks (download + blen c) w1) as [e w']. destruct IH as (I1 & I2 & I3).
    split_and!; [done|lia|]. intros [_ Hcl]%Hclean. destruct (I3 Hcl). split; [done|lia].
Qed.

End facts.

(** An attempt that does not end the download early, and one that delivers all. *)
Definition benign (b : bytes) (a : attempt) : Prop :=
  match a with
  | Served chunks flush_ok =>
      served chunks `prefix_of` b ∧ Forall (λ c, ∀ x, c ≠ Chunk x false) chunks ∧ flush_ok = true
  | _ => True
  end.
Definition complete (b : bytes) (a : attempt) : Prop :=
  ∃ chunks, a = Served chunks true ∧ clean_stream chunks ∧ served chunks = b.

Section resume.
Context `{DigestLaws}.

Lemma receive_writes chunks dl (w : worker) :
  Forall (λ c, ∀ x, c ≠ Chunk x false) chunks → (receive chunks dl w).1 ≠ WriteErr.
Proof.
  intros Hw. revert dl w. induction Hw as [|[b ok|] chunks Hc _ IH]; intros dl w; [done| |done].
  cbn [receive]. destruct (_ <=? _); [apply IH|].
  destruct ok; [apply IH|]. by destruct (Hc b).
Qed.

Lemma follows_full b (w : worker) :
  follows b w → w_progress w = blen b → w_file w = b.
Proof. intros (_ & -> & _) ->. apply take_ge. unfold blen. lia. Qed.

Lemma worker_loop_resumes b attempts retry sources (w : worker) :
  sources ≠ [] → Forall (benign b) attempts → Exists (complete b) attempts →
  follows b w → 0 ≤ w_progress w →
  ∃ w', worker_loop attempts retry sources (blen b) w = (WDone (digest b), w') ∧ w_file w' = b.
Proof.
  intros Hs Hb. revert retry w. induction Hb as [|a attempts Ha Hb IH]; intros retry w He Hf Hp; [by inversion He|].
  cbn [worker_loop]. rewrite !bool_decide_false by done.
  apply Exists_cons in He. destruct a as [| |ic|chunks flush].
  1,2: destruct He as [(? & ? & _)|He]; [done|by apply IH].
  { destruct He as [(? & ? & _)|He]; [done|]. cbv zeta. destruct (_ && _); by apply IH. }
  destruct Ha as (Hpre & Hw & ->).
  pose proof (receive_follows b chunks 0 (next_source w) ltac:(simpl; lia) Hf Hpre) as Hr.
  pose proof (receive_writes chunks 0 (next_source w) Hw) as Hnw.
  destruct (receive chunks 0 (next_source w)) as [e w1]. destruct Hr as (F1 & Hmono & Hclean). cbn in Hnw, Hmono.
  assert (complete b (Served chunks true) → e = StreamDone ∧ w_progress w1 = blen b) as Hc.
  { intros (cs & [= <-] & Hcl & Es). destruct (Hclean Hcl) as [-> Hge]. rewrite Es in Hge.
    destruct F1 as (_ & _ & ?). split; [done|lia]. }
  destruct e; [| |done].
  - destruct (Z.eqb_spec (w_progress w1) (blen b)) as [E|E].
    + pose proof (follows_full b w1 F1 E) as Eb. destruct F1 as ((_ & cs & Ec & Ecat) & _).
      eexists. split; [rewrite Ec, finish_chunks, Ecat, Eb; reflexivity|reflexivity].
    + apply IH; [|done|lia]. destruct He as [He|He]; [|done]. by destruct (Hc He).
  - apply IH; [|done|lia]. destruct He as [He|He]; [|done]. by destruct (Hc He).
Qed.

End resume.

Lemma serve_prefix fuel reads changes b file_size r0 w0 :
  0 ≤ r0 ≤ blen b → file_size = blen b →
  let (e, l) := serve fuel reads changes b file_size r0 w0 in
  ∃ k, concat (map item_data l) = take k (drop (Z.to_nat r0) b) ∧
    (e = ServeDone → concat (map item_data l) = drop (Z.to_nat r0) b).
Proof.
  intros Hr ->. revert reads changes r0 w0 Hr.
  induction fuel as [|fuel IH]; intros reads changes r0 w0 Hr; cbn [serve]; [by exists 0%nat; rewrite take_0|].
  destruct (r0 <? w0).
  - destruct reads as [|[n|code] reads]; [by exists 0%nat; rewrite take_0|..].
    + case_bool_decide as Hz; [by apply IH|]. set (s := (n `min` (length b - Z.to_nat r0))%nat) in *.
      assert (Z.to_nat (r0 + Z.of_nat s) = Z.to_nat r0 + s)%nat as Ez by lia.
      destruct (Z.eqb_spec (r0 + Z.of_nat s) (blen b)) as [E|E].
      * exists s. cbn. rewrite app_nil_r. split; [done|]. intros _. apply take_ge. rewrite length_drop. unfold blen in E. lia.
      * specialize (IH reads changes (r0 + Z.of_nat s) w0 ltac:(unfold blen in *; lia)).
        destruct (serve _ _ _ _ _ _ _) as [e l]. destruct IH as (k & Ek & Hd). rewrite Ez, <- drop_drop in Ek, Hd.
        exists (s + k)%nat. cbn [map concat item_data]. split; [by rewrite Ek, take_take_drop|].
        intros ->. rewrite Hd by done. apply take_drop.
    + destruct (Z.eqb_spec r0 (blen b)) as [E|E].
      * exists 0%nat. cbn. rewrite take_0. split; [done|]. intros _. symmetry. apply drop_ge. unfold blen in E. lia.
      * specialize (IH reads changes r0 w0 Hr). by destruct (serve _ _ _ _ _ _ _) as [e l].
  - destruct changes as [|[w|] changes]; [by exists 0%nat; rewrite take_0| |by exists 0%nat; rewrite take_0].
    by apply IH.
Qed.

(** Reads that make progress reach the end of an announced file. *)
Lemma serve_completes reads fuel b r0 :
  0 ≤ r0 < blen b → Forall (λ r, ∃ n, r = TmpRead n ∧ (0 < n)%nat) reads →
  blen b - r0 ≤ Z.of_nat (length reads) → (length reads < fuel)%nat →
  (serve fuel reads [] b (blen b) r0 (blen b)).1 = ServeDone.
Proof.
  intros Hr Hall. revert fuel r0 Hr. induction Hall as [|r reads (n & -> & Hn) _ IH]; intros fuel r0 Hr Hl Hf; [simpl in Hl; lia|].
  destruct fuel as [|fuel]; [lia|]. cbn [serve]. rewrite (proj2 (Z.ltb_lt _ _)) by lia.
  set (s := (n `min` (length b - Z.to_nat r0))%nat). assert (0 < s)%nat by (unfold s, blen in *; lia).
  rewrite bool_decide_false by lia. cbv zeta. destruct (Z.eqb_spec (r0 + Z.of_nat s) (blen b)); [done|].
  cbn in Hl, Hf. specialize (IH fuel (r0 + Z.of_nat s)).
  destruct (serve _ _ _ _ _ _ _) as [e l]. apply IH; [unfold s, blen in *; lia|lia|lia].
Qed.

(** While the handler waits it holds a sender itself, and it has not answered. *)
Lemma waiting_holds s :
  reachable s → s.1 ≠ Answered404 ∧ (s.1 = Waiting → by_handler s.2 = true).
Proof.
  unfold reachable. revert s.
  apply (rtc_ind_r (λ s, s.1 ≠ Answered404 ∧ (s.1 = Waiting → by_handler s.2 = true))); [done|].
  intros x y _ Hs [I1 I2]. inversion Hs as [p c n|p c|c|c Ha Hc|c]; subst; cbn in *; try done.
  unfold closed in Hc. by rewrite I2 in Hc.
Qed.

(** ** Theorems *)

Section theorems.
Context `{DigestLaws}.


(** C13: Resuming.  If every source sends a beginning of the same contents, one
    of the three attempts sends all of it without an error, and no write fails,
    the download ends with the digest of exactly these contents in the file,
    however much the attempts before delivered and wherever they were cut. *)
Theorem download_resumes attempts sources has_proxy b :
  sources ≠ [] → (∀ k, (k < 3)%nat → benign b (attempts k)) →
  (∃ k, (k < 3)%nat ∧ complete b (attempts k)) →
  ∃ w, download attempts sources has_proxy (blen b) = (WDone (digest b), w) ∧ w_file w = b.
Proof.
  intros Hs Hb (k & Hk & Hc). apply worker_loop_resumes; try done.
  - repeat constructor; apply Hb; lia.
  - destruct k as [|[|[|k]]]; [by left|by right; left|by right; right; left|lia].
  - split_and!; [split; [done|by exists []]|by rewrite take_0|unfold blen; simpl; lia].
Qed.

(** What the client receives while the file is being downloaded is, at any
    moment, a beginning of the contents; the stream ends by itself exactly with
    all of it, and does so once everything is announced and the reads make
    progress. *)
Theorem serve_correct fuel reads changes b w0 :
  (let (e, l) := serve fuel reads changes b (blen b) 0 w0 in
   ∃ k, concat (map item_data l) = take k b ∧ (e = ServeDone → concat (map item_data l) = b)) ∧
  (0 < blen b → Forall (λ r, ∃ n, r = TmpRead n ∧ (0 < n)%nat) reads →
   blen b ≤ Z.of_nat (length reads) → (length reads < fuel)%nat →
   (serve fuel reads [] b (blen b) 0 (blen b)).1 = ServeDone).
Proof.
  split.
  - apply (serve_prefix fuel reads changes b (blen b) 0 w0); [unfold blen; lia|done].
  - intros ? ? ? ?. apply serve_completes; [lia|done|lia|lia].
Qed.

(** A failed download is never answered with 404.  The handler that started
    it still owns a sender of the progress channel while it waits, so the
    channel cannot close: after the worker has given up without any progress
    the only step left is the timeout of the request. *)
Theorem failed_download_waits s :
  reachable s →
  s.1 ≠ Answered404 ∧
  (s.1 = Waiting → by_worker s.2 = false → announced s.2 = 0 → ∀ s', miss_step s s' → s'.1 = TimedOut).
Proof.
  intros Hr. destruct (waiting_holds s Hr) as [Hn Hh]. split; [done|].
  intros Hw Hworker Ha s' Hs. specialize (Hh Hw).
  inversion Hs as [p c n|p c|c|c Hz Hc|c]; subst; cbn in *; try congruence; [lia|].
  unfold closed in Hc. by rewrite Hh in Hc.
Qed.

End theorems.

(** An answer of the server without any source makes the worker panic. *)
Lemma download_no_sources `{Digest} attempts has_proxy n chunks flush :
  attempts 0%nat = Served chunks flush → (download attempts [] has_proxy n).1 = WPanic.
Proof. intros E. unfold download. cbn [worker_loop]. by rewrite E. Qed.

(** ** Witnesses *)

(** Two bytes and an error, then a refused connection, then everything. *)
Definition three_attempts (n : nat) : attempt :=
  match n with
  | 0%nat => Served [Chunk (as_bytes "ab") true; ChunkErr] true
  | 1%nat => RequestErr true
  | _ => Served [Chunk (as_bytes "a") true; Chunk (as_bytes "bcd") true; Chunk (as_bytes "e") true] true
  end.
Definition dl_info : CacheFileInfo := mkInfo (@digest toy_digest (as_bytes "abcde")) 5 0 0 Jpeg.


Lemma download_resumes_witness :
  ∃ w, @download toy_digest three_attempts ["http://a"; "http://b"] true 5 =
    (WDone (@digest toy_digest (as_bytes "abcde")), w) ∧ w_file w = as_bytes "abcde".
Proof.
  apply (download_resumes (D:=toy_digest) three_attempts ["http://a"; "http://b"] true (as_bytes "abcde")).
  - discriminate.
  - intros k Hk. destruct k as [|[|[|k]]]; [| | |lia]; cbn.
    + split_and!; [by exists (as_bytes "cde")|by repeat constructor|done].
    + done.
    + split_and!; [by exists []|by repeat constructor|done].
  - exists 2%nat. split; [lia|]. eexists. split_and!; [reflexivity|by repeat constructor|reflexivity].
Defined.

Lemma serve_correct_witness :
  serve 9 [TmpRead 2; TmpRead 0; TmpRead 9] [] (as_bytes "abc") 3 0 3 = (ServeDone, [inl (as_bytes "ab"); inl (as_bytes "c")]) ∧
  concat (map item_data (serve 9 [TmpRead 2; TmpRead 0; TmpRead 9] [] (as_bytes "abc") 3 0 3).2) = as_bytes "abc".
Proof.
  pose proof (proj1 (serve_correct 9 [TmpRead 2; TmpRead 0; TmpRead 9] [] (as_bytes "abc") 3)) as Hs.
  vm_compute in Hs. destruct Hs as (k & _ & Hd). split; [vm_compute; reflexivity|]. vm_compute. exact (Hd eq_refl).
Defined.

Lemma failed_download_waits_witness :
  reachable (Waiting, mkChannel true false false 0) ∧
  ∀ s', miss_step (Waiting, mkChannel true false false 0) s' → s'.1 = TimedOut.
Proof.
  assert (reachable (Waiting, mkChannel true false false 0)) as Hr.
  { apply rtc_once. exact (worker_finish Waiting (mkChannel true true true 0) eq_refl). }
  split; [exact Hr|]. exact (proj2 (failed_download_waits _ Hr) eq_refl eq_refl eq_refl).
Defined.
