(* ===== verification/DownloadTable.v ===== *)
(** * DownloadTable: one download for many requests

    [src/src/route/cache.rs], [hath] after a cache miss: the table
    [download_state] through which requests for the same file share one download.
    The first request inserts an entry, creates the temporary file, asks for
    sources and spawns the worker; later ones clone the entry and subscribe to its
    progress.  The state is that of one file; each download has a number, each
    request that waits or reads another.  A step is what a task does to the table:
    the loops of the worker and of the streams are one step each here, and move byte by
    byte in [SharedDownload], where their progress is proved. *)

From S2P Require Import Prelude.
From stdpp Require Import base gmap list relations.

(** ** State *)

(** Where the owner of an entry is: the handler before and after it created the
    temporary file, then the worker: downloading; waiting for the readers the
    first time; waiting a second time with the entry removed; importing the file;
    done with the import; done with a wrong digest.  [Ended] is after the guard
    was dropped, with whether there was a temporary file and whether it was moved. *)
Inductive owner_pc :=
| NoTemp
| Fetching
| Downloading
| Complete
| Removed
| Importing
| Imported
| HashWrong
| Ended (temp moved : bool).

(** A request: it holds a clone of the entry, or a receiver of the progress.
    [late] says that it subscribed after the worker's last look at the readers. *)
Inductive reader_pc :=
| Cloned (g : nat)
| Subscribed (g : nat) (late : bool).

Record state := mkState {
  table : option nat;                (* the entry of [download_state] *)
  owners : gmap nat owner_pc;
  readers : gmap nat reader_pc;
  foreign : nat                      (* entries removed by others than their owner *)
}.

Definition init : state := mkState None ∅ ∅ 0.

(** [download_state.lock().remove(&hash)] by the owner or a reader of [g]. *)
Definition remove_entry (g : nat) (s : state) : state :=
  mkState None (owners s) (readers s)
    (match table s with Some g' => if decide (g' = g) then foreign s else S (foreign s) | None => foreign s end).

Definition set_owner (g : nat) (p : owner_pc) (s : state) : state :=
  mkState (table s) (<[g := p]> (owners s)) (readers s) (foreign s).
Definition set_reader (r : nat) (p : reader_pc) (s : state) : state :=
  mkState (table s) (owners s) (<[r := p]> (readers s)) (foreign s).
Definition del_reader (r : nat) (s : state) : state :=
  mkState (table s) (owners s) (delete r (readers s)) (foreign s).

(** [tx2.closed()] returns: nobody holds a receiver. *)
Definition no_receiver (g : nat) (s : state) : Prop :=
  ∀ r late, readers s !! r ≠ Some (Subscribed g late).

(** The worker has looked at the readers for the last time. *)
Definition past_wait (p : owner_pc) : bool :=
  match p with Importing | Imported | Ended _ true => true | _ => false end.
(** The temporary file was created. *)
Definition has_temp (p : owner_pc) : bool :=
  match p with NoTemp | Ended false _ => false | _ => true end.

(** ** Steps *)

Inductive step : state → state → Prop :=
| lead g s :                                     (* no entry: the request inserts one, with its guard *)
    table s = None → owners s !! g = None →
    step s (set_owner g NoTemp (mkState (Some g) (owners s) (readers s) (foreign s)))
| follow g r s :                                 (* an entry: it is cloned *)
    table s = Some g → readers s !! r = None → step s (set_reader r (Cloned g) s)
| create_temp g s :
    owners s !! g = Some NoTemp → step s (set_owner g Fetching s)
| leader_leaves p g s :                                (* no sources, or the handler is dropped: the guard runs *)
    owners s !! g = Some p → p = NoTemp ∨ p = Fetching →
    step s (set_owner g (Ended (has_temp p) false) (remove_entry g s))
| spawn g r s :                                  (* the worker; the handler will subscribe *)
    owners s !! g = Some Fetching → readers s !! r = None →
    step s (set_reader r (Cloned g) (set_owner g Downloading s))
| subscribe g r p s :                            (* the file exists: [wait_for] returns, [subscribe] *)
    readers s !! r = Some (Cloned g) → owners s !! g = Some p → has_temp p = true →
    step s (set_reader r (Subscribed g (past_wait p)) s)
| no_temp g r moved s :                          (* [wait_for] fails: the sender is gone *)
    readers s !! r = Some (Cloned g) → owners s !! g = Some (Ended false moved) →
    step s (del_reader r (remove_entry g s))
| reader_done r x s :                            (* the stream ends or the request is dropped *)
    readers s !! r = Some x → step s (del_reader r s)
| worker_fails g s :
    owners s !! g = Some Downloading → step s (set_owner g (Ended true false) (remove_entry g s))
| worker_completes g s :
    owners s !! g = Some Downloading → step s (set_owner g Complete s)
| worker_removes (ok : bool) g s :               (* [ok]: the digest is right *)
    owners s !! g = Some Complete → no_receiver g s →
    step s (set_owner g (if ok then Removed else HashWrong) (remove_entry g s))
| worker_waits_again g s :
    owners s !! g = Some Removed → no_receiver g s → step s (set_owner g Importing s)
| worker_imports g s :
    owners s !! g = Some Importing → step s (set_owner g Imported s)
| worker_returns p g s :                         (* the guard runs again *)
    owners s !! g = Some p → p = Imported ∨ p = HashWrong →
    step s (set_owner g (Ended true (past_wait p)) (remove_entry g s)).

Definition reachable : state → Prop := rtc step init.

(** ** The invariant *)

(** The owner has not removed its entry yet. *)
Definition active (p : owner_pc) : Prop :=
  match p with NoTemp | Fetching | Downloading | Complete => True | _ => False end.

Record inv (s : state) : Prop := {
  (* an entry has an owner that will still remove it *)
  i_entry g : table s = Some g → ∃ p, owners s !! g = Some p ∧ active p;
  (* a reader that was seen keeps the file in its place *)
  i_file r g : readers s !! r = Some (Subscribed g false) → ∃ p, owners s !! g = Some p ∧ past_wait p = false;
  (* without removals by others a download that is active has the entry *)
  i_single g p : foreign s = 0 → owners s !! g = Some p → active p → table s = Some g
}.

(** A new phase of an owner that leaves the table alone. *)
Lemma set_owner_inv g p q s :
  inv s → owners s !! g = Some p → (active p ↔ active q) →
  (past_wait q = true → no_receiver g s ∨ past_wait p = true) → inv (set_owner g q s).
Proof.
  intros [I1 I2 I3] Hp Ha Hw. split; cbn [set_owner table owners readers foreign].
  - intros g' Hg. destruct (I1 g' Hg) as (p' & Hp' & Ha'). destruct (decide (g = g')) as [->|].
    + exists q. rewrite lookup_insert_eq. split; [done|]. naive_solver.
    + exists p'. by rewrite lookup_insert_ne.
  - intros r g' Hr. destruct (I2 r g' Hr) as (p' & Hp' & Hw'). destruct (decide (g = g')) as [->|].
    + exists q. rewrite lookup_insert_eq. split; [done|]. destruct (past_wait q); [|done].
      destruct (Hw eq_refl) as [Hn|]; [by destruct (Hn r false)|]. simplify_eq. congruence.
    + exists p'. by rewrite lookup_insert_ne.
  - intros g' p' Hf Hp' Ha'. destruct (decide (g = g')) as [->|].
    + rewrite lookup_insert_eq in Hp'. simplify_eq. by apply (I3 g' p Hf Hp), Ha.
    + rewrite lookup_insert_ne in Hp' by done. by eapply I3.
Qed.

(** The entry is removed by an owner that is then no longer active. *)
Lemma remove_owner_inv g p q s :
  inv s → owners s !! g = Some p → ¬ active q → (past_wait q = true → past_wait p = true) →
  inv (set_owner g q (remove_entry g s)).
Proof.
  intros [I1 I2 I3] Hp Hq Hw. split; cbn [set_owner remove_entry table owners readers foreign]; [done| |].
  - intros r g' Hr. destruct (I2 r g' Hr) as (p' & Hp' & Hw'). destruct (decide (g = g')) as [->|].
    + exists q. rewrite lookup_insert_eq. split; [done|]. destruct (past_wait q); [|done].
      specialize (Hw eq_refl). simplify_eq. congruence.
    + exists p'. by rewrite lookup_insert_ne.
  - intros g' p' Hf Hp' Ha'. exfalso. destruct (decide (g = g')) as [->|Hne].
    + rewrite lookup_insert_eq in Hp'. by simplify_eq.
    + rewrite lookup_insert_ne in Hp' by done. destruct (table s) as [g''|] eqn:Et.
      * case_decide; [|done]. pose proof (I3 g' p' Hf Hp' Ha'). congruence.
      * by pose proof (I3 g' p' Hf Hp' Ha').
Qed.

Lemma set_reader_inv r x s :
  inv s → (∀ g, x = Subscribed g false → ∃ p, owners s !! g = Some p ∧ past_wait p = false) → inv (set_reader r x s).
Proof.
  intros [I1 I2 I3] Hx. split; [done| |done]. intros r' g. cbn [set_reader readers owners].
  destruct (decide (r = r')) as [->|].
  - rewrite lookup_insert_eq. intros [= ->]. by apply Hx.
  - rewrite lookup_insert_ne by done. apply I2.
Qed.

Lemma del_reader_inv r s : inv s → inv (del_reader r s).
Proof.
  intros [I1 I2 I3]. split; [done| |done]. intros r' g. cbn [del_reader readers owners].
  intros [_ Hr]%lookup_delete_Some. by eapply I2.
Qed.

Lemma table_step_inv s s' : step s s' → inv s → inv s'.
Proof.
  intros Hs Hi. destruct Hs as
    [g s Ht Ho|g r s Ht Hr|g s Ho|p g s Ho Hp|g r s Ho Hr|g r p s Hr Ho Ht|g r m s Hr Ho|r x s Hr
    |g s Ho|g s Ho|ok g s Ho Hn|g s Ho Hn|g s Ho|p g s Ho Hp].
  - destruct Hi as [I1 I2 I3]. split; cbn [set_owner table owners readers foreign].
    + intros g' [= <-]. exists NoTemp. by rewrite lookup_insert_eq.
    + intros r g' Hr. destruct (I2 r g' Hr) as (p & Hp & Hw). exists p. rewrite lookup_insert_ne by congruence. done.
    + intros g' p Hf Hp Ha. destruct (decide (g = g')) as [->|]; [done|]. rewrite lookup_insert_ne in Hp by done.
      pose proof (I3 g' p Hf Hp Ha). congruence.
  - apply set_reader_inv; [done|]. intros ? [=].
  - by eapply set_owner_inv.
  - eapply remove_owner_inv; [done|done|by intros []|by destruct Hp as [->| ->]].
  - apply set_reader_inv; [|intros ? [=]]. by eapply set_owner_inv.
  - apply set_reader_inv; [done|]. intros g' [= <- Hw]. eauto.
  - apply del_reader_inv. destruct Hi as [I1 I2 I3]. split; [done|apply I2|].
    intros g' p Hf Hp Ha. exfalso. cbn [remove_entry foreign owners] in Hf, Hp.
    destruct (table s) as [g''|] eqn:Et.
    + case_decide as Eg; [|done]. subst g''. pose proof (I3 g' p Hf Hp Ha). simplify_eq. done.
    + by pose proof (I3 g' p Hf Hp Ha).
  - by apply del_reader_inv.
  - eapply remove_owner_inv; [done|done|by intros []|done].
  - by eapply set_owner_inv.
  - eapply remove_owner_inv; [done|done|by destruct ok; intros []|by destruct ok].
  - eapply set_owner_inv; [done|done|done|]. by left.
  - eapply set_owner_inv; [done|done|done|]. by right.
  - eapply remove_owner_inv; [done|done|by intros []|by destruct Hp as [->| ->]].
Qed.

Lemma reachable_inv s : reachable s → inv s.
Proof.
  unfold reachable. assert (inv init) as H0 by (split; [done|intros r g; cbn; by rewrite lookup_empty|intros g p; cbn; by rewrite lookup_empty]).
  revert H0. generalize init. intros s0 H0 Hr. induction Hr as [|s1 s2 s3 H12 _ IH]; [done|]. apply IH. by eapply table_step_inv.
Qed.

(** ** Theorems *)

(** C17: The table in every interleaving of requests, cancellations, workers and
    readers: an entry always belongs to a download that will still remove it, so
    when all downloads have ended the table is empty; a reader that subscribed
    before the worker's last look keeps its temporary file from being moved; and
    as long as no entry was removed by somebody else, the active download of
    the file is the only one. *)
Theorem download_table_safe s :
  reachable s →
  (∀ g, table s = Some g → ∃ p, owners s !! g = Some p ∧ active p) ∧
  ((∀ g p, owners s !! g = Some p → ∃ temp moved, p = Ended temp moved) → table s = None) ∧
  (∀ r g, readers s !! r = Some (Subscribed g false) →
     ∃ p, owners s !! g = Some p ∧ p ≠ Importing ∧ p ≠ Imported ∧ ∀ temp, p ≠ Ended temp true) ∧
  (foreign s = 0 → ∀ g1 g2 p1 p2, owners s !! g1 = Some p1 → owners s !! g2 = Some p2 →
     active p1 → active p2 → g1 = g2).
Proof.
  intros [I1 I2 I3]%reachable_inv. split_and!.
  - exact I1.
  - intros He. destruct (table s) as [g|]; [|done]. destruct (I1 g eq_refl) as (p & Hp & Ha).
    by destruct (He g p Hp) as (t & m & ->).
  - intros r g Hr. destruct (I2 r g Hr) as (p & Hp & Hw). exists p. split_and!; [done|..]; intros; by intros ->.
  - intros Hf g1 g2 p1 p2 H1 H2 A1 A2. pose proof (I3 g1 p1 Hf H1 A1). pose proof (I3 g2 p2 Hf H2 A2). congruence.
Qed.

(** The second wait does not exclude a late reader: a request that has cloned the
    entry but not subscribed is not seen by either wait, and finds the file moved. *)
Theorem late_reader_loses_file :
  ∃ s, reachable s ∧ readers s !! 1 = Some (Subscribed 0 true) ∧ owners s !! 0 = Some Imported.
Proof.
  eexists. split.
  - unfold reachable, init.
    eapply rtc_l; [by apply (lead 0)|]. eapply rtc_l; [by apply (create_temp 0)|].
    eapply rtc_l; [by apply (spawn 0 0)|]. eapply rtc_l; [by apply (follow 0 1)|].
    eapply rtc_l; [by apply (reader_done 0 (Cloned 0))|]. eapply rtc_l; [by apply (worker_completes 0)|].
    eapply rtc_l; [apply (worker_removes true 0); [done|]|].
    { intros r late Hr. cbn in Hr. apply lookup_delete_Some in Hr as [_ Hr].
      apply lookup_insert_Some in Hr as [[_ [=]]|[_ Hr]]. apply lookup_insert_Some in Hr as [[_ [=]]|[_ Hr]]. done. }
    eapply rtc_l; [apply (worker_waits_again 0); [done|]|].
    { intros r late Hr. cbn in Hr. apply lookup_delete_Some in Hr as [_ Hr].
      apply lookup_insert_Some in Hr as [[_ [=]]|[_ Hr]]. apply lookup_insert_Some in Hr as [[_ [=]]|[_ Hr]]. done. }
    eapply rtc_l; [by apply (worker_imports 0)|]. eapply rtc_l; [by eapply (subscribe 0 1 Imported)|]. apply rtc_refl.
  - split; reflexivity.
Qed.

(** The guard of a finished download removes the entry of the next one, and a
    third request starts a second download of the same file. *)
Theorem two_downloads :
  ∃ s, reachable s ∧ owners s !! 1 = Some Downloading ∧ owners s !! 2 = Some Downloading.
Proof.
  eexists. split.
  - unfold reachable, init.
    eapply rtc_l; [by apply (lead 0)|]. eapply rtc_l; [by apply (create_temp 0)|].
    eapply rtc_l; [by apply (spawn 0 0)|]. eapply rtc_l; [by apply (reader_done 0 (Cloned 0))|].
    eapply rtc_l; [by apply (worker_completes 0)|].
    eapply rtc_l; [apply (worker_removes false 0); [done|]|].
    { intros r late Hr. cbn in Hr. apply lookup_delete_Some in Hr as [_ Hr].
      apply lookup_insert_Some in Hr as [[_ [=]]|[_ Hr]]. done. }
    eapply rtc_l; [by apply (lead 1)|]. eapply rtc_l; [by apply (create_temp 1)|].
    eapply rtc_l; [by apply (spawn 1 1)|].
    eapply rtc_l; [apply (worker_returns HashWrong 0); [done|by right]|].
    eapply rtc_l; [by apply (lead 2)|]. eapply rtc_l; [by apply (create_temp 2)|].
    eapply rtc_l; [by apply (spawn 2 2)|]. apply rtc_refl.
  - split; reflexivity.
Qed.

(** The import waits for a moment without readers, so a file that is always being
    read is not imported: there are runs of every length in which the download
    stays complete. *)
Theorem popular_file_waits n :
  ∃ s k, n ≤ k ∧ nsteps step k init s ∧ owners s !! 0 = Some Complete ∧ readers s !! n = Some (Subscribed 0 false).
Proof.
  assert (∃ s k, n ≤ k ∧ nsteps step k init s ∧ owners s !! 0 = Some Complete ∧ readers s !! n = Some (Subscribed 0 false) ∧
    table s = Some 0 ∧ ∀ r, n < r → readers s !! r = None) as (s & k & ? & ? & ? & ? & _); [|eauto 6].
  induction n as [|n (s & k & Hk & Hs & Ho & Hr & Ht & Hn)].
  - eexists _, 5. split; [lia|]. split.
    + eapply nsteps_l; [by apply (lead 0)|]. eapply nsteps_l; [by apply (create_temp 0)|].
      eapply nsteps_l; [by apply (spawn 0 0)|]. eapply nsteps_l; [by apply (subscribe 0 0 Downloading)|].
      eapply nsteps_l; [by apply (worker_completes 0)|]. apply nsteps_O.
    + split_and!; try done. intros r Hr. cbn. by rewrite !lookup_insert_ne by lia.
  - exists (del_reader n (set_reader (S n) (Subscribed 0 false) (set_reader (S n) (Cloned 0) s))), (k + 3).
    split; [lia|]. split; [eapply nsteps_trans; [exact Hs|]|].
    + eapply nsteps_l; [apply (follow 0 (S n)); [done|apply Hn; lia]|].
      eapply nsteps_l; [apply (subscribe 0 (S n) Complete); [cbn; by rewrite lookup_insert_eq|done|done]|].
      eapply nsteps_l; [|apply nsteps_O]. apply (reader_done n (Subscribed 0 false)). cbn. by rewrite !lookup_insert_ne by lia.
    + split_and!; cbn; [done| |done|].
      * by rewrite lookup_delete_ne, lookup_insert_eq by lia.
      * intros r Hlt. rewrite lookup_delete_ne, !lookup_insert_ne by lia. apply Hn. lia.
Qed.

(** ** Witnesses *)

(** Two requests share a download. *)
Lemma download_table_safe_witness :
  ∃ s, reachable s ∧ table s = Some 0 ∧ readers s !! 1 = Some (Subscribed 0 false) ∧
    ∃ p, owners s !! 0 = Some p ∧ p ≠ Importing.
Proof.
  eexists. assert (reachable (set_reader 1 (Subscribed 0 false) (set_reader 1 (Cloned 0)
    (set_reader 0 (Cloned 0) (set_owner 0 Downloading (set_owner 0 Fetching (set_owner 0 NoTemp (mkState (Some 0) ∅ ∅ 0)))))))) as Hr.
  { eapply rtc_l; [by apply (lead 0)|]. eapply rtc_l; [by apply (create_temp 0)|].
    eapply rtc_l; [by apply (spawn 0 0)|]. eapply rtc_l; [by apply (follow 0 1)|].
    eapply rtc_l; [by apply (subscribe 0 1 Downloading)|]. apply rtc_refl. }
  split; [exact Hr|]. split; [reflexivity|]. split; [reflexivity|].
  destruct (download_table_safe _ Hr) as (_ & _ & Hf & _).
  destruct (Hf 1 0 eq_refl) as (p & Hp & Hn & _). by exists p.
Defined.
