(* ===== verification/SharedDownload.v ===== *)
(** * SharedDownload: the requests for one file, with their bytes

    [src/src/route/cache.rs], [hath] after a cache miss, and the cache behind it: one
    state for the table of downloads ([DownloadTable]), the workers and the bytes
    they write ([Download]), the streams of the clients that follow a temporary file
    while it grows, and the cache ([CacheSpec.Spec]).  An action is what one task
    does between two points at which others may run; a list of actions is an
    interleaving.  The file system may show a write later than the progress
    announces it, and a read may see more than was announced. *)

From S2P Require Import Prelude Text Extern FileId FileReader CacheStore CacheRead CacheSpec Download DownloadTable.
From stdpp Require Import base gmap list strings numbers relations.

Local Open Scope Z_scope.

(** ** State *)

(** A download: the writes its worker still makes and how it will end, the temporary
    file, how many bytes of it readers see, and the announced progress. *)
Record dl := mkDl {
  d_left : list bytes;
  d_end : worker_end;
  d_file : bytes;
  d_visible : nat;
  d_sent : Z;
  d_moved : bool             (* the import has renamed the file *)
}.

(** A client's stream: before it opens the file, reading, or ended: with the whole
    file, early (dropped, timed out or the channel closed), with 404, or by the
    [unwrap] of a failed open. *)
Inductive stream_phase := SWaiting | SReading | SDone | SStopped | SNotFound | SPanic.

Record stream := mkStream {
  st_gen : nat;
  st_late : bool;            (* subscribed after the worker's last look at the readers *)
  st_recv : bytes;           (* what was sent to the client; its length is [read_off] *)
  st_write : Z;              (* [write_off] *)
  st_phase : stream_phase
}.

Record shared := mkShared {
  sh_table : DownloadTable.state;
  sh_dls : gmap nat dl;
  sh_streams : gmap nat stream;
  sh_cache : Spec.acache;
  sh_log : list Spec.label             (* the operations on the cache so far *)
}.

Definition sh_init (a : Spec.acache) : shared := mkShared DownloadTable.init ∅ ∅ a [].

(** How the import ends: by renaming, by copying, or not at all, in which case the
    contents the cache had before may be lost.  The beginning of the file that a copy
    may leave when it fails half way has the wrong length and is not served
    ([get_file] compares the length), so it is no contents of the abstract cache. *)
Inductive import_way := ByRename | ByCopy | NotImported (lost : bool).

(** ** Actions *)

Inductive action :=
(* requests that miss *)
| ALead (g : nat)
| AFollow (r : nat)
| ATemp (g : nat)
| ALeave (g : nat)
| ASpawn (g r : nat) (attempts : nat → attempt) (sources : list string) (has_proxy : bool) (pieces : list bytes)
| ASubscribe (r : nat)
| ANoTemp (r : nat)
| ADrop (r : nat)
(* the worker *)
| AWrite (g : nat)
| AAnnounce (g : nat)
| AVisible (g n : nat)
| AEnd (g : nat)
| ARemove (g : nat)
| AWaitAgain (g : nat)
| AImport (g : nat) (way : import_way)
| AReturn (g : nat)
(* the streams *)
| AOpen (r : nat)
| ANotFound (r : nat)
| ARead (r n : nat)
| AWatch (r : nat)
(* the cache: reads, and what others do with it *)
| AHit (k : string) (offset : option Z) (partial : bool) (n : nat)
| APut (k : string) (b : bytes)
| AEvict (ks : list string).

Section system.
Context `{HexCodec, Digest}.
Variable info : CacheFileInfo.

(** The contents have the digest of the identifier. *)
Definition verified (k : string) (b : bytes) : bool :=
  match from_file_id k with Some i => bool_decide (digest b = fi_hash i) | None => false end.

Definition set_table (t : DownloadTable.state) (s : shared) : shared :=
  mkShared t (sh_dls s) (sh_streams s) (sh_cache s) (sh_log s).
Definition set_dl (g : nat) (d : dl) (s : shared) : shared :=
  mkShared (sh_table s) (<[g := d]> (sh_dls s)) (sh_streams s) (sh_cache s) (sh_log s).
Definition set_stream (r : nat) (x : stream) (s : shared) : shared :=
  mkShared (sh_table s) (sh_dls s) (<[r := x]> (sh_streams s)) (sh_cache s) (sh_log s).
Definition set_cache (a : Spec.acache) (l : Spec.label) (s : shared) : shared :=
  mkShared (sh_table s) (sh_dls s) (sh_streams s) a (sh_log s ++ [l]).

(** [guard]s as in the code: an action that is not enabled does nothing. *)
Definition owner (g : nat) (s : shared) : option owner_pc := owners (sh_table s) !! g.
Definition fresh (r : nat) (s : shared) : bool :=
  bool_decide (readers (sh_table s) !! r = None) && bool_decide (sh_streams s !! r = None).
Definition reads (g : nat) (x : reader_pc) : bool :=
  match x with Subscribed g' _ => bool_decide (g' = g) | Cloned _ => false end.
Definition unread (g : nat) (s : shared) : bool :=
  bool_decide (map_Forall (λ _ x, reads g x = false) (readers (sh_table s))).
(** Something was announced on the progress channel. *)
Definition announced (p : owner_pc) (d : dl) : bool :=
  (0 <? d_sent d) || match p with NoTemp | Fetching | Downloading => false | _ => true end.

(** A stream that ends: its receiver is dropped. *)
Definition end_stream (r : nat) (x : stream) (ph : stream_phase) (s : shared) : shared :=
  set_table (del_reader r (sh_table s))
    (set_stream r (mkStream (st_gen x) (st_late x) (st_recv x) (st_write x) ph) s).

(** The owner of [g] goes on to phase [p], with the table [t]. *)
Definition goto (g : nat) (p : owner_pc) (t : DownloadTable.state) (s : shared) : shared := set_table (set_owner g p t) s.

Definition sh_request (x : action) (s : shared) : option shared :=
  let t := sh_table s in
  match x with
  | ALead g =>
      if bool_decide (table t = None) && bool_decide (owner g s = None)
      then Some (goto g NoTemp (mkState (Some g) (owners t) (readers t) (foreign t)) s) else None
  | AFollow r =>
      g ← table t;
      if fresh r s then Some (set_table (set_reader r (Cloned g) t) s) else None
  | ATemp g =>
      match owner g s with
      | Some NoTemp => Some (set_dl g (mkDl [] WFailed [] 0 0 false) (goto g Fetching t s))
      | _ => None
      end
  | ALeave g =>
      match owner g s with
      | Some (NoTemp as p) | Some (Fetching as p) => Some (goto g (Ended (has_temp p) false) (remove_entry g t) s)
      | _ => None
      end
  | ASpawn g r attempts sources has_proxy pieces =>
      match owner g s with
      | Some Fetching =>
          let (e, w) := download attempts sources has_proxy (fi_size info) in
          if fresh r s && bool_decide (concat pieces = w_file w)
          then Some (set_dl g (mkDl pieces e [] 0 0 false)
                 (set_table (set_reader r (Cloned g) (set_owner g Downloading t)) s))
          else None
      | _ => None
      end
  | ASubscribe r =>
      match readers t !! r with
      | Some (Cloned g) =>
          p ← owner g s;
          if has_temp p
          then Some (set_stream r (mkStream g (past_wait p) [] 0 SWaiting) (set_table (set_reader r (Subscribed g (past_wait p)) t) s))
          else None
      | _ => None
      end
  | ANoTemp r =>
      match readers t !! r with
      | Some (Cloned g) =>
          match owner g s with
          | Some (Ended false _) => Some (set_table (del_reader r (remove_entry g t)) s)
          | _ => None
          end
      | _ => None
      end
  | ADrop r =>
      match readers t !! r, sh_streams s !! r with
      | Some _, Some x => Some (end_stream r x SStopped s)
      | Some _, None => Some (set_table (del_reader r t) s)
      | None, _ => None
      end
  | _ => None
  end.

(** The worker of [g]. *)
Definition sh_worker (x : action) (s : shared) : option shared :=
  let t := sh_table s in
  match x with
  | AWrite g =>
      d ← sh_dls s !! g;
      match owner g s, d_left d with
      | Some Downloading, p :: ps => Some (set_dl g (mkDl ps (d_end d) (d_file d ++ p) (d_visible d) (d_sent d) (d_moved d)) s)
      | _, _ => None
      end
  | AAnnounce g =>
      d ← sh_dls s !! g;
      match owner g s with
      | Some Downloading => Some (set_dl g (mkDl (d_left d) (d_end d) (d_file d) (d_visible d) (blen (d_file d)) (d_moved d)) s)
      | _ => None
      end
  | AVisible g n =>
      d ← sh_dls s !! g;
      if bool_decide (d_visible d ≤ n ≤ length (d_file d))%nat
      then Some (set_dl g (mkDl (d_left d) (d_end d) (d_file d) n (d_sent d) (d_moved d)) s) else None
  | AEnd g =>
      d ← sh_dls s !! g;
      match owner g s, d_left d, d_end d with
      | Some Downloading, [], WDone _ =>
          Some (set_dl g (mkDl [] (d_end d) (d_file d) (length (d_file d)) (blen (d_file d)) (d_moved d)) (goto g Complete t s))
      | Some Downloading, [], _ => Some (goto g (Ended true false) (remove_entry g t) s)
      | _, _, _ => None
      end
  | ARemove g =>
      d ← sh_dls s !! g;
      match owner g s with
      | Some Complete =>
          if unread g s
          then Some (goto g (if imports info (d_end d) then Removed else HashWrong) (remove_entry g t) s) else None
      | _ => None
      end
  | AWaitAgain g =>
      match owner g s with
      | Some Removed => if unread g s then Some (goto g Importing t s) else None
      | _ => None
      end
  | AImport g way =>
      d ← sh_dls s !! g;
      match owner g s with
      | Some Importing =>
          let k := file_name info in
          let s := goto g Imported t s in
          let s := set_dl g (mkDl (d_left d) (d_end d) (d_file d) (d_visible d) (d_sent d)
                               (match way with ByRename => true | _ => false end)) s in
          Some (match way with
                | NotImported lost => set_cache (if (lost : bool) then delete k (sh_cache s) else sh_cache s) (Spec.PutFailed k) s
                | _ => set_cache (<[k := d_file d]> (sh_cache s)) (Spec.Put k (d_file d)) s
                end)
      | _ => None
      end
  | AReturn g =>
      match owner g s with
      | Some (Imported as p) | Some (HashWrong as p) => Some (goto g (Ended true (past_wait p)) (remove_entry g t) s)
      | _ => None
      end
  | _ => None
  end.

(** The stream of a client. *)
Definition sh_stream (x : action) (s : shared) : option shared :=
  match x with
  | AOpen r =>
      st ← sh_streams s !! r; d ← sh_dls s !! st_gen st; p ← owner (st_gen st) s;
      match st_phase st with
      | SWaiting =>
          if negb (announced p d) then None
          else if d_moved d then Some (end_stream r st SPanic s)
          else Some (set_stream r (mkStream (st_gen st) (st_late st) [] (d_sent d) SReading) s)
      | _ => None
      end
  | ANotFound r =>
      st ← sh_streams s !! r; d ← sh_dls s !! st_gen st; p ← owner (st_gen st) s;
      match st_phase st, p with
      | SWaiting, Ended _ _ => if d_sent d =? 0 then Some (end_stream r st SNotFound s) else None
      | _, _ => None
      end
  | ARead r n =>
      st ← sh_streams s !! r; d ← sh_dls s !! st_gen st;
      match st_phase st with
      | SReading =>
          if blen (st_recv st) <? st_write st then
            let m := (n `min` (d_visible d - length (st_recv st)))%nat in
            if bool_decide (m = 0%nat) then Some s
            else
              let recv := st_recv st ++ take m (drop (length (st_recv st)) (d_file d)) in
              let st := mkStream (st_gen st) (st_late st) recv (st_write st) SReading in
              if blen recv =? fi_size info then Some (end_stream r st SDone s) else Some (set_stream r st s)
          else None
      | _ => None
      end
  | AWatch r =>
      st ← sh_streams s !! r; d ← sh_dls s !! st_gen st;
      match st_phase st with
      | SReading =>
          if blen (st_recv st) <? st_write st then None
          else Some (set_stream r (mkStream (st_gen st) (st_late st) (st_recv st) (d_sent d) SReading) s)
      | _ => None
      end
  | _ => None
  end.

(** The cache: hits, and downloads of other files, deletions and the cleaner. *)
Definition sh_other (x : action) (s : shared) : option shared :=
  let a := sh_cache s in
  match x with
  | AHit k offset partial n =>
      b ← a !! k;
      let bs := take n (if (partial : bool) then from_offset offset b else b) in
      Some (set_cache (if verified k b then a else delete k a) (Spec.Got k offset true (Spec.Bytes partial bs)) s)
  | APut k b => if verified k b then Some (set_cache (<[k := b]> a) (Spec.Put k b) s) else None
  | AEvict ks => Some (set_cache (filter (λ e, e.1 ∉ ks) a) Spec.Evicted s)
  | _ => None
  end.

Definition sh_act (x : action) (s : shared) : option shared :=
  match x with
  | AWrite _ | AAnnounce _ | AVisible _ _ | AEnd _ | ARemove _ | AWaitAgain _ | AImport _ _ | AReturn _ => sh_worker x s
  | AOpen _ | ANotFound _ | ARead _ _ | AWatch _ => sh_stream x s
  | AHit _ _ _ _ | APut _ _ | AEvict _ => sh_other x s
  | _ => sh_request x s
  end.

(** An interleaving. *)
Fixpoint sh_run (l : list action) (s : shared) : option shared :=
  match l with [] => Some s | x :: l => s ← sh_act x s; sh_run l s end.

End system.

(** ** The invariant *)

(** The worker has written everything. *)
Definition written (p : owner_pc) : bool :=
  match p with Complete | Removed | Importing | Imported | HashWrong | Ended _ true => true | _ => false end.
(** ... and the digest was right. *)
Definition accepted (p : owner_pc) : bool :=
  match p with Removed | Importing | Imported | Ended _ true => true | _ => false end.

Definition live (st : stream) : Prop := st_phase st = SWaiting ∨ st_phase st = SReading.

Section invariant.
Context `{HexLaws, DigestLaws}.
Variable info : CacheFileInfo.

Record dl_ok (p : owner_pc) (d : dl) : Prop := {
  k_plan h : d_end d = WDone h →
    digest (d_file d ++ concat (d_left d)) = h ∧ blen (d_file d ++ concat (d_left d)) = fi_size info;
  k_visible : (d_visible d ≤ length (d_file d))%nat;
  k_start : p = Fetching → d = mkDl [] WFailed [] 0 0 false;
  k_done : written p = true →
    d_left d = [] ∧ d_visible d = length (d_file d) ∧ d_sent d = blen (d_file d) ∧ ∃ h, d_end d = WDone h;
  k_right : accepted p = true → imports info (d_end d) = true;
  k_moved : d_moved d = true → past_wait p = true
}.

Record stream_ok (d : dl) (st : stream) : Prop := {
  k_recv : st_recv st = take (length (st_recv st)) (d_file d);
  k_seen : (length (st_recv st) ≤ d_visible d)%nat;
  k_all : st_phase st = SDone → blen (st_recv st) = fi_size info;
  k_more : st_phase st = SReading → st_recv st = [] ∨ blen (st_recv st) ≠ fi_size info;
  k_late : st_phase st = SPanic → st_late st = true
}.

Record sh_inv (a : Spec.acache) (s : shared) : Prop := {
  v_table : DownloadTable.inv (sh_table s);
  v_dl g d : sh_dls s !! g = Some d → ∃ p, owner g s = Some p ∧ has_temp p = true ∧ dl_ok p d;
  v_temp g p : owner g s = Some p → has_temp p = true → is_Some (sh_dls s !! g);
  v_stream r st : sh_streams s !! r = Some st → ∃ d, sh_dls s !! st_gen st = Some d ∧ stream_ok d st ∧
    (live st → readers (sh_table s) !! r = Some (Subscribed (st_gen st) (st_late st)));
  v_cache : Spec.steps a (sh_log s) (sh_cache s);
  v_puts k b : Spec.Put k b ∈ sh_log s → Spec.right k b
}.

(** ** Lemmas *)

(** The table sees a step of [DownloadTable] or nothing. *)
Lemma unread_spec g s : unread g s = true ↔ no_receiver g (sh_table s).
Proof.
  unfold unread, no_receiver. rewrite bool_decide_eq_true. split.
  - intros Hf r late Hr. specialize (Hf r _ Hr). cbn in Hf. by rewrite bool_decide_true in Hf.
  - intros Hn r x Hr. destruct x as [|g' late]; [done|]. cbn. apply bool_decide_eq_false. intros ->. by destruct (Hn r late).
Qed.

Lemma fresh_reader r s : fresh r s = true → readers (sh_table s) !! r = None ∧ sh_streams s !! r = None.
Proof. unfold fresh. rewrite andb_true_iff, !bool_decide_eq_true. done. Qed.

Ltac guards := repeat match goal with
  | H : (_ && _) = true |- _ => apply andb_true_iff in H as [??]
  | H : bool_decide _ = true |- _ => apply bool_decide_eq_true in H
  | H : unread _ _ = true |- _ => apply unread_spec in H
  | H : fresh _ _ = true |- _ => apply fresh_reader in H as [??]
  end.

(** Inversion of an action: its guards, and the state it leads to. *)
Ltac inv_act E :=
  cbn [sh_act sh_request sh_worker sh_stream sh_other] in E; unfold owner in E;
  repeat match type of E with
  | _ ≫= _ = Some _ => apply bind_Some in E as (? & ? & E)
  | context [match ?y with _ => _ end] => destruct y eqn:?; try discriminate E
  end; simplify_eq; guards.

Lemma act_table a x s s' :
  sh_inv a s → sh_act info x s = Some s' → sh_table s' = sh_table s ∨ DownloadTable.step (sh_table s) (sh_table s').
Proof.
  intros Hi E.
  assert (∀ r st, sh_streams s !! r = Some st → live st →
    DownloadTable.step (sh_table s) (del_reader r (sh_table s))) as Hend.
  { intros r st Hst Hl. destruct (v_stream _ _ Hi r st Hst) as (d & _ & _ & Hr). econstructor. by apply Hr. }
  destruct x; inv_act E; cbn [sh_table set_table set_dl set_stream set_cache goto end_stream];
    try (by left); right.
  all: try (by econstructor; eauto). all: try (by eapply Hend; [done|]; unfold live; eauto).
  - apply (worker_removes true); auto.
  - apply (worker_removes false); auto.
Qed.

Lemma stream_ok_grows p d d' st :
  dl_ok p d → d_file d `prefix_of` d_file d' → (d_visible d ≤ d_visible d')%nat → stream_ok d st → stream_ok d' st.
Proof.
  intros Hd [more Hm] Hv [K1 K2 K3 K4 K5]. pose proof (k_visible _ _ Hd). split; try done; [|lia].
  rewrite Hm, take_app_le by lia. done.
Qed.

(** A generation goes on: its phase, its bytes, or both; readers stay. *)
Lemma gen_inv a s g p' d' t' :
  sh_inv a s → DownloadTable.inv t' → owners t' = <[g := p']> (owners (sh_table s)) → readers t' = readers (sh_table s) →
  has_temp p' = true → dl_ok p' d' →
  (∀ d, sh_dls s !! g = Some d → d_file d `prefix_of` d_file d' ∧ (d_visible d ≤ d_visible d')%nat) →
  sh_inv a (set_dl g d' (set_table t' s)).
Proof.
  intros [V1 V2 V3 V4 V5 V6] Ht Ho Hr Hp Hd Hgrow. split; cbn [sh_table sh_dls sh_streams sh_cache sh_log set_dl set_table]; try done.
  - intros g1 d1. unfold owner. cbn [sh_table set_dl set_table]. rewrite Ho. intros [[<- <-]|[Hne Hd1]]%lookup_insert_Some.
    + exists p'. by rewrite lookup_insert_eq.
    + rewrite lookup_insert_ne by done. by apply V2.
  - intros g1 p1. unfold owner. cbn [sh_table set_dl set_table]. rewrite Ho. intros [[<- <-]|[Hne Hp1]]%lookup_insert_Some Ht1.
    + rewrite lookup_insert_eq. eauto.
    + rewrite lookup_insert_ne by done. by eapply V3.
  - intros r st Hst. destruct (V4 r st Hst) as (d & Hd1 & Hok & Hl). rewrite Hr.
    destruct (decide (g = st_gen st)) as [->|Hne].
    + exists d'. rewrite lookup_insert_eq. split_and!; [done| |done]. destruct (Hgrow d Hd1).
      destruct (V2 _ _ Hd1) as (p & _ & _ & Hdok). by eapply stream_ok_grows.
    + exists d. by rewrite lookup_insert_ne.
Qed.

(** ... a new phase alone. *)
Lemma phase_inv a s g p' d t' :
  sh_inv a s → DownloadTable.inv t' → owners t' = <[g := p']> (owners (sh_table s)) → readers t' = readers (sh_table s) →
  sh_dls s !! g = Some d → has_temp p' = true → dl_ok p' d → sh_inv a (set_table t' s).
Proof.
  intros Hi Ht Ho Hr Hd Hp Hok. pose proof (gen_inv a s g p' d t' Hi Ht Ho Hr Hp Hok) as Hg.
  assert (set_dl g d (set_table t' s) = set_table t' s) as <-; [|apply Hg; intros ? ?; simplify_eq; by split].
  unfold set_dl, set_table. cbn. by rewrite insert_id.
Qed.

(** ... bytes alone. *)
Lemma bytes_inv a s g p d d' :
  sh_inv a s → owner g s = Some p → sh_dls s !! g = Some d → dl_ok p d' →
  d_file d `prefix_of` d_file d' → (d_visible d ≤ d_visible d')%nat → sh_inv a (set_dl g d' s).
Proof.
  intros Hi Hp Hd Hok Hf Hv. destruct (v_dl _ _ Hi g d Hd) as (p1 & Hp1 & Ht & _). simplify_eq.
  assert (set_dl g d' s = set_dl g d' (set_table (sh_table s) s)) as -> by (by destruct s).
  eapply gen_inv; try done; [apply Hi|by rewrite insert_id|]. intros ? ?. by simplify_eq.
Qed.

(** A reader that has no stream, in the table alone. *)
Lemma readers_inv a s t' :
  sh_inv a s → DownloadTable.inv t' → owners t' = owners (sh_table s) →
  (∀ r st, sh_streams s !! r = Some st → live st → readers t' !! r = readers (sh_table s) !! r) → sh_inv a (set_table t' s).
Proof.
  intros [V1 V2 V3 V4 V5 V6] Ht Ho Hr. split; cbn [sh_table sh_dls sh_streams sh_cache sh_log set_table]; try done.
  - intros g d Hd. unfold owner. cbn. rewrite Ho. by apply V2.
  - intros g p. unfold owner. cbn. rewrite Ho. apply V3.
  - intros r st Hst. destruct (V4 r st Hst) as (d & Hd & Hok & Hl). exists d. split_and!; [done..|].
    intros Hlive. by rewrite (Hr r st Hst Hlive), Hl.
Qed.

(** A stream goes on or ends, with its receiver in the table. *)
Lemma stream_inv a s r st d t' :
  sh_inv a s → DownloadTable.inv t' → owners t' = owners (sh_table s) →
  (∀ r', r' ≠ r → readers t' !! r' = readers (sh_table s) !! r') →
  sh_dls s !! st_gen st = Some d → stream_ok d st →
  (live st → readers t' !! r = Some (Subscribed (st_gen st) (st_late st))) →
  sh_inv a (set_stream r st (set_table t' s)).
Proof.
  intros [V1 V2 V3 V4 V5 V6] Ht Ho Hr Hd Hok Hlive.
  split; cbn [sh_table sh_dls sh_streams sh_cache sh_log set_stream set_table]; try done.
  - intros g1 d1 Hd1. unfold owner. cbn. rewrite Ho. by apply V2.
  - intros g1 p1. unfold owner. cbn. rewrite Ho. apply V3.
  - intros r1 st1 [[<- <-]|[Hne Hst1]]%lookup_insert_Some; [by exists d|]. rewrite Hr by done. by apply V4.
Qed.

Lemma cache_inv_step a s l a' :
  sh_inv a s → Spec.step (sh_cache s) l a' → (∀ k b, l = Spec.Put k b → Spec.right k b) → sh_inv a (set_cache a' l s).
Proof.
  intros [V1 V2 V3 V4 V5 V6] Hs Hp. split; cbn [sh_table sh_dls sh_streams sh_cache sh_log set_cache]; try done.
  - eapply Spec.steps_snoc; done.
  - intros k b [Hin|Hin%list_elem_of_singleton]%elem_of_app; [by apply V6|by apply Hp].
Qed.

Lemma verified_right k b : verified k b = true ↔ Spec.right k b.
Proof.
  unfold verified, Spec.right. destruct (from_file_id k) as [i|]; [rewrite bool_decide_eq_true|]; naive_solver.
Qed.

Lemma other_inv a x s s' : sh_inv a s → sh_other x s = Some s' → sh_inv a s'.
Proof.
  intros Hi E. destruct x as [| | | | | | | | | | | | | | | | | | | |k offset partial n|k b|ks]; try discriminate E; cbn [sh_other] in E.
  - apply bind_Some in E as (b & Hb & [= <-]). apply cache_inv_step; [done| |by intros ? ? [=]].
    destruct (verified k b) eqn:Hv; [eapply Spec.got_bytes; [done|]; by apply prefix_take|].
    eapply Spec.got_corrupt; [done| |by apply prefix_take]. rewrite <- verified_right. congruence.
  - destruct (verified k b) eqn:Hv; [|done]. injection E as <-. apply cache_inv_step; [done|constructor|].
    intros ? ? [= <- <-]. by apply verified_right.
  - injection E as <-. apply cache_inv_step; [done| |by intros ? ? [=]]. constructor. apply map_filter_subseteq.
Qed.

Lemma request_inv a x s s' :
  sh_inv a s → DownloadTable.inv (sh_table s') → sh_request info x s = Some s' → sh_inv a s'.
Proof.
  intros Hi Ht E. destruct x; inv_act E; unfold goto in *; cbn [sh_table set_table set_dl set_stream end_stream] in Ht.
  - (* ALead *) destruct Hi as [V1 V2 V3 V4 V5 V6].
    split; cbn [sh_table sh_dls sh_streams sh_cache sh_log set_table]; try done; unfold owner; cbn.
    + intros g1 d1 Hd1. destruct (V2 _ _ Hd1) as (p & Hp & Hrest). unfold owner in Hp. exists p.
      rewrite lookup_insert_ne by congruence. done.
    + intros g1 p1 [[<- <-]|[Hne Hp]]%lookup_insert_Some Htemp; [done|]. by eapply V3.
  - (* AFollow *) apply readers_inv; [done..|]. intros r1 st1 Hst _. cbn. rewrite lookup_insert_ne by congruence. done.
  - (* ATemp *) eapply gen_inv; [done|exact Ht|done..| |].
    + by split.
    + intros d Hd. destruct (v_dl _ _ Hi _ _ Hd) as (p & Hp & Htemp & _). unfold owner in Hp. by simplify_eq.
  - (* ALeave before the file *) destruct Hi as [V1 V2 V3 V4 V5 V6].
    split; cbn [sh_table sh_dls sh_streams sh_cache sh_log set_table]; try done; unfold owner; cbn.
    + intros g1 d1 Hd1. destruct (V2 _ _ Hd1) as (p & Hp & Htemp & Hrest). unfold owner in Hp. exists p.
      rewrite lookup_insert_ne; [done|]. intros ->. by simplify_eq.
    + intros g1 p1 [[<- <-]|[Hne Hp]]%lookup_insert_Some Htemp; [done|]. by eapply V3.
  - (* ALeave after *) destruct (v_temp _ _ Hi g Fetching) as [d Hd]; [done..|].
    destruct (v_dl _ _ Hi _ _ Hd) as (p & Hp & Htemp & Hok). unfold owner in Hp. simplify_eq.
    eapply phase_inv; [done|exact Ht|done|done|done|done|]. rewrite (k_start _ _ Hok eq_refl). by split.
  - (* ASpawn *) destruct (v_temp _ _ Hi g Fetching) as [d Hd]; [done..|].
    destruct (v_dl _ _ Hi _ _ Hd) as (p & Hp & _ & Hok). unfold owner in Hp. simplify_eq.
    pose proof (k_start _ _ Hok eq_refl) as ->.
    set (t1 := set_owner g Downloading (sh_table s)).
    assert (sh_inv a (set_dl g (mkDl pieces w [] 0 0 false) (set_table t1 s))) as Hi1.
    { eapply gen_inv; [done| |done..| |]; [eapply set_owner_inv; [apply Hi|done|done|done]| |].
      - split; try done. intros h Hh. cbn [d_end] in Hh. subst w. cbn [d_file d_left app]. match goal with H : concat pieces = _ |- _ => rewrite H end. by eapply download_done.
      - intros d1 Hd1. by simplify_eq. }
    apply (readers_inv a _ (set_reader r (Cloned g) t1)) in Hi1; [done|done|done|].
    intros r1 st1 Hst _. cbn. rewrite lookup_insert_ne by (intros ->; cbn in Hst; congruence). done.
  - (* ASubscribe *) edestruct (v_temp _ _ Hi g) as [d Hd]; [done..|].
    eapply stream_inv; [done|exact Ht|done| |exact Hd| |].
    + intros r1 Hne. cbn. by rewrite lookup_insert_ne.
    + split; try done; cbn; lia.
    + intros _. cbn. by rewrite lookup_insert_eq.
  - (* ANoTemp *) apply readers_inv; [done..|]. intros r1 st1 Hst Hl. cbn. rewrite lookup_delete_ne; [done|]. intros ->.
    destruct (v_stream _ _ Hi r1 st1 Hst) as (d & _ & _ & Hr). rewrite Hr in * by done. done.
  - (* ADrop of a stream *) destruct (v_stream _ _ Hi _ _ ltac:(eassumption)) as (d & Hd & Hok & _).
    eapply stream_inv; [done|exact Ht|done| |exact Hd| |].
    + intros r1 Hne. cbn. by rewrite lookup_delete_ne.
    + destruct Hok as [K1 K2 K3 K4 K5]. by split.
    + intros [|]; done.
  - apply readers_inv; [done..|]. intros r1 st1 Hst Hl. cbn. rewrite lookup_delete_ne; [done|]. congruence.
Qed.

(** A phase after the writes, with the bytes as they are. *)
Lemma dl_ok_phase p p' d :
  dl_ok p d → p' ≠ Fetching → (written p' = true → written p = true) →
  (accepted p' = true → imports info (d_end d) = true) → (past_wait p = true → past_wait p' = true) → dl_ok p' d.
Proof. intros [K1 K2 K3 K4 K5 K6] Hp Hw Ha Hm. split; try done; auto. Qed.

Lemma file_right a s g p d :
  info_ok info → sh_inv a s → owner g s = Some p → sh_dls s !! g = Some d → accepted p = true →
  Spec.right (file_name info) (d_file d) ∧ digest (d_file d) = fi_hash info ∧ blen (d_file d) = fi_size info.
Proof.
  intros Hinfo Hi Hp Hd Ha. destruct (v_dl _ _ Hi g d Hd) as (p1 & Hp1 & _ & Hok). simplify_eq.
  destruct (k_done _ _ Hok) as (El & _ & _ & h & Eh); [by destruct p as [| | | | | | | |? []]|].
  destruct (k_plan _ _ Hok h Eh) as [Hh Hb]. rewrite El, app_nil_r in Hh, Hb.
  pose proof (k_right _ _ Hok Ha) as Him. rewrite Eh in Him. apply bool_decide_eq_true in Him. subst h.
  split_and!; [|done..]. exists (canonical info). split; [by apply from_file_id_file_name|done].
Qed.

Lemma import_inv a g way s s' :
  info_ok info → sh_inv a s → DownloadTable.inv (sh_table s') → sh_worker info (AImport g way) s = Some s' → sh_inv a s'.
Proof.
  intros Hinfo Hi Ht E. cbn [sh_worker] in E. apply bind_Some in E as (d & Hd & E).
  destruct (owner g s) as [[]|] eqn:Hp; try discriminate E. injection E as E.
  destruct (file_right a s g Importing d Hinfo Hi Hp Hd eq_refl) as (Hr & _).
  destruct (v_dl _ _ Hi g d Hd) as (p & Hp1 & _ & Hok). simplify_eq. unfold goto in *.
  set (s1 := set_dl g _ _) in *.
  assert (sh_inv a s1) as Hi1.
  { eapply gen_inv; [done| |done..| |intros d1 Hd1; by simplify_eq].
    - eapply set_owner_inv; [apply Hi|exact Hp|done|by right].
    - destruct Hok as [K1 K2 K3 K4 K5 K6]. by split. }
  destruct way as [| |lost]; (apply cache_inv_step; [done| |]); try (intros ? ? [=]; by subst); try constructor.
  destruct lost; constructor.
Qed.

Lemma worker_inv a x s s' :
  info_ok info → sh_inv a s → DownloadTable.inv (sh_table s') → sh_worker info x s = Some s' → sh_inv a s'.
Proof.
  intros Hinfo Hi Ht E. destruct x as [| | | | | | | | | | | | | |g way| | | | | | | |]; try discriminate E; [..|by eapply import_inv|]; inv_act E; unfold goto in *;
    cbn [sh_table set_table set_dl set_stream end_stream set_cache] in Ht;
    try (match goal with H : sh_dls s !! _ = Some ?d |- _ =>
           destruct (v_dl _ _ Hi _ _ H) as (p & Hp & Htemp & Hok); pose proof Hp as Hp'; unfold owner in Hp; simplify_eq end).
  - (* AWrite *) eapply bytes_inv; [done..| | |done]; [|by apply prefix_app_r].
    destruct Hok as [K1 K2 K3 K4 K5 K6]. split; try done; cbn; [|rewrite length_app; lia].
    intros h Hh. rewrite <- (assoc_L (++)). specialize (K1 h Hh). match goal with H : d_left _ = _ |- _ => rewrite H in K1 end. done.
  - (* AAnnounce *) eapply bytes_inv; [done..| |done|done]. destruct Hok as [K1 K2 K3 K4 K5 K6]. by split.
  - (* AVisible *) eapply bytes_inv; [done..| |done|cbn; lia]. destruct Hok as [K1 K2 K3 K4 K5 K6]. split; try done; cbn; [lia|..].
    + intros Hf. specialize (K3 Hf). subst. cbn in *. f_equal. lia.
    + intros Hw. destruct (K4 Hw) as (? & ? & ? & ?). split_and!; [done|lia|done|done].
  - (* AEnd, complete *) eapply gen_inv; [done|exact Ht|done..| |].
    + destruct Hok as [K1 K2 K3 K4 K5 K6]. match goal with H : d_left _ = _ |- _ => rewrite H in K1 end.
      split; try done; cbn; [intros h1 [= <-]; by apply K1|eauto].
    + intros d1 Hd1. simplify_eq. split; [done|]. apply Hok.
  - (* AEnd, failed *) eapply phase_inv; [done|exact Ht|done|done|done|done|]. by eapply dl_ok_phase.
  - eapply phase_inv; [done|exact Ht|done|done|done|done|]. by eapply dl_ok_phase.
  - (* ARemove *) eapply phase_inv; [done|exact Ht|done|done|done|done|]. by eapply dl_ok_phase.
  - eapply phase_inv; [done|exact Ht|done|done|done|done|]. by eapply dl_ok_phase.
  - (* AWaitAgain *) destruct (v_temp _ _ Hi g Removed) as [d Hd]; [done..|].
    destruct (v_dl _ _ Hi _ _ Hd) as (p & Hp & _ & Hok). unfold owner in Hp. simplify_eq.
    eapply phase_inv; [done|exact Ht|done|done|done|done|]. eapply dl_ok_phase; try done. by apply Hok.
  - (* AReturn *) destruct (v_temp _ _ Hi g Imported) as [d Hd]; [done..|].
    destruct (v_dl _ _ Hi _ _ Hd) as (p & Hp & _ & Hok). unfold owner in Hp. simplify_eq.
    eapply phase_inv; [done|exact Ht|done|done|done|done|]. eapply dl_ok_phase; try done. by apply Hok.
  - destruct (v_temp _ _ Hi g HashWrong) as [d Hd]; [done..|].
    destruct (v_dl _ _ Hi _ _ Hd) as (p & Hp & _ & Hok). unfold owner in Hp. simplify_eq.
    eapply phase_inv; [done|exact Ht|done|done|done|done|]. by eapply dl_ok_phase.
Qed.

(** The next bytes of a stream. *)
Lemma read_ok d st m :
  stream_ok d st → (length (st_recv st) + m ≤ d_visible d)%nat → (d_visible d ≤ length (d_file d))%nat →
  let recv := st_recv st ++ take m (drop (length (st_recv st)) (d_file d)) in
  length recv = (length (st_recv st) + m)%nat ∧ recv = take (length recv) (d_file d).
Proof.
  intros [K1 K2 K3 K4 K5] Hm Hv recv. assert (length recv = (length (st_recv st) + m)%nat) as El.
  { unfold recv. rewrite length_app, length_take, length_drop. lia. }
  split; [done|]. rewrite El. unfold recv. rewrite K1 at 1. by rewrite take_take_drop.
Qed.

Lemma streams_inv a x s s' :
  sh_inv a s → DownloadTable.inv (sh_table s') → sh_stream info x s = Some s' → sh_inv a s'.
Proof.
  intros Hi Ht E. destruct x as [| | | | | | | | | | | | | | | |r|r|r n|r| | |]; try discriminate E; cbn [sh_stream] in E;
    apply bind_Some in E as (st & Hst & E); apply bind_Some in E as (d & Hd & E);
    destruct (v_stream _ _ Hi r st Hst) as (d1 & Hd1 & Hok & Hlive); simplify_eq.
  - apply bind_Some in E as (p & Hp & E). destruct (st_phase st) eqn:Eph; try discriminate E.
    assert (live st) as Hl by (by left). specialize (Hlive Hl).
    destruct (negb (announced p d)); [done|]. destruct (d_moved d) eqn:Em; injection E as <-.
    + eapply stream_inv; [done|exact Ht|done|by intros; cbn; rewrite lookup_delete_ne|exact Hd| |by intros [|]].
      destruct Hok as [K1 K2 K3 K4 K5]. split; try done. intros _. cbn. destruct (st_late st) eqn:El; [done|].
      destruct (v_dl _ _ Hi _ _ Hd) as (p1 & Hp1 & _ & Hdok). simplify_eq.
      pose proof (k_moved _ _ Hdok Em) as Hw.
      destruct (i_file _ (v_table _ _ Hi) _ _ Hlive) as (p2 & Hp2 & Hw2). unfold owner in Hp. simplify_eq. congruence.
    + assert (∀ x, set_stream r x s = set_stream r x (set_table (sh_table s) s)) as -> by (by destruct s).
      eapply stream_inv; [done|exact Ht|done|done|exact Hd| |done]. split; cbn; [done|lia|done|by auto|done].
  - apply bind_Some in E as (p & Hp & E). destruct (st_phase st) eqn:Eph; try discriminate E.
    destruct p as [| | | | | | | |temp mv]; try discriminate E. destruct (_ =? _); [|done]. injection E as <-.
    eapply stream_inv; [done|exact Ht|done|by intros; cbn; rewrite lookup_delete_ne|exact Hd| |by intros [|]].
    destruct Hok. by split.
  - destruct (st_phase st) eqn:Eph; try discriminate E. specialize (Hlive ltac:(by right)).
    destruct (_ <? _); [|done]. set (m := (n `min` (d_visible d - length (st_recv st)))%nat) in E.
    case_bool_decide as Em; [by simplify_eq|].
    destruct (v_dl _ _ Hi _ _ Hd) as (p & _ & _ & Hdok). pose proof (k_visible _ _ Hdok) as Hv.
    assert (length (st_recv st) + m ≤ d_visible d)%nat as Hm by (pose proof (k_seen _ _ Hok); lia).
    destruct (read_ok d st m Hok Hm Hv) as [El Er]. set (recv := st_recv st ++ _) in *. cbv zeta in E.
    destruct (Z.eqb_spec (blen recv) (fi_size info)) as [Es|Es]; injection E as <-.
    + eapply stream_inv; [done|exact Ht|done|by intros; cbn; rewrite lookup_delete_ne|exact Hd| |by intros [|]].
      split; cbn; [done|lia|done|by auto|done].
    + assert (∀ x, set_stream r x s = set_stream r x (set_table (sh_table s) s)) as -> by (by destruct s).
      eapply stream_inv; [done|exact Ht|done|done|exact Hd| |done]. split; cbn; [done|lia|done|by auto|done].
  - destruct (st_phase st) eqn:Eph; try discriminate E. specialize (Hlive ltac:(by right)).
    destruct (_ <? _); [done|]. injection E as <-.
    assert (∀ x, set_stream r x s = set_stream r x (set_table (sh_table s) s)) as -> by (by destruct s).
    eapply stream_inv; [done|exact Ht|done|done|exact Hd| |done]. destruct Hok as [K1 K2 K3 K4 K5]. split; try done. by intros _; apply K4.
Qed.

Lemma act_inv a x s s' : info_ok info → sh_inv a s → sh_act info x s = Some s' → sh_inv a s'.
Proof.
  intros Hinfo Hi E. assert (DownloadTable.inv (sh_table s')) as Ht.
  { destruct (act_table a x s s' Hi E) as [->|Hs]; [apply Hi|]. eapply table_step_inv; [exact Hs|apply Hi]. }
  destruct x; cbn [sh_act] in E;
    (by eapply request_inv) || (by eapply worker_inv) || (by eapply streams_inv) || (by eapply other_inv).
Qed.

Lemma init_inv a : sh_inv a (sh_init a).
Proof.
  split; cbn; try done.
  - constructor.
  - by intros k b Hin%elem_of_nil.
Qed.

Lemma run_inv a l s s' :
  info_ok info → sh_inv a s → sh_run info l s = Some s' →
  sh_inv a s' ∧ rtc DownloadTable.step (sh_table s) (sh_table s').
Proof.
  intros Hinfo. revert s. induction l as [|x l IH]; intros s Hi E; [by simplify_eq/=|]. cbn [sh_run] in E.
  apply bind_Some in E as (s1 & E1 & E). pose proof (act_inv a x s s1 Hinfo Hi E1) as Hi1.
  destruct (IH s1 Hi1 E) as [Hi' Hr]. split; [done|].
  destruct (act_table a x s s1 Hi E1) as [<-|Hs]; [done|]. by eapply rtc_l.
Qed.

(** ** Progress *)

Lemma sh_run_app l1 l2 s : sh_run info (l1 ++ l2) s = s1 ← sh_run info l1 s; sh_run info l2 s1.
Proof. revert s. induction l1 as [|x l1 IH]; intros s; [done|]. cbn. destruct (sh_act info x s); [apply IH|done]. Qed.

(** The worker alone writes what is left, then completes. *)
Lemma worker_finishes s g d h :
  owner g s = Some Downloading → sh_dls s !! g = Some d → d_end d = WDone h →
  ∃ s', sh_run info (replicate (length (d_left d)) (AWrite g) ++ [AEnd g]) s = Some s' ∧
    owner g s' = Some Complete ∧ sh_streams s' = sh_streams s ∧
    ∃ d', sh_dls s' !! g = Some d' ∧ d_file d' = d_file d ++ concat (d_left d) ∧
      d_visible d' = length (d_file d') ∧ d_sent d' = blen (d_file d').
Proof.
  remember (d_left d) as left eqn:El. revert s d El. induction left as [|p left IH]; intros s d El Hp Hd He; cbn [length replicate app sh_run sh_act].
  - cbn [sh_worker]. rewrite Hd. cbn [mbind option_bind]. rewrite Hp, <- El, He. cbn [mbind option_bind].
    eexists. split; [done|]. split_and!; [apply lookup_insert_eq|done|].
    eexists. split; [apply lookup_insert_eq|]. cbn. by rewrite app_nil_r.
  - cbn [sh_worker]. rewrite Hd. cbn [mbind option_bind]. rewrite Hp, <- El. cbn [mbind option_bind].
    set (d1 := mkDl left (d_end d) (d_file d ++ p) (d_visible d) (d_sent d) (d_moved d)).
    destruct (IH (set_dl g d1 s) d1 eq_refl) as (s' & E & Ho & Hs & d' & Hd' & Hf & Hrest); [done|apply lookup_insert_eq|done|].
    exists s'. split_and!; [exact E|done|done|]. exists d'. split_and!; [done|rewrite Hf; cbn; by rewrite <- (assoc_L (++))|apply Hrest..].
Qed.

(** A stream that has sent what was announced when it looked, looks again. *)
Lemma stream_watches s r st d n :
  sh_streams s !! r = Some st → st_phase st = SReading → sh_dls s !! st_gen st = Some d → stream_ok d st →
  blen (st_recv st) < d_sent d →
  ∃ l1 s1 st1, Forall (λ x, x = AWatch r ∨ x = ARead r n) l1 ∧ (length l1 ≤ 1)%nat ∧ sh_run info l1 s = Some s1 ∧
    sh_streams s1 !! r = Some st1 ∧ sh_dls s1 = sh_dls s ∧ st_gen st1 = st_gen st ∧ st_phase st1 = SReading ∧
    st_recv st1 = st_recv st ∧ blen (st_recv st) < st_write st1 ∧ stream_ok d st1.
Proof.
  intros Hst Hph Hd Hok Hlt.
  destruct (Z.ltb_spec (blen (st_recv st)) (st_write st)) as [Hw|Hw]; [exists [], s, st; split_and!; try done; cbn; lia|].
  exists [AWatch r]. cbn [sh_run sh_act sh_stream]. rewrite Hst. cbn [mbind option_bind]. rewrite Hd. cbn [mbind option_bind].
  rewrite Hph, (proj2 (Z.ltb_ge _ _)) by lia. cbn [mbind option_bind]. eexists _, _. split_and!; [by repeat constructor; left|done|done|apply lookup_insert_eq|done..| |].
  - cbn. lia.
  - destruct Hok as [K1 K2 K3 K4 K5]. by split; try done; intros _; apply K4.
Qed.

(** A stream whose file is complete reads it to the end. *)
Lemma stream_finishes s r st d n k :
  (0 < n)%nat → sh_streams s !! r = Some st → st_phase st = SReading → sh_dls s !! st_gen st = Some d → stream_ok d st →
  blen (d_file d) = fi_size info → d_visible d = length (d_file d) → d_sent d = blen (d_file d) →
  blen (st_recv st) < fi_size info → (length (d_file d) - length (st_recv st) ≤ k)%nat →
  ∃ l s', Forall (λ x, x = AWatch r ∨ x = ARead r n) l ∧ (length l ≤ 2 * k)%nat ∧ sh_run info l s = Some s' ∧
    ∃ st', sh_streams s' !! r = Some st' ∧ st_phase st' = SDone ∧ st_recv st' = d_file d.
Proof.
  intros Hn. revert s st. induction k as [|k IH]; intros s st Hst Hph Hd Hok Hsz Hv Hsent Hlt Hk; [unfold blen in *; lia|].
  destruct (stream_watches s r st d n Hst Hph Hd Hok ltac:(lia))
    as (l1 & s1 & st1 & Hl1 & Hn1 & E1 & Hst1 & Hd1 & Hg1 & Hph1 & Hr1 & Hw1 & Hok1).
  set (m := (n `min` (d_visible d - length (st_recv st)))%nat).
  assert (0 < m ≤ n)%nat as Hm by (unfold m, blen in *; lia).
  assert (length (st_recv st) + m ≤ d_visible d)%nat as Hmv by (unfold m, blen in *; lia).
  destruct (read_ok d st m Hok Hmv ltac:(lia)) as [Elen Etake]. set (recv := st_recv st ++ take m (drop (length (st_recv st)) (d_file d))) in *.
  set (st2 := mkStream (st_gen st1) (st_late st1) recv (st_write st1) SReading).
  assert (sh_act info (ARead r n) s1 = Some (if blen recv =? fi_size info then end_stream r st2 SDone s1 else set_stream r st2 s1)) as Eread.
  { cbn [sh_act sh_stream]. rewrite Hst1. cbn [mbind option_bind]. rewrite Hd1, Hg1, Hd. cbn [mbind option_bind].
    rewrite Hph1, Hr1, (proj2 (Z.ltb_lt _ _)) by done. fold m. rewrite bool_decide_false by lia. fold recv. cbv zeta. unfold st2. rewrite Hg1.
    by destruct (blen recv =? fi_size info). }
  destruct (Z.eqb_spec (blen recv) (fi_size info)) as [Es|Es].
  - exists (l1 ++ [ARead r n]), (end_stream r st2 SDone s1). split_and!.
    + apply Forall_app_2; [done|]. by repeat constructor; right.
    + rewrite length_app. cbn. lia.
    + rewrite sh_run_app, E1. cbn [mbind option_bind sh_run]. by rewrite Eread.
    + eexists. split; [apply lookup_insert_eq|]. split; [done|]. cbn. rewrite Etake. apply take_ge. unfold blen in *. lia.
  - assert (sh_dls (set_stream r st2 s1) !! st_gen st2 = Some d) as Hd2 by (cbn; by rewrite Hd1, Hg1).
    destruct (IH (set_stream r st2 s1) st2) as (l2 & s2 & Hl2 & Hn2 & E2 & Hres); try done.
    + apply lookup_insert_eq.
    + split; cbn; [done|lia|done|by auto|done].
    + cbn. unfold blen in *. lia.
    + cbn. lia.
    + exists (l1 ++ ARead r n :: l2), s2. split_and!; [|rewrite length_app; cbn; lia| |done].
      * apply Forall_app_2; [done|]. constructor; [by right|done].
      * rewrite sh_run_app, E1. cbn [mbind option_bind sh_run]. by rewrite Eread.
Qed.

End invariant.

(** ** Theorems *)

Section theorems.
Context `{HexLaws, DigestLaws}.
Variable info : CacheFileInfo.


(** The bytes do not change who may do what: every interleaving is one of the table
    of downloads, so what was shown of it holds here too. *)
Theorem shared_download_refines a l s :
  info_ok info → sh_run info l (sh_init a) = Some s → DownloadTable.reachable (sh_table s).
Proof. intros Hinfo E. by destruct (run_inv info a l _ _ Hinfo (init_inv info a) E) as [_ Hr]. Qed.

(** C18: A client is not left waiting: in every state that can be reached, if the worker
    of a stream's download is one that will complete, its own writes and then the
    reads of the stream, of any size, bring the stream to its end with all the
    contents; nobody else has to do anything. *)
Theorem shared_reader_finishes a l s r st d h n :
  info_ok info → sh_run info l (sh_init a) = Some s → 0 < fi_size info → (0 < n)%nat →
  sh_streams s !! r = Some st → st_phase st = SReading →
  sh_dls s !! st_gen st = Some d → d_end d = WDone h → owner (st_gen st) s = Some Downloading →
  ∃ l' s', Forall (λ x, x ∈ [AWrite (st_gen st); AEnd (st_gen st); AWatch r; ARead r n]) l' ∧
    sh_run info l' s = Some s' ∧
    ∃ st', sh_streams s' !! r = Some st' ∧ st_phase st' = SDone ∧
      st_recv st' = d_file d ++ concat (d_left d) ∧ digest (st_recv st') = h.
Proof.
  intros Hinfo E Hsz Hn Hst Hph Hd He Hown. destruct (run_inv info a l _ _ Hinfo (init_inv info a) E) as [Hi _].
  destruct (v_dl _ _ _ Hi _ _ Hd) as (p & Hp & _ & Hdok). simplify_eq. destruct (k_plan _ _ _ Hdok h He) as [Hh Hb].
  destruct (worker_finishes info s _ d h Hown Hd He) as (s1 & E1 & Ho1 & Hs1 & d1 & Hd1 & Hf1 & Hv1 & Hsent1).
  destruct (run_inv info a _ _ _ Hinfo Hi E1) as [Hi1 _]. rewrite <- Hs1 in Hst.
  destruct (v_stream _ _ _ Hi1 r st Hst) as (d2 & Hd2 & Hok & _). simplify_eq.
  destruct (stream_finishes info s1 r st d1 n (length (d_file d1))) as (l2 & s2 & Hl2 & _ & E2 & st' & Hst' & Hph' & Hr'); try done.
  - by rewrite Hf1.
  - pose proof (k_seen _ _ _ Hok) as Hseen. destruct (k_more _ _ _ Hok Hph) as [->|Hne]; [exact Hsz|].
    rewrite <- Hf1 in Hb. unfold blen in *. lia.
  - lia.
  - eexists (_ ++ l2), s2. split_and!; [|rewrite sh_run_app, E1; exact E2|].
    + rewrite Forall_app. split; [rewrite Forall_app; split; [apply Forall_replicate|apply Forall_singleton]; set_solver|].
      eapply Forall_impl; [exact Hl2|]. intros x [->| ->]; set_solver.
    + exists st'. rewrite Hr', Hf1. done.
Qed.

End theorems.

(** ** Witnesses *)

(** A download with two clients, one from the beginning and one that joins; then the
    import, and a request that finds the file in the cache. *)
Definition sd_start : list action :=
  [ALead 0; ATemp 0; ASpawn 0 0 three_attempts ["http://a"; "http://b"] true [as_bytes "ab"; as_bytes "cd"; as_bytes "e"];
   ASubscribe 0; AFollow 1; AWrite 0; AAnnounce 0; ASubscribe 1; AVisible 0 1; AOpen 0; ARead 0 4; AWrite 0; AOpen 1].
Definition sd_rest : list action :=
  [AVisible 0 4; ARead 1 9; AWrite 0; AEnd 0; AWatch 1; ARead 1 9; ARead 0 2; AWatch 0; ARead 0 9; ARemove 0; AWaitAgain 0;
   AImport 0 ByRename; AReturn 0; AHit (@file_name hex_ref dl_info) (Some 3) true 9].
Definition sd_mid : shared := default (sh_init ∅) (@sh_run hex_ref toy_digest dl_info sd_start (sh_init ∅)).
Definition sd_end : shared := default (sh_init ∅) (@sh_run hex_ref toy_digest dl_info (sd_start ++ sd_rest) (sh_init ∅)).

Lemma dl_info_ok : info_ok dl_info.
Proof. repeat split; vm_compute; congruence. Qed.


Lemma shared_download_refines_witness : DownloadTable.reachable (sh_table sd_mid).
Proof.
  apply (shared_download_refines (H := hex_ref) (D := toy_digest) dl_info ∅ sd_start sd_mid dl_info_ok). vm_compute. reflexivity.
Defined.

Lemma shared_reader_finishes_witness :
  ∃ l' s' st', @sh_run hex_ref toy_digest dl_info l' sd_mid = Some s' ∧ sh_streams s' !! 1%nat = Some st' ∧
    st_phase st' = SDone ∧ st_recv st' = as_bytes "abcde".
Proof.
  assert (∃ st d, sh_streams sd_mid !! 1%nat = Some st ∧ st_phase st = SReading ∧ sh_dls sd_mid !! st_gen st = Some d ∧
    d_end d = WDone (@digest toy_digest (as_bytes "abcde")) ∧ owner (st_gen st) sd_mid = Some Downloading ∧
    d_file d ++ concat (d_left d) = as_bytes "abcde") as (st & d & E1 & E2 & E3 & E4 & E5 & E6)
    by (eexists _, _; vm_compute; repeat (split; [reflexivity|]); reflexivity).
  destruct (shared_reader_finishes (H := hex_ref) (D := toy_digest) dl_info ∅ sd_start sd_mid 1 st d _ 2 dl_info_ok
    ltac:(vm_compute; reflexivity) ltac:(vm_compute; reflexivity) ltac:(lia) E1 E2 E3 E4 E5)
    as (l' & s' & _ & E & st' & H1 & H2 & H3 & _).
  exists l', s', st'. split; [exact E|]. split; [exact H1|]. split; [exact H2|]. by rewrite H3, E6.
Defined.
