(* ===== verification/Proxy.v ===== *)
(** * Proxy: from a cache miss to the next hit

    [src/src/route/cache.rs], [hath] after a cache miss, for the request that starts
    the download: the temporary file of [CacheManager::create_temp_file]
    ([src/src/cache_manager.rs]), the sources of [RPCClient::sr_fetch], the worker of
    [Download], the import of [CacheStore] and the end of the temporary file.  The
    other requests for the file are in [DownloadTable]; other operations on the
    cache may run before and after each of these steps ([CacheSpec]). *)

From S2P Require Import Prelude Text Extern FileId FileReader Body CacheStore CacheRead CacheCleaner CacheScan CacheLife.
From S2P Require Import CacheSpec Net Rpc RouteCache Download.
From stdpp Require Import base gmap list strings numbers fin_maps relations.

Local Open Scope Z_scope.

(** ** Temporary files *)

Definition temp_prefix : string := "proxyfile_".

(** [CacheManager::create_temp_file]: [suffix] is what the [tempfile] crate draws,
    [ok] whether it could create the file; otherwise [unwrap] panics. *)
Definition create_temp_file (ok : bool) (suffix temp_dir : string) (now : Z) (d : disk) : option (string * disk) :=
  let path := path_push temp_dir (temp_prefix +:+ suffix) in
  if ok then Some (path, <[path := mkNode true [] 0 now]> d) else None.

(** [Drop] of the last [TempPath]. *)
Definition drop_temp (path : string) (d : disk) : disk := delete path d.

(** ** The request that downloads *)

(** What the world answers to it. *)
Record miss_env := mkMiss {
  m_temp_ok : bool;
  m_suffix : string;
  m_attempts : nat → attempt;
  m_proxy : bool;
  m_space : bytes → Z;           (* the disk space of a file with these contents *)
  m_io : faults;
  m_now : Z
}.

Section proxy.
Context `{HexCodec, Digest, UrlHost}.
Variable chrono_ok : Z → bool.
Variable ev : nat → event.

(** How it ends: no sources (404), or with the worker. *)
Inductive miss_end := NoSources | Worked (e : worker_end) (w : worker).

Definition proxy_miss (env : miss_env) (temp_dir : string) (info : CacheFileInfo) (file_index xres file_id : string)
    (d : disk) (c : CacheManager) : rpc (miss_end * (disk * CacheManager)) :=
  match create_temp_file (m_temp_ok env) (m_suffix env) temp_dir (m_now env) d with
  | None => panic
  | Some (tmp, d) =>
      sources ← sr_fetch chrono_ok ev file_index xres file_id;
      match sources with
      | None => mret (NoSources, (drop_temp tmp d, c))
      | Some sources =>
          let (e, w) := download (m_attempts env) sources (m_proxy env) (fi_size info) in
          let d := <[tmp := mkNode true (w_file w) (m_space env (w_file w)) (m_now env)]> d in
          let (d, c) := if imports info e then import_cache (m_io env) (m_now env) info tmp d c else (d, c) in
          mret (Worked e w, (drop_temp tmp d, c))
      end
  end.

(** The response while the file is downloaded: the headers of [hath], the size the
    identifier states, and the stream that follows the temporary file. *)
Definition proxy_response (info : CacheFileInfo) (cd : string) (fuel : nat) (reads : list tmp_read)
    (changes : list (option Z)) (b : bytes) (write_off : Z) : Response :=
  file_response info cd 200 (fi_size info) None None
    (BStream (Channel (serve fuel reads changes b (fi_size info) 0 write_off).2)).

(** What must hold of the world for the accounts: the temporary file is outside
    the ranges, new, and fits the counters; the import can inspect and delete a file
    it replaces, and a copy that fails leaves nothing. *)
Definition miss_ok (env : miss_env) (temp_dir : string) (info : CacheFileInfo) (d : disk) (c : CacheManager) : Prop :=
  let tmp := path_push temp_dir (temp_prefix +:+ m_suffix env) in
  info_ok info ∧ range_of (cache_dir c) tmp = None ∧ d !! tmp = None ∧
  (∀ b, 0 ≤ m_space env b ∧ Z.of_nat (size d) + 2 ≤ u64_max ∧ map_sum real_size d + 2 * m_space env b ≤ u64_max) ∧
  import_io (m_io env) (to_path info (cache_dir c)).

End proxy.
Arguments NoSources {_}.
Arguments Worked {_} e w.

(** ** Lemmas *)

Section facts.
Context `{HexLaws, DigestLaws, UrlHostLaws}.
Variable chrono_ok : Z → bool.
Variable ev : nat → event.

(** The request as a sequence of operations of the cache. *)
Lemma proxy_runs env temp_dir info d c w (imp : bool) :
  miss_ok env temp_dir info d c →
  let tmp := path_push temp_dir (temp_prefix +:+ m_suffix env) in
  let d1 := <[tmp := mkNode true (w_file w) (m_space env (w_file w)) (m_now env)]> d in
  let s := if imp then import_cache (m_io env) (m_now env) info tmp d1 c else (d1, c) in
  let failed := f_mkdir (m_io env) (to_path info (cache_dir c)) ||
                (f_rename (m_io env) (to_path info (cache_dir c)) && f_copy (m_io env) (to_path info (cache_dir c))) in
  cache_inv (cache_dir c) (d, c) →
  runs chrono_ok (d, c)
    ([Spec.Quiet] ++
     (if imp then [if failed then Spec.PutFailed (file_name info) else Spec.Put (file_name info) (w_file w)] else []) ++
     [Spec.Quiet]) (drop_temp tmp s.1, s.2).
Proof.
  intros (Hi & Hr & Hn & Hroom & Hio) tmp d1 s failed Hc. fold tmp in Hr, Hn.
  destruct (Hroom (w_file w)) as (Hsp & Hcnt & Hsz).
  assert (room (m_space env (w_file w)) d1) as Hroom1.
  { unfold room, d1. rewrite map_size_insert_None, map_sum_insert by done. cbn [real_size]. lia. }
  eapply (runs_cons _ (OpTemp tmp (mkNode true (w_file w) (m_space env (w_file w)) (m_now env)))).
  { cbn. split_and!; try done; unfold room; cbn; lia. }
  { reflexivity. }
  fold d1. destruct imp; cbn [app].
  - assert (op_ok (OpImport (m_io env) (m_now env) info tmp) (d1, c)) as Hop.
    { cbn. split_and!; try done. exists (mkNode true (w_file w) (m_space env (w_file w)) (m_now env)).
      unfold d1 at 1. by rewrite lookup_insert_eq. }
    eapply (runs_cons _ (OpImport (m_io env) (m_now env) info tmp)); [done| |].
    { cbn [exec]. unfold d1 at 1. rewrite lookup_insert_eq. reflexivity. }
    pose proof (exec_inv chrono_ok (cache_dir c) (OpImport (m_io env) (m_now env) info tmp) (d1, c) _ _
      ltac:(apply temp_inv; try done; unfold room; cbn; lia) Hop eq_refl) as (_ & _ & Ed).
    unfold s. destruct (import_cache _ _ _ _ _ _) as [d2 c2]. cbn in Ed.
    eapply (runs_cons _ (OpUntemp tmp)); [cbn; by rewrite Ed|reflexivity|constructor].
  - eapply (runs_cons _ (OpUntemp tmp)); [done|reflexivity|constructor].
Qed.

(** The whole request. *)
Lemma proxy_miss_runs env temp_dir info file_index xres file_id d c client log r d' c' client' log' :
  cache_inv (cache_dir c) (d, c) → miss_ok env temp_dir info d c →
  proxy_miss chrono_ok ev env temp_dir info file_index xres file_id d c client log = Some ((r, (d', c')), client', log') →
  ∃ ls, runs chrono_ok (d, c) ls (d', c').
Proof.
  intros Hc Hok E. unfold proxy_miss, create_temp_file in E. destruct (m_temp_ok env); [|done].
  set (tmp := path_push temp_dir (temp_prefix +:+ m_suffix env)) in *.
  pose proof Hok as (Hi & Hr & Hn & _). fold tmp in Hr, Hn.
  unfold mbind, rpc_bind in E. destruct (sr_fetch _ _ _ _ _ client log) as [[[[sources|] client1] log1]|]; [| |done].
  - destruct (download (m_attempts env) sources (m_proxy env) (fi_size info)) as [e w] eqn:Ed.
    rewrite insert_insert_eq in E.
    pose proof (proxy_runs env temp_dir info d c w (imports info e) Hok Hc) as Hruns. cbv zeta in Hruns. fold tmp in Hruns.
    destruct (if imports info e then _ else _) as [d2 c2]. injection E as <- <- <- _ _. cbn [fst snd] in Hruns.
    eexists. exact Hruns.
  - injection E as <- <- <- _ _. exists []. unfold drop_temp. rewrite delete_insert_id by done. constructor.
Qed.

(** What it does to the disk, whatever calls fail. *)
Lemma proxy_miss_disk env temp_dir info file_index xres file_id d c client log r d' c' client' log' :
  let tmp := path_push temp_dir (temp_prefix +:+ m_suffix env) in
  let path := to_path info (cache_dir c) in
  tmp ≠ path → d !! tmp = None →
  proxy_miss chrono_ok ev env temp_dir info file_index xres file_id d c client log = Some ((r, (d', c')), client', log') →
  d' !! tmp = None ∧ (∀ p, p ≠ path → d' !! p = d !! p) ∧
  (∀ n, d' !! path = Some n → d !! path = Some n ∨
    ∃ b k, digest b = fi_hash info ∧ blen b = fi_size info ∧ data n = take k b).
Proof.
  intros tmp path Hne Hn E. unfold proxy_miss, create_temp_file in E. fold tmp in E. destruct (m_temp_ok env); [|done].
  unfold mbind, rpc_bind in E. destruct (sr_fetch _ _ _ _ _ client log) as [[[[sources|] client1] log1]|]; [| |done].
  - destruct (download (m_attempts env) sources (m_proxy env) (fi_size info)) as [e w] eqn:Ed.
    rewrite insert_insert_eq in E. set (n0 := mkNode _ _ _ _) in E.
    destruct (if imports info e then _ else _) as [d2 c2] eqn:Ei. injection E as <- <- <- _ _.
    unfold drop_temp. split; [apply lookup_delete_eq|].
    assert (∀ p, p ≠ tmp → <[tmp:=n0]> d !! p = d !! p) as Hins by (intros; by apply lookup_insert_ne).
    destruct (imports info e) eqn:Him; [|injection Ei as <- <-].
    + destruct (import_cache_disk _ _ _ _ n0 _ _ _ _ (lookup_insert_eq _ _ _) Ei) as (_ & Ho & Hp). fold path in Ho, Hp.
      split.
      * intros p Hpp. destruct (decide (p = tmp)) as [->|Hpt]; [by rewrite lookup_delete_eq|].
        rewrite lookup_delete_ne, Ho by done. by apply Hins.
      * intros n. rewrite lookup_delete_ne by done. destruct (Hp Hne) as [->|[->|(n' & k & -> & Hk)]]; [|done|].
        { rewrite Hins by done. by left. }
        intros [= ->]. right. destruct e as [h| |]; [|done..]. destruct (download_done _ _ _ _ _ _ Ed) as [Hd Hb].
        exists (w_file w), k. split_and!; [rewrite Hd; by apply bool_decide_eq_true in Him|done|done].
    + split; [|intros n; rewrite lookup_delete_ne, Hins by done; by left].
      intros p Hpp. destruct (decide (p = tmp)) as [->|Hpt]; [by rewrite lookup_delete_eq|].
      by rewrite lookup_delete_ne, Hins.
  - injection E as <- <- <- _ _. unfold drop_temp. rewrite delete_insert_id by done. auto.
Qed.

(** A download that succeeds is stored. *)
Lemma proxy_stores env temp_dir info file_index xres file_id d c client log sources client' log' b :
  cache_inv (cache_dir c) (d, c) → miss_ok env temp_dir info d c → m_temp_ok env = true →
  sr_fetch chrono_ok ev file_index xres file_id client log = Some (Some sources, client', log') →
  sources ≠ [] → (∀ k, (k < 3)%nat → benign b (m_attempts env k)) → (∃ k, (k < 3)%nat ∧ complete b (m_attempts env k)) →
  digest b = fi_hash info → blen b = fi_size info →
  let path := to_path info (cache_dir c) in
  f_mkdir (m_io env) path = false → f_rename (m_io env) path = false ∨ f_copy (m_io env) path = false →
  ∃ r d' c', proxy_miss chrono_ok ev env temp_dir info file_index xres file_id d c client log =
      Some ((r, (d', c')), client', log') ∧
    cache_inv (cache_dir c) (d', c') ∧ abs (cache_dir c) d' = <[file_name info := b]> (abs (cache_dir c) d).
Proof.
  intros Hinv Hok Ht Hf Hs Hb Hc Hdig Hsz path Hmk Hplace.
  destruct (worker_loop_resumes b [m_attempts env 0%nat; m_attempts env 1%nat; m_attempts env 2%nat] 0 sources
    (worker_new (m_proxy env))) as (w & Ew & Hw); [done| | | |done|].
  { repeat constructor; apply Hb; lia. }
  { destruct Hc as (k & Hk & Hc). destruct k as [|[|[|k]]]; [by left|by right; left|by right; right; left|lia]. }
  { split_and!; [split; [done|by exists []]|by rewrite take_0|unfold blen; simpl; lia]. }
  assert (imports info (WDone (digest b)) = true) as Him by (cbn; by apply bool_decide_eq_true).
  pose proof (proxy_runs env temp_dir info d c w true Hok Hinv) as Hruns. cbv zeta in Hruns. fold path in Hruns.
  assert (f_mkdir (m_io env) path || (f_rename (m_io env) path && f_copy (m_io env) path) = false) as Hfail
    by (rewrite Hmk; destruct Hplace as [-> | ->]; [done|apply andb_false_r]).
  rewrite Hfail, Hw in Hruns. set (tmp := path_push temp_dir (temp_prefix +:+ m_suffix env)) in *.
  destruct (import_cache (m_io env) (m_now env) info tmp _ c) as [d2 c2] eqn:Ei in Hruns. cbn [fst snd app] in Hruns.
  destruct (runs_sim chrono_ok (cache_dir c) (d, c) _ _ Hruns Hinv) as [Hst Hinv'].
  exists (Worked (WDone (digest b)) w), (drop_temp tmp d2), c2. split_and!; [|done|].
  - unfold proxy_miss, create_temp_file. rewrite Ht. fold tmp. unfold mbind, rpc_bind. rewrite Hf. unfold download.
    rewrite <- Hsz, Ew, Him, insert_insert_eq, Hw, Ei. done.
  - cbn [fst] in Hst. inversion Hst as [|? ? a1 ? ? S1 S2]; subst. inversion S1; subst. inversion S2 as [|? ? a2 ? ? S3 S4]; subst.
    inversion S3; subst. inversion S4 as [|? ? a3 ? ? S5 S6]; subst. inversion S5; subst. by inversion S6.
Qed.

(** What the abstract cache holds is a hit for the handler. *)
Lemma cached_is_hit timestemp key header_ok parser io utime_ok seek_ans answers now file_id additional fname headers d c info b :
  disk_ok (cache_dir c) d → from_file_id file_id = Some info →
  abs (cache_dir c) d !! file_name info = Some b → blen b = fi_size info →
  ranges_valid parser → f_metadata io (to_path info (cache_dir c)) = false → seek_ans ≠ SeekLost →
  Forall good_answer answers → (length b ≤ length answers)%nat →
  keystamp_ok timestemp key file_id (default "" (parse_additional additional !! "keystamp")) = true →
  ∃ resp s, hath timestemp key header_ok parser (get_from_disk io utime_ok (Some b) seek_ans answers now)
      file_id additional fname headers (d, c) = (RouteCache.Answer resp, s) ∧ hit_correct parser headers info b resp.
Proof.
  intros Hd Hid Habs Hsz Hv Hfm Hsk Hg Hans Hk. pose proof (from_file_id_ok _ _ Hid) as Hi.
  rewrite abs_path in Habs by done. destruct (d !! to_path info (cache_dir c)) as [md|] eqn:Emd; [|done].
  cbn in Habs. injection Habs as <-.
  eapply (hath_hit timestemp header_ok parser io utime_ok seek_ans answers now file_id additional fname headers d c info md); try done.
  - unfold metadata. by rewrite Hfm.
  - eapply (paths_files _ _ Hd); [exact Emd|]. rewrite range_of_to_path by done. eauto.
Qed.

End facts.

(** ** Theorems *)

Section theorems.
Context `{HexLaws, DigestLaws, UrlHostLaws}.
Variable chrono_ok : Z → bool.
Variable ev : nat → event.


(** C4: A miss becomes a hit.  When the server names sources, every source sends a
    beginning of the same contents, one of the three attempts sends all of it, the
    contents have the digest and the size of the identifier, and the import can
    place the file, then the cache holds exactly these contents in addition, and
    from then on every request for the file with a valid key stamp is answered
    from the cache; what the client of the first request receives is a beginning of
    the same contents. *)
Theorem miss_then_hit env temp_dir info file_index xres file_id d c client log sources client' log' b :
  accounted c d → disk_ok (cache_dir c) d → miss_ok env temp_dir info d c →
  m_temp_ok env = true → from_file_id file_id = Some info →
  sr_fetch chrono_ok ev file_index xres file_id client log = Some (Some sources, client', log') →
  sources ≠ [] → (∀ k, (k < 3)%nat → benign b (m_attempts env k)) → (∃ k, (k < 3)%nat ∧ complete b (m_attempts env k)) →
  digest b = fi_hash info → blen b = fi_size info →
  let path := to_path info (cache_dir c) in
  f_mkdir (m_io env) path = false → f_rename (m_io env) path = false ∨ f_copy (m_io env) path = false →
  ∃ r d' c', proxy_miss chrono_ok ev env temp_dir info file_index xres file_id d c client log =
      Some ((r, (d', c')), client', log') ∧
    accounted c' d' ∧ abs (cache_dir c) d' = <[file_name info := b]> (abs (cache_dir c) d) ∧
    (∀ cd fuel reads changes w0, ∃ n,
       delivers (r_body (proxy_response info cd fuel reads changes b w0)) (take n b)) ∧
    (∀ timestemp key header_ok parser io utime_ok seek_ans answers now additional file_name headers,
       ranges_valid parser → f_metadata io path = false → seek_ans ≠ SeekLost → Forall good_answer answers →
       (length b ≤ length answers)%nat →
       keystamp_ok timestemp key file_id (default "" (parse_additional additional !! "keystamp")) = true →
       ∃ resp s, hath timestemp key header_ok parser (get_from_disk io utime_ok (Some b) seek_ans answers now)
           file_id additional file_name headers (d', c') = (RouteCache.Answer resp, s) ∧
         hit_correct parser headers info b resp).
Proof.
  intros Ha Hd Hok Ht Hid Hf Hs Hb Hc Hdig Hsz path Hmk Hplace.
  destruct (proxy_stores chrono_ok ev env temp_dir info file_index xres file_id d c client log sources client' log' b)
    as (r & d' & c' & E & (Ha' & Hd' & Edir) & Habs); try done. cbn [fst snd] in *.
  exists r, d', c'. split_and!; try done.
  - intros cd fuel reads changes w0. unfold proxy_response. rewrite <- Hsz. cbn [r_body file_response delivers stream_bytes].
    pose proof (serve_prefix fuel reads changes b (blen b) 0 w0 ltac:(unfold blen; lia) eq_refl) as Hsv.
    destruct (serve _ _ _ _ _ _ _) as [e l]. destruct Hsv as (n & En & _). exists n. cbn. by rewrite En.
  - intros. eapply cached_is_hit; try done; rewrite Edir; [done| |done]. rewrite Habs. by rewrite lookup_insert_eq.
Qed.

End theorems.

(** ** Witnesses *)

(** The server names two sources at the second request; the third attempt of the
    download is complete. *)
Definition fetch_body : string := @sign_response hex_ref toy_digest 1700000000 "key" ["http://a"; "http://b"].
Definition fetch_client : RPCClient := test_client ["1.2.3.4"; "5.6.7.8"].
Definition miss_sample : miss_env := mkMiss true "x1" three_attempts true (λ _, 4096) no_faults 7.
Definition miss_id : string := @file_name hex_ref dl_info.
Definition fetched : option (option (list string) * RPCClient * list Url) :=
  @sr_fetch hex_ref toy_digest host_ref (λ _, true) (flaky fetch_body) "1" "2" miss_id fetch_client [].
Definition proxied := @proxy_miss hex_ref toy_digest host_ref (λ _, true) (flaky fetch_body) miss_sample "tmp" dl_info "1" "2" miss_id
  ∅ sample_cm fetch_client [].

Lemma empty_accounted : @accounted hex_ref sample_cm ∅.
Proof. split; [|vm_compute; reflexivity..]. intros sr. apply map_filter_empty. Qed.

Lemma empty_disk_ok : @disk_ok hex_ref "cache" ∅.
Proof.
  split; [intros p n E; by destruct (lookup_empty_Some p n E)|vm_compute; discriminate..|
    intros p n E; by destruct (lookup_empty_Some p n E)].
Qed.

Lemma miss_sample_ok : @miss_ok hex_ref miss_sample "tmp" dl_info ∅ sample_cm.
Proof.
  split; [vm_compute; by split_and!|]. split; [vm_compute; reflexivity|]. split; [reflexivity|].
  split; [|by split]. intros b. vm_compute. split_and!; discriminate.
Qed.


Lemma miss_then_hit_witness :
  ∃ r d' c' client' log', proxied = Some ((r, (d', c')), client', log') ∧
    @abs hex_ref "cache" d' !! miss_id = Some (as_bytes "abcde").
Proof.
  destruct fetched as [[[[sources|] client'] log']|] eqn:E; [|vm_compute in E; discriminate..].
  assert (sources = ["http://a"; "http://b"]) as -> by (vm_compute in E; by injection E as <- _ _).
  destruct (miss_then_hit (H := hex_ref) (D := toy_digest) (U := host_ref) (λ _, true) (flaky fetch_body) miss_sample "tmp" dl_info "1" "2" miss_id
    ∅ sample_cm fetch_client [] ["http://a"; "http://b"] client' log' (as_bytes "abcde") empty_accounted empty_disk_ok miss_sample_ok)
    as (r & d' & c' & Ep & _ & Ha & _).
  - reflexivity.
  - vm_compute. reflexivity.
  - exact E.
  - discriminate.
  - intros k Hk. destruct k as [|[|[|k]]]; [| | |lia]; cbn.
    + split_and!; [by exists (as_bytes "cde")|by repeat constructor|done].
    + done.
    + split_and!; [by exists []|by repeat constructor|done].
  - exists 2%nat. split; [lia|]. eexists. split_and!; [reflexivity|by repeat constructor|reflexivity].
  - vm_compute. reflexivity.
  - vm_compute. reflexivity.
  - reflexivity.
  - by left.
  - exists r, d', c', client', log'. split; [exact Ep|]. change "cache" with (cache_dir sample_cm). rewrite Ha.
    apply lookup_insert_eq.
Defined.
