(* ===== verification/ServerCommand.v ===== *)
(** * ServerCommand: commands of the RPC server to the client

    [src/src/route/server_command.rs], [servercmd].  The command channel of [main]
    is the list of commands sent on it; what the requests of the proxy test
    answer is a parameter. *)

From S2P Require Import Prelude Text Extern FloodControl Net Rpc RouteCache.
From stdpp Require Import base gmap list strings numbers.

Local Open Scope Z_scope.

(** [Command] of [src/src/main.rs]. *)
Inductive Command := ReloadCert | RefreshSettings | StartDownloader | Overload.

Inductive cmd_response :=
| CmdForbidden
| CmdText (s : string)
| CmdBadRequest
| CmdRandom (size : Z)                 (* [random_response] *)
| CmdSent (c : Command).               (* sent on the channel, empty answer *)

(** One try of a test thread: a request error, or a body: whether it was read
    without an error, how many bytes it had, and the time it took. *)
Inductive test_try := TryErr | TryBody (read_ok : bool) (received time_ns : Z).

(** What the proxy test reads from the additional data. *)
Record proxy_test := mkTest {
  t_host : string;
  t_protocol : string;
  t_port : Z;          (* u16 *)
  t_size : Z;          (* u32 *)
  t_count : Z;         (* u8 *)
  t_timestamp : Z;     (* u64 *)
  t_token : string
}.

Definition read_test (m : gmap string string) : proxy_test :=
  mkTest (default "" (m !! "hostname")) (default "http" (m !! "protocol"))
    (default 0 (m !! "port" ≫= parse_u16)) (default 0 (m !! "testsize" ≫= parse_u32))
    (default 0 (m !! "testcount" ≫= parse_u8)) (default 0 (m !! "testtime" ≫= parse_u64))
    (default "" (m !! "testkey")).

Definition test_incomplete (t : proxy_test) : bool :=
  bool_decide (t_host t = "") || (t_port t =? 0) || (t_size t =? 0) || (t_count t =? 0) ||
  (t_timestamp t =? 0) || bool_decide (t_token t = "").

(** The URL a test thread requests. *)
Definition test_url (t : proxy_test) (time random : Z) : string :=
  t_protocol t +:+ "://" +:+ t_host t +:+ ":" +:+ show (t_port t) +:+ "/t/" +:+ show (t_size t) +:+ "/" +:+
  show time +:+ "/" +:+ t_token t +:+ "/" +:+ show random.

(** A test thread: up to three tries, the time of the first complete answer. *)
Fixpoint test_thread (tries : list test_try) (size : Z) : option Z :=
  match tries with
  | [] => None
  | TryErr :: r => test_thread r size
  | TryBody ok n t :: r => if ok && (n =? size) then Some t else test_thread r size
  end.

(** The results of the threads, collected in order. *)
Definition collect (results : list (option Z)) : Z * Z :=
  foldl (λ acc r, match r with Some t => (acc.1 + 1, acc.2 + t) | None => acc end) (0, 0) results.

Section servercmd.
Context `{HexCodec, Digest}.

(** What the server signs. *)
Definition command_text (command additional : string) (time : Z) (c : RPCClient) : string :=
  "hentai@home-servercmd-" +:+ command +:+ "-" +:+ additional +:+ "-" +:+ show (id c) +:+ "-" +:+
  show time +:+ "-" +:+ key c.

(** [servercmd]; [tries i] are the answers to the thread [i] of the proxy test. *)
Definition servercmd (peer : IpAddr) (timestemp : Z) (c : RPCClient)
    (tries : nat → test_try * test_try * test_try)
    (command additional : string) (time : Z) (hash : string) : cmd_response :=
  if negb (is_vaild_rpc_server (show_ip peer) c) then CmdForbidden
  else if negb (in_drift timestemp time) ||
          negb (bool_decide (string_to_hash (command_text command additional time c) = hash))
  then CmdForbidden
  else
    let cmd := to_lowercase command in
    if decide (cmd = "still_alive") then CmdText "I feel FANTASTIC and I'm still alive"
    else if decide (cmd = "threaded_proxy_test") then
      let t := read_test (parse_additional additional) in
      if test_incomplete t then CmdBadRequest
      else
        let results := (λ i, let '(a, b, c) := tries i in test_thread [a; b; c] (t_size t))
                         <$> seq 0 (Z.to_nat (t_count t)) in
        let '(success, total) := collect results in
        CmdText ("OK:" +:+ show success +:+ "-" +:+ show (total / 1000000))
    else if decide (cmd = "speed_test") then
      CmdRandom (default 1000000 (parse_additional additional !! "testsize" ≫= parse_u64))
    else if decide (cmd = "refresh_settings") then CmdSent RefreshSettings
    else if decide (cmd = "start_downloader") then CmdSent StartDownloader
    else if decide (cmd = "refresh_certs") then CmdSent ReloadCert
    else CmdText "INVALID_COMMAND".

End servercmd.

(** ** Lemmas *)

Lemma collect_spec (results : list (option Z)) :
  Forall (λ r, ∀ t, r = Some t → 0 ≤ t) results →
  (collect results).1 = Z.of_nat (length (filter (λ r, is_Some r) results)) ∧ 0 ≤ (collect results).2.
Proof.
  unfold collect. assert (∀ acc, 0 ≤ acc.2 → Forall (λ r, ∀ t, r = Some t → 0 ≤ t) results →
    let a := foldl (λ acc r, match r with Some t => (acc.1 + 1, acc.2 + t) | None => acc end) acc results in
    a.1 = acc.1 + Z.of_nat (length (filter (λ r, is_Some r) results)) ∧ 0 ≤ a.2) as Hgen.
  { induction results as [|r results IH]; intros acc Ha Hr; [simpl; lia|].
    apply Forall_cons_1 in Hr as [Hr Hrs]. cbn [foldl]. rewrite filter_cons. destruct r as [t|].
    - rewrite decide_True by eauto. destruct (IH (acc.1 + 1, acc.2 + t)) as [E1 E2]; [simpl; specialize (Hr t eq_refl); lia|done|].
      simpl in *. lia.
    - rewrite decide_False by (by intros [? ?]). by apply IH. }
  intros Hr. destruct (Hgen (0, 0) ltac:(done) Hr) as [E1 E2]. simpl in *. lia.
Qed.

Lemma test_thread_some tries size ns :
  test_thread tries size = Some ns → TryBody true size ns ∈ tries.
Proof.
  induction tries as [|[|ok n x] tries IH]; simpl; [done|set_solver|].
  destruct ok; simpl; [destruct (Z.eqb_spec n size) as [->|]|]; [intros [= ->]; left|intros; right; auto..].
Qed.

Lemma test_thread_is_some tries size :
  is_Some (test_thread tries size) ↔ ∃ ns, TryBody true size ns ∈ tries.
Proof.
  split; [intros [ns ?%test_thread_some]; eauto|]. intros [ns Hin].
  induction tries as [|[|ok n x] tries IH]; simpl; [by apply elem_of_nil in Hin|..];
    apply elem_of_cons in Hin as [E|Hin]; try done.
  - auto.
  - injection E as <- <- <-. rewrite Z.eqb_refl. eauto.
  - destruct (ok && _); eauto.
Qed.

Section theorems.
Context `{HexLaws, DigestLaws}.

(** The server check, without the list. *)
Lemma is_vaild_rpc_server_listed ip c :
  is_vaild_rpc_server ip c = true → s_disable_ip_check (settings c) = true ∨ ip ∈ rpc_servers c.
Proof.
  unfold is_vaild_rpc_server. intros [Ev|Ev]%orb_true_iff; [by left|right].
  apply existsb_exists in Ev as (s & Hs & ->%bool_decide_eq_true). by apply list_elem_of_In.
Qed.

(** What a command that is not refused has shown. *)
Lemma servercmd_checked peer timestemp c tries command additional time hash :
  0 ≤ timestemp < 2 ^ 62 → in_i64 time →
  servercmd peer timestemp c tries command additional time hash ≠ CmdForbidden →
  (s_disable_ip_check (settings c) = true ∨ show_ip peer ∈ rpc_servers c) ∧
  Z.abs (timestemp - time) ≤ 300 ∧
  hash = string_to_hash (command_text command additional time c).
Proof.
  intros Ht Hi. unfold servercmd.
  destruct (is_vaild_rpc_server (show_ip peer) c) eqn:Ev; [|done]. cbn [negb].
  destruct (negb (in_drift timestemp time) || _) eqn:Ea; [done|]. intros _.
  apply orb_false_iff in Ea as [E1%negb_false_iff E2%negb_false_iff%bool_decide_eq_true].
  split_and!; [by apply is_vaild_rpc_server_listed| |done].
  unfold in_drift in E1. apply andb_true_iff in E1 as [E3 E3']. apply Z.leb_le in E3, E3'.
  apply (wrap_i64_near timestemp _ 300); try done; lia.
Qed.

(** Which commands it passes on. *)
Lemma servercmd_sent peer timestemp c tries command additional time hash x :
  servercmd peer timestemp c tries command additional time hash = CmdSent x →
  (to_lowercase command, x) ∈
    [("refresh_settings", RefreshSettings); ("start_downloader", StartDownloader); ("refresh_certs", ReloadCert)].
Proof.
  unfold servercmd. cbv zeta. repeat case_match; intros E; try discriminate E; injection E as <-;
    match goal with E : to_lowercase command = _ |- _ => rewrite E end; repeat constructor.
Qed.

(** C24: A command is obeyed only if it comes from a listed server or the check of
    the origin is disabled, is at most five minutes off, and carries the digest of
    the command, its data, the client's id, the time and the client's key; and what is
    passed on to the client is the command that was signed. *)
Theorem servercmd_authorised peer timestemp c tries command additional time hash :
  0 ≤ timestemp < 2 ^ 62 → in_i64 time →
  servercmd peer timestemp c tries command additional time hash ≠ CmdForbidden →
  (s_disable_ip_check (settings c) = true ∨ show_ip peer ∈ rpc_servers c) ∧
  Z.abs (timestemp - time) ≤ 300 ∧
  hash = string_to_hash (command_text command additional time c) ∧
  ∀ x, servercmd peer timestemp c tries command additional time hash = CmdSent x →
    (to_lowercase command, x) ∈
      [("refresh_settings", RefreshSettings); ("start_downloader", StartDownloader); ("refresh_certs", ReloadCert)].
Proof.
  intros Ht Hi Hne. destruct (servercmd_checked _ _ _ _ _ _ _ _ Ht Hi Hne) as (? & ? & ?). split_and!; try done.
  intros x. apply servercmd_sent.
Qed.

(** The answer to an authorised proxy test counts the threads that received
    exactly the requested number of bytes within three tries, at most as many as
    were asked for; incomplete parameters are refused. *)
Theorem proxy_test_counts peer timestemp c tries command additional time :
  is_vaild_rpc_server (show_ip peer) c = true → in_drift timestemp time = true →
  to_lowercase command = "threaded_proxy_test" →
  (∀ i a b d n t ok, tries i = (a, b, d) → TryBody ok n t ∈ [a; b; d] → 0 ≤ t) →
  let t := read_test (parse_additional additional) in
  let r := servercmd peer timestemp c tries command additional time
             (string_to_hash (command_text command additional time c)) in
  (r = CmdBadRequest ∧ test_incomplete t = true) ∨
  ∃ threads total, r = CmdText ("OK:" +:+ show (Z.of_nat (length threads)) +:+ "-" +:+ show total) ∧
    0 ≤ total ∧ Z.of_nat (length threads) ≤ t_count t ∧ NoDup threads ∧
    ∀ i, i ∈ threads ↔ (i < Z.to_nat (t_count t))%nat ∧
      ∃ a b d ns, tries i = (a, b, d) ∧ TryBody true (t_size t) ns ∈ [a; b; d].
Proof.
  intros Hv Hd Hc Htime t r. unfold r, servercmd. rewrite Hv, Hd, bool_decide_true by done. cbn [negb orb].
  rewrite Hc, decide_False, decide_True by done. fold t.
  destruct (test_incomplete t) eqn:Ei; [by left|right].
  set (f := λ i : nat, let '(a, b, d) := tries i in test_thread [a; b; d] (t_size t)).
  assert (∀ i ns, f i = Some ns → 0 ≤ ns) as Hpos.
  { intros i ns. unfold f. destruct (tries i) as [[a b] d] eqn:Et. intros E%test_thread_some. by eapply Htime. }
  assert (0 ≤ t_count t) as Hcount.
  { unfold t, read_test. cbn. destruct (_ !! "testcount") as [v|]; cbn; [|lia].
    destruct (parse_u8 v) eqn:E; cbn; [|lia]. apply parse_uint_range in E. lia. }
  destruct (collect_spec (f <$> seq 0 (Z.to_nat (t_count t)))) as [E1 E2].
  { apply Forall_fmap, Forall_true. intros i ns. apply Hpos. }
  destruct (collect (f <$> seq 0 (Z.to_nat (t_count t)))) as [success total]. cbn [fst snd] in *.
  set (threads := filter (λ i, is_Some (f i)) (seq 0 (Z.to_nat (t_count t)))).
  assert (success = Z.of_nat (length threads)) as ->.
  { rewrite E1. f_equal. unfold threads. clear. induction (seq 0 _) as [|i l IH]; [done|].
    cbn [fmap list_fmap]. rewrite !filter_cons. destruct (decide (is_Some (f i))); simpl; by rewrite IH. }
  exists threads, (total / 1000000). split_and!; [done|apply Z.div_pos; lia| | |].
  - unfold threads. pose proof (length_filter (λ i, is_Some (f i)) (seq 0 (Z.to_nat (t_count t)))) as Hl.
    rewrite length_seq in Hl. lia.
  - apply list.NoDup_filter, NoDup_seq.
  - intros i. unfold threads. rewrite list_elem_of_filter, elem_of_seq. unfold f.
    destruct (tries i) as [[a b] d]. rewrite test_thread_is_some. split.
    + intros [[ns Hin] Hlt]. split; [lia|]. exists a, b, d, ns. done.
    + intros [Hlt (a' & b' & d' & ns & [= <- <- <-] & Hin)]. split; [by exists ns|lia].
Qed.

(** The time stamp of the test is read and must not be zero, but the URL
    that is requested carries the time of the command instead: tests that differ
    only in [testtime] send the same requests. *)
Theorem proxy_test_ignores_testtime m v time random :
  test_url (read_test (<["testtime" := v]> m)) time random = test_url (read_test m) time random.
Proof. unfold test_url, read_test. cbn. by rewrite !lookup_insert_ne. Qed.

End theorems.

(** ** Witnesses *)

Definition cmd_client : RPCClient := test_client ["1.2.3.4"].
Definition cmd_add : string := "hostname=h;port=443;testsize=7;testcount=2;testtime=9;testkey=k".
Definition cmd_hash : string :=
  @string_to_hash hex_ref toy_digest (command_text "threaded_proxy_test" cmd_add 1000 cmd_client).
Definition cmd_tries (i : nat) : test_try * test_try * test_try :=
  (TryErr, TryBody true (if decide (i = 0%nat) then 7 else 3) 5000000, TryErr).

Lemma servercmd_authorised_witness :
  @servercmd hex_ref toy_digest (V4 16909060) 1200 cmd_client cmd_tries "threaded_proxy_test" cmd_add 1000 cmd_hash ≠ CmdForbidden ∧
  show_ip (V4 16909060) ∈ rpc_servers cmd_client.
Proof.
  assert (@servercmd hex_ref toy_digest (V4 16909060) 1200 cmd_client cmd_tries "threaded_proxy_test" cmd_add 1000 cmd_hash
    ≠ CmdForbidden) as Hn by (vm_compute; discriminate).
  split; [exact Hn|].
  destruct (servercmd_authorised (H:=hex_ref) (D:=toy_digest) (V4 16909060) 1200 cmd_client cmd_tries
    "threaded_proxy_test" cmd_add 1000 cmd_hash ltac:(lia) ltac:(word) Hn) as ([E|E] & _); [vm_compute in E; discriminate|exact E].
Defined.

Lemma proxy_test_counts_witness :
  @servercmd hex_ref toy_digest (V4 16909060) 1200 cmd_client cmd_tries "threaded_proxy_test" cmd_add 1000 cmd_hash = CmdText "OK:1-5".
Proof.
  destruct (proxy_test_counts (H:=hex_ref) (D:=toy_digest) (V4 16909060) 1200 cmd_client cmd_tries
    "threaded_proxy_test" cmd_add 1000) as [[_ E]|_].
  - vm_compute. reflexivity.
  - vm_compute. reflexivity.
  - vm_compute. reflexivity.
  - intros i a b d n t ok [= <- <- <-]. set_solver by lia.
  - vm_compute in E. discriminate.
  - vm_compute. reflexivity.
Defined.
