(* ===== verification/Gallery.v ===== *)
(** * Gallery: the gallery downloader

    [src/src/gallery_downloader.rs]: the parser of gallery metadata, the directory
    name, verification of files, and the download loop of [run].  A Rust slice
    index out of range is [Panic].  The regular expressions of the source are
    the character tests below. *)

From S2P Require Import Prelude Text Extern FileId FileReader Rpc.
From stdpp Require Import base gmap list strings numbers.

Local Open Scope Z_scope.

(** ** Data *)

Record GalleryFile := mkGFile {
  page : Z;                                (* usize *)
  fileindex : Z;                           (* usize *)
  xres : string;
  expected_sha1_hash : option bytes;
  filetype : string;
  filename : string
}.

#[export] Instance GalleryFile_eq_dec : EqDecision GalleryFile.
Proof. solve_decision. Defined.

Record GalleryMeta := mkMeta {
  gid : Z;                                 (* i32 *)
  filecount : Z;                           (* usize *)
  minxres : string;
  xres_title : string;
  title : string;
  information : string;
  gallery_files : list GalleryFile
}.

Inductive parse_error :=
| NotANumber
| InvalidFiletype (page : Z) (filetype : string)
| InvalidFilename (page : Z) (filename : string)
| HashDiffers (checked expected : string).

(** ** The patterns *)

(** [^(jpg|gif|png|webp)$] *)
Definition allow_filetype (s : string) : bool := bool_decide (s ∈ ["jpg"; "gif"; "png"; "webp"]).

Definition name_char (c : byte) : bool :=
  is_digit c || is_upper c || is_lower c || bool_decide (c ∈ ["."%char; "_"%char; "-"%char]).

(** [^[a-zA-Z0-9._-]{1,250}$] *)
Definition allow_filename (s : string) : bool :=
  all_chars name_char s && (1 <=? Z.of_nat (String.length s)) && (Z.of_nat (String.length s) <=? 250).

(** [^(?:org|\d+)$] *)
Definition valid_minxres (s : string) : bool :=
  bool_decide (s = "org") || (negb (bool_decide (s = "")) && all_chars is_digit s).

(** [^[a-f0-9]{40}$] *)
Definition valid_dlhash (s : string) : bool :=
  all_chars is_lower_hex s && bool_decide (String.length s = 40%nat).

(** ASCII white space, and the characters a title may not have. *)
Definition is_space (c : byte) : bool := let z := code c in (z =? 32) || ((9 <=? z) && (z <=? 13)).
Definition title_banned (c : byte) : bool :=
  bool_decide (code c ∈ [42; 34; 92; 60; 62; 58; 124; 63; 47]).

Definition remove_chars (p : byte → bool) (s : string) : string :=
  of_bytes (filter (λ c, p c = false) (as_bytes s)).

(** Replacing each run of white space by one space. *)
Fixpoint squeeze (in_run : bool) (s : string) : string :=
  match s with
  | EmptyString => EmptyString
  | String c t =>
      if is_space c then (if in_run then squeeze true t else String " "%char (squeeze true t))
      else String c (squeeze false t)
  end.

(** Removing white space at both ends. *)
Fixpoint trim_start (s : string) : string :=
  match s with String c t => if is_space c then trim_start t else s | EmptyString => EmptyString end.
Fixpoint trim_end (s : string) : string :=
  match s with
  | EmptyString => EmptyString
  | String c t => if all_chars is_space s then EmptyString else String c (trim_end t)
  end.

Definition clean_title (s : string) : string := trim_end (trim_start (squeeze false (remove_chars title_banned s))).

(** [is_safe_path]: the path has one component, a normal one. *)
Definition is_safe_path (name : string) : bool :=
  match split_on "/"%char name with
  | first :: _ =>
      negb (starts_with name "/") && negb (bool_decide (first = ".")) &&
      match filter (λ p, p ≠ "" ∧ p ≠ ".") (split_on "/"%char name) with
      | [x] => negb (bool_decide (x = ".."))
      | _ => false
      end
  | [] => false
  end.

(** ** The parser *)

Record pstate := mkPState {
  p_meta : GalleryMeta;
  p_dl_hash : string;
  p_state : nat;           (* 0: metadata, 1: file list, 2: information *)
  p_hash_body : string
}.

Definition set_meta (m : GalleryMeta) (s : pstate) : pstate := mkPState m (p_dl_hash s) (p_state s) (p_hash_body s).

(** [.parse()?]. *)
Definition parse_or {A} (o : option A) : outcome parse_error A := or_fail o NotANumber.

Section parser.
Context `{HexCodec, Digest}.

(** A line of the first part. *)
Definition parse_basic (s : string) (st : pstate) : outcome parse_error pstate :=
  let split := splitn 2 " "%char s in
  let m := p_meta st in
  k ← index split 0;
  if decide (k = "GID") then
    v ← index split 1; n ← parse_or (parse_i32 v);
    mret (set_meta (mkMeta n (filecount m) (minxres m) (xres_title m) (title m) (information m) (gallery_files m)) st)
  else if decide (k = "FILECOUNT") then
    v ← index split 1; n ← parse_or (parse_u64 v);
    mret (set_meta (mkMeta (gid m) n (minxres m) (xres_title m) (title m) (information m) (gallery_files m)) st)
  else if decide (k = "MINXRES") then
    v ← index split 1;
    mret (if valid_minxres v
          then set_meta (mkMeta (gid m) (filecount m) v (xres_title m) (title m) (information m) (gallery_files m)) st
          else st)
  else if decide (k = "DLHASH") then
    v ← index split 1;
    mret (if valid_dlhash v then mkPState m v (p_state st) (p_hash_body st) else st)
  else if decide (k = "TITLE") then
    v ← index split 1;
    mret (set_meta (mkMeta (gid m) (filecount m) (minxres m)
                      (if decide (minxres m = "org") then "" else "-" +:+ minxres m +:+ "x")
                      (clean_title v) (information m) (gallery_files m)) st)
  else mret st.

(** A line of the file list. *)
Definition parse_file (s : string) : outcome parse_error GalleryFile :=
  let split := splitn 6 " "%char s in
  a0 ← index split 0; pg ← parse_or (parse_u64 a0);
  a1 ← index split 1; fi ← parse_or (parse_u64 a1);
  xr ← index split 2;
  a3 ← index split 3;
  ft ← index split 4;
  if negb (allow_filetype ft) then Fail (InvalidFiletype pg ft)
  else
    fn ← index split 5;
    if negb (is_safe_path fn) || negb (allow_filename fn) then Fail (InvalidFilename pg fn)
    else mret (mkGFile pg fi xr (decode_to_array a3) ft fn).

(** One line. *)
Definition parse_line (s : string) (st : pstate) : outcome parse_error pstate :=
  if decide (s = "FILELIST" ∧ p_state st = 0%nat) then mret (mkPState (p_meta st) (p_dl_hash st) 1 (p_hash_body st))
  else if decide (s = "INFORMATION" ∧ p_state st = 1%nat) then mret (mkPState (p_meta st) (p_dl_hash st) 2 (p_hash_body st))
  else if decide ((p_state st < 2)%nat ∧ s = "") then mret st
  else if decide (p_state st = 0%nat) then parse_basic s st
  else if decide (p_state st = 1%nat) then
    f ← parse_file s;
    let m := p_meta st in
    mret (mkPState (mkMeta (gid m) (filecount m) (minxres m) (xres_title m) (title m) (information m)
                      (gallery_files m ++ [f])) (p_dl_hash st) 1 (p_hash_body st +:+ nl_str +:+ s))
  else
    let m := p_meta st in
    mret (set_meta (mkMeta (gid m) (filecount m) (minxres m) (xres_title m) (title m)
                      (information m +:+ s +:+ nl_str) (gallery_files m)) st).

Fixpoint parse_lines (l : list string) (st : pstate) : outcome parse_error pstate :=
  match l with [] => mret st | s :: r => st ← parse_line s st; parse_lines r st end.

Definition parser_start (key : string) : pstate := mkPState (mkMeta 0 0 "" "" "" "" []) "" 0 key.

(** [GalleryDownloader::parser]. *)
Definition parser (key : string) (raw_gallery : list string) : outcome parse_error GalleryMeta :=
  st ← parse_lines raw_gallery (parser_start key);
  let hash := string_to_hash (p_hash_body st) in
  if bool_decide (p_dl_hash st = "") || negb (bool_decide (hash = p_dl_hash st))
  then Fail (HashDiffers hash (p_dl_hash st))
  else mret (p_meta st).

End parser.

(** ** The directory *)

Definition name_suffix (m : GalleryMeta) : string := " [" +:+ show (gid m) +:+ xres_title m +:+ "]".

(** The search for the cut: [graphemes] are the byte positions of the graphemes
    of the title (third-party), [i] the index of the first one. *)
Fixpoint truncate_pos (graphemes : list nat) (i : nat) (max_chars max_bytes : Z) (best : nat) : nat :=
  match graphemes with
  | [] => best
  | pos :: r =>
      if (max_chars <? Z.of_nat i + 3) || (max_bytes <? Z.of_nat pos + 3) then best
      else truncate_pos r (S i) max_chars max_bytes pos
  end.

(** The name of the directory; [chars] is the number of characters of the title. *)
Definition dir_name (m : GalleryMeta) (chars : Z) (graphemes : list nat) : string :=
  let name_suffix := name_suffix m in
  let len := Z.of_nat (String.length name_suffix) in
  let name_max_chars := wrap64 (125 - len) in
  let name_max_bytes := wrap64 (255 - len) in
  if (chars <=? name_max_chars) && (Z.of_nat (String.length (title m)) <=? name_max_bytes)
  then title m +:+ name_suffix
  else of_bytes (take (truncate_pos graphemes 0 name_max_chars name_max_bytes 0) (as_bytes (title m))) +:+
       "..." +:+ name_suffix.

(** ** Files *)

Section files.
Context `{HexCodec, Digest}.

(** The reading loop of [check_hash]: a read error is retried; [None] while the
    loop goes on. *)
Fixpoint check_loop (answers : list os_read) (f : File) (hasher : ctx) : option ctx :=
  match answers with
  | [] => None
  | a :: answers =>
      match read_file a f [] (1024 * 1024) with
      | inl (f, []) => Some hasher
      | inl (f, buf) => check_loop answers f (ctx_update hasher buf)
      | inr _ => check_loop answers f hasher
      end
  end.

(** [GalleryFile::check_hash]; [file] is the regular file at the path, if any. *)
Definition check_hash (f : GalleryFile) (file : option bytes) (open_ok : bool) (answers : list os_read) : option bool :=
  match file with
  | None => Some false
  | Some contents =>
      match expected_sha1_hash f with
      | None => Some true
      | Some expected =>
          if negb open_ok then Some false
          else hasher ← check_loop answers (mkFile contents 0) ctx_new;
               Some (bool_decide (ctx_finish hasher = expected))
      end
  end.

Inductive dl_error := DlIo | DlRequest | DlMismatch (expected actual : bytes).

(** An item of the body: an error, or bytes with the writes [write_all] makes of them
    and how each ends: [None] all of it is written, [Some k] an error after [k] bytes. *)
Definition write := (bytes * option nat)%type.
Inductive dl_item := DlBytes (ws : list write) | DlItemErr.
Definition item_bytes (ws : list write) : bytes := concat (map fst ws).

(** [tokio::fs::File::write_all]: a write is started in the background and reported
    as done; its error is returned by the next write that is not empty.  [failed] says
    that the last write failed and nobody knows yet.  The first result is whether
    [write_all] returns without an error. *)
Fixpoint write_all (ws : list write) (failed : bool) (file : bytes) : bool * bool * bytes :=
  match ws with
  | [] => (true, failed, file)
  | (b, w) :: ws =>
      if bool_decide (b = []) then write_all ws failed file
      else if failed then (false, false, file)
      else match w with
           | None => write_all ws false (file ++ b)
           | Some k => write_all ws true (file ++ take k b)
           end
  end.

Fixpoint dl_loop (items : list dl_item) (failed : bool) (file : bytes) (hasher : ctx) : (ctx + dl_error) * bytes :=
  match items with
  | [] => (inl hasher, file)
  | DlItemErr :: _ => (inr DlRequest, file)
  | DlBytes ws :: r =>
      let '(ok, failed, file) := write_all ws failed file in
      if ok then dl_loop r failed file (ctx_update hasher (item_bytes ws)) else (inr DlIo, file)
  end.

(** [download]: the result and what the file holds when its last write is through
    ([None]: it was not created); [items] is the answer to the request, [None] an error.
    The file is dropped without a flush. *)
Definition gallery_download (create_ok : bool) (items : option (list dl_item)) (hash : option bytes)
    : (unit + dl_error) * option bytes :=
  if negb create_ok then (inr DlIo, None)
  else match items with
  | None => (inr DlRequest, Some [])
  | Some items =>
      let '(r, file) := dl_loop items false [] ctx_new in
      (match r with
       | inr e => inr e
       | inl hasher =>
           match hash with
           | Some expected =>
               if decide (ctx_finish hasher = expected) then inl () else inr (DlMismatch expected (ctx_finish hasher))
           | None => inl ()
           end
       end, Some file)
  end.

End files.

(** ** The download loop *)

(** What happens to one file in one round. *)
Record file_env := mkFileEnv {
  fe_running : bool;                       (* the client still runs *)
  fe_check : bool;                         (* [check_hash] *)
  fe_urls : option (list string);          (* [dl_fetch] *)
  fe_host : string → option (option string); (* [Url::parse(..).ok()] and its host *)
  fe_tries : nat → unit + dl_error         (* the three calls of [download] *)
}.

Inductive file_result := Got | Missed (report : option string) | Stop | PanicIndex.

(** The body of the spawned task: up to three tries; the third failure is
    reported unless it was an I/O error. *)
Definition try_file (f : GalleryFile) (host : option string) (tries : nat → unit + dl_error) : file_result :=
  match tries 0%nat, tries 1%nat, tries 2%nat with
  | inl _, _, _ => Got
  | _, inl _, _ => Got
  | _, _, inl _ => Got
  | _, _, inr DlIo => Missed None
  | _, _, inr _ => Missed ((λ h, h +:+ "-" +:+ show (fileindex f) +:+ "-" +:+ xres f) <$> host)
  end.

(** One file of a round. *)
Definition run_file (e : file_env) (f : GalleryFile) (downloaded : list GalleryFile) : file_result :=
  if negb (fe_running e) then Stop
  else if decide (f ∈ downloaded) then Got
  else if fe_check e then Got
  else match fe_urls e with
       | None => Missed None
       | Some [] => PanicIndex                      (* [s[0]] *)
       | Some (u :: _) =>
           match fe_host e u with
           | None => Missed None
           | Some host => try_file f host (fe_tries e)
           end
       end.

Definition add_set (f : GalleryFile) (l : list GalleryFile) : list GalleryFile :=
  if decide (f ∈ l) then l else l ++ [f].

Inductive round_end := RoundDone | RoundStopped | RoundPanic.

(** A round over the files: the files downloaded and the failures to report. *)
Fixpoint run_round (env : GalleryFile → file_env) (files downloaded : list GalleryFile) (failures : list string)
    : round_end * list GalleryFile * list string :=
  match files with
  | [] => (RoundDone, downloaded, failures)
  | f :: r =>
      match run_file (env f) f downloaded with
      | Got => run_round env r (add_set f downloaded) failures
      | Missed report => run_round env r downloaded (failures ++ option_list report)
      | Stop => (RoundStopped, downloaded, failures)
      | PanicIndex => (RoundPanic, downloaded, failures)
      end
  end.

Inductive gallery_end :=
| GalleryFinished (failures : list string)       (* info written, failures reported *)
| GalleryFailed                                  (* given up after ten rounds *)
| GalleryStopped
| GalleryPanic.

(** The ['retry: for retry in 0..10] loop. *)
Fixpoint run_gallery (n retry : nat) (env : nat → GalleryFile → file_env) (m : GalleryMeta)
    (downloaded : list GalleryFile) (failures : list string) : gallery_end * list GalleryFile :=
  match n with
  | O => (GalleryFailed, downloaded)
  | S n =>
      match run_round (env retry) (gallery_files m) downloaded failures with
      | (RoundDone, downloaded, failures) =>
          if Z.of_nat (length downloaded) =? filecount m then (GalleryFinished failures, downloaded)
          else run_gallery n (S retry) env m downloaded failures
      | (RoundStopped, downloaded, _) => (GalleryStopped, downloaded)
      | (RoundPanic, downloaded, _) => (GalleryPanic, downloaded)
      end
  end.

Definition gallery_run (env : nat → GalleryFile → file_env) (m : GalleryMeta) : gallery_end * list GalleryFile :=
  run_gallery 10 0 env m [] [].

(** ** Lemmas *)

Lemma outcome_bind_ret {E A B} (m : outcome E A) (f : A → outcome E B) b :
  m ≫= f = Ret b → ∃ a, m = Ret a ∧ f a = Ret b.
Proof. destruct m; [by eauto|done..]. Qed.

Lemma index_ret {E A} (l : list A) i (x : A) : @index E A l i = Ret x → l !! i = Some x.
Proof. unfold index. by destruct (l !! i); [intros [= ->]|]. Qed.

(** The bytes of the texts built here. *)
Lemma has_char_of_bytes c (b : bytes) : has_char c (of_bytes b) = existsb (λ a, bool_decide (a = c)) b.
Proof. unfold has_char. by rewrite as_of_bytes. Qed.

Lemma has_char_false_elem c s : has_char c s = false ↔ c ∉ as_bytes s.
Proof.
  unfold has_char. rewrite <- not_true_iff_false, existsb_exists. split.
  - intros Hn Hin. apply Hn. exists c. split; [by apply list_elem_of_In|by apply bool_decide_eq_true].
  - intros Hn (x & Hx & ->%bool_decide_eq_true). by apply Hn, list_elem_of_In.
Qed.

Lemma squeeze_bytes b s c : c ∈ as_bytes (squeeze b s) → c ∈ as_bytes s ∨ c = " "%char.
Proof.
  revert b. induction s as [|a s IH]; intros b; [by left|]. unfold as_bytes in *. simpl.
  destruct (is_space a); [destruct b|]; simpl; rewrite ?elem_of_cons; naive_solver.
Qed.

Lemma trim_start_bytes s c : c ∈ as_bytes (trim_start s) → c ∈ as_bytes s.
Proof.
  induction s as [|a s IH]; [done|]. unfold as_bytes in *. simpl. destruct (is_space a); simpl; rewrite ?elem_of_cons; auto.
Qed.

Lemma trim_end_bytes s c : c ∈ as_bytes (trim_end s) → c ∈ as_bytes s.
Proof.
  induction s as [|a s IH]; [done|]. cbn [trim_end]. destruct (all_chars is_space (String a s)).
  - intros Hin. by apply elem_of_nil in Hin.
  - unfold as_bytes in *. simpl. rewrite !elem_of_cons. naive_solver.
Qed.

(** A cleaned title has no separator. *)
Lemma clean_title_no_slash s : has_char "/"%char (clean_title s) = false.
Proof.
  apply has_char_false_elem. intros Hin. unfold clean_title in Hin.
  apply trim_end_bytes, trim_start_bytes, squeeze_bytes in Hin as [Hin|]; [|done].
  unfold remove_chars in Hin. rewrite as_of_bytes in Hin. apply list_elem_of_filter in Hin as [Hb _].
  by vm_compute in Hb.
Qed.

Lemma name_char_no_slash s : all_chars name_char s = true → has_char "/"%char s = false.
Proof. intros Hs. by apply (all_chars_has name_char). Qed.

Lemma show_no_slash z : has_char "/"%char (show z) = false.
Proof.
  unfold show. destruct (Z.ltb_spec z 0).
  - rewrite has_char_cons. by rewrite (all_chars_has is_digit _ (show_nat (- z))) by (done || apply show_nat_digits; lia).
  - apply (all_chars_has is_digit); [by apply show_nat_digits|done].
Qed.

Section facts.
Context `{HexLaws, DigestLaws}.

(** What holds of the parser after some lines. *)
Record pinv (key : string) (raw : list string) (st : pstate) : Prop := {
  pi_files : ∃ fl, fl `sublist_of` raw ∧ Forall2 (λ s f, parse_file s = Ret f) fl (gallery_files (p_meta st)) ∧
                   p_hash_body st = key +:+ foldr (λ s acc, nl_str +:+ s +:+ acc) "" fl;
  pi_hash : p_dl_hash st = "" ∨ ∃ line, line ∈ raw ∧ splitn 2 " "%char line = ["DLHASH"; p_dl_hash st];
  pi_minxres : minxres (p_meta st) = "" ∨ valid_minxres (minxres (p_meta st)) = true;
  pi_title : has_char "/"%char (title (p_meta st)) = false;
  pi_xres : has_char "/"%char (xres_title (p_meta st)) = false;
  pi_gid : in_i32 (gid (p_meta st))
}.

Lemma minxres_no_slash m : m = "" ∨ valid_minxres m = true → has_char "/"%char m = false.
Proof.
  intros [->|Hv]; [done|]. unfold valid_minxres in Hv. apply orb_true_iff in Hv as [->%bool_decide_eq_true|Hv]; [done|].
  apply andb_true_iff in Hv as [_ Hv]. by apply (all_chars_has is_digit).
Qed.

Lemma hash_fold_app fl s :
  foldr (λ s acc, nl_str +:+ s +:+ acc) "" (fl ++ [s]) =
  foldr (λ s acc, nl_str +:+ s +:+ acc) "" fl +:+ nl_str +:+ s.
Proof.
  induction fl as [|x fl IH].
  - cbn [foldr app]. rewrite <- (of_as_bytes (s +:+ "")), as_bytes_app. cbn. by rewrite app_nil_r, of_as_bytes.
  - cbn [foldr app]. by rewrite IH, !str_app_assoc.
Qed.

Lemma parse_basic_inv key raw s st st' :
  pinv key raw st → s ∈ raw → parse_basic s st = Ret st' → pinv key raw st' ∧ p_state st' = p_state st.
Proof.
  intros [P1 P2 P3 P4 P5 P6] Hin E. unfold parse_basic in E.
  apply outcome_bind_ret in E as (k & Ek%index_ret & E).
  repeat (destruct (decide _) as [->|_] in E;
    [apply outcome_bind_ret in E as (v & Ev%index_ret & E)|]).
  - apply outcome_bind_ret in E as (n & En & E). injection E as <-. split; [|done]. split; try done. cbn.
    unfold parse_or, or_fail in En. destruct (parse_i32 v) eqn:Ep; [|done]. injection En as <-.
    by apply parse_int_range in Ep.
  - apply outcome_bind_ret in E as (n & En & E). injection E as <-. split; [|done]. split; done.
  - injection E as <-. destruct (valid_minxres v) eqn:Evx; split; try done. split; try done. cbn. by right.
  - injection E as <-. destruct (valid_dlhash v) eqn:Evd; split; try done. split; try done. cbn. right.
    exists s. split; [done|]. destruct (splitn 2 " "%char s) as [|a [|b l]] eqn:Es; simplify_eq/=.
    destruct l; [done|]. cbn in Es. destruct (split_once " "%char s) as [[? ?]|]; simplify_eq.
  - injection E as <-. split; [|done]. split; try done; cbn [p_meta set_meta title xres_title].
    + apply clean_title_no_slash.
    + destruct (decide _); [done|]. rewrite !has_char_app, (minxres_no_slash _ P3). reflexivity.
  - by injection E as <-.
Qed.

Lemma parse_line_inv key raw s st st' :
  pinv key raw st → parse_line s st = Ret st' → pinv key (raw ++ [s]) st'.
Proof.
  intros Hi E.
  assert (pinv key (raw ++ [s]) st) as Hi'.
  { destruct Hi as [(fl & F1 & F2) P2 P3 P4 P5 P6]. split; try done.
    - exists fl. split; [by apply sublist_inserts_r|done].
    - destruct P2 as [?|(line & ? & ?)]; [by left|right]. exists line. set_solver. }
  unfold parse_line in E. repeat (destruct (decide _) as [?|?] in E; try by injection E as <-; destruct Hi').
  - apply (parse_basic_inv key (raw ++ [s]) s st st' Hi' ltac:(set_solver) E).
  - apply outcome_bind_ret in E as (f & Ef & E). injection E as <-.
    destruct Hi as [(fl & F1 & F2 & F3) _ _ _ _ _]. destruct Hi' as [_ P2 P3 P4 P5 P6]. split; try done. cbn.
    exists (fl ++ [s]). split_and!; [by apply sublist_app|by apply Forall2_app; [|repeat constructor]|].
    by rewrite F3, hash_fold_app, !str_app_assoc.
Qed.

Lemma parse_lines_inv key raw l st st' :
  pinv key raw st → parse_lines l st = Ret st' → pinv key (raw ++ l) st'.
Proof.
  revert raw st. induction l as [|s l IH]; intros raw st Hi E; simpl in E.
  - injection E as <-. by rewrite app_nil_r.
  - apply outcome_bind_ret in E as (st1 & E1 & E).
    replace (raw ++ s :: l) with ((raw ++ [s]) ++ l) by (by rewrite <- (assoc_L (++))).
    eapply IH; [|exact E]. by eapply parse_line_inv.
Qed.

Lemma parser_inv key raw m :
  parser key raw = Ret m → ∃ st, pinv key raw st ∧ p_meta st = m ∧
    p_dl_hash st = string_to_hash (p_hash_body st) ∧ p_dl_hash st ≠ "".
Proof.
  intros E. apply outcome_bind_ret in E as (st & Est & E). exists st. cbv zeta in E.
  destruct (bool_decide (p_dl_hash st = "") || _) eqn:Eh; [done|]. injection E as <-.
  apply orb_false_iff in Eh as [H1'%bool_decide_eq_false H2'%negb_false_iff%bool_decide_eq_true].
  split_and!; try done. apply (parse_lines_inv key [] raw (parser_start key) st); [|done].
  split; cbn; [|by left|by left|done|done|word].
  exists []. split_and!; [done|constructor|]. cbn. rewrite <- (of_as_bytes (key +:+ "")), as_bytes_app. cbn.
  by rewrite app_nil_r, of_as_bytes.
Qed.

End facts.

Lemma truncate_pos_bytes gs i mc mb best :
  (Z.of_nat best + 3 ≤ mb ∨ best = 0%nat) → Z.of_nat (truncate_pos gs i mc mb best) + 3 ≤ mb ∨ truncate_pos gs i mc mb best = 0%nat.
Proof.
  revert i best. induction gs as [|p gs IH]; intros i best Hb; [done|]. cbn [truncate_pos].
  destruct ((mc <? Z.of_nat i + 3) || (mb <? Z.of_nat p + 3)) eqn:E; [done|].
  apply orb_false_iff in E as [_ E%Z.ltb_ge]. apply IH. left. lia.
Qed.

Lemma str_length_app s t : String.length (s +:+ t) = (String.length s + String.length t)%nat.
Proof. rewrite <- !string_length_as_bytes, as_bytes_app, length_app. done. Qed.

Lemma str_length_of_bytes b : String.length (of_bytes b) = length b.
Proof. by rewrite <- string_length_as_bytes, as_of_bytes. Qed.

(** The set of downloaded files. *)
Lemma add_set_elem f g l : g ∈ add_set f l ↔ g = f ∨ g ∈ l.
Proof. unfold add_set. destruct (decide (f ∈ l)); set_solver. Qed.

Lemma add_set_NoDup f l : NoDup l → NoDup (add_set f l).
Proof.
  unfold add_set. destruct (decide (f ∈ l)); [done|]. intros Hl. apply list.NoDup_app. split_and!; [done|set_solver|].
  apply NoDup_singleton.
Qed.

Lemma run_round_inv env files downloaded failures e d' fs' :
  run_round env files downloaded failures = (e, d', fs') →
  NoDup downloaded → (∀ f, f ∈ downloaded → f ∈ d') ∧ NoDup d' ∧ (∀ f, f ∈ d' → f ∈ downloaded ∨ f ∈ files) ∧
  (e = RoundDone → (∀ f d, f ∈ files → run_file (env f) f d = Got) → ∀ f, f ∈ files → f ∈ d').
Proof.
  revert downloaded failures. induction files as [|f files IH]; intros downloaded failures E Hnd; cbn [run_round] in E.
  { injection E as <- <- <-. split_and!; [done|done|by left|by intros _ _ ? ?%elem_of_nil]. }
  destruct (run_file (env f) f downloaded) as [|report| |] eqn:Er.
  - destruct (IH _ _ E (add_set_NoDup f _ Hnd)) as (I1 & I2 & I3 & I4). split_and!; try done.
    + intros g Hg. apply I1, add_set_elem. by right.
    + intros g Hg. destruct (I3 g Hg) as [[->|?]%add_set_elem|?]; set_solver.
    + intros He Hall g [->|Hg]%elem_of_cons; [apply I1, add_set_elem; by left|].
      apply I4; [done| |done]. intros ? ? ?. apply Hall. by right.
  - destruct (IH _ _ E Hnd) as (I1 & I2 & I3 & I4). split_and!; try done; [set_solver|].
    intros He Hall. rewrite (Hall f downloaded) in Er; [done|left].
  - injection E as <- <- <-. split_and!; try done. by left.
  - injection E as <- <- <-. split_and!; try done. by left.
Qed.

Lemma run_gallery_inv n retry env m downloaded failures e d' :
  run_gallery n retry env m downloaded failures = (e, d') → NoDup downloaded →
  (∀ f, f ∈ downloaded → f ∈ gallery_files m) →
  NoDup d' ∧ (∀ f, f ∈ d' → f ∈ gallery_files m) ∧
  (∀ fs, e = GalleryFinished fs → Z.of_nat (length d') = filecount m).
Proof.
  revert retry downloaded failures. induction n as [|n IH]; intros retry downloaded failures E Hnd Hin; cbn [run_gallery] in E.
  { by injection E as <- <-. }
  destruct (run_round (env retry) (gallery_files m) downloaded failures) as [[re d1] fs1] eqn:Er.
  destruct (run_round_inv _ _ _ _ _ _ _ Er Hnd) as (_ & R2 & R3 & _).
  assert (∀ f, f ∈ d1 → f ∈ gallery_files m) as Hin1 by (intros f Hf; destruct (R3 f Hf); auto).
  destruct re; [|by injection E as <- <-..].
  destruct (Z.eqb_spec (Z.of_nat (length d1)) (filecount m)).
  - injection E as <- <-. split_and!; try done.
  - by eapply IH.
Qed.

(** ** Theorems *)

Section theorems.
Context `{HexLaws, DigestLaws}.

(** C34: the file list is authentic: a gallery is accepted only if the digest of
    the client's key and the lines of the file list is the one announced in the
    answer, and the files to download are exactly those lines. *)
Theorem parser_authentic key raw m :
  parser key raw = Ret m →
  ∃ fl line, fl `sublist_of` raw ∧ line ∈ raw ∧
    splitn 2 " "%char line =
      ["DLHASH"; string_to_hash (key +:+ foldr (λ s acc, nl_str +:+ s +:+ acc) "" fl)] ∧
    Forall2 (λ s f, parse_file s = Ret f) fl (gallery_files m).
Proof.
  intros (st & [(fl & F1 & F2 & F3) P2 _ _ _ _] & <- & Eh & Hne)%parser_inv.
  destruct P2 as [?|(line & Hl & Es)]; [done|]. exists fl, line. rewrite <- F3, <- Eh. done.
Qed.

(** C35: Downloads stay in their directory: the directory of a gallery and every
    file in it are plain names, without a separator and none of [.] and [..],
    whatever title and file names the server sends. *)
Theorem gallery_names_contained key raw m chars graphemes :
  parser key raw = Ret m →
  plain_name (dir_name m chars graphemes) ∧
  ∀ f, f ∈ gallery_files m → plain_name (filename f +:+ "." +:+ filetype f).
Proof.
  intros (st & [(fl & _ & F2 & _) _ _ P4 P5 P6] & <- & _)%parser_inv. split.
  - assert (∀ t, has_char "/"%char t = false → plain_name (t +:+ name_suffix (p_meta st))) as Hplain.
    { intros t Ht. assert (has_char "]"%char (t +:+ name_suffix (p_meta st)) = true) as Hb.
      { unfold name_suffix. rewrite !has_char_app. by rewrite !orb_true_r. }
      split_and!; try (intros E; by rewrite E in Hb).
      unfold name_suffix. by rewrite !has_char_app, Ht, P5, show_no_slash. }
    unfold dir_name. destruct (_ && _); [by apply Hplain|].
    rewrite str_app_assoc. apply Hplain. rewrite has_char_app. apply orb_false_iff. split; [|done].
    apply has_char_false_elem. rewrite as_of_bytes. intros Hin. apply elem_of_take in Hin as (i & Hi & _).
    apply list_elem_of_lookup_2 in Hi. by apply has_char_false_elem in P4.
  - intros f Hf. apply list_elem_of_lookup in Hf as [i Hi].
    destruct (Forall2_lookup_r _ _ _ _ _ F2 Hi) as (s & _ & Hp).
    unfold parse_file in Hp.
    do 6 (apply outcome_bind_ret in Hp as (? & _ & Hp)). apply outcome_bind_ret in Hp as (ft & _ & Hp).
    destruct (allow_filetype ft) eqn:Eft; [|done]. cbn [negb] in Hp.
    apply outcome_bind_ret in Hp as (fn & _ & Hp).
    destruct (negb (is_safe_path fn) || negb (allow_filename fn)) eqn:Efn; [done|]. injection Hp as <-. cbn.
    apply orb_false_iff in Efn as [_ Ea%negb_false_iff]. unfold allow_filename in Ea.
    apply andb_true_iff in Ea as [[Ea _]%andb_true_iff _].
    apply bool_decide_eq_true in Eft. assert (has_char "/"%char fn = false) as Hs by by apply name_char_no_slash.
    assert (∃ c r, ft = String c r ∧ c ≠ "."%char ∧ has_char "/"%char ft = false) as (c & r & -> & Hc & Hs3).
    { repeat (apply elem_of_cons in Eft as [->|Eft]; [by do 2 eexists|]). by apply elem_of_nil in Eft. }
    split_and!.
    + by rewrite !has_char_app, Hs, Hs3.
    + by destruct fn.
    + destruct fn as [|a [|b [|b' fn]]]; intros E; apply (f_equal as_bytes) in E; rewrite !as_bytes_app in E; cbn in E; simplify_eq; congruence.
    + destruct fn as [|a [|b [|b' fn]]]; intros E; apply (f_equal as_bytes) in E; rewrite !as_bytes_app in E; cbn in E; simplify_eq; congruence.
Qed.

(** The name of the directory has at most 255 bytes, the limit of usual file
    systems, for every title, as long as the suffix with the number of the
    gallery and the resolution has at most 125. *)
Theorem dir_name_length m chars graphemes :
  (String.length (name_suffix m) ≤ 125)%nat →
  (String.length (dir_name m chars graphemes) ≤ 255)%nat.
Proof.
  intros Hs. unfold dir_name. rewrite !wrap64_small by word.
  destruct (_ && _) eqn:E.
  - apply andb_true_iff in E as [_ E%Z.leb_le]. rewrite str_length_app. lia.
  - rewrite !str_length_app, str_length_of_bytes, length_take. cbn [String.length].
    destruct (truncate_pos_bytes graphemes 0 (125 - Z.of_nat (String.length (name_suffix m)))
      (255 - Z.of_nat (String.length (name_suffix m))) 0 ltac:(by right)); lia.
Qed.

(** The writes of the whole body, without the empty ones. *)
Definition item_writes (x : dl_item) : list write :=
  match x with DlBytes ws => filter (λ w, w.1 ≠ []) ws | DlItemErr => [] end.
Definition writes (items : list dl_item) : list write := concat (map item_writes items).
Definition received (items : list dl_item) : bytes :=
  concat (map (λ x, match x with DlBytes ws => item_bytes ws | DlItemErr => [] end) items).

(** What the file lacks after the writes [ws]: the rest of the last one, if it failed. *)
Definition lost (ws : list write) : bytes :=
  match list.last ws with Some (b, Some k) => drop k b | _ => [] end.
Definition last_failed (ws : list write) : bool :=
  match list.last ws with Some (_, Some _) => true | _ => false end.

Lemma file_write_all_spec ws pre file ok failed' file' :
  write_all ws (last_failed pre) file = (ok, failed', file') → ok = true →
  let all := pre ++ filter (λ w, w.1 ≠ []) ws in
  failed' = last_failed all ∧ file' ++ lost all = file ++ lost pre ++ item_bytes ws.
Proof.
  intros E ->. revert pre file E. induction ws as [|[b w] ws IH]; intros pre file E all; subst all.
  - cbn in *. injection E as <- <-. rewrite !app_nil_r. done.
  - cbn [write_all] in E. rewrite filter_cons. cbn [fst]. unfold item_bytes. cbn [map concat fst].
    case_bool_decide as Hb; [subst b; rewrite decide_False by (intros Hn; by apply Hn); by apply IH|].
    rewrite decide_True by done. destruct (last_failed pre) eqn:Ef; [done|].
    assert (lost pre = []) as Hl.
    { unfold lost, last_failed in *. destruct (list.last pre) as [[? [?|]]|]; done. }
    rewrite Hl. replace (pre ++ (b, w) :: filter (λ w, w.1 ≠ []) ws) with ((pre ++ [(b, w)]) ++ filter (λ w, w.1 ≠ []) ws)
      by (by rewrite <- (assoc_L (++))).
    change (concat (map fst ws)) with (item_bytes ws). destruct w as [k|].
    + destruct (IH (pre ++ [(b, Some k)]) (file ++ take k b)) as [-> ->].
      { unfold last_failed. rewrite list.last_snoc. exact E. }
      split; [done|]. unfold lost at 1. rewrite list.last_snoc. cbn [app].
      rewrite <- (assoc_L (++)), (assoc_L (++) (take k b)), take_drop. done.
    + destruct (IH (pre ++ [(b, None)]) (file ++ b)) as [-> ->].
      { unfold last_failed. rewrite list.last_snoc. exact E. }
      split; [done|]. unfold lost at 1. rewrite list.last_snoc. cbn [app]. by rewrite <- (assoc_L (++)).
Qed.

Lemma dl_loop_spec items pre file chunks hasher file' :
  concat chunks = file ++ lost pre →
  dl_loop items (last_failed pre) file (foldl ctx_update ctx_new chunks) = (inl hasher, file') →
  ctx_finish hasher = digest (concat chunks ++ received items) ∧
  file' ++ lost (pre ++ writes items) = concat chunks ++ received items.
Proof.
  revert pre file chunks. induction items as [|[ws|] items IH]; intros pre file chunks Hc E; cbn [dl_loop] in E; [| |done].
  - injection E as <- <-. unfold received, writes. cbn [map concat]. rewrite !app_nil_r, finish_chunks. done.
  - destruct (write_all ws (last_failed pre) file) as [[ok failed1] file1] eqn:Ew. destruct ok; [|done].
    destruct (file_write_all_spec ws pre file true failed1 file1 Ew eq_refl) as [-> Hw].
    destruct (IH (pre ++ filter (λ w, w.1 ≠ []) ws) file1 (chunks ++ [item_bytes ws])) as [E1 E2].
    + rewrite concat_app, Hc, Hw. cbn. by rewrite app_nil_r, <- (assoc_L (++)).
    + rewrite foldl_app. exact E.
    + rewrite concat_app in E1, E2. cbn [concat] in E1, E2. rewrite app_nil_r in E1, E2.
      unfold received, writes in *. cbn [map concat item_writes]. rewrite <- !(assoc_L (++)) in *. done.
Qed.

Lemma check_loop_spec answers b k chunks hasher :
  (k ≤ length b)%nat → concat chunks = take k b →
  Forall (λ a, match a with OsRead n => (0 < n)%nat | OsFail _ => True end) answers →
  check_loop answers (mkFile b k) (foldl ctx_update ctx_new chunks) = Some hasher →
  ctx_finish hasher = digest b.
Proof.
  intros Hk Hc Hall. revert k chunks Hk Hc.
  induction Hall as [|[n|code] answers Ha _ IH]; intros k chunks Hk Hc E; cbn [check_loop] in E; [done| |].
  - rewrite read_file_ok in E. cbn [content pos] in E.
    set (r := read_size (mkFile b k) (1024 * 1024) n) in *.
    assert (r = n `min` (1024 * 1024) `min` (length b - k))%nat as Er by done.
    destruct (take r (drop k b)) as [|x l] eqn:El.
    + injection E as <-. rewrite finish_chunks, Hc. f_equal. apply take_ge.
      apply (f_equal length) in El. rewrite length_take, length_drop in El. simpl in El.
      assert (n `min` (1024 * 1024) ≠ 0)%nat by lia. lia.
    + rewrite <- El in E. specialize (IH (k + r)%nat (chunks ++ [take r (drop k b)])).
      rewrite foldl_app in IH. apply IH; [lia| |exact E].
      rewrite concat_app, Hc. cbn. rewrite app_nil_r. apply take_take_drop.
  - cbn in E. by apply (IH k chunks).
Qed.

(** C36: A gallery file counts as downloaded only if it is what was promised, but for
    its last write.  When the server stated a digest, a download that succeeds has
    received contents with that digest, and the file holds them all, except for the
    end of the last write if that failed, since its error is lost ([download] does not
    flush); the check of an existing file succeeds only on contents with the
    digest. *)
Theorem gallery_file_verified f expected :
  expected_sha1_hash f = Some expected →
  (∀ create_ok items file, gallery_download create_ok items (expected_sha1_hash f) = (inl (), file) →
     ∃ l b, items = Some l ∧ file = Some b ∧ digest (received l) = expected ∧ b ++ lost (writes l) = received l ∧
       (last_failed (writes l) = false → digest b = expected)) ∧
  (∀ contents open_ok answers,
     Forall (λ a, match a with OsRead n => (0 < n)%nat | OsFail _ => True end) answers →
     check_hash f (Some contents) open_ok answers = Some true → digest contents = expected).
Proof.
  intros Ee. split.
  - intros create_ok items file E. unfold gallery_download in E. rewrite Ee in E.
    destruct create_ok; [|done]. destruct items as [items|]; [|done]. cbn [negb] in E.
    destruct (dl_loop items false [] ctx_new) as [r file'] eqn:El.
    destruct r as [hasher|]; [|done]. destruct (decide (ctx_finish hasher = expected)) as [Eh|]; [|done].
    injection E as <-. destruct (dl_loop_spec items [] [] [] hasher file' eq_refl El) as [Hh Hf]. cbn [app concat] in Hh, Hf.
    exists items, file'. split_and!; try done; [congruence|]. intros Hl.
    assert (lost (writes items) = []) as E0.
    { unfold lost, last_failed in *. destruct (list.last (writes items)) as [[? [?|]]|]; done. }
    rewrite E0, app_nil_r in Hf. congruence.
  - intros contents open_ok answers Hall E. unfold check_hash in E. rewrite Ee in E.
    destruct open_ok; [|done]. cbn [negb] in E.
    destruct (check_loop answers (mkFile contents 0) ctx_new) as [hasher|] eqn:El; [|done]. cbn in E.
    injection E as E%bool_decide_eq_true. rewrite <- E. symmetry.
    apply (check_loop_spec answers contents 0 [] hasher); [lia|by rewrite take_0|done|done].
Qed.

(** C37: when the announced number of files is that of the distinct files of the
    list, a gallery is reported finished only if every one of them was
    downloaded or found intact; and it is finished after one round if every
    file succeeds in it. *)
Theorem gallery_finished env m :
  NoDup (gallery_files m) → filecount m = Z.of_nat (length (gallery_files m)) →
  (∀ fs d, gallery_run env m = (GalleryFinished fs, d) → ∀ f, f ∈ gallery_files m → f ∈ d) ∧
  ((∀ f d, f ∈ gallery_files m → run_file (env 0%nat f) f d = Got) →
   ∃ fs d, gallery_run env m = (GalleryFinished fs, d) ∧ d ≡ₚ gallery_files m).
Proof.
  intros Hnd Hc. split.
  - intros fs d E f Hf. destruct (run_gallery_inv _ _ _ _ _ _ _ _ E ltac:(constructor) ltac:(by intros ? ?%elem_of_nil))
      as (D1 & D2 & D3). specialize (D3 fs eq_refl).
    assert (d ≡ₚ gallery_files m) as Hp.
    { apply submseteq_length_Permutation; [by apply NoDup_submseteq|lia]. }
    by rewrite Hp.
  - intros Hall. unfold gallery_run. cbn [run_gallery].
    destruct (run_round (env 0%nat) (gallery_files m) [] []) as [[re d] fs] eqn:Er.
    destruct (run_round_inv _ _ _ _ _ _ _ Er ltac:(constructor)) as (_ & R2 & R3 & R4).
    assert (re = RoundDone) as ->.
    { clear -Er Hall. revert Er. generalize (@nil GalleryFile) at 1. generalize (@nil string) at 1.
      assert (∀ f d, f ∈ gallery_files m → run_file (env 0%nat f) f d = Got) as Ha by done. clear Hall.
      induction (gallery_files m) as [|f files IH]; intros fs0 d0 E; cbn [run_round] in E; [by injection E|].
      rewrite (Ha f) in E by left. eapply IH; [|exact E]. intros g d' Hg. apply Ha. by right. }
    assert (d ≡ₚ gallery_files m) as Hp.
    { apply NoDup_Permutation; [done|done|]. intros f. split; [|by apply R4].
      intros Hf. destruct (R3 f Hf) as [?%elem_of_nil|]; done. }
    exists fs, d. split; [|done]. rewrite (Permutation_length Hp), Hc, Z.eqb_refl. done.
Qed.

(** A key word without an argument, or a short line of the file list, is a slice
    index out of range. *)
Theorem parser_panics key k rest :
  k ∈ ["GID"; "FILECOUNT"; "MINXRES"; "DLHASH"; "TITLE"] → parser key (k :: rest) = Panic.
Proof.
  intros Hk. repeat (apply elem_of_cons in Hk as [->|Hk]; [done|]). by apply elem_of_nil in Hk.
Qed.

(** Checking a file whose reads keep failing never ends. *)
Theorem check_hash_spins f contents code n :
  expected_sha1_hash f ≠ None → check_hash f (Some contents) true (replicate n (OsFail code)) = None.
Proof.
  intros Hn. unfold check_hash. destruct (expected_sha1_hash f); [|done]. cbn [negb].
  generalize ctx_new. induction n as [|n IH]; intros c0; cbn; [done|]. apply IH.
Qed.

End theorems.

(** ** Witnesses *)

Definition g_line : string := "1 1 org unknown jpg 001".
Definition g_raw : list string :=
  ["GID 12"; "FILECOUNT 1"; "MINXRES org"; "TITLE a/../b  c ";
   "DLHASH " +:+ @string_to_hash hex_ref toy_digest ("key" +:+ nl_str +:+ g_line); ""; "FILELIST"; g_line; "INFORMATION"; "x"].
Definition g_file : GalleryFile := mkGFile 1 1 "org" None "jpg" "001".
Definition g_meta : GalleryMeta := mkMeta 12 1 "org" "" "a..b c" ("x" +:+ nl_str) [g_file].
Definition g_sha : GalleryFile := mkGFile 1 1 "org" (Some (@digest toy_digest (as_bytes "ab"))) "jpg" "001".

Lemma parser_authentic_witness :
  @parser hex_ref toy_digest "key" g_raw = Ret g_meta ∧
  ∃ fl, fl `sublist_of` g_raw ∧ Forall2 (λ s f, @parse_file hex_ref s = Ret f) fl [g_file].
Proof.
  assert (@parser hex_ref toy_digest "key" g_raw = Ret g_meta) as E by (vm_compute; reflexivity).
  split; [exact E|]. destruct (parser_authentic (H:=hex_ref) (D:=toy_digest) "key" g_raw g_meta E) as (fl & line & Hs & _ & _ & Hf).
  exists fl. split; [exact Hs|exact Hf].
Defined.

Lemma gallery_names_contained_witness : plain_name (dir_name g_meta 6 []).
Proof.
  apply (gallery_names_contained (H:=hex_ref) (D:=toy_digest) "key" g_raw g_meta 6 []). vm_compute. reflexivity.
Defined.

Lemma dir_name_length_witness : (String.length (dir_name g_meta 200 [0; 1; 2]%nat) ≤ 255)%nat.
Proof. apply (dir_name_length g_meta 200 [0; 1; 2]%nat). vm_compute. lia. Defined.

Lemma gallery_file_verified_witness :
  @check_hash toy_digest g_sha (Some (as_bytes "ab")) true [OsRead 1; OsFail 5; OsRead 9; OsRead 9] = Some true ∧
  @digest toy_digest (as_bytes "ab") = take 20 (as_bytes "ab" ++ replicate 20 (Ascii.ascii_of_nat 0)).
Proof.
  assert (@check_hash toy_digest g_sha (Some (as_bytes "ab")) true [OsRead 1; OsFail 5; OsRead 9; OsRead 9] = Some true)
    as E by (vm_compute; reflexivity). split; [exact E|].
  refine (proj2 (gallery_file_verified (D:=toy_digest) g_sha _ eq_refl) (as_bytes "ab") true _ _ E).
  repeat constructor; lia.
Defined.

Lemma gallery_finished_witness :
  ∃ fs d, gallery_run (λ _ _, mkFileEnv true true None (λ _, None) (λ _, inl ())) g_meta = (GalleryFinished fs, d) ∧ d ≡ₚ [g_file].
Proof.
  apply (gallery_finished (λ _ _, mkFileEnv true true None (λ _, None) (λ _, inl ())) g_meta).
  - apply NoDup_singleton.
  - reflexivity.
  - intros f d Hf. unfold run_file. cbn. by destruct (decide (f ∈ d)).
Defined.

(** ** Defects *)

(** The error of the last write is lost: the download succeeds, the file is empty. *)
Theorem gallery_last_write_lost :
  @gallery_download toy_digest true (Some [DlBytes [(as_bytes "ab", Some 0%nat)]]) (expected_sha1_hash g_sha) =
    (inl (), Some []).
Proof. vm_compute. reflexivity. Qed.

(** The announced number of files is neither hashed nor compared with the list.  A
    gallery of two files that announces one is accepted and reported as finished although
    only the first could be downloaded; one that lists a file twice is never finished. *)
Definition g_line2 : string := "2 2 org unknown jpg 002".
Definition g_raw_of (count : string) (l : list string) : list string :=
  ["GID 12"; "FILECOUNT " +:+ count; "MINXRES org"; "TITLE a";
   "DLHASH " +:+ @string_to_hash hex_ref toy_digest (str_join nl_str ("key" :: l)); "FILELIST"] ++ l.

Theorem gallery_filecount_unchecked :
  (∃ m f fs, @parser hex_ref toy_digest "key" (g_raw_of "1" [g_line; g_line2]) = Ret m ∧ f ∈ gallery_files m ∧ f ≠ g_file ∧
    gallery_run (λ _ g, mkFileEnv true (bool_decide (g = g_file)) None (λ _, None) (λ _, inr DlRequest)) m =
      (GalleryFinished fs, [g_file])) ∧
  (∃ m fs, @parser hex_ref toy_digest "key" (g_raw_of "2" [g_line; g_line]) = Ret m ∧
    gallery_run (λ _ _, mkFileEnv true true None (λ _, None) (λ _, inl ())) m = (fs, [g_file]) ∧
    ∀ l, fs ≠ GalleryFinished l).
Proof.
  split.
  - eexists _, (mkGFile 2 2 "org" None "jpg" "002"), _. split; [vm_compute; reflexivity|].
    split; [right; left|]. split; [discriminate|]. vm_compute. reflexivity.
  - eexists _, _. split; [vm_compute; reflexivity|]. split; [vm_compute; reflexivity|]. discriminate.
Qed.
