(* ===== verification/GalleryPar.v ===== *)
(** * GalleryPar: the files of a gallery in parallel

    [src/src/gallery_downloader.rs], [GalleryDownloader::run]: a round goes through the
    files and spawns a task for each that must be fetched; a semaphore lets four
    tasks run at a time, and the round ends when all permits are back.  [Gallery] has
    the files one after the other; here the loop and its tasks interleave, and the
    result is the same. *)

From S2P Require Import Prelude Text Extern Gallery.
From stdpp Require Import base list strings numbers.

Local Open Scope Z_scope.

(** ** A round *)

Definition MAX_DOWNLOAD_TASK : nat := 4.

(** What the loop does with a file itself; [inr]: it spawns a task for this host. *)
Definition look (e : file_env) (f : GalleryFile) (downloaded : list GalleryFile) : file_result + option string :=
  if negb (fe_running e) then inl Stop
  else if decide (f ∈ downloaded) then inl Got
  else if fe_check e then inl Got
  else match fe_urls e with
       | None => inl (Missed None)
       | Some [] => inl PanicIndex
       | Some (u :: _) => match fe_host e u with None => inl (Missed None) | Some host => inr host end
       end.

(** The round: the files the loop has not reached, the tasks with what they will end
    in, the shared set and list, and how the loop was left. *)
Record round := mkRound {
  r_todo : list GalleryFile;
  r_tasks : list (GalleryFile * file_result);
  r_downloaded : list GalleryFile;
  r_failures : list string;
  r_end : option round_end
}.

(** What a result does to the set and the list behind their locks. *)
Definition record_result (f : GalleryFile) (x : file_result) (s : list GalleryFile * list string) : list GalleryFile * list string :=
  match x with
  | Got => (add_set f s.1, s.2)
  | Missed report => (s.1, s.2 ++ option_list report)
  | Stop | PanicIndex => s
  end.

Inductive round_act := Loop | Task (i : nat).

Section round.
Variable env : GalleryFile → file_env.

(** The loop with its [acquire_owned] and, at the end, its [acquire_many]; and the
    end of a task. *)
Definition round_step (x : round_act) (s : round) : option round :=
  match x with
  | Loop =>
      match r_end s, r_todo s with
      | Some _, _ => None
      | None, [] => if decide (r_tasks s = []) then Some (mkRound [] [] (r_downloaded s) (r_failures s) (Some RoundDone)) else None
      | None, f :: todo =>
          match look (env f) f (r_downloaded s) with
          | inl Stop => Some (mkRound (f :: todo) (r_tasks s) (r_downloaded s) (r_failures s) (Some RoundStopped))
          | inl PanicIndex => Some (mkRound (f :: todo) (r_tasks s) (r_downloaded s) (r_failures s) (Some RoundPanic))
          | inl x =>
              let (d, l) := record_result f x (r_downloaded s, r_failures s) in
              Some (mkRound todo (r_tasks s) d l None)
          | inr host =>
              if decide (length (r_tasks s) < MAX_DOWNLOAD_TASK)%nat
              then Some (mkRound todo (r_tasks s ++ [(f, try_file f host (fe_tries (env f)))]) (r_downloaded s) (r_failures s) None)
              else None
          end
      end
  | Task i =>
      '(f, x) ← r_tasks s !! i;
      let (d, l) := record_result f x (r_downloaded s, r_failures s) in
      Some (mkRound (r_todo s) (delete i (r_tasks s)) d l (r_end s))
  end.

Fixpoint round_run (l : list round_act) (s : round) : option round :=
  match l with [] => Some s | x :: l => s ← round_step x s; round_run l s end.

Definition round_start (files downloaded : list GalleryFile) (failures : list string) : round :=
  mkRound files [] downloaded failures None.

End round.

(** ** All rounds *)

(** The ['retry] loop, each round with some interleaving. *)
Inductive par_gallery (env : nat → GalleryFile → file_env) (m : GalleryMeta) :
    nat → nat → list GalleryFile → list string → gallery_end → list GalleryFile → Prop :=
| par_failed retry d l : par_gallery env m 0 retry d l GalleryFailed d
| par_finished n retry d l acts s :
    round_run (env retry) acts (round_start (gallery_files m) d l) = Some s → r_end s = Some RoundDone →
    Z.of_nat (length (r_downloaded s)) = filecount m →
    par_gallery env m (S n) retry d l (GalleryFinished (r_failures s)) (r_downloaded s)
| par_again n retry d l acts s e d' :
    round_run (env retry) acts (round_start (gallery_files m) d l) = Some s → r_end s = Some RoundDone →
    Z.of_nat (length (r_downloaded s)) ≠ filecount m →
    par_gallery env m n (S retry) (r_downloaded s) (r_failures s) e d' → par_gallery env m (S n) retry d l e d'
| par_left n retry d l acts s x :
    round_run (env retry) acts (round_start (gallery_files m) d l) = Some s → r_end s = Some x → x ≠ RoundDone →
    par_gallery env m (S n) retry d l (match x with RoundPanic => GalleryPanic | _ => GalleryStopped end) (r_downloaded s).

(** ** Lemmas *)

#[export] Instance file_result_eq_dec : EqDecision file_result.
Proof. solve_decision. Defined.

Lemma run_file_look e f d :
  run_file e f d = match look e f d with inl x => x | inr host => try_file f host (fe_tries e) end.
Proof. unfold run_file, look. repeat case_match; done. Qed.

Lemma try_file_ends f host tries : try_file f host tries = Got ∨ ∃ report, try_file f host tries = Missed report.
Proof. unfold try_file. repeat case_match; eauto. Qed.

Lemma look_same e f d d' : (f ∈ d ↔ f ∈ d') → look e f d = look e f d'.
Proof. intros Hd. unfold look. repeat case_decide; naive_solver. Qed.

Lemma run_file_same e f d d' : (f ∈ d ↔ f ∈ d') → run_file e f d = run_file e f d'.
Proof. intros Hd. by rewrite !run_file_look, (look_same e f d d'). Qed.

Section facts.
Variable env : GalleryFile → file_env.
Variable d0 : list GalleryFile.

(** What a file ends in, whoever else is done. *)
Definition result_of (f : GalleryFile) : file_result := run_file (env f) f d0.

(** How the loop over the files ends. *)
Fixpoint verdict (files : list GalleryFile) : round_end :=
  match files with
  | [] => RoundDone
  | f :: files => match result_of f with Stop => RoundStopped | PanicIndex => RoundPanic | _ => verdict files end
  end.

Definition gains (l : list GalleryFile) : list GalleryFile := filter (λ f, f ∉ d0 ∧ result_of f = Got) l.
Definition reports (l : list GalleryFile) : list string :=
  mbind (λ f, match result_of f with Missed report => option_list report | _ => [] end) l.

(** The set and the list when the files [fin] are done. *)
Definition after (l0 : list string) (fin : list GalleryFile) (s : list GalleryFile * list string) : Prop :=
  s.1 ≡ₚ d0 ++ gains fin ∧ s.2 ≡ₚ l0 ++ reports fin.

Lemma after_perm l0 fin fin' s : fin ≡ₚ fin' → after l0 fin s → after l0 fin' s.
Proof.
  intros Hp [H1 H2]. split; [rewrite H1|rewrite H2]; f_equiv; unfold gains, reports; by rewrite Hp.
Qed.

(** Whether the file was there before is all that the others cannot change. *)
Lemma after_elem l0 fin s f : after l0 fin s → f ∉ fin → (f ∈ s.1 ↔ f ∈ d0).
Proof.
  intros [H1 _] Hf. rewrite H1, elem_of_app. unfold gains. rewrite list_elem_of_filter. naive_solver.
Qed.

Lemma after_result l0 fin s f :
  after l0 fin s → f ∉ fin → result_of f ≠ Stop → result_of f ≠ PanicIndex →
  after l0 (fin ++ [f]) (record_result f (result_of f) s).
Proof.
  intros Ha Hf Hs Hp. pose proof (after_elem l0 fin s f Ha Hf) as He. destruct Ha as [H1 H2].
  unfold after, gains, reports. rewrite list.filter_app, filter_cons, filter_nil, bind_app. cbn [mbind list_bind].
  destruct (result_of f) as [|report| |] eqn:Er; cbn [record_result fst snd]; [|split|done|done].
  - rewrite !app_nil_r. split; [|done]. unfold add_set. case_decide as Hin.
    + rewrite decide_False by naive_solver. by rewrite app_nil_r.
    + rewrite decide_True by naive_solver. by rewrite H1, <- (assoc_L (++)).
  - by rewrite decide_False, app_nil_r by naive_solver.
  - by rewrite H2, app_nil_r, <- (assoc_L (++)).
Qed.

(** The files one after the other. *)
Lemma run_round_after l0 files fin s :
  NoDup (fin ++ files) → after l0 fin s →
  (run_round env files s.1 s.2).1.1 = verdict files ∧
  (verdict files = RoundDone → after l0 (fin ++ files) ((run_round env files s.1 s.2).1.2, (run_round env files s.1 s.2).2)).
Proof.
  revert fin s. induction files as [|f files IH]; intros fin s Hnd Ha; cbn [run_round verdict].
  { rewrite app_nil_r. split; [done|]. intros _. by destruct s. }
  assert (f ∉ fin) as Hf by (apply list.NoDup_app in Hnd as (_ & Hd & _); intros Hin; apply (Hd f Hin); left).
  assert (run_file (env f) f s.1 = result_of f) as -> by (apply run_file_same; by eapply after_elem).
  rewrite cons_middle, (assoc_L (++)) in Hnd |- *.
  pose proof (after_result l0 fin s f Ha Hf) as Hstep.
  destruct (result_of f) as [|report| |] eqn:Er; [| |done|done]; apply (IH _ _ Hnd (Hstep ltac:(done) ltac:(done))).
Qed.

Lemma verdict_app pre files : verdict pre = RoundDone → verdict (pre ++ files) = verdict files.
Proof. induction pre as [|f pre IH]; [done|]. cbn. by destruct (result_of f). Qed.

Lemma verdict_done f files : f ∈ files → verdict files = RoundDone → result_of f ≠ Stop ∧ result_of f ≠ PanicIndex.
Proof.
  induction files as [|f' files IH]; [by intros ?%elem_of_nil|]. cbn.
  intros [->|Hin]%elem_of_cons Hv; [by destruct (result_of f')|]. apply IH; [done|]. by destruct (result_of f').
Qed.

(** The round in any interleaving: [pre] are the files the loop has passed. *)
Definition round_inv (l0 : list string) (files : list GalleryFile) (s : round) : Prop :=
  ∃ pre fin, files = pre ++ r_todo s ∧ pre ≡ₚ fin ++ (r_tasks s).*1 ∧ verdict pre = RoundDone ∧
    after l0 fin (r_downloaded s, r_failures s) ∧
    Forall (λ t, t.2 = result_of t.1) (r_tasks s) ∧ (length (r_tasks s) ≤ MAX_DOWNLOAD_TASK)%nat ∧
    match r_end s with
    | None => True
    | Some RoundDone => r_todo s = [] ∧ r_tasks s = []
    | Some x => verdict (r_todo s) = x
    end.

(** The loop passes a file it deals with itself, or leaves it to a task. *)
Lemma pass_inv l0 files s f todo :
  NoDup files → round_inv l0 files s → r_end s = None → r_todo s = f :: todo →
  result_of f = match look (env f) f (r_downloaded s) with inl x => x | inr host => try_file f host (fe_tries (env f)) end ∧
  (result_of f ≠ Stop → result_of f ≠ PanicIndex →
   let s' := record_result f (result_of f) (r_downloaded s, r_failures s) in
   round_inv l0 files (mkRound todo (r_tasks s) s'.1 s'.2 None) ∧
   ((length (r_tasks s) < MAX_DOWNLOAD_TASK)%nat →
    round_inv l0 files (mkRound todo (r_tasks s ++ [(f, result_of f)]) (r_downloaded s) (r_failures s) None))).
Proof.
  intros Hnd (pre & fin & Ef & Hpre & Hv & Ha & Ht & Hn & _) He Etodo. rewrite Etodo in Ef.
  assert (f ∉ fin) as Hfin.
  { rewrite Ef in Hnd. apply list.NoDup_app in Hnd as (_ & Hdisj & _). intros Hin. apply (Hdisj f); [|by left].
    rewrite Hpre, elem_of_app. by left. }
  pose proof (after_elem l0 fin _ f Ha Hfin) as Hel. cbn [fst] in Hel. split.
  { unfold result_of. by rewrite run_file_look, (look_same _ _ d0 (r_downloaded s)). }
  intros H1 H2 s'. assert (files = (pre ++ [f]) ++ todo) as Ef' by (by rewrite Ef, <- (assoc_L (++))).
  assert (verdict (pre ++ [f]) = RoundDone) as Hv' by (rewrite verdict_app by done; cbn; by destruct (result_of f)).
  split.
  - exists (pre ++ [f]), (fin ++ [f]). cbn. split_and!; try done; [rewrite Hpre; solve_Permutation|].
    unfold s'. rewrite <- surjective_pairing. by apply after_result.
  - intros Hlt. exists (pre ++ [f]), fin. cbn. rewrite fmap_app, length_app. cbn. split_and!; try done; [|..|lia].
    + rewrite Hpre. by rewrite (assoc_L (++)).
    + apply Forall_app. split; [done|]. by constructor.
Qed.

Lemma round_step_inv l0 files x s s' :
  NoDup files → round_inv l0 files s → round_step env x s = Some s' → round_inv l0 files s'.
Proof.
  intros Hnd Hi E. destruct x as [|i]; cbn [round_step] in E.
  - destruct (r_end s) eqn:Eend; [done|]. destruct (r_todo s) as [|f todo] eqn:Etodo.
    { destruct Hi as (pre & fin & Ef & Hpre & Hv & Ha & Ht & Hn & He). rewrite Etodo in Ef.
      case_decide as Et; [|done]. injection E as <-. exists pre, fin. cbn. rewrite Et in *. by split_and!. }
    destruct (pass_inv l0 files s f todo Hnd Hi Eend Etodo) as [Er Hpass].
    destruct (look (env f) f (r_downloaded s)) as [x|host].
    + rewrite <- Er in E. destruct Hi as (pre & fin & Ef & Hpre & Hv & Ha & Ht & Hn & He). rewrite Etodo in Ef.
      assert (∀ e, e ≠ RoundDone → verdict (f :: todo) = e →
        round_inv l0 files (mkRound (f :: todo) (r_tasks s) (r_downloaded s) (r_failures s) (Some e))) as Hleft.
      { intros e He1 He2. exists pre, fin. cbn [r_todo r_tasks r_downloaded r_failures r_end]. split_and!; try done. by destruct e. }
      destruct (result_of f) as [|report| |] eqn:Eres; cbn in E; injection E as <-.
      * by apply Hpass.
      * by apply Hpass.
      * apply Hleft; [done|]. cbn. by rewrite Eres.
      * apply Hleft; [done|]. cbn. by rewrite Eres.
    + case_decide; [|done]. injection E as <-. rewrite <- Er.
      destruct (try_file_ends f host (fe_tries (env f))) as [Et|[report Et]]; apply Hpass; congruence || done.
  - apply bind_Some in E as ([f x] & Hx & E). destruct Hi as (pre & fin & Ef & Hpre & Hv & Ha & Ht & Hn & He).
    destruct (record_result f x (r_downloaded s, r_failures s)) as [d l] eqn:Erec. injection E as <-.
    assert (x = result_of f) as -> by exact (Forall_lookup_1 _ _ _ _ Ht Hx).
    pose proof (delete_Permutation _ _ _ Hx) as Hdel.
    assert (f ∈ pre) as Hfp. { rewrite Hpre, elem_of_app. right. apply list_elem_of_fmap. exists (f, result_of f). split; [done|]. by eapply list_elem_of_lookup_2. }
    assert (pre ≡ₚ (fin ++ [f]) ++ (delete i (r_tasks s)).*1) as Hpre'.
    { rewrite Hpre, Hdel at 1. cbn. by rewrite <- (assoc_L (++)). }
    assert (f ∉ fin) as Hfin.
    { assert (NoDup pre) as Hnp by (rewrite Ef in Hnd; by apply list.NoDup_app in Hnd as (? & _)).
      rewrite Hpre' in Hnp. rewrite <- (assoc_L (++)) in Hnp. apply list.NoDup_app in Hnp as (_ & Hd & _). intros Hin. apply (Hd f Hin). by left. }
    destruct (verdict_done f pre Hfp Hv) as [H1 H2].
    exists pre, (fin ++ [f]). cbn. split_and!; try done.
    + rewrite <- Erec. by apply after_result.
    + rewrite Hdel in Ht. by apply Forall_cons_1 in Ht as [_ ?].
    + rewrite length_delete by eauto. lia.
    + destruct (r_end s) as [[]|]; try done. destruct He as [? Hnil]. by rewrite Hnil in Hx.
Qed.

Lemma round_run_inv l0 files l s s' :
  NoDup files → round_inv l0 files s → round_run env l s = Some s' → round_inv l0 files s'.
Proof.
  intros Hnd. revert s. induction l as [|x l IH]; intros s Hi E; [by simplify_eq/=|]. cbn in E.
  apply bind_Some in E as (s1 & E1 & E). eapply IH; [|exact E]. by eapply round_step_inv.
Qed.

Lemma round_start_inv l0 files : round_inv l0 files (round_start files d0 l0).
Proof.
  exists [], []. cbn. split_and!; try done; [|unfold MAX_DOWNLOAD_TASK; lia].
  unfold after, gains, reports. cbn. by rewrite !app_nil_r.
Qed.

(** The steps a round has left. *)
Definition work (s : round) : nat :=
  2 * length (r_todo s) + length (r_tasks s) + match r_end s with None => 1 | Some _ => 0 end.

Lemma round_step_work x s s' : round_step env x s = Some s' → (work s' < work s)%nat.
Proof.
  unfold work. destruct x as [|i]; cbn [round_step]; intros E.
  - destruct (r_end s); [done|]. destruct (r_todo s) as [|f todo].
    + case_decide as Et; [|done]. injection E as <-. rewrite Et. cbn. lia.
    + destruct (look _ _ _) as [[|report| |]|host]; cbn in E; [..|case_decide; [|done]]; injection E as <-; cbn; rewrite ?length_app; cbn; lia.
  - apply bind_Some in E as ([f x] & Hx & E). destruct (record_result f x _) as [d l]. injection E as <-. cbn.
    rewrite length_delete by eauto. apply lookup_lt_Some in Hx. destruct (r_end s); lia.
Qed.

Lemma round_run_work l s s' : round_run env l s = Some s' → (length l + work s' ≤ work s)%nat.
Proof.
  revert s. induction l as [|x l IH]; intros s E; [by simplify_eq/=|]. cbn in E.
  apply bind_Some in E as (s1 & E1 & E). apply IH in E. apply round_step_work in E1. cbn [length]. lia.
Qed.

Lemma round_goes_on s : r_end s = None → ∃ x s', round_step env x s = Some s'.
Proof.
  intros He. assert (∀ t, r_tasks s !! 0%nat = Some t → ∃ x s', round_step env x s = Some s') as Htask.
  { intros [f x] Ht. exists (Task 0). cbn. rewrite Ht. cbn. destruct (record_result f x _). eauto. }
  destruct (r_tasks s) as [|t ts] eqn:Et; [|by eapply Htask]. exists Loop. cbn. rewrite He, Et.
  destruct (r_todo s) as [|f todo]; [rewrite decide_True by done; eauto|].
  destruct (look _ _ _) as [[|report| |]|host]; cbn; eauto.
Qed.

End facts.

(** The set and the list as such, whatever their order. *)
Lemma run_round_perm env files d d' l l' :
  d ≡ₚ d' → l ≡ₚ l' →
  let '(e, d1, l1) := run_round env files d l in
  let '(e', d1', l1') := run_round env files d' l' in e = e' ∧ d1 ≡ₚ d1' ∧ l1 ≡ₚ l1'.
Proof.
  revert d d' l l'. induction files as [|f files IH]; intros d d' l l' Hd Hl; cbn [run_round]; [done|].
  rewrite (run_file_same (env f) f d d') by (by rewrite Hd).
  destruct (run_file (env f) f d') as [|report| |]; try done.
  - apply IH; [|done]. unfold add_set. rewrite (decide_ext (f ∈ d) (f ∈ d')) by (by rewrite Hd). case_decide; by rewrite Hd.
  - apply IH; [done|]. by rewrite Hl.
Qed.

Lemma round_equal env files d l acts s x :
  NoDup files → round_run env acts (round_start files d l) = Some s → r_end s = Some x →
  let '(e, d', l') := run_round env files d l in
  e = x ∧ (x = RoundDone → r_downloaded s ≡ₚ d' ∧ r_failures s ≡ₚ l').
Proof.
  intros Hnd E Hx. pose proof (round_run_inv env d l files acts _ s Hnd (round_start_inv env d l files) E)
    as (pre & fin & Ef & Hpre & Hv & [Hd Hl] & _ & _ & Hend). rewrite Hx in Hend.
  destruct (run_round_after env d l files [] (d, l)) as [H1 H2]; [done|..].
  { unfold after, gains, reports. cbn. by rewrite !app_nil_r. }
  cbn [fst snd app] in H1, H2. destruct (run_round env files d l) as [[e d'] l']. cbn [fst snd] in *. subst e.
  assert (verdict env d files = verdict env d (r_todo s)) as Hvf by (rewrite Ef; by apply verdict_app).
  rewrite Hvf in *. destruct x; [|split; [by destruct Hend|done]..].
  destruct Hend as [Ht Hr]. rewrite Ht, Hr in *. split; [done|]. intros _. rewrite app_nil_r in Ef, Hpre. subst files.
  destruct (H2 eq_refl) as [Hd' Hl'].
  destruct (after_perm env d l fin pre (r_downloaded s, r_failures s)) as [Hd1 Hl1]; [by symmetry|by split|]. cbn in *.
  split; etrans; [exact Hd1|by symmetry|exact Hl1|by symmetry].
Qed.

Lemma round_completes env n s : (work s ≤ n)%nat → ∃ acts s' x, round_run env acts s = Some s' ∧ r_end s' = Some x.
Proof.
  revert s. induction n as [|n IH]; intros s Hn.
  all: destruct (r_end s) as [x|] eqn:He; [by exists [], s, x|].
  - unfold work in Hn. rewrite He in Hn. lia.
  - destruct (round_goes_on env s He) as (x & s1 & E1). pose proof (round_step_work env x s s1 E1).
    destruct (IH s1 ltac:(lia)) as (acts & s' & y & E & Hy). exists (x :: acts), s', y. cbn. by rewrite E1.
Qed.

(** Two ways for a gallery to end that differ in the order of the failures only. *)
Definition same_end (e e' : gallery_end) : Prop :=
  match e, e' with
  | GalleryFinished l, GalleryFinished l' => l ≡ₚ l'
  | GalleryFailed, GalleryFailed | GalleryStopped, GalleryStopped | GalleryPanic, GalleryPanic => True
  | _, _ => False
  end.

Lemma par_gallery_equal env m n retry d l e d1 d' l' :
  NoDup (gallery_files m) → par_gallery env m n retry d l e d1 → d ≡ₚ d' → l ≡ₚ l' →
  ∃ e' d1', run_gallery n retry env m d' l' = (e', d1') ∧ same_end e e' ∧
    (e ≠ GalleryStopped → e ≠ GalleryPanic → d1 ≡ₚ d1').
Proof.
  intros Hnd Hp. revert d' l'. induction Hp as [retry d l|n retry d l acts s E Hx Hc|n retry d l acts s e d1 E Hx Hc _ IH|n retry d l acts s x E Hx Hne];
    intros d' l' Hd Hl; cbn [run_gallery]; [by eexists _, _|..];
    pose proof (round_equal (env retry) _ d l acts s _ Hnd E Hx) as Heq;
    pose proof (run_round_perm (env retry) (gallery_files m) d d' l l' Hd Hl) as Hperm;
    destruct (run_round (env retry) (gallery_files m) d l) as [[y d2] l2], (run_round (env retry) (gallery_files m) d' l') as [[y' d2'] l2'];
    destruct Heq as [-> Hdone], Hperm as (<- & Hd2 & Hl2).
  - destruct (Hdone eq_refl) as [D1 D2]. rewrite (proj2 (Z.eqb_eq _ _)) by (by rewrite <- Hd2, <- D1).
    eexists _, _. split; [done|]. cbn. split; [by rewrite D2|]. intros _ _. by rewrite D1.
  - destruct (Hdone eq_refl) as [D1 D2]. rewrite (proj2 (Z.eqb_neq _ _)) by (by rewrite <- Hd2, <- D1).
    apply IH; [by rewrite D1|by rewrite D2].
  - destruct x; try done; eexists _, _; (split; [done|]); by split.
Qed.

Lemma par_gallery_total env m n retry d l : ∃ e d', par_gallery env m n retry d l e d'.
Proof.
  revert retry d l. induction n as [|n IH]; intros retry d l; [by eexists _, _; constructor|].
  destruct (round_completes (env retry) _ (round_start (gallery_files m) d l) (Nat.le_refl _)) as (acts & s & x & E & Hx).
  assert (x = RoundDone ∨ x ≠ RoundDone) as [->|Hne] by (destruct x; [by left|by right..]); [|by eexists _, _; eapply par_left].
  destruct (decide (Z.of_nat (length (r_downloaded s)) = filecount m)); [by eexists _, _; eapply par_finished|].
  destruct (IH (S retry) (r_downloaded s) (r_failures s)) as (e & d' & Hp). exists e, d'. by eapply par_again.
Qed.

(** ** Theorems *)

(** A round with its tasks: never more than four run at a time; whatever the
    scheduler does, the round is not stuck and is over after at most two steps per
    file and one; and it ends as if the files had been fetched one after the other,
    with the same files and the same failures. *)
Theorem gallery_round_parallel env files d l acts s :
  NoDup files → round_run env acts (round_start files d l) = Some s →
  (length (r_tasks s) ≤ 4)%nat ∧ (length acts ≤ 2 * length files + 1)%nat ∧
  (r_end s = None → ∃ x s', round_step env x s = Some s') ∧
  (∀ x, r_end s = Some x →
     let '(e, d', l') := run_round env files d l in
     e = x ∧ (x = RoundDone → r_downloaded s ≡ₚ d' ∧ r_failures s ≡ₚ l')).
Proof.
  intros Hnd E. split_and!.
  - by destruct (round_run_inv env d l files acts _ s Hnd (round_start_inv env d l files) E) as (_ & _ & _ & _ & _ & _ & _ & Hn & _).
  - apply round_run_work in E. unfold work in E. cbn in E. lia.
  - apply round_goes_on.
  - intros x Hx. by eapply round_equal.
Qed.

(** C38: A gallery with its tasks in parallel: every schedule gives the end and the files
    that one file after the other gives, and there is a schedule that ends. *)
Theorem gallery_parallel env m :
  NoDup (gallery_files m) →
  (∃ e d, par_gallery env m 10 0 [] [] e d) ∧
  ∀ e d, par_gallery env m 10 0 [] [] e d →
    ∃ e' d', gallery_run env m = (e', d') ∧ same_end e e' ∧ (e ≠ GalleryStopped → e ≠ GalleryPanic → d ≡ₚ d').
Proof.
  intros Hnd. split; [apply par_gallery_total|]. intros e d Hp. by eapply par_gallery_equal.
Qed.

(** ** Witnesses *)

(** Two files: the first cannot be fetched and is reported, the second arrives while
    the first is still being tried. *)
Definition par_file : GalleryFile := mkGFile 2 2 "org" None "jpg" "002".
Definition par_env (f : GalleryFile) : file_env :=
  mkFileEnv true false (Some ["http://h/x"]) (λ _, Some (Some "h"))
    (λ _, if decide (f = g_file) then inr DlRequest else inl ()).
Definition par_acts : list round_act := [Loop; Loop; Task 1; Task 0; Loop].

Lemma gallery_round_parallel_witness :
  ∃ s, round_run par_env par_acts (round_start [g_file; par_file] [] []) = Some s ∧
    r_end s = Some RoundDone ∧ r_downloaded s ≡ₚ [par_file] ∧ r_failures s ≡ₚ ["h-1-org"].
Proof.
  assert (NoDup [g_file; par_file]) as Hnd by (apply (bool_decide_unpack _); vm_compute; exact I).
  destruct (round_run par_env par_acts (round_start [g_file; par_file] [] [])) as [s|] eqn:E; [|vm_compute in E; discriminate].
  exists s. split; [reflexivity|].
  assert (r_end s = Some RoundDone) as He by (apply (f_equal (λ o, o ≫= r_end)) in E; cbn [mbind option_bind] in E; rewrite <- E; vm_compute; reflexivity).
  destruct (gallery_round_parallel par_env [g_file; par_file] [] [] par_acts s Hnd E) as (_ & _ & _ & Hr).
  specialize (Hr RoundDone He).
  assert (run_round par_env [g_file; par_file] [] [] = (RoundDone, [par_file], ["h-1-org"])) as Es by (vm_compute; reflexivity).
  rewrite Es in Hr. destruct Hr as [_ Hr]. split; [exact He|]. exact (Hr eq_refl).
Defined.

Lemma gallery_parallel_witness :
  ∃ e d, par_gallery (λ _, par_env) g_meta 10 0 [] [] e d ∧ same_end e (gallery_run (λ _, par_env) g_meta).1.
Proof.
  destruct (gallery_parallel (λ _, par_env) g_meta (NoDup_singleton g_file)) as [(e & d & Hp) Hall].
  exists e, d. split; [exact Hp|]. destruct (Hall e d Hp) as (e' & d' & -> & Hs & _). exact Hs.
Defined.
