(* ===== verification/GalleryRun.v ===== *)
(** * GalleryRun: the queue of galleries

    [GalleryDownloader::run] of [src/src/gallery_downloader.rs]: the loop that asks
    the server for a gallery, downloads it and asks for the next one, naming the
    one it is done with.  Parsing, names and the rounds over the files are those of
    [Gallery]. *)

From S2P Require Import Prelude Text Extern Gallery.
From stdpp Require Import base list strings numbers.

Local Open Scope Z_scope.

(** ** Data *)

(** What one gallery meets: the client is running, the directory exists or can be
    created, what is counted of the title, the files, and the next answer of
    [fetch_queue]. *)
Record task_env := mkTask {
  t_running : bool;
  t_dir_ok : bool;
  t_chars : Z;
  t_graphemes : list nat;
  t_files : nat → GalleryFile → file_env;
  t_write_ok : bool;                        (* [galleryinfo.txt] can be written *)
  t_next : option (list string)
}.

Inductive run_action :=
| FetchQueue (done : option (Z * string))   (* the gallery that is done *)
| MakeDir (name : string)
| WriteInfo (dir information : string)
| ReportFailures (failures : list string).

Inductive queue_end :=
| QueueEmpty
| NotRunning
| ParseFailed (e : parse_error)
| DirFailed
| QueuePanic
| QueueWaiting.                             (* the gallery is still being downloaded *)

Section queue.
Context `{HexCodec, Digest}.
Variable key : string.

(** What a finished gallery does. *)
Definition finish_gallery (e : task_env) (name : string) (m : GalleryMeta) (failures : list string) : list run_action :=
  (if t_write_ok e then [WriteInfo name (information m)] else []) ++
  (if bool_decide (failures = []) then [] else [ReportFailures failures]).

(** The ['task: while let] loop on the answer [task]. *)
Fixpoint run_tasks (task : option (list string)) (l : list task_env) : list run_action * queue_end :=
  match task with
  | None => ([], QueueEmpty)
  | Some raw =>
      match l with
      | [] => ([], QueueWaiting)
      | e :: l =>
          match parser key raw with
          | Panic => ([], QueuePanic)
          | Fail err => ([], if negb (t_running e) then NotRunning else ParseFailed err)
          | Ret m =>
              if negb (t_running e) then ([], NotRunning)
              else if negb (t_dir_ok e) then ([], DirFailed)
              else
                let name := dir_name m (t_chars e) (t_graphemes e) in
                let next acts :=
                  let (tr, r) := run_tasks (t_next e) l in
                  (MakeDir name :: acts ++ FetchQueue (Some (gid m, minxres m)) :: tr, r) in
                match gallery_run (t_files e) m with
                | (GalleryFinished failures, _) => next (finish_gallery e name m failures)
                | (GalleryFailed, _) => next []
                | (GalleryStopped, _) => ([MakeDir name], NotRunning)
                | (GalleryPanic, _) => ([MakeDir name], QueuePanic)
                end
          end
      end
  end.

(** [GalleryDownloader::run]; [first] is the first answer. *)
Definition gallery_queue (first : option (list string)) (l : list task_env) : list run_action * queue_end :=
  let (tr, r) := run_tasks first l in (FetchQueue None :: tr, r).

(** ** Vocabulary *)

(** What the server was told is done. *)
Definition fetches (tr : list run_action) : list (option (Z * string)) :=
  omap (λ a, match a with FetchQueue d => Some d | _ => None end) tr.
(** The galleries whose information was written. *)
Definition written (tr : list run_action) : list string :=
  omap (λ a, match a with WriteInfo _ i => Some i | _ => None end) tr.

(** A gallery as it was dealt with: its answer, what it met, and its data. *)
Definition dealt (x : list string * task_env * GalleryMeta) : Prop :=
  let '(raw, e, m) := x in
  parser key raw = Ret m ∧ t_running e = true ∧ t_dir_ok e = true ∧
  ((∃ fs d, gallery_run (t_files e) m = (GalleryFinished fs, d)) ∨ ∃ d, gallery_run (t_files e) m = (GalleryFailed, d)).

Definition finished (x : list string * task_env * GalleryMeta) : bool :=
  match gallery_run (t_files x.1.2) x.2 with (GalleryFinished _, _) => t_write_ok x.1.2 | _ => false end.

Lemma run_tasks_dealt task l :
  let '(tr, r) := run_tasks task l in
  ∃ xs, Forall dealt xs ∧
    (* each gallery is the answer to the request that named the one before *)
    (∀ i x, xs !! i = Some x → Some x.1.1 = nth i (task :: (t_next <$> l)) None ∧ l !! i = Some x.1.2) ∧
    fetches tr = (λ x, Some (gid x.2, minxres x.2)) <$> xs ∧
    written tr = (λ x, information x.2) <$> filter (λ x, finished x = true) xs ∧
    (r = QueueEmpty → nth (length xs) (task :: (t_next <$> l)) None = None).
Proof.
  revert task. induction l as [|e l IH]; intros task.
  { destruct task; cbn; exists []; split_and!; try done. }
  destruct task as [raw|]; cbn [run_tasks]; [|exists []; split_and!; done].
  assert (∀ tr r, fetches tr = [] → written tr = [] → r ≠ QueueEmpty →
    ∃ xs, Forall dealt xs ∧
    (∀ i x, xs !! i = Some x → Some x.1.1 = nth i (Some raw :: (t_next <$> e :: l)) None ∧ (e :: l) !! i = Some x.1.2) ∧
    fetches tr = (λ x, Some (gid x.2, minxres x.2)) <$> xs ∧
    written tr = (λ x, information x.2) <$> filter (λ x, finished x = true) xs ∧
    (r = QueueEmpty → nth (length xs) (Some raw :: (t_next <$> e :: l)) None = None)) as Hstop.
  { intros tr r Hf Hw Hr. exists []. split_and!; done. }
  destruct (parser key raw) as [m|err|] eqn:Ep; [|by destruct (t_running e); apply Hstop|by apply Hstop].
  destruct (t_running e) eqn:Erun; cbn [negb]; [|by apply Hstop].
  destruct (t_dir_ok e) eqn:Edir; cbn [negb]; [|by apply Hstop].
  specialize (IH (t_next e)). destruct (run_tasks (t_next e) l) as [tr r] eqn:Er.
  destruct IH as (xs & Hd & Hi & Hf & Hw & He).
  assert (∀ acts, dealt (raw, e, m) → fetches acts = [] →
    written acts = (λ x, information x.2) <$> filter (λ x, finished x = true) [(raw, e, m)] →
    let tr' := MakeDir (dir_name m (t_chars e) (t_graphemes e)) :: acts ++ FetchQueue (Some (gid m, minxres m)) :: tr in
    ∃ xs, Forall dealt xs ∧
    (∀ i x, xs !! i = Some x → Some x.1.1 = nth i (Some raw :: (t_next <$> e :: l)) None ∧ (e :: l) !! i = Some x.1.2) ∧
    fetches tr' = (λ x, Some (gid x.2, minxres x.2)) <$> xs ∧
    written tr' = (λ x, information x.2) <$> filter (λ x, finished x = true) xs ∧
    (r = QueueEmpty → nth (length xs) (Some raw :: (t_next <$> e :: l)) None = None)) as Hnext.
  { intros acts Hx Ha Hwa tr'. exists ((raw, e, m) :: xs). split_and!.
    - by constructor.
    - intros [|i] x Hl; [by injection Hl as <-|]. by apply Hi.
    - unfold tr', fetches in *. cbn. rewrite omap_app, Ha. cbn. by rewrite Hf.
    - unfold tr', written in *. cbn [omap list_omap]. rewrite omap_app, Hwa. cbn [omap list_omap]. rewrite Hw.
      rewrite <- fmap_app, <- list.filter_app. done.
    - exact He. }
  destruct (gallery_run (t_files e) m) as [[fs| | |] d] eqn:Eg; [| |by apply Hstop|by apply Hstop].
  - apply Hnext; [split_and!; eauto| |]; unfold finish_gallery.
    + destruct (t_write_ok e), (bool_decide (fs = [])); done.
    + assert (finished (raw, e, m) = t_write_ok e) as Hfin by (unfold finished; cbn [fst snd]; by rewrite Eg).
      rewrite filter_cons. destruct (t_write_ok e); [rewrite decide_True by done|rewrite decide_False by congruence];
        by destruct (bool_decide (fs = [])).
  - apply (Hnext []); [split_and!; eauto|done|].
    assert (finished (raw, e, m) = false) as Hfin by (unfold finished; cbn [fst snd]; by rewrite Eg).
    rewrite filter_cons. by rewrite decide_False by congruence.
Qed.

(** ** Theorem *)

(** The queue: the requests to the server name, in order, exactly the galleries
    that were downloaded or given up, each of them parsed from the answer to the
    request before; the information file is written exactly for the finished
    ones; and the loop ends as done only when the server has no more. *)
Theorem gallery_queue_order first l :
  let '(tr, r) := gallery_queue first l in
  ∃ xs, Forall dealt xs ∧
    (∀ i x, xs !! i = Some x → Some x.1.1 = nth i (first :: (t_next <$> l)) None ∧ l !! i = Some x.1.2) ∧
    fetches tr = None :: ((λ x, Some (gid x.2, minxres x.2)) <$> xs) ∧
    written tr = (λ x, information x.2) <$> filter (λ x, finished x = true) xs ∧
    (r = QueueEmpty → nth (length xs) (first :: (t_next <$> l)) None = None).
Proof.
  unfold gallery_queue. pose proof (run_tasks_dealt first l) as Hd. destruct (run_tasks first l) as [tr r].
  destruct Hd as (xs & ? & ? & Hf & ? & ?). exists xs. split_and!; try done. unfold fetches in *. cbn. by rewrite Hf.
Qed.

End queue.
