(* ===== verification/Server.v ===== *)
(** * Server: counting requests and the date header

    [src/src/middleware/connection_counter.rs] (module [Counter]) and
    [src/src/server/date_header.rs] (module [DateHeader]). *)

From S2P Require Import Prelude.
From stdpp Require Import base gmap list strings numbers.
From Stdlib Require Import SpecFloat Sorted.

Local Open Scope Z_scope.

(** ** The connection counter *)

Module Counter.

(** A request is counted from [call] on: first by the guard of the future, then
    by the body of the response. *)
Inductive request := InService | InBody.

#[export] Instance request_eq_dec : EqDecision request.
Proof. solve_decision. Defined.

Record counter := mkCounter {
  gauge : Z;                            (* u64, wraps *)
  live : gmap nat request               (* the requests and where their count is held *)
}.

(** [0.8] and the conversion of a [u64], as IEEE double precision numbers. *)
Definition f64_0_8 : spec_float := S754_finite false 7205759403792794 (-53).
Definition f64_of (z : Z) : spec_float := binary_normalize 53 1024 z 0 false.

(** [f64::ceil] followed by [as u64], for a number that is not negative. *)
Definition ceil_u64 (f : spec_float) : Z :=
  match f with
  | S754_finite false m e =>
      Z.min u64_max (if 0 <=? e then Z.pos m * 2 ^ e else - (- Z.pos m / 2 ^ (- e)))
  | S754_infinity false => u64_max
  | _ => 0
  end.

(** [(max_connection() as f64 * 0.8).ceil() as u64]. *)
Definition threshold (max_connection : Z) : Z := ceil_u64 (SFmul 53 1024 (f64_of max_connection) f64_0_8).

(** What can happen to a request. *)
Inductive event :=
| Call (i : nat)            (* [Service::call] *)
| ServiceOk (i : nat)       (* the inner future is ready with a response *)
| ServiceErr (i : nat)      (* or with an error *)
| DropFuture (i : nat)      (* the future is dropped before that: the guard runs *)
| DropBody (i : nat).       (* the response body is dropped *)

(** One event; the second result says whether [Overload] is sent. *)
Definition step (max_connection : Z) (e : event) (c : counter) : counter * bool :=
  match e with
  | Call i =>
      match live c !! i with
      | None => (mkCounter (wrap64 (gauge c + 1)) (<[i := InService]> (live c)),
                 threshold max_connection <? gauge c)
      | Some _ => (c, false)
      end
  | ServiceOk i =>
      match live c !! i with
      | Some InService => (mkCounter (gauge c) (<[i := InBody]> (live c)), false)
      | _ => (c, false)
      end
  | ServiceErr i | DropFuture i =>
      match live c !! i with
      | Some InService => (mkCounter (wrap64 (gauge c - 1)) (delete i (live c)), false)
      | _ => (c, false)
      end
  | DropBody i =>
      match live c !! i with
      | Some InBody => (mkCounter (wrap64 (gauge c - 1)) (delete i (live c)), false)
      | _ => (c, false)
      end
  end.

Definition steps (max_connection : Z) (es : list event) (c : counter) : counter :=
  foldl (λ c e, (step max_connection e c).1) c es.

Definition counter_new : counter := mkCounter 0 ∅.

Lemma step_gauge m e c :
  gauge c = wrap64 (Z.of_nat (size (live c))) →
  gauge (step m e c).1 = wrap64 (Z.of_nat (size (live (step m e c).1))).
Proof.
  assert (∀ i r, live c !! i = Some r → gauge c = wrap64 (Z.of_nat (size (live c))) →
    wrap64 (gauge c - 1) = wrap64 (Z.of_nat (size (delete i (live c))))) as Hdel.
  { intros i r E Hg. rewrite Hg, wrap64_sub_l, map_size_delete, E. f_equal.
    assert (size (live c) ≠ 0%nat); [|lia]. intros Hz. apply map_size_empty_inv in Hz.
    by rewrite Hz, lookup_empty in E. }
  intros Hg. destruct e as [i|i|i|i|i]; cbn; destruct (live c !! i) as [[]|] eqn:E; cbn; try done; eauto.
  - rewrite Hg, wrap64_add_l, map_size_insert_None by done. f_equal. lia.
  - by rewrite map_size_insert_Some by eauto.
Qed.

End Counter.

(** ** The date header *)

Module DateHeader.

Definition second : Z := 1000000000.

(** [CachedDate]: the second the header shows and when it expires. *)
Record cached_date := mkDate { shown : Z; next_update : Z }.

(** [update]: [subsec_nanos] of a time before the epoch is zero. *)
Definition update (now : Z) : cached_date :=
  let nanos := if 0 <=? now then now mod second else 0 in
  mkDate (now / second) (now + second - nanos).

Definition date_new (now : Z) : cached_date := update now.

(** [check]. *)
Definition check (now : Z) (d : cached_date) : cached_date :=
  if next_update d <? now then update now else d.

(** The cache after it was checked at each of these times. *)
Definition checks (ts : list Z) (t0 : Z) : cached_date := foldl (λ d t, check t d) (date_new t0) ts.

Definition fresh (t : Z) (d : cached_date) : Prop :=
  next_update d = (shown d + 1) * second ∧ shown d * second ≤ t ≤ next_update d.

Lemma update_fresh t : 0 ≤ t → fresh t (update t).
Proof.
  intros Ht. unfold fresh, update, second. rewrite (proj2 (Z.leb_le 0 t)) by lia. cbn.
  Z.to_euclidean_division_equations. lia.
Qed.

Lemma check_fresh t t' d : 0 ≤ t ≤ t' → fresh t d → fresh t' (check t' d).
Proof.
  intros Ht [Hn Hs]. unfold check. destruct (Z.ltb_spec (next_update d) t').
  - apply update_fresh. lia.
  - split; [done|lia].
Qed.

(** *** Rendering *)

Definition DATE_VALUE_LENGTH : nat := 29.

(** The text buffer with its position. *)
Record date_buffer := mkBuffer { d_bytes : bytes; d_pos : nat }.

(** [write_str]: a slice out of range panics. *)
Definition write_str (s : bytes) (b : date_buffer) : outcome unit date_buffer :=
  if (d_pos b + length s <=? length (d_bytes b))%nat then
    Ret (mkBuffer (take (d_pos b) (d_bytes b) ++ s ++ drop (d_pos b + length s) (d_bytes b)) (d_pos b + length s))
  else Panic.

Fixpoint write_all (pieces : list bytes) (b : date_buffer) : outcome unit date_buffer :=
  match pieces with
  | [] => Ret b
  | s :: r => b ← write_str s b; write_all r b
  end.

(** [render]: the pieces in which the formatted date is written, from the start;
    the header is the whole buffer. *)
Definition render (pieces : list bytes) (b : date_buffer) : outcome unit date_buffer :=
  write_all pieces (mkBuffer (d_bytes b) 0).

Lemma write_all_spec pieces b :
  (d_pos b ≤ length (d_bytes b))%nat →
  write_all pieces b =
    if (d_pos b + length (concat pieces) <=? length (d_bytes b))%nat then
      Ret (mkBuffer (take (d_pos b) (d_bytes b) ++ concat pieces ++ drop (d_pos b + length (concat pieces)) (d_bytes b))
             (d_pos b + length (concat pieces)))
    else Panic.
Proof.
  revert b. induction pieces as [|s r IH]; intros [b p] Hp; cbn [d_bytes d_pos] in *.
  - cbn. rewrite Nat.add_0_r, (proj2 (Nat.leb_le _ _)) by done. by rewrite take_drop.
  - cbn [write_all concat]. unfold write_str. cbn [d_bytes d_pos]. rewrite length_app.
    destruct (Nat.leb_spec (p + length s) (length b)); cbn [mbind outcome_bind].
    2:{ by rewrite (proj2 (Nat.leb_gt _ _)) by lia. }
    rewrite IH; cbn [d_bytes d_pos]; [|rewrite !length_app, length_take, length_drop; lia].
    assert (length (take p b ++ s ++ drop (p + length s) b) = length b) as ->
      by (rewrite !length_app, length_take, length_drop; lia).
    rewrite <- Nat.add_assoc. destruct (p + (length s + length (concat r)) <=? length b)%nat; [|done]. f_equal. f_equal.
    rewrite (assoc_L (++) (take p b) s), take_app_length' by (rewrite length_app, length_take; lia).
    rewrite <- (assoc_L (++)), drop_app_ge by (rewrite length_app, length_take; lia).
    rewrite drop_drop. rewrite length_app, length_take, <- !(assoc_L (++)). do 3 f_equal. f_equal. lia.
Qed.

End DateHeader.

(** ** Theorems *)

Import Counter DateHeader.

(** The gauge is the number of requests in service or with an unfinished
    body, whatever the order in which they succeed, fail, are cancelled or have
    their bodies dropped; and overload is reported for a new request exactly
    when more than four fifths of the allowed connections, rounded up, were
    already in use. *)
Theorem counter_exact m es i :
  0 ≤ m ≤ 1000 →
  let c := steps m es counter_new in
  Z.of_nat (size (live c)) ≤ u64_max →
  gauge c = Z.of_nat (size (live c)) ∧
  (live c !! i = None →
   (step m (Call i) c).2 = true ↔ (4 * m + 4) / 5 < Z.of_nat (size (live c))).
Proof.
  intros Hm c Hsize.
  assert (gauge c = wrap64 (Z.of_nat (size (live c)))) as Hg.
  { unfold c, steps. clear. assert (gauge counter_new = wrap64 (Z.of_nat (size (live counter_new)))) as H0 by done.
    revert H0. generalize counter_new. induction es as [|e es IH]; intros c Hc; [done|]. apply IH. by apply step_gauge. }
  rewrite wrap64_small in Hg by word. split; [done|]. intros E. cbn. rewrite E. cbn.
  assert (threshold m = (4 * m + 4) / 5) as ->.
  { assert (forallb (λ k, threshold (Z.of_nat k) =? (4 * Z.of_nat k + 4) / 5) (seq 0 1001) = true) as Hall
      by (vm_compute; reflexivity).
    rewrite forallb_forall in Hall. specialize (Hall (Z.to_nat m)).
    apply Z.eqb_eq in Hall; [by rewrite Z2Nat.id in Hall by lia|]. apply in_seq. lia. }
  by rewrite Hg, Z.ltb_lt.
Qed.

(** The cached date is never more than a second old: when the clock does not
    go back, the second a response shows began at most one second ago. *)
Theorem date_fresh t0 ts t :
  0 ≤ t0 → Sorted Z.le (t0 :: ts ++ [t]) →
  let d := checks (ts ++ [t]) t0 in
  shown d * second ≤ t ≤ (shown d + 1) * second.
Proof.
  intros H0 Hs d.
  assert (∀ d0 u, 0 ≤ u → fresh u d0 → Sorted Z.le (u :: ts ++ [t]) →
    fresh t (foldl (λ d t, check t d) d0 (ts ++ [t]))) as Hgen.
  { clear. induction ts as [|x ts IH]; intros d0 u Hu Hf Hs; cbn [app foldl].
    - apply Sorted_inv in Hs as [_ Hh]. apply HdRel_inv in Hh. apply (check_fresh u); [lia|done].
    - apply Sorted_inv in Hs as [Hs Hh]. apply HdRel_inv in Hh.
      apply (IH _ x); [lia| |done]. apply (check_fresh u); [lia|done]. }
  destruct (Hgen (date_new t0) t0 H0 (update_fresh t0 H0) Hs) as [Hn Hr].
  fold (checks (ts ++ [t]) t0) in Hn, Hr. fold d in Hn, Hr. lia.
Qed.

(** Rendering replaces the old date completely: pieces of together 29 bytes, the
    length of every date of the format, never panic and leave exactly their text
    in the buffer, whatever it held before. *)
Theorem date_rendered pieces b :
  length (d_bytes b) = DATE_VALUE_LENGTH → length (concat pieces) = DATE_VALUE_LENGTH →
  render pieces b = Ret (mkBuffer (concat pieces) DATE_VALUE_LENGTH).
Proof.
  intros Hb Hp. unfold render. rewrite write_all_spec by (cbn; lia). cbn [d_bytes d_pos]. cbn [Nat.add].
  rewrite Hp, Hb, Nat.leb_refl, take_0, drop_ge by lia. by rewrite app_nil_r.
Qed.

(** ** Witnesses *)

Lemma date_rendered_witness :
  ∃ b, render (as_bytes <$> ["Sun"; ", "; "06"; " Nov 1994 "; "08:49:37"; " GMT"]) (mkBuffer (replicate 29 "x"%char) 29) = Ret b ∧
    of_bytes (d_bytes b) = "Sun, 06 Nov 1994 08:49:37 GMT".
Proof.
  eexists. split.
  - apply date_rendered; vm_compute; reflexivity.
  - vm_compute. reflexivity.
Defined.

Lemma counter_exact_witness :
  let c := steps 1 [Call 1; Call 2; ServiceOk 1; Call 3; ServiceErr 2; DropBody 1] counter_new in
  gauge c = 1 ∧ Z.of_nat (size (live c)) = 1.
Proof.
  pose proof (counter_exact 1 [Call 1; Call 2; ServiceOk 1; Call 3; ServiceErr 2; DropBody 1] 9 ltac:(lia)
    ltac:(vm_compute; discriminate)) as [Hg _].
  split; [|vm_compute; reflexivity]. rewrite Hg. vm_compute. reflexivity.
Defined.

Lemma date_fresh_witness :
  let d := checks [1500000000; 2000000000] 1000000001 in shown d * second ≤ 2000000000 ≤ (shown d + 1) * second.
Proof.
  apply (date_fresh 1000000001 [1500000000] 2000000000); [lia|]. repeat constructor; lia.
Defined.
