(* ===== verification/Logger.v ===== *)
(** * Logger: the logger and its worker task

    [src/src/logger.rs].  [Log] is one log file with its rotation.  The worker is a
    function of the events it meets: a message sent by some task, and its own
    steps (receiving, flushing, closing the channel) in any interleaving.  The
    calls of the file system are arguments; the buffered writer may write out
    any part of its buffer at any write. *)

From S2P Require Import Prelude Text.
From stdpp Require Import base list strings numbers.

Local Open Scope Z_scope.

(** ** Log files *)

Module Log.

Definition MAX_LINES : Z := 100000.

(** A log file with its counter ([u32]): the lines of the current file and of
    the one kept as [.old]. *)
Record log_file := mkLog { lines_count : Z; current : list string; old : list string }.

(** Appending a line, after a rotation if the counter passed its limit. *)
Definition rotates (f : log_file) : bool := MAX_LINES <? (lines_count f + 1) mod 4294967296.
Definition log_line (msg : string) (f : log_file) : log_file :=
  if rotates f then mkLog 0 [msg] (current f)
  else mkLog ((lines_count f + 1) mod 4294967296) (current f ++ [msg]) (old f).

Definition log_lines (msgs : list string) (f : log_file) : log_file := foldl (λ f m, log_line m f) f msgs.

(** [rotate_log] at the start keeps what was there as the old file. *)
Definition log_start (previous : list string) : log_file := mkLog 0 [] previous.

(** Either nothing was rotated yet, or the old file is full and the current one
    continues it. *)
Definition log_inv (prev msgs : list string) (f : log_file) : Prop :=
  (old f = prev ∧ current f = msgs ∧ lines_count f = Z.of_nat (length msgs) ∧ lines_count f ≤ MAX_LINES) ∨
  (∃ lost, msgs = lost ++ old f ++ current f ∧ MAX_LINES ≤ Z.of_nat (length (old f)) ≤ MAX_LINES + 1 ∧
     Z.of_nat (length (current f)) = lines_count f + 1 ∧ 0 ≤ lines_count f ≤ MAX_LINES).

Lemma log_line_inv prev msgs m f : log_inv prev msgs f → log_inv prev (msgs ++ [m]) (log_line m f).
Proof.
  assert (MAX_LINES = 100000) as HM by done.
  intros [(E1 & E2 & E3 & E4)|(lost & E1 & E2 & E3 & E4)]; unfold log_line, rotates;
    rewrite Z.mod_small by lia; destruct (Z.ltb_spec MAX_LINES (lines_count f + 1)) as [Hr|Hr]; cbn.
  - right. exists []. cbn. rewrite E2. split_and!; [done|lia..].
  - left. split_and!; cbn; [done|by rewrite E2|rewrite length_app; cbn; lia|lia].
  - right. exists (lost ++ old f). cbn. split_and!; [|lia..]. by rewrite E1, <- !(assoc_L (++)).
  - right. exists lost. cbn. rewrite length_app. cbn. split_and!; [|lia..]. by rewrite E1, <- !(assoc_L (++)).
Qed.

Lemma log_lines_inv prev done_ msgs f :
  log_inv prev done_ f → log_inv prev (done_ ++ msgs) (log_lines msgs f).
Proof.
  revert done_ f. induction msgs as [|m msgs IH]; intros done_ f Hi; [by rewrite app_nil_r|].
  replace (done_ ++ m :: msgs) with ((done_ ++ [m]) ++ msgs) by (by rewrite <- (assoc_L (++))).
  apply IH. by apply log_line_inv.
Qed.

Lemma log_lines_app l l' f : log_lines (l ++ l') f = log_lines l' (log_lines l f).
Proof. unfold log_lines. by rewrite foldl_app. Qed.

End Log.
Import Log.

(** ** Messages *)

(** [log::Level], in the order of its comparison. *)
Inductive Level := LError | LWarn | LInfo | LDebug | LTrace.

#[export] Instance Level_eq_dec : EqDecision Level.
Proof. solve_decision. Defined.

Definition level_num (l : Level) : Z :=
  match l with LError => 1 | LWarn => 2 | LInfo => 3 | LDebug => 4 | LTrace => 5 end.
Definition level_str (l : Level) : string :=
  match l with LError => "error" | LWarn => "warn" | LInfo => "info" | LDebug => "debug" | LTrace => "trace" end.

Record LoggerMessage := mkMessage { m_level : Level; message : string }.

(** [Log::enabled]. *)
Definition enabled (l : Level) : bool := level_num l <=? level_num LDebug.

(** [Log::log]: the message that is sent, if the level is enabled. *)
Definition log_record (time : string) (l : Level) (target args : string) : option LoggerMessage :=
  if negb (enabled l) then None
  else Some (mkMessage l (time +:+ " [" +:+ level_str l +:+ "/" +:+ target +:+ "] " +:+ args)).

(** [LoggerConfig]; [console_level] is a [u8]. *)
Record LoggerConfig := mkConfig { write_info : bool; flush : bool; console_level : Z }.

Definition LoggerConfig_default : LoggerConfig := mkConfig true false 0.

(** The [LevelFilter] of a console level, as the largest level shown. *)
Definition console_filter (level : Z) : Z :=
  if level =? 0 then 4 else if level =? 1 then 3 else if level =? 2 then 2 else if level =? 3 then 1 else 0.

(** ** The worker *)

Record worker := mkWorker {
  config : LoggerConfig;
  channel : list LoggerMessage;
  closed : bool;                          (* [rx.close()] was called *)
  ended : bool;
  err : log_file;                         (* [log_err] *)
  out : log_file;                         (* [log_out], as far as it was given to the writer *)
  out_disk : nat;                         (* how many lines of it are on disk *)
  console : list (bool * string)          (* to stderr (true) or stdout *)
}.

(** What the file system does with a message: the part of the buffer that is
    written out, and whether a rotation succeeds. *)
Record env := mkEnv { spill : nat; rotate_ok : bool }.

Definition set_err (f : log_file) (w : worker) : worker :=
  mkWorker (config w) (channel w) (closed w) (ended w) f (out w) (out_disk w) (console w).
Definition set_out (f : log_file) (n : nat) (w : worker) : worker :=
  mkWorker (config w) (channel w) (closed w) (ended w) (err w) f n (console w).
Definition show_on (b : bool) (s : string) (w : worker) : worker :=
  mkWorker (config w) (channel w) (closed w) (ended w) (err w) (out w) (out_disk w) (console w ++ [(b, s)]).

(** [writer_out.flush()]. *)
Definition flush_out (w : worker) : worker := set_out (out w) (length (current (out w))) w.

(** One message taken from the channel.  A failed rotation is an [unwrap]. *)
Definition handle_message (e : env) (m : LoggerMessage) (w : worker) : outcome unit worker :=
  let console_level := console_filter (console_level (config w)) in
  if level_num (m_level m) <=? level_num LWarn then
    let w := if level_num (m_level m) <=? console_level then show_on true (message m) w else w in
    if rotates (err w) && negb (rotate_ok e) then Panic
    else Ret (set_err (log_line (message m) (err w)) w)
  else
    let w := if level_num (m_level m) <=? console_level then show_on false (message m) w else w in
    if write_info (config w) then
      if rotates (out w) then
        if negb (rotate_ok e) then Panic
        else
          let w := set_out (log_line (message m) (out w)) 0 w in
          Ret (if flush (config w) then flush_out w else w)
      else
        let on_disk := ((out_disk w + spill e) `min` length (current (out w)))%nat in
        let w := set_out (log_line (message m) (out w)) on_disk w in
        Ret (if flush (config w) then flush_out w else w)
    else Ret w.

(** What happens: a task sends a message, the configuration changes, or the
    worker takes one of the branches of its [select!]. *)
Inductive event :=
| Send (m : LoggerMessage)
| Configure (c : LoggerConfig)
| Recv (e : env)
| FlushNotified
| ShutdownNotified.

(** A branch that is not ready does nothing. *)
Definition worker_step (e : event) (w : worker) : outcome unit worker :=
  match e with
  | Send m =>
      Ret (if closed w || ended w then w
           else mkWorker (config w) (channel w ++ [m]) (closed w) (ended w) (err w) (out w) (out_disk w) (console w))
  | Configure c => Ret (mkWorker c (channel w) (closed w) (ended w) (err w) (out w) (out_disk w) (console w))
  | Recv env =>
      if ended w then Ret w
      else match channel w with
           | m :: r =>
               handle_message env m
                 (mkWorker (config w) r (closed w) (ended w) (err w) (out w) (out_disk w) (console w))
           | [] =>
               if closed w then
                 let w := flush_out w in
                 Ret (mkWorker (config w) (channel w) (closed w) true (err w) (out w) (out_disk w) (console w))
               else Ret w
           end
  | FlushNotified => Ret (if ended w then w else flush_out w)
  | ShutdownNotified =>
      Ret (mkWorker (config w) (channel w) (closed w || negb (ended w)) (ended w) (err w) (out w) (out_disk w) (console w))
  end.

Fixpoint worker_run (es : list event) (w : worker) : outcome unit worker :=
  match es with
  | [] => Ret w
  | e :: es => w ← worker_step e w; worker_run es w
  end.

(** [LoggerWorker::new] on what the files held before; without a file for errors
    the worker ends at once. *)
Definition worker_new (create_err_ok : bool) (c : LoggerConfig) (prev_err prev_out : list string) : worker :=
  mkWorker c [] false (negb create_err_ok) (log_start prev_err) (log_start prev_out) 0 [].

(** ** What was logged *)

(** The messages the channel takes: those sent before it is closed. *)
Fixpoint taken (closed : bool) (es : list event) : list LoggerMessage :=
  match es with
  | [] => []
  | Send m :: es => (if closed then [] else [m]) ++ taken closed es
  | ShutdownNotified :: es => taken true es
  | _ :: es => taken closed es
  end.

Definition is_warning (m : LoggerMessage) : bool := level_num (m_level m) <=? level_num LWarn.
Definition warnings (l : list LoggerMessage) : list string := message <$> filter (λ m, is_warning m = true) l.
Definition infos (l : list LoggerMessage) : list string := message <$> filter (λ m, is_warning m = false) l.

(** A queue of messages and the switch for information lines, as the events move them:
    the messages that are taken out, in order, each with the switch at that moment. *)
Fixpoint ideal (closed wi : bool) (q : list LoggerMessage) (es : list event) : list (LoggerMessage * bool) :=
  match es with
  | [] => []
  | Send m :: es => ideal closed wi (if closed then q else q ++ [m]) es
  | Configure c :: es => ideal closed (write_info c) q es
  | Recv _ :: es =>
      match q with
      | [] => ideal closed wi [] es
      | m :: q => (m, wi) :: ideal closed wi q es
      end
  | FlushNotified :: es => ideal closed wi q es
  | ShutdownNotified :: es => ideal true wi q es
  end.

(** Those of them that belong into [log_out]. *)
Definition written_infos (h : list (LoggerMessage * bool)) : list string := infos (fst <$> filter (λ x, x.2 = true) h).

Definition recvs (es : list event) : nat := length (filter (λ e, match e with Recv _ => true | _ => false end = true) es).
Definition rotations_ok (es : list event) : Prop := ∀ e, Recv e ∈ es → rotate_ok e = true.

(** The configuration keeps writing information lines. *)
Definition keeps_infos (e : event) : Prop := match e with Configure c => write_info c = true | _ => True end.

(** A worker that has ended has nothing left anywhere. *)
Definition settled (w : worker) : Prop :=
  ended w = true → channel w = [] ∧ closed w = true ∧ out_disk w = length (current (out w)).

(** ** Lemmas *)

Lemma warnings_app l l' : warnings (l ++ l') = warnings l ++ warnings l'.
Proof. unfold warnings. by rewrite list.filter_app, fmap_app. Qed.
Lemma infos_app l l' : infos (l ++ l') = infos l ++ infos l'.
Proof. unfold infos. by rewrite list.filter_app, fmap_app. Qed.
Lemma warnings_one m : warnings [m] = if is_warning m then [message m] else [].
Proof. unfold warnings. rewrite filter_cons. by destruct (is_warning m). Qed.
Lemma infos_one m : infos [m] = if is_warning m then [] else [message m].
Proof. unfold infos. rewrite filter_cons. by destruct (is_warning m). Qed.
Lemma written_infos_cons x h : written_infos (x :: h) = (if x.2 then infos [x.1] else []) ++ written_infos h.
Proof. unfold written_infos. rewrite filter_cons. destruct x as [m []]; [apply (infos_app [m])|done]. Qed.

(** Handling a message puts it into the right file and leaves the rest alone. *)
Lemma handle_message_spec e m w w' :
  handle_message e m w = Ret w' →
  err w' = log_lines (warnings [m]) (err w) ∧
  out w' = log_lines (if write_info (config w) then infos [m] else []) (out w) ∧
  config w' = config w ∧ channel w' = channel w ∧ closed w' = closed w ∧ ended w' = ended w.
Proof.
  rewrite warnings_one, infos_one. unfold handle_message. fold (is_warning m). destruct (is_warning m); intros E.
  - destruct (_ && _) in E; [done|]. injection E as <-. destruct (_ <=? _); cbn; split_and!; try done; by destruct (write_info _).
  - destruct (_ <=? _) in E; cbn in E;
      (destruct (write_info (config w)); [|injection E as <-; by split_and!]);
      (destruct (rotates (out w)); [destruct (rotate_ok e); [|done]|]; cbn in E; injection E as <-;
       destruct (flush (config w)); by split_and!).
Qed.

(** One event, against the queue. *)
Lemma worker_step_ideal e es w w' :
  settled w → worker_step e w = Ret w' →
  let h x := ideal (closed w) (write_info (config w)) (channel w) x in
  settled w' ∧
  ∃ h1, (h1 ++ ideal (closed w') (write_info (config w')) (channel w') es = h (e :: es)) ∧
    channel w ++ taken (closed w) [e] = (fst <$> h1) ++ channel w' ∧
    closed w' = match e with ShutdownNotified => true | _ => closed w end ∧
    err w' = log_lines (warnings (fst <$> h1)) (err w) ∧ out w' = log_lines (written_infos h1) (out w).
Proof.
  intros Hs E h. unfold settled in *. destruct e as [m|c|env| |]; cbn [worker_step] in E.
  - injection E as <-. destruct (closed w) eqn:Hc; cbn [orb].
    { split; [naive_solver|]. exists []. unfold h. cbn. rewrite ?Hc, app_nil_r. done. }
    assert (ended w = false) as Hw by (destruct (ended w); [naive_solver|done]). rewrite Hw. cbn.
    split; [congruence|]. exists []. unfold h. cbn. rewrite ?Hc. done.
  - injection E as <-. split; [done|]. exists []. cbn. by rewrite app_nil_r.
  - destruct (ended w) eqn:Hw.
    { injection E as <-. destruct (Hs eq_refl) as (Hch & Hc & _). rewrite Hw. split; [done|].
      exists []. unfold h. cbn. by rewrite ?Hch, ?Hc. }
    destruct (channel w) as [|m r] eqn:Hch.
    + destruct (closed w) eqn:Hc; injection E as <-; cbn; rewrite Hch, ?Hc.
      * split; [done|]. exists []. unfold h. cbn. done.
      * split; [congruence|]. exists []. unfold h. cbn. done.
    + destruct (handle_message_spec _ _ _ _ E) as (He & Ho & Hcf & Hch' & Hc' & Hen). cbn in He, Ho, Hcf, Hch', Hc', Hen.
      rewrite Hcf, Hch', Hc'. split; [congruence|]. exists [(m, write_info (config w))]. unfold h. cbn [taken ideal app fmap list_fmap fst].
      split_and!; [done|by rewrite app_nil_r|done|done|].
      rewrite Ho, written_infos_cons. cbn [fst snd]. by rewrite app_nil_r.
  - injection E as <-. destruct (ended w) eqn:Hw.
    + split; [naive_solver|]. exists []. cbn. by rewrite app_nil_r.
    + split; [cbn; congruence|]. exists []. cbn. by rewrite app_nil_r.
  - injection E as <-. cbn. assert (closed w || negb (ended w) = true) as ->.
    { destruct (ended w) eqn:Hw; [|by rewrite orb_true_r]. by destruct (Hs eq_refl) as (_ & -> & _). }
    split; [naive_solver|]. exists []. cbn. by rewrite app_nil_r.
Qed.

Lemma worker_run_ideal es w w' :
  settled w → worker_run es w = Ret w' →
  let h := ideal (closed w) (write_info (config w)) (channel w) es in
  settled w' ∧ channel w ++ taken (closed w) es = (fst <$> h) ++ channel w' ∧
  err w' = log_lines (warnings (fst <$> h)) (err w) ∧ out w' = log_lines (written_infos h) (out w).
Proof.
  revert w. induction es as [|e es IH]; intros w Hs E h; cbn in E.
  { injection E as <-. unfold h. cbn. by rewrite app_nil_r. }
  destruct (worker_step e w) as [w1| |] eqn:E1; try done. cbn in E.
  destruct (worker_step_ideal e es w w1 Hs E1) as (Hs1 & h1 & Eh & Hch & Hcl & He & Ho).
  destruct (IH w1 Hs1 E) as (Hs' & Hch' & He' & Ho'). unfold h. rewrite <- Eh, fmap_app.
  split_and!; [done| |by rewrite warnings_app, log_lines_app, <- He|].
  - rewrite <- (assoc_L (++)), <- Hch', (assoc_L (++)), <- Hch, <- (assoc_L (++)), Hcl. f_equal.
    destruct e; cbn; by rewrite ?app_nil_r.
  - rewrite Ho', Ho, <- log_lines_app. f_equal. unfold written_infos. by rewrite list.filter_app, fmap_app, infos_app.
Qed.

Lemma worker_run_app es es' w : worker_run (es ++ es') w = (w' ← worker_run es w; worker_run es' w').
Proof.
  revert w. induction es as [|e es IH]; intros w; [done|]. cbn. destruct (worker_step e w); cbn; [apply IH|done..].
Qed.

(** When rotations succeed, handling a message returns. *)
Lemma handle_message_ok e m w : rotate_ok e = true → ∃ w', handle_message e m w = Ret w'.
Proof.
  intros He. unfold handle_message. rewrite He. cbn [negb]. rewrite andb_false_r.
  repeat case_match; eauto.
Qed.

(** A worker that has ended stays so. *)
Lemma ended_stays es w : ended w = true → ∃ w', worker_run es w = Ret w' ∧ ended w' = true.
Proof.
  revert w. induction es as [|e es IH]; intros w Hw; [by exists w|]. cbn [worker_run].
  assert (∃ w1, worker_step e w = Ret w1 ∧ ended w1 = true) as (w1 & -> & Hw1).
  { destruct e; cbn; rewrite Hw, ?orb_true_r; by eexists. }
  by apply IH.
Qed.

(** A closed worker empties its channel and ends, whatever else happens meanwhile. *)
Lemma worker_drains es w :
  settled w → rotations_ok es → closed w = true → (length (channel w) < recvs es)%nat →
  ∃ w', worker_run es w = Ret w' ∧ ended w' = true.
Proof.
  revert w. induction es as [|e es IH]; intros w Hs Hr Hc Hn; [cbn in Hn; lia|].
  destruct (ended w) eqn:Hw; [by apply ended_stays|].
  assert (rotations_ok es) as Hr' by (intros x Hx; apply Hr; by right). cbn [worker_run].
  assert (∀ w1, worker_step e w = Ret w1 → closed w1 = true → recvs (e :: es) = recvs es → channel w1 = channel w →
    ∃ w', (w0 ← worker_step e w; worker_run es w0) = Ret w' ∧ ended w' = true) as Hother.
  { intros w1 E1 Hc1 Hre Hch1. destruct (worker_step_ideal e [] w w1 Hs E1) as [Hs1 _]. rewrite E1. cbn.
    apply IH; [done|done|done|]. rewrite Hch1, <- Hre. done. }
  destruct e as [m|c|env| |].
  1: eapply Hother; [reflexivity|cbn; rewrite ?Hc, ?Hw; done..].
  1: eapply Hother; [reflexivity|cbn; rewrite ?Hc, ?Hw; done..].
  2: eapply Hother; [reflexivity|cbn; rewrite ?Hc, ?Hw; done..].
  2: eapply Hother; [reflexivity|cbn; rewrite ?Hc, ?Hw; done..].
  assert (recvs (Recv env :: es) = S (recvs es)) as Hre by done. rewrite Hre in Hn.
  cbn [worker_step]. rewrite Hw. destruct (channel w) as [|m r] eqn:Hch.
  - rewrite Hc. cbn. by apply ended_stays.
  - destruct (handle_message_ok env m (mkWorker (config w) r (closed w) false (err w) (out w) (out_disk w) (console w)))
      as [w1 E]; [apply Hr; by left|]. rewrite E. cbn [mbind outcome_bind].
    destruct (handle_message_spec _ _ _ _ E) as (_ & _ & _ & Hch1 & Hc1 & He1). cbn in Hch1, Hc1, He1.
    apply IH; [unfold settled; by rewrite He1|done|congruence|]. rewrite Hch1. cbn in Hn. lia.
Qed.

Lemma taken_true es : taken true es = [].
Proof. induction es as [|[] es IH]; done. Qed.

Lemma taken_shutdown b es es' : taken b (es ++ ShutdownNotified :: es') = taken b es.
Proof.
  revert b. induction es as [|e es IH]; intros b; [cbn; apply taken_true|]. destruct e; cbn; by rewrite IH.
Qed.

(** ** Theorems *)

(** Rotation bounds the log files and loses only old lines: the current
    file never has more than 100001 lines, the old and the current file together
    are the end of everything logged, and they hold at least the last 100000
    messages of this run. *)
Theorem log_rotation prev msgs :
  let f := log_lines msgs (log_start prev) in
  Z.of_nat (length (current f)) ≤ MAX_LINES + 1 ∧
  (∃ lost, prev ++ msgs = lost ++ old f ++ current f) ∧
  (Z.of_nat (length msgs) ≤ MAX_LINES → current f = msgs ∧ old f = prev) ∧
  (MAX_LINES < Z.of_nat (length msgs) → MAX_LINES ≤ Z.of_nat (length (old f)) ≤ MAX_LINES + 1).
Proof.
  intros f. assert (MAX_LINES = 100000) as HM by done.
  assert (log_inv prev msgs f) as [(E1 & E2 & E3 & E4)|(lost & E1 & E2 & E3 & E4)].
  { apply (log_lines_inv prev [] msgs (log_start prev)). left. cbn. split_and!; [done..|lia]. }
  - split_and!; [rewrite E2; lia|exists []; by rewrite E1, E2|done|lia].
  - split_and!; [lia|exists (prev ++ lost); by rewrite E1, <- !(assoc_L (++))| |done].
    intros Hl. rewrite E1, !length_app in Hl. lia.
Qed.

(** The end of a worker. *)
Lemma worker_shutdown es es2 c pe po w :
  rotations_ok es2 → worker_run es (worker_new true c pe po) = Ret w → (length (channel w) < recvs es2)%nat →
  let h := ideal false (write_info c) [] (es ++ ShutdownNotified :: es2) in
  ∃ w', worker_run (ShutdownNotified :: es2) w = Ret w' ∧ ended w' = true ∧
    fst <$> h = taken false es ∧
    err w' = log_lines (warnings (taken false es)) (log_start pe) ∧
    out w' = log_lines (written_infos h) (log_start po) ∧
    out_disk w' = length (current (out w')).
Proof.
  intros Hr E Hn h. assert (settled (worker_new true c pe po)) as H0 by done.
  destruct (worker_run_ideal es _ w H0 E) as [Hs _].
  assert (∃ w1, worker_step ShutdownNotified w = Ret w1) as [w1 E1] by by eexists.
  destruct (worker_step_ideal ShutdownNotified [] w w1 Hs E1) as (Hs1 & _ & _ & _ & Hc1 & _).
  assert (channel w1 = channel w) as Hch1 by (cbn in E1; injection E1 as <-; done).
  destruct (worker_drains es2 w1 Hs1 Hr Hc1 ltac:(by rewrite Hch1)) as (w' & E' & Hw').
  assert (worker_run (ShutdownNotified :: es2) w = Ret w') as E2 by (cbn [worker_run]; by rewrite E1).
  exists w'. split; [done|]. split; [done|].
  destruct (worker_run_ideal (es ++ ShutdownNotified :: es2) _ w' H0) as (Hs' & Hch & He & Ho).
  { rewrite worker_run_app, E. exact E2. }
  cbn [worker_new closed config channel err out] in Hch, He, Ho. fold h in Hch, He, Ho.
  destruct (Hs' Hw') as (Hch' & _ & Hd). rewrite Hch', app_nil_r, taken_shutdown in Hch. cbn [app] in Hch.
  rewrite <- Hch in *. by split_and!.
Qed.

(** With the switch on all the time, all information lines belong into the file. *)
Lemma written_infos_all closed q es :
  Forall keeps_infos es → written_infos (ideal closed true q es) = infos (fst <$> ideal closed true q es).
Proof.
  intros Hk. unfold written_infos. revert closed q. induction Hk as [|e es He _ IH]; intros closed q; [done|].
  destruct e; cbn [ideal]; try apply IH.
  - cbn in He. rewrite He. apply IH.
  - destruct q as [|m q]; [apply IH|]. rewrite filter_cons. cbn [snd]. rewrite decide_True by done. cbn [fmap list_fmap fst].
    change (infos (m :: ?l)) with (infos ([m] ++ l)). rewrite !infos_app. f_equal. apply IH.
Qed.

(** C39: No message is lost at shutdown, if rotations and writes succeed.  Whatever the
    tasks sent, however the configuration changed and the worker's branches were
    scheduled before and after the notice, a worker that was told to shut down ends
    once it received more often than its channel holds messages.  It has then taken
    every message sent before the notice, in the order of sending: warnings and errors are
    in [log_err], the rest in [log_out] if information lines were switched on when the
    worker took them (all of them if they always were), and nothing is left in a
    buffer. *)
Theorem logger_shutdown_writes es es2 c pe po w :
  rotations_ok es2 → worker_run es (worker_new true c pe po) = Ret w → (length (channel w) < recvs es2)%nat →
  let h := ideal false (write_info c) [] (es ++ ShutdownNotified :: es2) in
  ∃ w', worker_run (ShutdownNotified :: es2) w = Ret w' ∧ ended w' = true ∧
    fst <$> h = taken false es ∧
    err w' = log_lines (warnings (taken false es)) (log_start pe) ∧
    out w' = log_lines (written_infos h) (log_start po) ∧
    out_disk w' = length (current (out w')) ∧
    (write_info c = true → Forall keeps_infos (es ++ ShutdownNotified :: es2) →
     out w' = log_lines (infos (taken false es)) (log_start po)).
Proof.
  intros Hr E Hn h. destruct (worker_shutdown es es2 c pe po w Hr E Hn) as (w' & E' & Hw & Hh & He & Ho & Hd).
  exists w'. split_and!; try done. intros Hwi Hk. rewrite Ho, <- Hh, Hwi. f_equal. by apply written_infos_all.
Qed.

(** ** Witnesses *)

Lemma log_rotation_witness : current (log_lines ["a"; "b"] (log_start ["z"])) = ["a"; "b"].
Proof. apply (log_rotation ["z"] ["a"; "b"]). vm_compute. discriminate. Defined.

(** Information lines are switched off between two of them. *)
Definition sample_sent : list event :=
  [Send (mkMessage LWarn "a"); Send (mkMessage LInfo "b"); Recv (mkEnv 0 true); Recv (mkEnv 0 true);
   Configure (mkConfig false false 0); Send (mkMessage LInfo "c")].
Definition sample_worker : worker :=
  mkWorker (mkConfig false false 0) [mkMessage LInfo "c"] false false (mkLog 1 ["a"] []) (mkLog 1 ["b"] []) 0
    [(true, "a"); (false, "b")].

Lemma logger_shutdown_writes_witness :
  ∃ w', worker_run [ShutdownNotified; Send (mkMessage LWarn "d"); Recv (mkEnv 0 true); Recv (mkEnv 0 true)] sample_worker
    = Ret w' ∧ current (err w') = ["a"] ∧ current (out w') = ["b"] ∧ out_disk w' = 1%nat.
Proof.
  destruct (logger_shutdown_writes sample_sent [Send (mkMessage LWarn "d"); Recv (mkEnv 0 true); Recv (mkEnv 0 true)]
    LoggerConfig_default [] [] sample_worker) as (w' & E & _ & _ & He & Ho & Hd & _).
  - intros e He. repeat (apply elem_of_cons in He; destruct He as [He|He]; [by inversion He|]). by apply elem_of_nil in He.
  - vm_compute. reflexivity.
  - vm_compute. lia.
  - exists w'. split_and!; [exact E|by rewrite He|by rewrite Ho|]. rewrite Hd, Ho. reflexivity.
Defined.
