(* ===== verification/LogFiles.v ===== *)
(** * LogFiles: the log files on disk and the life of the logger

    [src/src/logger.rs]: [rotate_log] with the paths it computes, the way the worker
    of [Logger] counts lines, buffers them, renames and creates files, and [Logger] itself
    with [init], [shutdown] and [Drop].  The two logs share a directory; their files
    follow the abstract [log_file]s of [Logger] independently of each other.  What was
    given to a writer reaches the disk at some later write, or when the writer is
    flushed or shut down. *)

From S2P Require Import Prelude Text Extern FileId Logger.
From stdpp Require Import base gmap list strings numbers.
Import Log.

Local Open Scope Z_scope.

(** ** Paths *)

(** The last component of a path, and what stands before it. *)
Definition last_component (path : string) : string := default "" (list.last (split_on "/"%char path)).
Definition before_name (path : string) : string :=
  of_bytes (take (String.length path - String.length (last_component path)) (as_bytes path)).

(** [file_stem]: without what follows the last dot, unless that dot comes first. *)
Definition file_stem (name : string) : string :=
  match rev (split_on "."%char name) with
  | _ :: (_ :: _) as parts =>
      if bool_decide (tail parts = [""]) then name else str_join "." (rev (tail parts))
  | _ => name
  end.

(** [PathBuf::set_extension]. *)
Definition set_extension (ext path : string) : string :=
  before_name path +:+ file_stem (last_component path) +:+ "." +:+ ext.

(** ** Files *)

(** A log directory: the lines of each file. *)
Abbreviation logs := (gmap string (list string)).

(** [rotate_log]; the arguments are the answers of [try_exists] (an error counts as
    absent) and of [rename], whose error is an [unwrap]. *)
Fixpoint rotate_log (exists_ok rename_ok : string → bool) (files : list string) (fs : logs) : outcome unit logs :=
  match files with
  | [] => Ret fs
  | path :: files =>
      match fs !! path with
      | Some l =>
          if exists_ok path then
            if rename_ok path then rotate_log exists_ok rename_ok files (<[set_extension "old" path := l]> (delete path fs))
            else Panic
          else rotate_log exists_ok rename_ok files fs
      | None => rotate_log exists_ok rename_ok files fs
      end
  end.

(** [File::create] truncates. *)
Definition create (path : string) (fs : logs) : logs := <[path := []]> fs.

(** A log as the worker has it: its counter ([u32]) and the lines its writer (a
    [BufWriter], or a file that writes in the background) has not written yet. *)
Record writer := mkWriter { w_count : Z; w_buffer : list string }.

(** The writer writes [n] lines of what it holds. *)
Definition spill_lines (n : nat) (path : string) (buffer : list string) (fs : logs) : list string * logs :=
  (drop n buffer, alter (λ l, l ++ take n buffer) path fs).

(** [flush] and [shutdown] of a writer. *)
Definition flush_log (path : string) (w : writer) (fs : logs) : writer * logs :=
  let (buffer, fs) := spill_lines (length (w_buffer w)) path (w_buffer w) fs in (mkWriter (w_count w) buffer, fs).

(** Writing a line: the counter goes up, and past its limit the writer is shut down, the
    file is rotated and created again; [spill] is how much of its lines the writer
    writes now. *)
Definition write_line (exists_ok rename_ok : string → bool) (spill : nat) (path msg : string) (w : writer) (fs : logs)
    : outcome unit (writer * logs) :=
  let count := (w_count w + 1) mod 4294967296 in
  '(w, fs) ← (if MAX_LINES <? count then
                let (_, fs) := flush_log path w fs in
                fs ← rotate_log exists_ok rename_ok [path] fs;
                Ret (mkWriter 0 [], create path fs)
              else Ret (mkWriter count (w_buffer w), fs));
  let (buffer, fs) := spill_lines spill path (w_buffer w ++ [msg]) fs in
  Ret (mkWriter (w_count w) buffer, fs).

(** The start of the worker: both logs are rotated, then created. *)
Definition start_logs (exists_ok rename_ok : string → bool) (log_dir : string) (fs : logs) : outcome unit logs :=
  let log_out := path_push log_dir "log_out" in
  let log_err := path_push log_dir "log_err" in
  fs ← rotate_log exists_ok rename_ok [log_out; log_err] fs;
  Ret (create log_out (create log_err fs)).

(** What the worker does with the files: a line for one of them, or a flush of
    [log_out]. *)
Inductive log_event := LogLine (to_err : bool) (spill : nat) (msg : string) | LogFlush.

Fixpoint log_run (exists_ok rename_ok : string → bool) (log_dir : string) (l : list log_event) (writer_out writer_err : writer)
    (fs : logs) : outcome unit (writer * writer * logs) :=
  let log_out := path_push log_dir "log_out" in
  let log_err := path_push log_dir "log_err" in
  match l with
  | [] => Ret (writer_out, writer_err, fs)
  | LogLine true spill msg :: l =>
      '(writer_err, fs) ← write_line exists_ok rename_ok spill log_err msg writer_err fs;
      log_run exists_ok rename_ok log_dir l writer_out writer_err fs
  | LogLine false spill msg :: l =>
      '(writer_out, fs) ← write_line exists_ok rename_ok spill log_out msg writer_out fs;
      log_run exists_ok rename_ok log_dir l writer_out writer_err fs
  | LogFlush :: l =>
      let (writer_out, fs) := flush_log log_out writer_out fs in
      log_run exists_ok rename_ok log_dir l writer_out writer_err fs
  end.

(** The end of the worker: both writers are shut down. *)
Definition close_logs (log_dir : string) (writer_out writer_err : writer) (fs : logs) : logs :=
  let (_, fs) := flush_log (path_push log_dir "log_err") writer_err fs in
  (flush_log (path_push log_dir "log_out") writer_out fs).2.

(** ** The logger *)

(** [Logger]: whether its worker's handle is still there, and the worker. *)
Record logger := mkLogger { l_handle : bool; l_worker : worker }.

(** [Logger::init]: [set_ok] is the answer of [set_boxed_logger]. *)
Definition Logger_init (set_ok create_err_ok : bool) (prev_err prev_out : list string) : option logger :=
  if set_ok then Some (mkLogger true (worker_new create_err_ok LoggerConfig_default prev_err prev_out)) else None.

(** [Logger::shutdown] and [Drop]: it logs, notifies the worker, and waits for it if
    it has not done so before; [recvs] are the steps of the worker meanwhile. *)
Definition Logger_shutdown (time : string) (recvs : list event) (l : logger) : outcome unit logger :=
  let notice := match log_record time LInfo "hath_rust::logger" "Shutdown logger..." with Some m => [Send m] | None => [] end in
  w ← worker_run (notice ++ [ShutdownNotified]) (l_worker l);
  w ← (if l_handle l then worker_run recvs w else Ret w);
  Ret (mkLogger false w).

(** ** Lemmas *)

Lemma split_on_last c s t :
  has_char c t = false → ∃ p q ps, split_on c (s +:+ String c t) = p :: q :: ps ∧ list.last (q :: ps) = Some t.
Proof.
  intros Ht. induction s as [|a s (p & q & ps & E & El)].
  - exists "", t, []. rewrite split_on_app by done. by rewrite split_on_none.
  - change (String a s +:+ String c t) with (String a (s +:+ String c t)). cbn [split_on]. rewrite E.
    case_decide; [by exists "", p, (q :: ps)|by exists (String a p), q, ps].
Qed.

Lemma with_sep_shape d : with_sep d = "" ∨ ∃ s, with_sep d = s +:+ String "/"%char EmptyString.
Proof.
  unfold with_sep. destruct (bool_decide (d = EmptyString)) eqn:Ed; cbn [orb].
  { left. by apply bool_decide_eq_true in Ed. }
  right. destruct (ends_with_sep d) eqn:Es; [|by exists d].
  clear Ed. induction d as [|a d IH]; [done|]. destruct d as [|b d].
  - apply bool_decide_eq_true in Es as ->. by exists "".
  - destruct (IH Es) as [s Hs]. exists (String a s). rewrite Hs. done.
Qed.

(** The last component of a joined path is the name. *)
Lemma last_component_join d name :
  has_char "/"%char name = false → last_component (with_sep d +:+ name) = name.
Proof.
  intros Hn. unfold last_component. destruct (with_sep_shape d) as [-> |[s ->]].
  - change ("" +:+ name) with name. by rewrite split_on_none.
  - rewrite <- str_app_assoc. change (String "/"%char EmptyString +:+ name) with (String "/"%char name).
    destruct (split_on_last "/"%char s name Hn) as (p & q & ps & -> & El). cbn [list.last]. cbn in El. by rewrite El.
Qed.

Lemma set_extension_join d name :
  has_char "/"%char name = false → has_char "."%char name = false →
  set_extension "old" (path_push d name) = path_push d (name +:+ ".old").
Proof.
  intros Hs Hd. assert (∀ n, has_char "/"%char n = false → starts_with n "/" = false) as Hst.
  { intros [|a n]; [done|]. rewrite has_char_cons. intros [Ha _]%orb_false_iff. cbn.
    apply bool_decide_eq_false in Ha. by rewrite decide_False by done. }
  rewrite !path_push_rel by (apply Hst; by rewrite ?has_char_app, ?Hs).
  unfold set_extension, before_name. rewrite last_component_join by done.
  assert (file_stem name = name) as ->. { unfold file_stem. by rewrite split_on_none. }
  rewrite str_app_length, as_bytes_app, Nat.add_sub, <- string_length_as_bytes, take_app_length, of_as_bytes.
  reflexivity.
Qed.

(** Names in one directory differ as the names do. *)
Lemma join_inj d a b :
  has_char "/"%char a = false → has_char "/"%char b = false → path_push d a = path_push d b → a = b.
Proof.
  assert (∀ n, has_char "/"%char n = false → path_push d n = with_sep d +:+ n) as Hj.
  { intros n Hn. apply path_push_rel. destruct n as [|c n]; [done|]. rewrite has_char_cons in Hn.
    apply orb_false_iff in Hn as [Hc%bool_decide_eq_false _]. cbn. by rewrite decide_False. }
  intros Ha Hb E. rewrite !Hj in E by done.
  by rewrite <- (last_component_join d a Ha), <- (last_component_join d b Hb), E.
Qed.

(** The files of a log and its writer: the current lines and the old ones. *)
Definition holds (path : string) (f : log_file) (w : writer) (fs : logs) : Prop :=
  w_count w = lines_count f ∧
  (∃ disk, fs !! path = Some disk ∧ disk ++ w_buffer w = current f) ∧
  default [] (fs !! set_extension "old" path) = old f.

(** The calls on the paths of a log succeed. *)
Definition calls_ok (exists_ok rename_ok : string → bool) (path : string) : Prop :=
  exists_ok path = true ∧ rename_ok path = true.

(** The lines for a log. *)
Definition lines_for (err : bool) (l : list log_event) : list string :=
  omap (λ e, match e with LogLine to_err _ msg => if bool_decide (to_err = err) then Some msg else None | LogFlush => None end) l.

Lemma holds_frame path f w fs fs' :
  holds path f w fs → fs' !! path = fs !! path → fs' !! set_extension "old" path = fs !! set_extension "old" path →
  holds path f w fs'.
Proof. intros (Hc & Hd & Ho) E1 E2. unfold holds. by rewrite E1, E2. Qed.

Lemma spill_holds n path f w fs :
  set_extension "old" path ≠ path → holds path f w fs →
  let (buffer, fs') := spill_lines n path (w_buffer w) fs in
  holds path f (mkWriter (w_count w) buffer) fs' ∧ (∀ q, q ≠ path → fs' !! q = fs !! q).
Proof.
  intros Hne (Hc & (d & Hd & Hb) & Ho). cbn. split; [split_and!; cbn; [done| |]|].
  - eexists. rewrite lookup_alter_eq, Hd. split; [done|]. by rewrite <- (assoc_L (++)), take_drop.
  - by rewrite lookup_alter_ne.
  - intros q Hq. by rewrite lookup_alter_ne.
Qed.

Lemma flush_holds path f w fs :
  set_extension "old" path ≠ path → holds path f w fs →
  let (w', fs') := flush_log path w fs in
  holds path f w' fs' ∧ w_buffer w' = [] ∧ fs' !! path = Some (current f) ∧ (∀ q, q ≠ path → fs' !! q = fs !! q).
Proof.
  intros Hne H. pose proof (spill_holds (length (w_buffer w)) path f w fs Hne H) as Hs. unfold flush_log.
  destruct (spill_lines _ path (w_buffer w) fs) as [b fs'] eqn:E. destruct Hs as [Hs Hq].
  assert (b = []) as -> by (injection E as <- _; by apply drop_ge). split_and!; try done.
  destruct Hs as (_ & (d & Hd & Hb) & _). cbn in Hb. rewrite app_nil_r in Hb. by rewrite Hd, Hb.
Qed.

Lemma write_line_holds exists_ok rename_ok spill path msg f w fs :
  set_extension "old" path ≠ path → calls_ok exists_ok rename_ok path → holds path f w fs →
  ∃ w' fs', write_line exists_ok rename_ok spill path msg w fs = Ret (w', fs') ∧
    holds path (log_line msg f) w' fs' ∧ (∀ q, q ≠ path → q ≠ set_extension "old" path → fs' !! q = fs !! q).
Proof.
  intros Hne [He Hr] H. pose proof H as (Hc & _). unfold write_line. rewrite Hc. cbv zeta.
  assert (∀ w1 fs1, holds path (log_line msg f) (mkWriter (w_count w1) (w_buffer w1 ++ [msg])) fs1 →
    (∀ q, q ≠ path → q ≠ set_extension "old" path → fs1 !! q = fs !! q) →
    ∃ w' fs', (let (buffer, fs') := spill_lines spill path (w_buffer w1 ++ [msg]) fs1 in Ret (mkWriter (w_count w1) buffer, fs')) =
        @Ret unit _ (w', fs') ∧
      holds path (log_line msg f) w' fs' ∧ (∀ q, q ≠ path → q ≠ set_extension "old" path → fs' !! q = fs !! q)) as Hend.
  { intros w1 fs1 H1 Hq1. pose proof (spill_holds spill path _ _ fs1 Hne H1) as Hs. cbn [w_buffer w_count] in Hs.
    destruct (spill_lines _ _ _ _) as [b fs']. destruct Hs as [Hs Hq]. eexists _, _. split; [done|]. split; [done|].
    intros q N1 N2. rewrite Hq by done. by apply Hq1. }
  unfold log_line, rotates in *. destruct (MAX_LINES <? (lines_count f + 1) mod 4294967296); cbn [mbind outcome_bind].
  - pose proof (flush_holds path f w fs Hne H) as Hf. destruct (flush_log path w fs) as [w1 fs1].
    destruct Hf as (_ & _ & Hcur & Hq). cbn [rotate_log]. rewrite Hcur, He, Hr. cbn [mbind outcome_bind]. apply Hend.
    + unfold create. split_and!; cbn; [done| |].
      * exists []. by rewrite lookup_insert_eq.
      * by rewrite lookup_insert_ne, lookup_insert_eq.
    + intros q N1 N2. unfold create. rewrite !lookup_insert_ne, lookup_delete_ne by done. by apply Hq.
  - apply (Hend (mkWriter ((lines_count f + 1) mod 4294967296) (w_buffer w)) fs); [|done].
    destruct H as (_ & (d & Hd & Hb) & Ho). split_and!; cbn; [done| |done]. exists d. by rewrite (assoc_L (++)), Hb.
Qed.

Section two_logs.
Variable dir : string.
Let log_out : string := path_push dir "log_out".
Let log_err : string := path_push dir "log_err".
Let old_out : string := set_extension "old" log_out.
Let old_err : string := set_extension "old" log_err.

Lemma log_paths : old_out ≠ log_out ∧ old_err ≠ log_err ∧ log_out ≠ log_err ∧ log_out ≠ old_err ∧ old_out ≠ log_err ∧ old_out ≠ old_err.
Proof.
  unfold old_out, old_err, log_out, log_err. rewrite !set_extension_join by reflexivity.
  split_and!; intros E%join_inj; try discriminate; reflexivity.
Qed.

Lemma close_logs_holds fo fe wo we fs :
  holds log_out fo wo fs → holds log_err fe we fs →
  let fs' := close_logs dir wo we fs in
  fs' !! log_out = Some (current fo) ∧ fs' !! log_err = Some (current fe) ∧ (∀ q, q ∉ [log_out; log_err] → fs' !! q = fs !! q).
Proof.
  destruct log_paths as (N1 & N2 & N3 & N4 & N5 & N6). intros Ho He. unfold close_logs. fold log_out log_err.
  pose proof (flush_holds log_err fe we fs N2 He) as Hf. destruct (flush_log log_err we fs) as [we1 fs1].
  destruct Hf as (_ & _ & He1 & Hq1).
  pose proof (flush_holds log_out fo wo fs1 N1) as Hf. destruct (flush_log log_out wo fs1) as [wo1 fs2].
  destruct Hf as (_ & _ & Ho2 & Hq2). { eapply holds_frame; [exact Ho|..]; by apply Hq1. }
  cbn [snd]. split_and!; [done|by rewrite Hq2|]. intros q Hin. rewrite Hq2, Hq1 by set_solver. done.
Qed.

Variables exists_ok rename_ok : string → bool.
Hypothesis out_ok : calls_ok exists_ok rename_ok log_out.
Hypothesis err_ok : calls_ok exists_ok rename_ok log_err.

(** Lines for one log do not touch the other. *)
Lemma log_run_holds l fo fe wo we fs :
  holds log_out fo wo fs → holds log_err fe we fs →
  ∃ wo' we' fs', log_run exists_ok rename_ok dir l wo we fs = Ret (wo', we', fs') ∧
    holds log_out (log_lines (lines_for false l) fo) wo' fs' ∧
    holds log_err (log_lines (lines_for true l) fe) we' fs' ∧
    (∀ q, q ∉ [log_out; old_out; log_err; old_err] → fs' !! q = fs !! q) ∧
    (list.last l = Some LogFlush → w_buffer wo' = []).
Proof.
  destruct log_paths as (N1 & N2 & N3 & N4 & N5 & N6).
  revert fo fe wo we fs. induction l as [|e l IH]; intros fo fe wo we fs Ho He; [by exists wo, we, fs|].
  assert (∀ fo1 fe1 wo1 we1 fs1, holds log_out fo1 wo1 fs1 → holds log_err fe1 we1 fs1 →
    (∀ q, q ∉ [log_out; old_out; log_err; old_err] → fs1 !! q = fs !! q) →
    log_lines (lines_for false (e :: l)) fo = log_lines (lines_for false l) fo1 →
    log_lines (lines_for true (e :: l)) fe = log_lines (lines_for true l) fe1 →
    (e = LogFlush → w_buffer wo1 = []) →
    ∃ wo' we' fs', log_run exists_ok rename_ok dir l wo1 we1 fs1 = Ret (wo', we', fs') ∧
      holds log_out (log_lines (lines_for false (e :: l)) fo) wo' fs' ∧
      holds log_err (log_lines (lines_for true (e :: l)) fe) we' fs' ∧
      (∀ q, q ∉ [log_out; old_out; log_err; old_err] → fs' !! q = fs !! q) ∧
      (list.last (e :: l) = Some LogFlush → w_buffer wo' = [])) as Hgo.
  { intros fo1 fe1 wo1 we1 fs1 Ho1 He1 Hq1 -> -> Hb.
    destruct (IH fo1 fe1 wo1 we1 fs1 Ho1 He1) as (wo' & we' & fs' & E & Ho' & He' & Hq' & Hl).
    exists wo', we', fs'. split_and!; try done.
    - intros q Hin. rewrite Hq' by done. by apply Hq1.
    - destruct l as [|x l]; [|done]. intros [= ->]. cbn in E. injection E as <- _ _. by apply Hb. }
  destruct e as [[] spill msg|]; cbn [log_run].
  - fold log_err. destruct (write_line_holds exists_ok rename_ok spill log_err msg fe we fs N2 err_ok He) as (we1 & fs1 & -> & He1 & Hq).
    cbn [mbind outcome_bind]. apply (Hgo fo (log_line msg fe)); try done.
    + eapply holds_frame; [exact Ho|..]; by apply Hq.
    + intros q Hin. apply Hq; set_solver.
  - fold log_out. destruct (write_line_holds exists_ok rename_ok spill log_out msg fo wo fs N1 out_ok Ho) as (wo1 & fs1 & -> & Ho1 & Hq).
    cbn [mbind outcome_bind]. apply (Hgo (log_line msg fo) fe); try done.
    + eapply holds_frame; [exact He|..]; by apply Hq.
    + intros q Hin. apply Hq; set_solver.
  - fold log_out. pose proof (flush_holds log_out fo wo fs N1 Ho) as Hf. destruct (flush_log log_out wo fs) as [wo1 fs1].
    destruct Hf as (Ho1 & Hb & _ & Hq). apply (Hgo fo fe); try done.
    + eapply holds_frame; [exact He|..]; by apply Hq.
    + intros q Hin. apply Hq; set_solver.
Qed.

(** What the old file of a log is after the start. *)
Definition previous (path : string) (fs : logs) : list string :=
  default (default [] (fs !! set_extension "old" path)) (fs !! path).

Lemma start_logs_holds fs :
  ∃ fs', start_logs exists_ok rename_ok dir fs = Ret fs' ∧
    holds log_out (log_start (previous log_out fs)) (mkWriter 0 []) fs' ∧
    holds log_err (log_start (previous log_err fs)) (mkWriter 0 []) fs' ∧
    (∀ q, q ∉ [log_out; old_out; log_err; old_err] → fs' !! q = fs !! q).
Proof.
  destruct log_paths as (N1 & N2 & N3 & N4 & N5 & N6). unfold start_logs, previous, holds, create. cbn [rotate_log].
  destruct out_ok as [O1 O2]. destruct err_ok as [O3 O4].
  fold log_out log_err old_out old_err. rewrite O1, O2, O3, O4.
  destruct (fs !! log_out) as [lo|] eqn:Eo; destruct (fs !! log_err) as [le|] eqn:Ee;
    rewrite ?(lookup_insert_ne _ old_out log_err), ?(lookup_delete_ne _ log_out log_err), ?Ee by done; cbn [mbind outcome_bind];
    (eexists; split; [done|]; cbn [log_start current old default w_count w_buffer lines_count]; split_and!);
    try (eexists; split; [|by rewrite app_nil_r]);
    try (intros q Hin; assert (q ≠ log_out ∧ q ≠ old_out ∧ q ≠ log_err ∧ q ≠ old_err) as (? & ? & ? & ?) by set_solver);
    repeat first [rewrite lookup_insert_eq|rewrite lookup_insert_ne by done|rewrite lookup_delete_ne by done]; done.
Qed.

End two_logs.

Lemma taken_snoc l m : ShutdownNotified ∉ l → taken false (l ++ [Send m]) = taken false l ++ [m].
Proof.
  induction l as [|e l IH]; [done|]. intros [Hn Hl]%not_elem_of_cons.
  destruct e; cbn; rewrite ?IH by done; done.
Qed.

Lemma Logger_shutdown_unfold time recvs w :
  Logger_shutdown time recvs (mkLogger true w) =
  w' ← worker_run (Send (mkMessage LInfo (time +:+ " [info/hath_rust::logger] Shutdown logger...")) :: ShutdownNotified :: recvs) w;
  Ret (mkLogger false w').
Proof.
  set (m := mkMessage LInfo _). unfold Logger_shutdown.
  change (log_record _ _ _ _) with (Some m). cbn [l_handle l_worker].
  change (Send m :: ShutdownNotified :: recvs) with ([Send m; ShutdownNotified] ++ recvs).
  rewrite worker_run_app. change ([Send m] ++ [ShutdownNotified]) with [Send m; ShutdownNotified].
  by destruct (worker_run [Send m; ShutdownNotified] w).
Qed.

(** ** Theorems *)

(** C40: The log files on disk, when the calls of the file system on the two logs
    succeed: after the start and any lines for them, in whatever order they come and
    however the writers buffer them, a log's file followed by what its writer still holds
    are the current lines of the abstract log, and its [.old] file has the old ones
    (what was there before becomes the old file, rotations happen at the limit and lose
    nothing that was buffered).  After a flush the writer of [log_out] holds nothing, and when
    the worker ends the files have everything.  No other file is touched. *)
Theorem log_files_refine exists_ok rename_ok dir fs l :
  (∀ name, name ∈ ["log_out"; "log_err"] → calls_ok exists_ok rename_ok (path_push dir name)) →
  ∃ fs1 wo we fs2,
    start_logs exists_ok rename_ok dir fs = Ret fs1 ∧
    log_run exists_ok rename_ok dir l (mkWriter 0 []) (mkWriter 0 []) fs1 = Ret (wo, we, fs2) ∧
    (∀ name err w, (name, err, w) ∈ [("log_out", false, wo); ("log_err", true, we)] →
       let path := path_push dir name in
       let f := log_lines (lines_for err l) (log_start (previous path fs)) in
       (∃ disk, fs2 !! path = Some disk ∧ disk ++ w_buffer w = current f) ∧
       default [] (fs2 !! path_push dir (name +:+ ".old")) = old f ∧
       close_logs dir wo we fs2 !! path = Some (current f)) ∧
    (list.last l = Some LogFlush → w_buffer wo = []) ∧
    (∀ q, q ∉ (λ n, path_push dir n) <$> ["log_out"; "log_out.old"; "log_err"; "log_err.old"] →
       fs2 !! q = fs !! q ∧ close_logs dir wo we fs2 !! q = fs !! q).
Proof.
  intros Hok. assert (calls_ok exists_ok rename_ok (path_push dir "log_out")) as Ok1 by (apply Hok; by left).
  assert (calls_ok exists_ok rename_ok (path_push dir "log_err")) as Ok2 by (apply Hok; by right; left).
  destruct (start_logs_holds dir exists_ok rename_ok Ok1 Ok2 fs) as (fs1 & E1 & Ho & He & Hq1).
  destruct (log_run_holds dir exists_ok rename_ok Ok1 Ok2 l _ _ _ _ fs1 Ho He) as (wo & we & fs2 & E2 & Ho2 & He2 & Hq2 & Hl).
  destruct (close_logs_holds dir _ _ wo we fs2 Ho2 He2) as (Co & Ce & Hq3).
  destruct Ho2 as (_ & Do & Oo). destruct He2 as (_ & De & Oe).
  rewrite !set_extension_join in * by reflexivity. exists fs1, wo, we, fs2. split_and!; [done|done| |done|].
  - intros name err w Hin. apply elem_of_cons in Hin as [[= -> -> ->]|Hin]; [done|].
    by apply list_elem_of_singleton in Hin as [= -> -> ->].
  - intros q Hin. assert (fs2 !! q = fs !! q) as Hfs by (rewrite Hq2, Hq1; [done|exact Hin..]). split; [done|].
    rewrite Hq3; [done|]. cbn [fmap list_fmap] in Hin. set_solver.
Qed.

(** A logger is shut down once: the first call (from [main], or [Drop]) ends with
    the worker ended and its notice as the last line of [log_out]; a second one
    returns without waiting and changes no file. *)
Theorem logger_shuts_down_once es c pe po w e time time' recvs' :
  rotate_ok e = true → Forall keeps_infos es → write_info c = true →
  ShutdownNotified ∉ es → worker_run es (worker_new true c pe po) = Ret w →
  ∃ n l, Logger_shutdown time (replicate n (Recv e)) (mkLogger true w) = Ret l ∧
    ended (l_worker l) = true ∧ l_handle l = false ∧
    (∃ lines, out (l_worker l) = log_lines (lines ++ [time +:+ " [info/hath_rust::logger] Shutdown logger..."]) (log_start po)) ∧
    ∃ l', Logger_shutdown time' recvs' l = Ret l' ∧
      err (l_worker l') = err (l_worker l) ∧ out (l_worker l') = out (l_worker l) ∧ out_disk (l_worker l') = out_disk (l_worker l).
Proof.
  intros He Hk Hwi Hns E. set (m := mkMessage LInfo (time +:+ " [info/hath_rust::logger] Shutdown logger...")).
  assert (∃ w2, worker_step (Send m) w = Ret w2) as [w2 E2] by (by eexists).
  assert (worker_run (es ++ [Send m]) (worker_new true c pe po) = Ret w2) as E12
    by (rewrite worker_run_app, E; cbn [mbind outcome_bind worker_run]; by rewrite E2).
  set (es2 := replicate (S (length (channel w2))) (Recv e)).
  assert (rotations_ok es2 ∧ recvs es2 = S (length (channel w2)) ∧ Forall keeps_infos es2) as (Hr & Hn & Hk2).
  { unfold es2. split_and!; [|unfold recvs|by apply Forall_replicate].
    - intros x Hx. apply elem_of_replicate in Hx as [[= ->] _]. done.
    - induction (S _) as [|n IH]; [done|]. cbn [replicate]. rewrite filter_cons, decide_True by done. cbn. by rewrite IH. }
  destruct (worker_shutdown (es ++ [Send m]) es2 c pe po w2 Hr E12 ltac:(lia)) as (w' & E' & Hend & Hh & _ & Hout & _).
  assert (out w' = log_lines (infos (taken false (es ++ [Send m]))) (log_start po)) as Hout'.
  { rewrite Hout, <- Hh, Hwi. f_equal. apply written_infos_all. apply Forall_app_2; [by apply Forall_app_2, Forall_singleton|].
    by constructor. }
  exists (S (length (channel w2))), (mkLogger false w'). split_and!.
  - rewrite Logger_shutdown_unfold. fold m.
    assert (∀ l, worker_run (Send m :: l) w = (w' ← worker_step (Send m) w; worker_run l w')) as -> by done.
    rewrite E2. cbn [mbind outcome_bind]. fold es2. by rewrite E'.
  - done.
  - done.
  - exists (infos (taken false es)). cbn [l_worker]. rewrite Hout'. f_equal.
    by rewrite taken_snoc, infos_app.
  - unfold Logger_shutdown. cbn [l_worker l_handle log_record enabled app worker_run worker_step mbind outcome_bind].
    eexists. split; [reflexivity|]. cbn. by rewrite Hend, orb_true_r.
Qed.

(** ** Witness *)

Lemma log_files_refine_witness :
  ∃ fs1 wo we fs2, start_logs (λ _, true) (λ _, true) "log" {[ "log/log_out" := ["x"] ]} = Ret fs1 ∧
    log_run (λ _, true) (λ _, true) "log" [LogLine false 0 "a"; LogLine true 1 "e"; LogLine false 1 "b"]
      (mkWriter 0 []) (mkWriter 0 []) fs1 = Ret (wo, we, fs2) ∧
    close_logs "log" wo we fs2 !! "log/log_out" = Some ["a"; "b"].
Proof.
  destruct (log_files_refine (λ _, true) (λ _, true) "log" {[ "log/log_out" := ["x"] ]}
    [LogLine false 0 "a"; LogLine true 1 "e"; LogLine false 1 "b"] ltac:(by split)) as (fs1 & wo & we & fs2 & E1 & E2 & Hf & _).
  exists fs1, wo, we, fs2. split; [exact E1|]. split; [exact E2|].
  destruct (Hf "log_out" false wo ltac:(by left)) as (_ & _ & Hc). exact Hc.
Defined.
