(* ===== verification/AccessLog.v ===== *)
(** * AccessLog: the middleware around the routes

    [src/src/middleware/logger.rs]: the access log, which counts requests, logs
    each answer and, when its body is dropped, the bytes that were sent, and
    keeps the metrics of sent data.  [src/src/middleware/mod.rs]: the order of the
    layers, with the time limit and the [Server] header.  The inner service is an
    argument. *)

From S2P Require Import Prelude Text Body Server.
From stdpp Require Import base gmap list strings numbers.

Local Open Scope Z_scope.

(** ** Data *)

(** The parts of a request that are logged; the version is its [Debug] text. *)
Record request_info := mkInfo {
  method : string;
  path : string;
  query : option string;
  version : string;
  client : option string         (* the address of [ClientAddr], as text *)
}.

(** [LoggerFinalizer]: a response body with what is logged at its end. *)
Record finalizer := mkFinal {
  count : Z;
  ip : string;
  code : Z;
  size : Z;                (* u64 *)
  f_version : string
}.

(** The counters of [Metrics] this layer writes, and the lines logged. *)
Record state := mkState {
  cache_sent : Z;                           (* u64 counter *)
  cache_sent_size : gmap string Z;          (* by version *)
  durations : list (string * Z);            (* observations of the histogram, milliseconds *)
  pending : gmap nat (Z * request_info);    (* requests in the inner service, with their number *)
  bodies : gmap nat finalizer;              (* responses whose body is not dropped *)
  lines : list string
}.

(** ** Text *)

(** [{:width$}] of a string: filled up with spaces on the right. *)
Fixpoint spaces (n : nat) : string := match n with O => "" | S n => String " "%char (spaces n) end.
Definition pad (width : nat) (s : string) : string := s +:+ spaces (width - String.length s).

Definition request_line (r : request_info) : string :=
  match query r with
  | None => method r +:+ " " +:+ path r +:+ " " +:+ version r
  | Some q => method r +:+ " " +:+ path r +:+ "?" +:+ q +:+ " " +:+ version r
  end.

Definition line_head (count : Z) (ip : string) (code size : Z) : string :=
  "{" +:+ show count +:+ "/" +:+ pad 16 (ip +:+ "}") +:+ " Code=" +:+ show code +:+
  " Byte=" +:+ pad 8 (show size) +:+ " ".

(** The line at the end; [speed] is the text of the quotient of bytes and
    milliseconds. *)
Definition finish_line (f : finalizer) (ms : Z) (speed : string) : string :=
  line_head (count f) (ip f) (code f) (size f) +:+
  "Finished processing request in " +:+ show ms +:+ "ms (" +:+ speed +:+ " KB/s)".

(** ** Operations *)

Section access.
Context {E : Type}.

(** What happens to a request. *)
Inductive event :=
| Call (i : nat) (r : request_info)                        (* [call] *)
| Responded (i : nat) (code : Z) (content_length : option string)
| ServiceError (i : nat)
| PollFrame (i : nat) (p : poll E)                         (* the body is polled *)
| DropBody (i : nat) (ms : Z) (speed : string).

Definition call (i : nat) (r : request_info) (s : state) : state :=
  let count := wrap64 (cache_sent s + 1) in
  mkState count (cache_sent_size s) (durations s) (<[i := (count, r)]> (pending s)) (bodies s) (lines s).

(** The inner future is ready with a response. *)
Definition responded (i : nat) (code : Z) (content_length : option string) (s : state) : state :=
  match pending s !! i with
  | None => s
  | Some (count, r) =>
      let ip := default "-" (client r) in
      let is_head := bool_decide (method r = "HEAD") in
      let size := if is_head then 0 else default 0 (content_length ≫= parse_u64) in
      mkState (cache_sent s) (cache_sent_size s) (durations s) (delete i (pending s))
        (<[i := mkFinal count ip code 0 (version r)]> (bodies s))
        (lines s ++ [line_head count ip code size +:+ request_line r])
  end.

(** [LoggerFinalizer::poll_frame]: the frame is passed on, its data counted. *)
Definition poll_frame (p : poll E) (f : finalizer) : poll E * finalizer :=
  match p with
  | FrameOk (Data b) =>
      (p, mkFinal (count f) (ip f) (code f) (wrap64 (size f + Z.of_nat (length b))) (f_version f))
  | _ => (p, f)
  end.

(** [PinnedDrop] of the finalizer. *)
Definition drop_body (i : nat) (ms : Z) (speed : string) (s : state) : state :=
  match bodies s !! i with
  | None => s
  | Some f =>
      let sent := default 0 (cache_sent_size s !! f_version f) in
      mkState (cache_sent s) (<[f_version f := wrap64 (sent + size f)]> (cache_sent_size s))
        (durations s ++ [(f_version f, ms)]) (pending s) (delete i (bodies s))
        (lines s ++ [finish_line f ms speed])
  end.

Definition step (e : event) (s : state) : state :=
  match e with
  | Call i r => if decide (pending s !! i = None ∧ bodies s !! i = None) then call i r s else s
  | Responded i code cl => responded i code cl s
  | ServiceError i =>
      mkState (cache_sent s) (cache_sent_size s) (durations s) (delete i (pending s)) (bodies s) (lines s)
  | PollFrame i p =>
      match bodies s !! i with
      | None => s
      | Some f =>
          mkState (cache_sent s) (cache_sent_size s) (durations s) (pending s)
            (<[i := (poll_frame p f).2]> (bodies s)) (lines s)
      end
  | DropBody i ms speed => drop_body i ms speed s
  end.

Definition steps (es : list event) (s : state) : state := foldl (λ s e, step e s) s es.

Definition init : state := mkState 0 ∅ [] ∅ ∅ [].

(** The bytes the clients were given: the data frames that were polled out of a
    live body. *)
Fixpoint sent_bytes (es : list event) (s : state) : Z :=
  match es with
  | [] => 0
  | e :: es =>
      match e with
      | PollFrame i p => if bool_decide (is_Some (bodies s !! i)) then Z.of_nat (length (poll_data p)) else 0
      | _ => 0
      end + sent_bytes es (step e s)
  end.

(** The sizes of the live bodies and of the dropped ones. *)
Definition counted (s : state) : Z :=
  map_sum (λ x, x) (cache_sent_size s) + sumZ (λ x, size x.2) (map_to_list (bodies s)).

End access.
Arguments event : clear implicits.

(** ** The layers *)

Definition sec : Z := 1000000000.

Record response := mkResponse { r_code : Z; r_headers : list (string * string) }.

(** The routes: after which time a request is answered, if ever, and how. *)
Definition service : Type := request_info → option Z * response.

(** [TimeoutLayer] under [HandleErrorLayer]: every error is a 503. *)
Definition time_limited (inner : service) (r : request_info) : Z * response :=
  match inner r with
  | (Some t, res) => if t <=? 181 * sec then (t, res) else (181 * sec, mkResponse 503 [])
  | (None, _) => (181 * sec, mkResponse 503 [])
  end.

(** [default_headers]; [HeaderMap::insert] replaces all values of a name. *)
Definition default_headers (server : string) (r : response) : response :=
  mkResponse (r_code r) (filter (λ e, e.1 ≠ "server") (r_headers r) ++ [("server", server)]).

(** [register_layer]: a request goes through the header layer, the connection
    counter, the access log and the time limit to the routes, and back.  The last
    result says whether the counter offers [Overload] to the command channel. *)
Definition layered {E} (server : option string) (inner : service) (i : nat) (r : request_info)
    (s : state) (m : Z) (c : Counter.counter) : Z * response * state * Counter.counter * bool :=
  let (c, overload) := Counter.step m (Counter.Call i) c in
  let s := step (E := E) (Call i r) s in
  let (t, res) := time_limited inner r in
  let content_length := snd <$> list_find (λ e, e.1 = "content-length") (r_headers res) in
  let s := step (E := E) (Responded i (r_code res) (snd <$> content_length)) s in
  let c := (Counter.step m (Counter.ServiceOk i) c).1 in
  let res := match server with Some v => default_headers v res | None => res end in
  (t, res, s, c, overload).

(** ** Lemmas *)

Section facts.
Context {E : Type}.
Implicit Types (s : state) (e : event E).

Definition bodies_sum (m : gmap nat finalizer) : Z := sumZ (λ x, size x.2) (map_to_list m).

Lemma bodies_sum_insert m i f : m !! i = None → bodies_sum (<[i := f]> m) = size f + bodies_sum m.
Proof. intros Hi. unfold bodies_sum. by rewrite (sumZ_perm _ _ _ (map_to_list_insert m i f Hi)). Qed.

Lemma bodies_sum_delete m i f : m !! i = Some f → bodies_sum m = size f + bodies_sum (delete i m).
Proof.
  intros Hi. rewrite <- (bodies_sum_insert _ i f) by apply lookup_delete_eq. by rewrite insert_delete_id.
Qed.

Lemma bodies_sum_update m i f g : m !! i = Some f → bodies_sum (<[i := g]> m) = bodies_sum m - size f + size g.
Proof.
  intros Hi. rewrite (bodies_sum_delete m i f Hi), <- (insert_delete_eq m i g).
  rewrite bodies_sum_insert by apply lookup_delete_eq. lia.
Qed.

(** No size is negative, and a request is in the service or has a body. *)
Definition sizes_ok s : Prop :=
  (∀ v x, cache_sent_size s !! v = Some x → 0 ≤ x) ∧ (∀ i f, bodies s !! i = Some f → 0 ≤ size f) ∧
  (∀ i, is_Some (pending s !! i) → bodies s !! i = None).

Lemma sizes_bounds s : sizes_ok s →
  0 ≤ map_sum (λ x, x) (cache_sent_size s) ∧ 0 ≤ bodies_sum (bodies s) ∧
  (∀ v x, cache_sent_size s !! v = Some x → x ≤ map_sum (λ x, x) (cache_sent_size s)) ∧
  (∀ i f, bodies s !! i = Some f → size f ≤ bodies_sum (bodies s)).
Proof.
  intros (Hv & Hb & _). assert (∀ m : gmap nat finalizer, (∀ i f, m !! i = Some f → 0 ≤ size f) → 0 ≤ bodies_sum m) as Hnn.
  { intros m Hm. apply sumZ_nonneg. intros [i f] Hi%elem_of_map_to_list. by eapply Hm. }
  split_and!; [apply map_sum_nonneg; exact Hv|by apply Hnn| |].
  - intros v x Hx. rewrite (map_sum_delete _ _ _ _ Hx).
    assert (0 ≤ map_sum (λ x, x) (delete v (cache_sent_size s))); [|lia].
    apply map_sum_nonneg. intros k y [_ Hy]%lookup_delete_Some. by eapply Hv.
  - intros i f Hf. rewrite (bodies_sum_delete _ _ _ Hf).
    assert (0 ≤ bodies_sum (delete i (bodies s))); [|lia].
    apply Hnn. intros j g [_ Hg]%lookup_delete_Some. by eapply Hb.
Qed.

(** The bytes of one event. *)
Definition event_bytes e s : Z := sent_bytes [e] s.

Lemma step_counted e s :
  sizes_ok s → counted s + event_bytes e s ≤ u64_max →
  sizes_ok (step e s) ∧ counted (step e s) = counted s + event_bytes e s.
Proof.
  intros Hok Hmax. destruct (sizes_bounds s Hok) as (B1 & B2 & B3 & B4). pose proof Hok as (Hv & Hb & Hp).
  unfold event_bytes, counted in *. change (sumZ (λ x, size x.2) (map_to_list ?m)) with (bodies_sum m) in *.
  destruct e as [i r|i code cl|i|i p|i ms speed]; cbn [sent_bytes step] in *.
  - unfold call. destruct (decide _) as [[Hi1 Hi2]|]; cbn; (split; [|lia]); [|done]. split_and!; [done..|].
    cbn. intros j. destruct (decide (i = j)) as [<-|Hne]; [done|]. rewrite lookup_insert_ne by done. apply Hp.
  - unfold responded. destruct (pending s !! i) as [[c r]|] eqn:Hi; cbn; [|split; [done|lia]].
    rewrite bodies_sum_insert by (apply Hp; eauto). cbn. split; [|lia]. split_and!; [done| |]; cbn; intros j.
    + intros f. destruct (decide (i = j)) as [<-|Hne]; [rewrite lookup_insert_eq; by intros [= <-]|].
      rewrite lookup_insert_ne by done. apply Hb.
    + intros [x [Hne Hx]%lookup_delete_Some]. rewrite lookup_insert_ne by done. apply Hp. eauto.
  - cbn. split; [|lia]. split_and!; [done..|]. cbn. intros j [x [_ Hx]%lookup_delete_Some]. apply Hp. eauto.
  - destruct (bodies s !! i) as [f|] eqn:Hi; [|rewrite bool_decide_false in * by (intros [? ?]; done); split; [done|lia]].
    rewrite bool_decide_true in * by eauto. cbn. rewrite (bodies_sum_update _ _ _ _ Hi).
    pose proof (Hb _ _ Hi). pose proof (B4 _ _ Hi).
    assert (size (poll_frame p f).2 = size f + Z.of_nat (length (poll_data p))) as Hs.
    { destruct p as [| |[b|]|]; cbn in *; try lia. apply wrap64_small. word. }
    split; [|rewrite Hs; lia]. split_and!; [done| |]; cbn; intros j; destruct (decide (i = j)) as [<-|Hne].
    + intros g. rewrite lookup_insert_eq. intros [= <-]. rewrite Hs. lia.
    + intros g. rewrite lookup_insert_ne by done. apply Hb.
    + intros Hj. by rewrite (Hp i Hj) in Hi.
    + rewrite lookup_insert_ne by done. apply Hp.
  - unfold drop_body. destruct (bodies s !! i) as [f|] eqn:Hi; cbn; [|split; [done|lia]].
    pose proof (Hb _ _ Hi). pose proof (B4 _ _ Hi). rewrite (bodies_sum_delete _ _ _ Hi) in *.
    set (v := f_version f) in *.
    assert (0 ≤ default 0 (cache_sent_size s !! v) ≤ map_sum (λ x, x) (cache_sent_size s)) as Hd.
    { destruct (cache_sent_size s !! v) as [x|] eqn:Hx; cbn; [|lia]. split; [by eapply Hv|by eapply B3]. }
    rewrite wrap64_small by word. split.
    + split_and!; cbn.
      * intros u x. destruct (decide (v = u)) as [<-|Hne]; [rewrite lookup_insert_eq; intros [= <-]; lia|].
        rewrite lookup_insert_ne by done. apply Hv.
      * intros j g [_ Hg]%lookup_delete_Some. by eapply Hb.
      * intros j Hj. apply lookup_delete_None. right. by apply Hp.
    + destruct (cache_sent_size s !! v) as [x|] eqn:Hx; cbn.
      * rewrite (map_sum_update _ _ _ _ _ Hx). lia.
      * rewrite map_sum_insert by done. lia.
Qed.

Lemma sent_bytes_nonneg (es : list (event E)) s : 0 ≤ sent_bytes es s.
Proof.
  revert s. induction es as [|e es IH]; intros s; [done|]. cbn [sent_bytes]. specialize (IH (step e s)).
  destruct e; try lia. case_bool_decide; lia.
Qed.

Lemma steps_counted (es : list (event E)) s :
  sizes_ok s → counted s + sent_bytes es s ≤ u64_max →
  counted (steps es s) = counted s + sent_bytes es s.
Proof.
  revert s. induction es as [|e es IH]; intros s Hok Hmax; [cbn; lia|].
  assert (sent_bytes (e :: es) s = event_bytes e s + sent_bytes es (step e s)) as Hb.
  { unfold event_bytes. cbn [sent_bytes]. lia. }
  rewrite Hb in *. pose proof (sent_bytes_nonneg es (step e s)).
  destruct (step_counted e s Hok ltac:(lia)) as [Hok' Hc].
  change (steps (e :: es) s) with (steps es (step e s)). rewrite IH; [lia|done|lia].
Qed.

(** The finalizer polled with these answers. *)
Definition feed (ps : list (poll E)) (f : finalizer) : finalizer := foldl (λ f p, (poll_frame p f).2) f ps.

Lemma feed_size ps f :
  in_u64 (size f) → size (feed ps f) = wrap64 (size f + Z.of_nat (length (concat (map poll_data ps)))).
Proof.
  revert f. induction ps as [|p ps IH]; intros f Hf; [cbn; rewrite Z.add_0_r; by rewrite wrap64_small|].
  change (feed (p :: ps) f) with (feed ps (poll_frame p f).2). cbn [map concat]. rewrite length_app.
  assert (in_u64 (size (poll_frame p f).2) ∧
    size (poll_frame p f).2 = wrap64 (size f + Z.of_nat (length (poll_data p)))) as [Hu Hs].
  { destruct p as [| |[b|]|]; cbn; try (rewrite Z.add_0_r, wrap64_small by done; done).
    split; [apply wrap64_range|done]. }
  rewrite IH, Hs, wrap64_add_l by done. f_equal. lia.
Qed.

End facts.

(** ** Theorems *)

(** The counter that is exposed as the number of files sent counts requests: one
    that is refused with an empty body counts too. *)
Theorem cache_sent_counts_requests {E} (r : request_info) ms speed :
  let s := steps (E := E) [Call 0 r; Responded 0 403 None; DropBody 0 ms speed] init in
  cache_sent s = 1 ∧ sent_bytes (E := E) [Call 0 r; Responded 0 403 None; DropBody 0 ms speed] init = 0.
Proof. by destruct r as [[] ? ? ? ?]. Qed.

(** The bytes reported are the bytes sent: over any interleaving of requests, the
    counters of sent bytes together with the bodies still in flight account for
    exactly the data that was polled out of responses, whether bodies are read to
    their end or dropped early; once no body is in flight the counters alone do. *)
Theorem access_log_total {E} (es : list (event E)) :
  sent_bytes es init ≤ u64_max →
  let s := steps es init in
  counted s = sent_bytes es init ∧
  (bodies s = ∅ → map_sum (λ x, x) (cache_sent_size s) = sent_bytes es init).
Proof.
  intros Hmax s.
  assert (sizes_ok init) as H0.
  { split_and!; cbn; intros *; rewrite ?lookup_empty; [done|done|by intros [? ?]]. }
  assert (counted s = sent_bytes es init) as Hc by (apply (steps_counted es init); done).
  split; [done|]. intros Hb. unfold counted in Hc. rewrite Hb, map_to_list_empty in Hc. cbn in Hc. lia.
Qed.

(** The size logged for a response whose body is cut to [limit] bytes and read to
    its end is the number of bytes the client received, [limit] or the whole
    body, however it came in frames. *)
Theorem access_log_size {E} (inner : list (poll E)) limit f :
  size f = 0 → Z.of_nat (length (stream_data inner)) ≤ u64_max →
  size (feed (drain inner limit).1 f) = Z.of_nat (min limit (length (stream_data inner))).
Proof.
  intros Hf Hmax. rewrite feed_size by (rewrite Hf; word). rewrite drain_data, Hf, length_take, wrap64_small; word.
Qed.

(** What the layers do to a request: it is answered within 181 seconds, with the
    answer of the routes if that is in time and 503 if not; the answer has exactly
    one [Server] header if that is enabled; it is logged with its code under the
    next number, and stays counted as a connection until its body is dropped;
    [Overload] is offered exactly if the count before it was above the threshold. *)
Theorem layers_answer {E} server inner i r s m c :
  pending s !! i = None → bodies s !! i = None → Counter.live c !! i = None →
  let '(t, res, s', c', overload) := layered (E := E) server inner i r s m c in
  t ≤ 181 * sec ∧
  ((∃ u, (inner r).1 = Some u ∧ u ≤ 181 * sec) → r_code res = r_code (inner r).2) ∧
  ((∀ u, (inner r).1 = Some u → 181 * sec < u) → r_code res = 503) ∧
  (∀ v, server = Some v → filter (λ e, e.1 = "server") (r_headers res) = [("server", v)]) ∧
  (∃ b, lines s' = lines s ++ [line_head (wrap64 (cache_sent s + 1)) (default "-" (client r)) (r_code res) b +:+ request_line r]) ∧
  Counter.live c' !! i = Some Counter.InBody ∧
  (overload = true ↔ Counter.threshold m < Counter.gauge c).
Proof.
  intros Hp Hb Hl. unfold layered. cbn [Counter.step step]. rewrite Hl, decide_True by done.
  assert (∃ t res, time_limited inner r = (t, res) ∧ t ≤ 181 * sec ∧
    ((∃ u, (inner r).1 = Some u ∧ u ≤ 181 * sec) → res = (inner r).2) ∧
    ((∀ u, (inner r).1 = Some u → 181 * sec < u) → r_code res = 503)) as (t & res & -> & Ht & Hin & Hout).
  { unfold time_limited. destruct (inner r) as [[t|] res].
    - destruct (Z.leb_spec t (181 * sec)) as [Hle|Hgt]; eexists _, _; (split; [done|]); split_and!; try done; try lia.
      + intros Hu. specialize (Hu t eq_refl). lia.
      + intros (u & [= <-] & Hu). lia.
    - eexists _, _. split; [done|]. split_and!; try done. by intros (u & ? & _). }
  cbn [fst]. unfold responded, call. cbn. rewrite lookup_insert_eq.
  split_and!; [done| | | | | |].
  - intros Hu. rewrite (Hin Hu). by destruct server.
  - intros Hu. rewrite <- (Hout Hu). by destruct server.
  - intros v ->. cbn. rewrite list.filter_app.
    assert (filter (λ e : string * string, e.1 = "server") (filter (λ e, e.1 ≠ "server") (r_headers res)) = []) as ->; [|done].
    induction (r_headers res) as [|[k x] l IH]; [done|]. rewrite (filter_cons _ (k, x) l).
    case_decide as Hk; [rewrite filter_cons, decide_False by exact Hk|]; exact IH.
  - exists (if bool_decide (method r = "HEAD") then 0 else default 0 ((snd <$> (snd <$> list_find (λ e, e.1 = "content-length") (r_headers res))) ≫= parse_u64)).
    cbn. by destruct server.
  - cbn. rewrite lookup_insert_eq. cbn. by rewrite lookup_insert_eq.
  - apply Z.ltb_lt.
Qed.

(** ** Witnesses *)

Definition get_request : request_info := mkInfo "GET" "/h/x" None "HTTP/1.1" (Some "1.2.3.4").

Lemma access_log_total_witness :
  map_sum (λ x, x) (cache_sent_size (steps (E := unit)
    [Call 0 get_request; Responded 0 200 (Some "3"); PollFrame 0 (FrameOk (Data (as_bytes "abc"))); DropBody 0 5 "0.60"] init)) = 3.
Proof.
  rewrite (proj2 (access_log_total (E := unit)
    [Call 0 get_request; Responded 0 200 (Some "3"); PollFrame 0 (FrameOk (Data (as_bytes "abc"))); DropBody 0 5 "0.60"]
    ltac:(vm_compute; discriminate)) ltac:(vm_compute; reflexivity)). vm_compute. reflexivity.
Defined.

Lemma access_log_size_witness :
  size (feed (E := unit) (drain [FrameOk (Data (as_bytes "abc")); FrameOk (Data (as_bytes "de")); End] 4).1 (mkFinal 1 "-" 206 0 "HTTP/1.1")) = 4.
Proof.
  rewrite (access_log_size [FrameOk (Data (as_bytes "abc")); FrameOk (Data (as_bytes "de")); End] 4
    (mkFinal 1 "-" 206 0 "HTTP/1.1") eq_refl ltac:(vm_compute; discriminate)). vm_compute. reflexivity.
Defined.

Lemma layers_answer_witness :
  (layered (E := unit) (Some "S") (λ _, (None, mkResponse 200 [])) 0 get_request init 10 Counter.counter_new).1.1.1.1 ≤ 181 * sec.
Proof.
  pose proof (layers_answer (E := unit) (Some "S") (λ _, (None, mkResponse 200 [])) 0 get_request init 10 Counter.counter_new
    eq_refl eq_refl eq_refl) as H.
  destruct (layered (E := unit) (Some "S") (λ _, (None, mkResponse 200 [])) 0 get_request init 10 Counter.counter_new) as [[[[t res] s'] c'] o].
  exact (proj1 H).
Defined.
