(* ===== verification/Routes.v ===== *)
(** * Routes: from a request line to a response

    [src/src/route/mod.rs] with the part of [Server::new] ([src/src/server/mod.rs])
    that builds the router: the table of routes, the extraction of path parameters,
    the constant answers, and the handlers of [RouteCache] and [ServerCommand]
    behind the layers of [AccessLog].  Matching paths against patterns is axum's:
    the class [Router] has the documented rule, and the theorems hold for every
    implementation of it. *)

From S2P Require Import Prelude Text Extern FileId FloodControl FileReader Body Server CacheStore CacheRead CacheLife.
From S2P Require Import CacheSpec Net Rpc RouteCache ServerCommand AccessLog Proxy.
From stdpp Require Import base gmap list strings numbers.

Local Open Scope Z_scope.

(** ** The router of axum *)

(** The documented rule: a static segment matches itself, [{x}] one segment that
    is not empty, [{*x}] the rest of the path when it is not empty. *)
Fixpoint match_segments (ps ss : list string) : option (list string) :=
  match ps, ss with
  | [], [] => Some []
  | p :: ps, s :: ss =>
      if starts_with p "{*" then
        let rest := str_join "/" (s :: ss) in
        if bool_decide (rest = "") then None else Some [rest]
      else if starts_with p "{" then
        if bool_decide (s = "") then None else cons s <$> match_segments ps ss
      else if bool_decide (p = s) then match_segments ps ss else None
  | _, _ => None
  end.

Definition match_path (pattern path : string) : option (list string) :=
  match_segments (split_on "/"%char pattern) (split_on "/"%char path).

(** [route] finds the pattern by its number, with the parameters, and
    [percent_decode] is what the [Path] extractor does to each of them. *)
Class Router := {
  route : list string → string → option (nat * list string);
  percent_decode : string → option string
}.
Class RouterLaws (R : Router) : Prop := {
  route_sound ps path i vs : route ps path = Some (i, vs) → ∃ p, ps !! i = Some p ∧ match_path p path = Some vs;
  route_complete ps path p : route ps path = None → p ∈ ps → match_path p path = None;
  percent_decode_plain s : has_char "%"%char s = false → percent_decode s = Some s
}.

(** ** The table *)

Inductive handler := HFavicon | HRobots | HServercmd | HSpeedtest | HHath | HMetrics.

(** [register_route]: every route answers GET and HEAD, and so does the fallback. *)
Definition register_route : list (string * handler) :=
  [("/favicon.ico", HFavicon); ("/robots.txt", HRobots);
   ("/servercmd/{command}/{additional}/{time}/{key}", HServercmd);
   ("/t/{size}/{time}/{hash}/{random}", HSpeedtest);
   ("/h/{fileid}/{additional}/{*filename}", HHath)].

(** The router of [Server::new]. *)
Definition routes (enable_metrics : bool) : list (string * handler) :=
  register_route ++ if enable_metrics then [("/metrics", HMetrics)] else [].

Definition allowed (method : string) : bool := bool_decide (method ∈ ["GET"; "HEAD"]).

Inductive target := Handler (h : handler) (params : list string) | Fallback | NotAllowed.

Definition dispatch `{Router} (enable_metrics : bool) (method path : string) : target :=
  if negb (allowed method) then NotAllowed
  else match route (fst <$> routes enable_metrics) path with
       | Some (i, vs) =>
           match routes enable_metrics !! i with Some (_, h) => Handler h vs | None => Fallback end
       | None => Fallback
       end.

(** ** The answers *)

(** [default], [favicon], [robots] and [metrics]. *)
Definition default_page : Response := text_response 404 html "An error has occurred. (404)".
Definition robots : Response := text_response 200 plain ("User-agent: *" +:+ nl_str +:+ "Disallow: /").
Definition metrics_page (encoded : string) : Response :=
  text_response 200 "application/openmetrics-text; version=1.0.0; charset=utf-8" encoded.
Definition LOCATION : string := "https://e-hentai.org/favicon.ico".
Definition favicon : Response := RouteCache.mkResponse 301 None None None None None None None BEmpty.

(** The response of [servercmd]. *)
Definition cmd_to_response (r : cmd_response) : Response :=
  match r with
  | CmdForbidden => forbidden
  | CmdText s => text_response 200 plain s
  | CmdBadRequest => RouteCache.mkResponse 400 None None None None None None None BEmpty
  | CmdRandom size => random_response size
  | CmdSent _ => RouteCache.mkResponse 200 None None None None None None None BEmpty
  end.

(** The headers of a response in the order in which they were added. *)
Definition header (name : string) (v : option string) : list (string * string) :=
  match v with Some v => [(name, v)] | None => [] end.
Definition to_http (location : option string) (r : Response) : AccessLog.response :=
  AccessLog.mkResponse (r_status r)
    (header "cache-control" (r_cache_control r) ++ header "content-disposition" (r_disposition r) ++
     header "content-type" (r_type r) ++ header "etag" (r_etag r) ++ header "accept-ranges" (r_accept_ranges r) ++
     header "content-length" (show <$> r_content_length r) ++ header "content-range" (r_content_range r) ++
     header "location" location).

(** [Extension<ClientAddr>] as an extractor. *)
Definition client_addr (ext : option SocketAddr) : option SocketAddr := ext.

(** ** The service *)

Section service.
Context `{HexCodec, Digest, Router} {S : Type}.

(** What the handlers take from the state of the application and the world. *)
Record app := mkApp {
  a_client : RPCClient;
  a_timestemp : Z;                                    (* [rpc.get_timestemp()] *)
  a_header_ok : string → bool;
  a_parser : range_parser;
  a_get : CacheFileInfo → option Z → S → CacheFileResult * S;
  a_miss : CacheFileInfo → string → string → string → string → S → Response * S;
  a_tries : nat → test_try * test_try * test_try;
  a_encoded : string;                                 (* the metrics as text *)
  a_reject : string → Response                        (* what axum answers when a parameter is refused *)
}.

(** The path parameters, decoded. *)
Definition decode_all (l : list string) : option (list string) := mapM percent_decode l.

(** The handler of a route; the commands are those sent to [main]. *)
Definition handle (a : app) (addr : option SocketAddr) (headers : Headers) (h : handler) (params : list string) (s : S)
    : Response * option string * list Command * S :=
  match h, decode_all params with
  | HFavicon, _ => (favicon, Some LOCATION, [], s)
  | HRobots, _ => (robots, None, [], s)
  | HMetrics, _ => (metrics_page (a_encoded a), None, [], s)
  | HSpeedtest, Some [size; time; hash; _] =>
      match parse_u64 size, parse_i64 time with
      | Some size, Some time =>
          (match speedtest (a_timestemp a) (a_client a) size time hash with
           | Some n => random_response n
           | None => forbidden
           end, None, [], s)
      | _, _ => (a_reject a "path", None, [], s)
      end
  | HServercmd, Some [command; additional; time; hash] =>
      match client_addr addr, parse_i64 time with
      | Some peer, Some time =>
          let r := servercmd (addr_ip peer) (a_timestemp a) (a_client a) (a_tries a) command additional time hash in
          (cmd_to_response r, None, match r with CmdSent c => [c] | _ => [] end, s)
      | None, _ => (a_reject a "extension", None, [], s)
      | _, None => (a_reject a "path", None, [], s)
      end
  | HHath, Some [file_id; additional; file_name] =>
      match hath (a_timestemp a) (key (a_client a)) (a_header_ok a) (a_parser a) (a_get a) file_id additional file_name headers s with
      | (RouteCache.Answer r, s) => (r, None, [], s)
      | (Miss info cd file_index xres, s) =>
          let (r, s) := a_miss a info cd file_index xres file_id s in (r, None, [], s)
      end
  | _, _ => (a_reject a "path", None, [], s)
  end.

(** The router as a service. *)
Definition respond (a : app) (enable_metrics : bool) (addr : option SocketAddr) (headers : Headers)
    (method path : string) (s : S) : Response * option string * list Command * S :=
  match dispatch enable_metrics method path with
  | NotAllowed => (RouteCache.mkResponse 405 None None None None None None None BEmpty, None, [], s)
  | Fallback => (default_page, None, [], s)
  | Handler h params => handle a addr headers h params s
  end.

(** ... and behind the layers, as [accept_loop] serves it: [took] is when the routes
    answer, [h3_port] adds the [Alt-Svc] header.  The commands are those offered to the
    channel of [main], that of the connection counter first. *)
Definition alt_svc (h3_port : option Z) (r : AccessLog.response) : AccessLog.response :=
  match h3_port with
  | Some port =>
      let q := String (Ascii.ascii_of_nat 34) EmptyString in
      AccessLog.mkResponse (AccessLog.r_code r)
        (AccessLog.r_headers r ++ [("alt-svc", "h3=" +:+ q +:+ ":" +:+ show port +:+ q +:+ "; persist=1")])
  | None => r
  end.

Definition serve_http {E : Type} (a : app) (enable_metrics : bool) (server : option string) (h3_port : option Z) (took : option Z)
    (i : nat) (req : request_info) (addr : option SocketAddr) (headers : Headers)
    (log : AccessLog.state) (cnt : Counter.counter) (s : S)
    : Z * AccessLog.response * Response * list Command * AccessLog.state * Counter.counter * S :=
  let '(r, loc, cmds, s) := respond a enable_metrics addr headers (method req) (AccessLog.path req) s in
  let m := max_connection (settings (a_client a)) in
  let '(t, res, log, cnt, overload) := layered (E := E) server (λ _, (took, to_http loc r)) i req log m cnt in
  (t, alt_svc h3_port res, r, (if overload then [Overload] else []) ++ cmds, log, cnt, s).

End service.
Arguments app : clear implicits.

(** ** Lemmas *)

(** The patterns differ in their first segment, which is static. *)
Definition first_segment (p : string) : option string := split_on "/"%char p !! 1%nat.

(** Evaluate the segments of a pattern, and the tests of the matcher on them. *)
Ltac split_pattern :=
  repeat match goal with
  | |- context [split_on "/"%char ?x] => let v := eval vm_compute in (split_on "/"%char x) in change (split_on "/"%char x) with v
  | H : context [match_segments (split_on "/"%char ?x) _] |- _ =>
      let v := eval vm_compute in (split_on "/"%char x) in change (split_on "/"%char x) with v in H
  end.
Ltac split_tests H :=
  repeat match type of H with
  | context [starts_with ?x ?y] => let v := eval vm_compute in (starts_with x y) in change (starts_with x y) with v in H
  | context [bool_decide ?P] => case_bool_decide; cbn -[starts_with] in H
  end; by simplify_eq/=.

Ltac route_cases H :=
  unfold routes, register_route in H; cbn [Datatypes.app] in H;
  repeat (apply elem_of_cons in H; destruct H as [H|H]; [injection H; intros; subst|]); [..|by apply elem_of_nil in H].

Lemma routes_mono em p h : (p, h) ∈ routes em → (p, h) ∈ routes true.
Proof. destruct em; [done|]. unfold routes. rewrite !elem_of_app. intros [?|[]%elem_of_nil]. by left. Qed.

Lemma routes_first em p h path vs :
  (p, h) ∈ routes em → match_path p path = Some vs → split_on "/"%char path !! 1%nat = first_segment p.
Proof.
  intros Hin'%routes_mono. unfold match_path, first_segment. generalize (split_on "/"%char path). intros ss Hm.
  route_cases Hin';
    split_pattern; destruct ss as [|s0 [|s1 ss]]; cbn -[starts_with] in Hm; split_tests Hm.
Qed.

Lemma routes_unique em p1 h1 p2 h2 path vs1 vs2 :
  (p1, h1) ∈ routes em → (p2, h2) ∈ routes em → match_path p1 path = Some vs1 → match_path p2 path = Some vs2 →
  p1 = p2 ∧ h1 = h2.
Proof.
  intros H1 H2 M1%(routes_first em p1 h1) M2%(routes_first em p2 h2); [|done..].
  assert (first_segment p1 = first_segment p2) as E by congruence. clear M1 M2 path vs1 vs2.
  apply routes_mono in H1, H2. revert E.
  route_cases H1; route_cases H2; vm_compute; (done || discriminate).
Qed.

(** The answers by the segments of the path, without patterns. *)
Definition with_params (n : nat) (h : handler) (params : list string) : target :=
  if bool_decide (length params = n ∧ Forall (λ s, s ≠ "") params) then Handler h params else Fallback.

Definition target_of (em : bool) (path : string) : target :=
  match split_on "/"%char path with
  | root :: first :: params =>
      if bool_decide (root = "") then
        if bool_decide (first = "favicon.ico") then with_params 0 HFavicon params
        else if bool_decide (first = "robots.txt") then with_params 0 HRobots params
        else if bool_decide (first = "servercmd") then with_params 4 HServercmd params
        else if bool_decide (first = "t") then with_params 4 HSpeedtest params
        else if bool_decide (first = "h") then
          match params with
          | id :: additional :: x :: rest => with_params 3 HHath [id; additional; str_join "/" (x :: rest)]
          | _ => Fallback
          end
        else if bool_decide (first = "metrics") && em then with_params 0 HMetrics params
        else Fallback
      else Fallback
  | _ => Fallback
  end.

#[export] Instance handler_eq_dec : EqDecision handler.
Proof. solve_decision. Defined.

(** The parameters of the handler [h], if the target is that handler. *)
Definition params_of (h : handler) (t : target) : option (list string) :=
  match t with Handler h' vs => if decide (h' = h) then Some vs else None | _ => None end.

Lemma match_params (ps ss : list string) :
  Forall (λ p, starts_with p "{*" = false ∧ starts_with p "{" = true) ps →
  match_segments ps ss = if bool_decide (length ss = length ps ∧ Forall (λ s, s ≠ "") ss) then Some ss else None.
Proof.
  intros Hp. revert ss. induction Hp as [|p ps [H1 H2] _ IH]; intros [|s ss]; cbn [match_segments]; [done|by rewrite bool_decide_false by (intros [? _]; done)..|].
  rewrite H1, H2. case_bool_decide as Hs; [rewrite bool_decide_false by (intros [_ Hf]; by apply Forall_cons_1 in Hf as [? _]); done|].
  rewrite IH. case_bool_decide as H3; case_bool_decide as H4; try done; exfalso; [apply H4|apply H3].
  - destruct H3. split; [cbn; lia|by constructor].
  - destruct H4 as [H4 H5]. apply Forall_cons_1 in H5 as [_ H5]. split; [cbn in H4; lia|done].
Qed.

Lemma params_with n h h' (ps : list string) :
  params_of h (with_params n h' ps) =
  if decide (h' = h) then if bool_decide (length ps = n ∧ Forall (λ s, s ≠ "") ps) then Some ps else None else None.
Proof. unfold with_params. case_bool_decide; cbn; [done|by case_decide]. Qed.

(** A static first segment followed by parameters. *)
Lemma match_static first ps ss :
  starts_with first "{*" = false → starts_with first "{" = false →
  match_segments ("" :: first :: ps) (ss) =
  match ss with
  | root :: s :: ss' => if bool_decide (root = "") then if bool_decide (s = first) then match_segments ps ss' else None else None
  | _ => None
  end.
Proof.
  intros H1 H2. destruct ss as [|root [|s ss']]; [done|..]; cbn [match_segments];
    change (starts_with "" "{*") with false; change (starts_with "" "{") with false.
  - by destruct (bool_decide ("" = root)).
  - rewrite H1, H2, (bool_decide_ext ("" = root) (root = "")), (bool_decide_ext (first = s) (s = first)) by done. done.
Qed.

Lemma match_file ss :
  match_segments ["{fileid}"; "{additional}"; "{*filename}"] ss =
  params_of HHath (match ss with
    | id :: additional :: x :: rest => with_params 3 HHath [id; additional; str_join "/" (x :: rest)]
    | _ => Fallback
    end).
Proof.
  destruct ss as [|id [|additional [|x rest]]]; cbn [match_segments];
    change (starts_with "{fileid}" "{*") with false; change (starts_with "{fileid}" "{") with true;
    change (starts_with "{additional}" "{*") with false; change (starts_with "{additional}" "{") with true;
    change (starts_with "{*filename}" "{*") with true; [done|by repeat case_bool_decide..|].
  rewrite params_with, decide_True by done. generalize (str_join "/" (x :: rest)). intros r.
  assert (bool_decide (length [id; additional; r] = 3%nat ∧ Forall (λ s, s ≠ "") [id; additional; r]) =
    negb (bool_decide (id = "")) && (negb (bool_decide (additional = "")) && negb (bool_decide (r = "")))) as ->.
  { rewrite <- !bool_decide_not, <- !bool_decide_and. apply bool_decide_ext. split.
    - intros [_ (? & (? & (? & _)%Forall_cons_1)%Forall_cons_1)%Forall_cons_1]. done.
    - intros (? & ? & ?). split; [done|by repeat constructor]. }
  by destruct (bool_decide (id = "")), (bool_decide (additional = "")), (bool_decide (r = "")).
Qed.

Lemma match_target em p h path : (p, h) ∈ routes em → match_path p path = params_of h (target_of em path).
Proof.
  intros Hin. assert (h = HMetrics → em = true) as Hem.
  { intros ->. destruct em; [done|]. unfold routes in Hin. cbn [Datatypes.app] in Hin. rewrite app_nil_r in Hin.
    unfold register_route in Hin. set_solver. }
  apply routes_mono in Hin. unfold match_path, target_of. generalize (split_on "/"%char path). intros sg.
  route_cases Hin; split_pattern; rewrite match_static by reflexivity;
    destruct sg as [|root [|s ss]]; try done; case_bool_decide; try done; subst;
    repeat (case_bool_decide; subst; try discriminate; try done); rewrite ?params_with, ?decide_False by done; try done;
    rewrite ?decide_True by done.
  all: try (rewrite match_params by (repeat constructor); done).
  all: try (destruct em; cbn [andb]; rewrite ?params_with; by rewrite ?decide_False by done).
  all: try (destruct ss as [|id [|additional [|x rest]]]; [done..|by rewrite params_with]).
  - apply match_file.
  - rewrite Hem by done. cbn [andb]. rewrite params_with, decide_True by done. by apply match_params.
Qed.

Lemma target_of_allowed em path : target_of em path ≠ NotAllowed.
Proof. unfold target_of, with_params. repeat (case_match; try done). Qed.

Lemma target_of_match em path h vs :
  target_of em path = Handler h vs ↔ ∃ p, (p, h) ∈ routes em ∧ match_path p path = Some vs.
Proof.
  split.
  - intros E. assert (∃ p, (p, h) ∈ routes em) as [p Hp].
    { assert (h ≠ HMetrics → ∃ p, (p, h) ∈ register_route) as Hr.
      { intros. destruct h; [eexists; apply list_elem_of_In; cbn; auto 6..|done]. }
      destruct (decide (h = HMetrics)) as [->|Hm].
      2: { destruct (Hr Hm) as [p Hp]. exists p. unfold routes. apply elem_of_app. by left. }
      exists "/metrics". destruct em; [right; right; right; right; right; left|]. exfalso. revert E. unfold target_of, with_params.
      repeat (case_match; try done). by rewrite andb_false_r in *. }
    exists p. split; [done|]. rewrite (match_target em p h) by done. rewrite E. cbn. by rewrite decide_True.
  - intros (p & Hin & Em). rewrite (match_target em p h) in Em by done.
    destruct (target_of em path) as [h' vs'| |]; [|done..]. cbn in Em. case_decide; [|done]. by simplify_eq.
Qed.

Section routing.
Context `{RouterLaws}.

Lemma dispatch_handler em method path h vs :
  dispatch em method path = Handler h vs ↔
  allowed method = true ∧ ∃ p, (p, h) ∈ routes em ∧ match_path p path = Some vs.
Proof.
  unfold dispatch. destruct (allowed method); cbn [negb]; [|naive_solver].
  destruct (route (fst <$> routes em) path) as [[i ws]|] eqn:E.
  - destruct (route_sound _ _ _ _ E) as (p & Hp & Hm). apply list_lookup_fmap_Some in Hp as ([p' h'] & -> & Hph).
    cbn [fst] in Hm. rewrite Hph. pose proof (list_elem_of_lookup_2 _ _ _ Hph) as Hin. split.
    + intros [= -> ->]. eauto.
    + intros (_ & p & Hin2 & Hm2). destruct (routes_unique em _ _ _ _ _ _ _ Hin Hin2 Hm Hm2) as [-> ->]. congruence.
  - split; [done|]. intros (_ & p & Hin & Hm).
    rewrite (route_complete _ path p E) in Hm; [done|]. apply list_elem_of_fmap. by exists (p, h).
Qed.

Lemma dispatch_fallback em method path :
  dispatch em method path = Fallback ↔ allowed method = true ∧ ∀ p h, (p, h) ∈ routes em → match_path p path = None.
Proof.
  split.
  - intros E. assert (allowed method = true) as Ha by (unfold dispatch in E; by destruct (allowed method)).
    split; [done|]. intros p h Hin. destruct (match_path p path) as [vs|] eqn:Em; [|done].
    assert (dispatch em method path = Handler h vs) by (apply dispatch_handler; eauto). congruence.
  - intros [Ha Hn]. destruct (dispatch em method path) as [h vs| |] eqn:E; [|done|].
    + apply dispatch_handler in E as (_ & p & Hin & Hm). by rewrite (Hn p h Hin) in Hm.
    + unfold dispatch in E. rewrite Ha in E. cbn [negb] in E.
      destruct (route _ _) as [[i vs]|]; [|done]. by destruct (routes em !! i) as [[p h]|].
Qed.

(** The path of a file. *)
Definition hath_path (file_id additional file_name : string) : string :=
  "/h/" +:+ file_id +:+ "/" +:+ additional +:+ "/" +:+ file_name.

Lemma hath_path_match id additional name :
  has_char "/"%char id = false → has_char "/"%char additional = false → id ≠ "" → additional ≠ "" → name ≠ "" →
  match_path "/h/{fileid}/{additional}/{*filename}" (hath_path id additional name) = Some [id; additional; name].
Proof.
  intros Hi Ha Ei Ea En. unfold match_path, hath_path.
  assert (split_on "/"%char ("/h/" +:+ id +:+ "/" +:+ additional +:+ "/" +:+ name) =
    "" :: "h" :: id :: additional :: split_on "/"%char name) as ->.
  { change ("/h/" +:+ id +:+ "/" +:+ additional +:+ "/" +:+ name)
      with ("" +:+ String "/"%char ("h" +:+ String "/"%char (id +:+ String "/"%char (additional +:+ String "/"%char name)))).
    by rewrite !split_on_app. }
  destruct (split_on_ne "/"%char name) as (s & ss & Es). pose proof (join_split_on "/"%char name) as Hj. rewrite Es in *.
  cbn [match_segments]. change (split_on "/"%char "/h/{fileid}/{additional}/{*filename}") with
    ["" : string; "h"; "{fileid}"; "{additional}"; "{*filename}"]. cbn [match_segments].
  change (starts_with "" "{*") with false. change (starts_with "" "{") with false.
  change (starts_with "h" "{*") with false. change (starts_with "h" "{") with false.
  change (starts_with "{fileid}" "{*") with false. change (starts_with "{fileid}" "{") with true.
  change (starts_with "{additional}" "{*") with false. change (starts_with "{additional}" "{") with true.
  change (starts_with "{*filename}" "{*") with true.
  rewrite (bool_decide_true ("" = "")), (bool_decide_true ("h" = "h")), (bool_decide_false (id = "")),
    (bool_decide_false (additional = "")) by done.
  change (str_join "/" (s :: ss)) with (str_join (String "/"%char EmptyString) (s :: ss)). rewrite Hj.
  by rewrite bool_decide_false by done.
Qed.

Lemma dispatch_hath em method id additional name :
  allowed method = true →
  has_char "/"%char id = false → has_char "/"%char additional = false → id ≠ "" → additional ≠ "" → name ≠ "" →
  dispatch em method (hath_path id additional name) = Handler HHath [id; additional; name].
Proof.
  intros. apply dispatch_handler. split; [done|]. eexists. split; [|by apply hath_path_match].
  unfold routes, register_route. set_solver.
Qed.

End routing.

(** The layers pass an answer that is in time through. *)
Lemma layered_in_time {E} server (inner : AccessLog.service) i req s m c t res :
  inner req = (Some t, res) → t ≤ 181 * sec →
  pending s !! i = None → bodies s !! i = None → Counter.live c !! i = None →
  ∃ s' c', layered (E := E) server inner i req s m c =
      (t, match server with Some v => default_headers v res | None => res end, s', c', Counter.threshold m <? Counter.gauge c) ∧
    AccessLog.lines s' = AccessLog.lines s ++
      [line_head (wrap64 (cache_sent s + 1)) (default "-" (client req)) (AccessLog.r_code res)
         (if bool_decide (AccessLog.method req = "HEAD") then 0
          else default 0 ((snd <$> (snd <$> list_find (λ e, e.1 = "content-length") (AccessLog.r_headers res))) ≫= parse_u64))
       +:+ request_line req] ∧
    Counter.live c' !! i = Some Counter.InBody.
Proof.
  intros Ei Ht Hp Hb Hl. unfold layered, time_limited. rewrite Ei, (proj2 (Z.leb_le _ _) Ht).
  cbn [Counter.step step]. rewrite Hl, decide_True by done. unfold responded, call. cbn. rewrite lookup_insert_eq.
  do 2 eexists. split; [done|]. split; [done|]. cbn. rewrite lookup_insert_eq. cbn. by rewrite lookup_insert_eq.
Qed.

(** The length a response declares. *)
Lemma to_http_length loc r :
  (snd <$> (snd <$> list_find (λ e, e.1 = "content-length") (AccessLog.r_headers (to_http loc r)))) = show <$> r_content_length r.
Proof.
  unfold to_http. cbn [AccessLog.r_headers].
  destruct (r_cache_control r), (r_disposition r), (r_type r), (r_etag r), (r_accept_ranges r), (r_content_length r),
    (r_content_range r), loc; reflexivity.
Qed.

(** Only these names occur. *)
Lemma to_http_no_server loc r : filter (λ e, e.1 ≠ "server") (AccessLog.r_headers (to_http loc r)) = AccessLog.r_headers (to_http loc r).
Proof.
  unfold to_http. cbn [AccessLog.r_headers].
  destruct (r_cache_control r), (r_disposition r), (r_type r), (r_etag r), (r_accept_ranges r), (r_content_length r),
    (r_content_range r), loc; reflexivity.
Qed.

(** ** Theorems *)

Section routing_theorem.
Context `{RouterLaws}.

(** C32: Which handler answers a request, for every implementation of the router that
    follows the documented rule.  With a method other than GET and HEAD none; otherwise
    the first segment of the path decides: [favicon.ico] and [robots.txt] alone,
    [servercmd] and [t] with four parameters that are not empty, [h] with two such
    parameters and a rest that is not empty and may have more segments, [metrics] alone
    and only if it is enabled.  Everything else gets the 404 page. *)
Theorem routing_exact em method path :
  dispatch em method path =
  if bool_decide (method = "GET" ∨ method = "HEAD") then target_of em path else NotAllowed.
Proof.
  assert (allowed method = bool_decide (method = "GET" ∨ method = "HEAD")) as Ha.
  { unfold allowed. apply bool_decide_ext. set_solver. }
  rewrite <- Ha. destruct (allowed method) eqn:Em; [|unfold dispatch; by rewrite Em].
  destruct (target_of em path) as [h vs| |] eqn:Et.
  - apply dispatch_handler. split; [done|]. by apply target_of_match.
  - apply dispatch_fallback. split; [done|]. intros p h Hin. destruct (match_path p path) as [vs|] eqn:Ep; [|done].
    assert (target_of em path = Handler h vs) by (apply target_of_match; eauto). congruence.
  - by apply target_of_allowed in Et.
Qed.

End routing_theorem.

Section theorems.
Context `{HexLaws, DigestLaws, RouterLaws}.

(** C3: A request for a cached file through the whole server: when the routes answer
    in time, the client gets the status, the headers and the body of a correct hit
    within 181 seconds, with the [Server] header if it is enabled and the [Alt-Svc]
    header if HTTP/3 is, the request is logged under the next number with its declared
    length, and it is counted until its body is dropped.  The only command that is
    offered to [main] is [Overload], exactly if more requests than the threshold were
    being served. *)
Theorem request_served {E} a em server h3_port t i req addr headers log cnt
    io utime_ok seek_ans answers now file_id additional file_name d c info b :
  a_get a = get_from_disk io utime_ok (Some b) seek_ans answers now →
  allowed (method req) = true → AccessLog.path req = hath_path file_id additional file_name →
  has_char "/"%char file_id = false → has_char "/"%char additional = false → file_id ≠ "" → additional ≠ "" → file_name ≠ "" →
  has_char "%"%char file_id = false → has_char "%"%char additional = false → has_char "%"%char file_name = false →
  keystamp_ok (a_timestemp a) (key (a_client a)) file_id (default "" (parse_additional additional !! "keystamp")) = true →
  from_file_id file_id = Some info → disk_ok (cache_dir c) d → abs (cache_dir c) d !! FileId.file_name info = Some b →
  blen b = fi_size info → ranges_valid (a_parser a) → f_metadata io (to_path info (cache_dir c)) = false →
  seek_ans ≠ SeekLost → Forall good_answer answers → (length b ≤ length answers)%nat →
  t ≤ 181 * sec → pending log !! i = None → bodies log !! i = None → Counter.live cnt !! i = None →
  ∃ res r log' cnt' s',
    serve_http (E := E) a em server h3_port (Some t) i req addr headers log cnt (d, c) =
      (t, res, r,
       if Counter.threshold (max_connection (settings (a_client a))) <? Counter.gauge cnt then [Overload] else [],
       log', cnt', s') ∧
    hit_correct (a_parser a) headers info b r ∧
    AccessLog.r_code res = r_status r ∧
    AccessLog.r_headers res = AccessLog.r_headers (to_http None r) ++ header "server" server ++
      AccessLog.r_headers (alt_svc h3_port (AccessLog.mkResponse 0 [])) ∧
    AccessLog.lines log' = AccessLog.lines log ++
      [line_head (wrap64 (cache_sent log + 1)) (default "-" (client req)) (r_status r)
         (if bool_decide (method req = "HEAD") then 0 else default 0 ((show <$> r_content_length r) ≫= parse_u64))
       +:+ request_line req] ∧
    Counter.live cnt' !! i = Some Counter.InBody.
Proof.
  intros Hget Hm Hp Hs1 Hs2 Hn1 Hn2 Hn3 Hc1 Hc2 Hc3 Hk Hid Hd Habs Hsz Hv Hfm Hsk Hg Hans Ht H1p H2p H3p.
  destruct (cached_is_hit (a_timestemp a) (key (a_client a)) (a_header_ok a) (a_parser a) io utime_ok seek_ans answers now
    file_id additional file_name headers d c info b) as (r & s' & Eh & Hcorrect); try done.
  assert (respond a em addr headers (method req) (AccessLog.path req) (d, c) = (r, None, [], s')) as Er.
  { unfold respond. rewrite Hp, dispatch_hath by done. unfold handle, decode_all. cbn [mapM].
    rewrite !percent_decode_plain by done. cbn [mbind option_bind mret option_ret]. by rewrite Hget, Eh. }
  destruct (layered_in_time (E := E) server (λ _, (Some t, to_http None r)) i req log
    (max_connection (settings (a_client a))) cnt t (to_http None r)) as (log' & cnt' & El & Hlines & Hlive); try done.
  unfold serve_http. rewrite Er, El, app_nil_r. do 5 eexists. split; [done|]. rewrite to_http_length in Hlines. split_and!; try done.
  - by destruct server, h3_port.
  - destruct server as [v|], h3_port as [port|]; cbn [header default_headers alt_svc AccessLog.r_headers];
      rewrite ?to_http_no_server, ?app_nil_r, <- ?(assoc_L (++)); done.
Qed.

(** What the routes themselves do. *)
Lemma respond_authorised {S} (a : app S) em addr headers method path (s : S) r loc cmds s' :
  0 ≤ a_timestemp a < 2 ^ 62 →
  respond a em addr headers method path s = (r, loc, cmds, s') →
  (s' = s ∨ ∃ vs file_id additional file_name,
     dispatch em method path = Handler HHath vs ∧ decode_all vs = Some [file_id; additional; file_name] ∧
     keystamp_ok (a_timestemp a) (key (a_client a)) file_id (default "" (parse_additional additional !! "keystamp")) = true) ∧
  (cmds = [] ∨ ∃ cmd vs peer command additional time_text time hash,
     cmds = [cmd] ∧
     dispatch em method path = Handler HServercmd vs ∧ decode_all vs = Some [command; additional; time_text; hash] ∧
     (to_lowercase command, cmd) ∈
       [("refresh_settings", RefreshSettings); ("start_downloader", StartDownloader); ("refresh_certs", ReloadCert)] ∧
     addr = Some peer ∧ parse_i64 time_text = Some time ∧
     (s_disable_ip_check (settings (a_client a)) = true ∨ show_ip (addr_ip peer) ∈ rpc_servers (a_client a)) ∧
     Z.abs (a_timestemp a - time) ≤ 300 ∧
     hash = string_to_hash (command_text command additional time (a_client a))).
Proof.
  intros Hts. unfold respond. destruct (dispatch em method path) as [h vs| |]; [|by intros [= _ _ <- <-]; auto..].
  unfold handle. destruct (decode_all vs) as [ps|] eqn:Ed; [|by destruct h; intros [= _ _ <- <-]; auto].
  destruct h; try (by intros [= _ _ <- <-]; auto).
  - destruct ps as [|command [|additional [|time_text [|hash []]]]]; try (by intros [= _ _ <- <-]; auto).
    destruct addr as [peer|]; cbn [client_addr]; [|by intros [= _ _ <- <-]; auto].
    destruct (parse_i64 time_text) as [time|] eqn:Et; [|by intros [= _ _ <- <-]; auto].
    intros [= _ _ <- <-]. split; [by left|].
    destruct (servercmd _ _ _ _ _ _ _ _) as [| | | |x] eqn:Es; try (by left).
    pose proof (servercmd_sent _ _ _ _ _ _ _ _ _ Es) as Hx.
    destruct (servercmd_checked (addr_ip peer) (a_timestemp a) (a_client a) (a_tries a) command additional time hash)
      as (Hl & Hd & Hh); [done|by apply parse_int_range in Et|by rewrite Es|].
    right. exists x, vs, peer, command, additional, time_text, time, hash. by split_and!.
  - destruct ps as [|size [|time [|hash [|rnd []]]]]; try (by intros [= _ _ <- <-]; auto).
    destruct (parse_u64 size), (parse_i64 time); by intros [= _ _ <- <-]; auto.
  - destruct ps as [|file_id [|additional [|file_name []]]]; try (by intros [= _ _ <- <-]; auto).
    destruct (keystamp_ok (a_timestemp a) (key (a_client a)) file_id (default "" (parse_additional additional !! "keystamp"))) eqn:Ek.
    + intros E. split; [right; by exists vs, file_id, additional, file_name|]. left.
      destruct (hath _ _ _ _ _ _ _ _ _ _) as [[r0|info cd fi xr] s0]; [by injection E as _ _ <- _|].
      destruct (a_miss a info cd fi xr file_id s0) as [r1 s1]. by injection E as _ _ <- _.
    + unfold hath. rewrite Ek. cbn [negb]. intros [= _ _ <- <-]. auto.
Qed.

(** C8: What no request can do without its credentials, whatever its method, path,
    headers and parameters, and behind all layers: the cache and the download state
    change only for a file request with a valid key stamp.  The commands offered to
    [main] are [Overload], exactly if more requests than the threshold were being
    served, and at most one other, which is named by a request of a listed server (of
    any address if the check of the origin is disabled) that is at most five minutes
    off and signed with the client's key. *)
Theorem request_authorised {E S} (a : app S) em server h3_port took i req addr headers log cnt (s : S) t res r cmds log' cnt' s' :
  0 ≤ a_timestemp a < 2 ^ 62 → Counter.live cnt !! i = None →
  serve_http (E := E) a em server h3_port took i req addr headers log cnt s = (t, res, r, cmds, log', cnt', s') →
  let target := dispatch em (method req) (AccessLog.path req) in
  (s' = s ∨ ∃ vs file_id additional file_name,
     target = Handler HHath vs ∧ decode_all vs = Some [file_id; additional; file_name] ∧
     keystamp_ok (a_timestemp a) (key (a_client a)) file_id (default "" (parse_additional additional !! "keystamp")) = true) ∧
  ∃ own, cmds = (if Counter.threshold (max_connection (settings (a_client a))) <? Counter.gauge cnt then [Overload] else []) ++ own ∧
  (own = [] ∨ ∃ cmd vs peer command additional time_text time hash,
     own = [cmd] ∧
     target = Handler HServercmd vs ∧ decode_all vs = Some [command; additional; time_text; hash] ∧
     (to_lowercase command, cmd) ∈
       [("refresh_settings", RefreshSettings); ("start_downloader", StartDownloader); ("refresh_certs", ReloadCert)] ∧
     addr = Some peer ∧ parse_i64 time_text = Some time ∧
     (s_disable_ip_check (settings (a_client a)) = true ∨ show_ip (addr_ip peer) ∈ rpc_servers (a_client a)) ∧
     Z.abs (a_timestemp a - time) ≤ 300 ∧
     hash = string_to_hash (command_text command additional time (a_client a))).
Proof.
  intros Hts Hl Es target. unfold serve_http in Es.
  destruct (respond a em addr headers (method req) (AccessLog.path req) s) as [[[r0 loc] own] s0] eqn:Er.
  destruct (respond_authorised a em addr headers (method req) (AccessLog.path req) s r0 loc own s0 Hts Er) as [Hs Hc].
  unfold layered in Es. cbn [Counter.step] in Es. rewrite Hl in Es. destruct (time_limited _ req) as [t0 res0].
  injection Es as _ _ _ <- _ _ <-. split; [done|]. by exists own.
Qed.

End theorems.

(** ** Witnesses *)

(** A router that tries the patterns in order. *)
Definition router_ref : Router := {|
  route ps path :=
    '(i, p) ← list_find (λ p, is_Some (match_path p path)) ps;
    vs ← match_path p path;
    Some (i, vs);
  percent_decode s := if has_char "%"%char s then None else Some s
|}.

#[export] Instance router_ref_laws : RouterLaws router_ref.
Proof.
  split; cbn.
  - intros ps path i vs E. destruct (list_find _ ps) as [[j p]|] eqn:Ef; cbn in E; [|done].
    destruct (match_path p path) as [ws|] eqn:Em; cbn in E; [|done]. injection E as -> ->.
    apply list_find_Some in Ef as (Hp & _). eauto.
  - intros ps path p E Hin. destruct (list_find _ ps) as [[j q]|] eqn:Ef; cbn in E.
    + apply list_find_Some in Ef as (_ & [ws Hq] & _). by rewrite Hq in E.
    + apply list_find_None in Ef. destruct (match_path p path) eqn:Em; [|done].
      apply Forall_forall with (x := p) in Ef; [|by apply list_elem_of_In]. exfalso. apply Ef. rewrite Em. eauto.
  - intros s ->. done.
Qed.

Lemma routing_exact_witness :
  @dispatch router_ref true "GET" "/h/a/b/c/d" = Handler HHath ["a"; "b"; "c/d"] ∧
  @dispatch router_ref false "GET" "/metrics" = Fallback.
Proof.
  split; rewrite (routing_exact (R := router_ref)); vm_compute; reflexivity.
Defined.

Definition sample_app : app (disk * CacheManager) :=
  mkApp (test_client []) 1000 (λ _, true) one_range
    (@get_from_disk hex_ref toy_digest no_faults true (Some good_data) SeekOk two_reads (one_week + 1))
    (λ _ _ _ _ _ s, (not_found, s)) (λ _, (TryErr, TryErr, TryErr)) "" (λ _, not_found).
Definition sample_request : request_info :=
  mkInfo "GET" (hath_path hit_id "keystamp=1000-31" "a.jpg") None "HTTP/1.1" (Some "1.2.3.4").

Lemma request_served_witness :
  ∃ res r log' cnt' s',
    @serve_http hex_ref toy_digest router_ref _ unit sample_app false (Some "S") (Some 443) (Some sec) 0 sample_request None range_headers
      AccessLog.init Counter.counter_new (read_disk good_data, read_cm) = (sec, res, r, [], log', cnt', s') ∧
    r_status r = 206 ∧ delivers (r_body r) (as_bytes "b").
Proof.
  destruct (request_served (H := hex_ref) (D := toy_digest) (R := router_ref) (E := unit) sample_app false (Some "S") (Some 443) sec 0
    sample_request None range_headers AccessLog.init Counter.counter_new no_faults true SeekOk two_reads (one_week + 1)
    hit_id "keystamp=1000-31" "a.jpg" (read_disk good_data) read_cm read_info good_data
    eq_refl eq_refl eq_refl ltac:(vm_compute; reflexivity) ltac:(vm_compute; reflexivity)
    ltac:(vm_compute; discriminate) ltac:(vm_compute; discriminate) ltac:(vm_compute; discriminate)
    ltac:(vm_compute; reflexivity) ltac:(vm_compute; reflexivity) ltac:(vm_compute; reflexivity)
    ltac:(vm_compute; reflexivity) ltac:(vm_compute; reflexivity) (read_disk_ok good_data)
    ltac:(vm_compute; reflexivity) eq_refl one_range_valid eq_refl ltac:(vm_compute; discriminate) ltac:(repeat constructor)
    ltac:(vm_compute; lia) ltac:(vm_compute; discriminate) eq_refl eq_refl eq_refl) as (res & r & log' & cnt' & s' & E & Hc & _).
  exists res, r, log', cnt', s'. split; [exact E|].
  assert (r_status r = 206) as Hst.
  { apply (f_equal (λ x, r_status x.1.1.1.1.2)) in E. cbn [fst snd] in E. rewrite <- E. vm_compute. reflexivity. }
  split; [exact Hst|]. destruct Hc as (_ & _ & Hc). rewrite Hst in Hc. destruct Hc as (x & y & Er & _ & Hd & _).
  assert (x = 1 ∧ y = 1) as [-> ->] by (vm_compute in Er; by injection Er as <- <-). exact Hd.
Defined.

(** A request without a valid key stamp changes nothing and sends nothing. *)
Definition bad_request : request_info :=
  mkInfo "GET" (hath_path hit_id "keystamp=1-x" "a.jpg") None "HTTP/1.1" (Some "1.2.3.4").

Lemma request_authorised_witness :
  ∃ t res r cmds log' cnt' s',
    @serve_http hex_ref toy_digest router_ref _ unit sample_app true None None (Some sec) 0 bad_request None range_headers
      AccessLog.init Counter.counter_new (read_disk good_data, read_cm) = (t, res, r, cmds, log', cnt', s') ∧
    s' = (read_disk good_data, read_cm) ∧ r = forbidden ∧ cmds = [].
Proof.
  destruct (@serve_http hex_ref toy_digest router_ref _ unit sample_app true None None (Some sec) 0 bad_request None range_headers
      AccessLog.init Counter.counter_new (read_disk good_data, read_cm)) as [[[[[[t res] r] cmds] log'] cnt'] s'] eqn:E.
  exists t, res, r, cmds, log', cnt', s'. split; [reflexivity|].
  destruct (request_authorised (H := hex_ref) (D := toy_digest) (R := router_ref) (E := unit) sample_app true None None (Some sec) 0
    bad_request None range_headers AccessLog.init Counter.counter_new (read_disk good_data, read_cm) t res r cmds log' cnt' s'
    ltac:(vm_compute; split; [discriminate|reflexivity]) eq_refl E) as [[Hs|Hs] (own & Hc & [->|Hown])].
  - split; [exact Hs|]. split; [|rewrite Hc; vm_compute; reflexivity].
    apply (f_equal (λ x, x.1.1.1.1.2)) in E. cbn [fst snd] in E. rewrite <- E. vm_compute. reflexivity.
  - destruct Hown as (? & vs & ? & ? & ? & ? & ? & ? & _ & Ed & _). vm_compute in Ed. discriminate Ed.
  - destruct Hs as (vs & fid & add & name & Ed & Edec & Hk). vm_compute in Ed. injection Ed as <-.
    vm_compute in Edec. injection Edec as <- <- <-. vm_compute in Hk. discriminate Hk.
  - destruct Hown as (? & vs & ? & ? & ? & ? & ? & ? & _ & Ed & _). vm_compute in Ed. discriminate Ed.
Defined.
