(* ===== verification/Metrics.v ===== *)
(** * Metrics: the registry

    [src/src/metrics.rs]: the metrics the program registers, with their names,
    units and buckets.  The values are fields of the components that write them
    ([CacheStore], [Server], [AccessLog]).  The names under which the third-party
    registry exposes them are its documented scheme: prefix, name and unit joined
    by underscores. *)

From S2P Require Import Prelude.
From stdpp Require Import base list strings numbers.

Local Open Scope Z_scope.

Inductive Unit := Bytes | Seconds.

#[export] Instance Unit_eq_dec : EqDecision Unit.
Proof. solve_decision. Defined.

(** Buckets are upper bounds in milliseconds. *)
Inductive metric_kind :=
| Counter
| Gauge
| Histogram (buckets : list Z)
| CounterFamily
| HistogramFamily (buckets : list Z).

Record registration := mkMetric {
  m_name : string;
  m_help : string;
  m_unit : option Unit;
  m_kind : metric_kind
}.

Definition registry_prefix : string := "hath".

(** [Metrics::new]: the calls of [register] in order, and the collector [Uptime]. *)
Definition Metrics_new : list registration :=
  [ (* requests *)
    mkMetric "cache_sent" "Number of files sent" None Counter;
    mkMetric "cache_sent_size" "Number of bytes sent" (Some Bytes) CounterFamily;
    mkMetric "cache_sent_duration" "Histogram of cache sent" (Some Seconds)
      (HistogramFamily [10; 25; 50; 100; 200; 500; 1000; 1500; 2000; 3000; 5000; 10000; 30000]);
    mkMetric "cache_received" "Number of files received" None Counter;
    mkMetric "cache_received_size" "Number of bytes received" (Some Bytes) Counter;
    mkMetric "cache_received_duration" "Histogram of cache received" (Some Seconds)
      (HistogramFamily [50; 100; 250; 500; 1000; 2500; 5000; 10000; 30000]);
    mkMetric "connections" "Number of connections" None Gauge;
    (* cache *)
    mkMetric "cache_count" "Number of files in cache" None Gauge;
    mkMetric "cache_size" "Number of bytes in cache" (Some Bytes) Gauge;
    mkMetric "cache_capacity" "Cache capacity" (Some Bytes) Gauge;
    mkMetric "static_range" "Static range" None Gauge;
    (* downloader *)
    mkMetric "download_count" "Number of tasks received by downloader" None Counter;
    mkMetric "download_file_count" "Number of files downloaded" None Counter;
    mkMetric "download_size" "Number of bytes downloaded" (Some Bytes) Counter;
    mkMetric "download_duration" "Histogram of download" (Some Seconds)
      (Histogram [100; 250; 500; 1000; 2500; 5000; 10000; 30000; 60000]);
    (* uptime *)
    mkMetric "uptime" "Uptime in seconds" (Some Seconds) Counter ].

(** [Uptime::encode]: whole seconds since the start, in nanoseconds. *)
Definition uptime (start now : Z) : Z := Z.max 0 (now - start) / 1000000000.

Definition exposed_name (m : registration) : string :=
  registry_prefix +:+ "_" +:+ m_name m +:+
  match m_unit m with Some Bytes => "_bytes" | Some Seconds => "_seconds" | None => "" end.

Definition buckets (m : registration) : list Z :=
  match m_kind m with Histogram b | HistogramFamily b => b | _ => [] end.

(** The names a family is exposed under: a counter has a [_total], a histogram a
    sum, a count and buckets. *)
Definition samples (m : registration) : list string :=
  let n := exposed_name m in
  match m_kind m with
  | Counter | CounterFamily => [n +:+ "_total"]
  | Gauge => [n]
  | Histogram _ | HistogramFamily _ => [n +:+ "_sum"; n +:+ "_count"; n +:+ "_bucket"]
  end.

(** Each lower bound is less than the next one. *)
Fixpoint increasing (l : list Z) : bool :=
  match l with
  | a :: (b :: _) as r => (a <? b) && increasing r
  | _ => true
  end.

(** The exposition is well formed: no two metrics share a name, also not among
    the names of their samples (so that [cache_sent_size] of one family is not
    taken for a sample of another), bucket bounds increase, and a metric that
    measures time or bytes says so. *)
Theorem metrics_well_formed :
  NoDup (exposed_name <$> Metrics_new) ∧ NoDup (Metrics_new ≫= samples) ∧
  Forall (λ m, increasing (buckets m) = true) Metrics_new ∧
  Forall (λ m, buckets m = [] ∨ m_unit m = Some Seconds) Metrics_new.
Proof.
  split_and!; apply (bool_decide_unpack _); vm_compute; done.
Qed.
