(* ===== verification/Main.v ===== *)
(** * Main: credentials, the command loop and the schedule

    [src/src/main.rs]: [read_credential] and [setup], the task that executes
    commands (the slot of the gallery downloader and the throttling of overload
    reports), and the task that keeps the client alive. *)

From S2P Require Import Prelude Text FloodControl ServerCommand.
From stdpp Require Import base list strings numbers sets.

Local Open Scope Z_scope.

(** ** Credentials *)

(** [^[a-zA-Z0-9]{20}$] *)
Definition valid_key (key : string) : bool :=
  all_chars (λ c, is_digit c || is_upper c || is_lower c) key && bool_decide (String.length key = 20%nat).

(** What [setup] writes to [client_login]. *)
Definition login_text (id : Z) (key : string) : string := show id +:+ "-" +:+ key.

(** [read_credential] on the contents of [client_login]. *)
Definition read_credential (contents : string) : option (Z * string) :=
  match lines contents with
  | [] => None
  | data :: _ =>
      let credential := split_on "-"%char data in
      id ← credential !! 0%nat ≫= parse_i32;
      key ← credential !! 1%nat;
      Some (id, key)
  end.

(** A prompt asks again until an answer is accepted; it fails when the user leaves. *)
Fixpoint prompt {A : Type} (accepted : string → option A) (answers : list string) : option A :=
  match answers with
  | [] => None
  | s :: answers => match accepted s with Some a => Some a | None => prompt accepted answers end
  end.

(** [setup]: the answers to the two prompts, and whether the file can be written;
    the credentials and the contents of [client_login]. *)
Definition setup (ids keys : list string) (write_ok : bool) : option (Z * string * string) :=
  id ← prompt parse_i32 ids;
  key ← prompt (λ key, if valid_key key then Some key else None) keys;
  if (write_ok : bool) then Some (id, key, login_text id key) else None.

(** ** Commands *)

(** What the command task does that others see. *)
Inductive effect :=
| GetCert
| Refresh
| SpawnDownloader
| NotifyOverload.

#[export] Instance effect_eq_dec : EqDecision effect.
Proof. solve_decision. Defined.

Record command_state := mkCommands {
  last_overload : Z;           (* Instant, nanoseconds *)
  downloader : bool            (* the slot holds a task *)
}.

(** One command received at time [now]. *)
Definition run_command (now : Z) (c : Command) (s : command_state) : list effect * command_state :=
  match c with
  | ReloadCert => ([GetCert], s)
  | RefreshSettings => ([Refresh], s)
  | StartDownloader =>
      if downloader s then ([], s) else ([SpawnDownloader], mkCommands (last_overload s) true)
  | Overload =>
      if 30 * sec <? duration now (last_overload s) then ([NotifyOverload], mkCommands now (downloader s))
      else ([], s)
  end.

(** The downloader task as the slot sees it: it runs, has ended (which empties
    the slot), or was torn down by a panic (which does not). *)
Inductive slot_event :=
| Received (now : Z) (c : Command)
| DownloaderReturned
| DownloaderPanicked.

Record world := mkWorld { w_commands : command_state; w_running : nat }.

Definition slot_step (e : slot_event) (w : world) : world :=
  match e with
  | Received now c =>
      let (effects, s) := run_command now c (w_commands w) in
      mkWorld s (w_running w + length (filter (λ x, x = SpawnDownloader) effects))%nat
  | DownloaderReturned =>
      if bool_decide (w_running w = 0%nat) then w
      else mkWorld (mkCommands (last_overload (w_commands w)) false) (w_running w - 1)%nat
  | DownloaderPanicked =>
      if bool_decide (w_running w = 0%nat) then w else mkWorld (w_commands w) (w_running w - 1)%nat
  end.

Definition slot_run (es : list slot_event) (w : world) : world := foldl (λ w e, slot_step e w) w es.

(** The times at which overload was reported. *)
Fixpoint overload_times (cs : list (Z * Command)) (s : command_state) : list Z :=
  match cs with
  | [] => []
  | (now, c) :: r =>
      let (effects, s) := run_command now c s in
      (if decide (NotifyOverload ∈ effects) then [now] else []) ++ overload_times r s
  end.

(** ** The schedule *)

Inductive scheduled := StillAlive | CheckPurgeList.

(** One tick of the ten second interval: what it does, and the counter ([u32])
    afterwards. *)
Definition tick (counter : Z) : list scheduled * Z :=
  ((if counter mod 11 =? 0 then [StillAlive] else []) ++
   (if counter mod 2160 =? 2159 then [CheckPurgeList] else []),
   (counter + 1) mod 4294967296).

Fixpoint ticks (n : nat) (counter : Z) : list scheduled :=
  match n with
  | O => []
  | S n => let (l, counter) := tick counter in l ++ ticks n counter
  end.

#[export] Instance scheduled_eq_dec : EqDecision scheduled.
Proof. solve_decision. Defined.

Definition count (x : scheduled) (l : list scheduled) : Z := Z.of_nat (length (filter (λ y, y = x) l)).

(** ** Lemmas *)

Lemma ticks_count n c :
  0 ≤ c → c + Z.of_nat n ≤ u32_max →
  count StillAlive (ticks n c) = (c + Z.of_nat n + 10) / 11 - (c + 10) / 11 ∧
  count CheckPurgeList (ticks n c) = (c + Z.of_nat n) / 2160 - c / 2160.
Proof.
  revert c. induction n as [|n IH]; intros c Hc Hn; [rewrite Z.add_0_r; vm_compute count; lia|].
  cbn [ticks tick]. assert (∀ x l l', count x (l ++ l') = count x l + count x l') as Happ.
  { intros x l l'. unfold count. rewrite list.filter_app, length_app. lia. }
  rewrite (Z.mod_small (c + 1)) by word. rewrite !Happ.
  destruct (IH (c + 1)) as [-> ->]; [lia|lia|].
  assert (∀ x, count x [] = 0) as Hnil by done.
  destruct (Z.eqb_spec (c mod 11) 0), (Z.eqb_spec (c mod 2160) 2159);
    rewrite ?Hnil; change (count StillAlive [StillAlive]) with 1; change (count StillAlive [CheckPurgeList]) with 0;
    change (count CheckPurgeList [StillAlive]) with 0; change (count CheckPurgeList [CheckPurgeList]) with 1;
    Z.to_euclidean_division_equations; lia.
Qed.

(** The slot is taken while a downloader runs, and at most one does. *)
Definition slot_ok (w : world) : Prop :=
  (w_running w ≤ 1)%nat ∧ (w_running w = 1%nat → downloader (w_commands w) = true).

Lemma slot_step_ok e w : slot_ok w → slot_ok (slot_step e w).
Proof.
  intros [H1 H2]. unfold slot_ok, slot_step. destruct e as [now c| |].
  - destruct c; cbn; try (rewrite Nat.add_0_r; done).
    + destruct (downloader (w_commands w)) eqn:E; cbn; [rewrite Nat.add_0_r; done|].
      destruct (decide (w_running w = 1%nat)) as [E1|]; [specialize (H2 E1); congruence|].
      rewrite decide_True by done. cbn. split; [lia|done].
    + destruct (_ <? _); cbn; rewrite Nat.add_0_r; done.
  - case_bool_decide; [done|]. cbn. split; lia.
  - case_bool_decide; [done|]. cbn. split; [lia|]. lia.
Qed.

(** ** Theorems *)

(** What [setup] stores is read back, for every client id that is not
    negative and every valid key. *)
Theorem credential_roundtrip id key :
  0 ≤ id ≤ i32_max → valid_key key = true → read_credential (login_text id key) = Some (id, key).
Proof.
  intros Hi Hk. unfold valid_key in Hk. apply andb_true_iff in Hk as [Hk Hl%bool_decide_eq_true].
  assert (has_char "-"%char key = false ∧ has_char nl key = false) as [H1 H2]
    by (split; by eapply all_chars_has).
  unfold read_credential, login_text, lines.
  assert (show id +:+ "-" +:+ key ≠ "") as Hne.
  { destruct (show id) eqn:E; [|by intros [=]]. pose proof (parse_uint_show i32_max id ltac:(lia)) as Hp. by rewrite E in Hp. }
  rewrite (split_on_none nl).
  2:{ rewrite !has_char_app, H2, show_no_char by (done || lia). done. }
  cbn [lines_of]. rewrite decide_False by done.
  change (show id +:+ "-" +:+ key) with (show id +:+ String "-"%char key).
  rewrite split_on_app by (apply show_no_char; [lia|done]). rewrite split_on_none by done. cbn.
  assert (parse_i32 (show id) = Some id) as -> by (apply parse_int_show; word). done.
Qed.

(** A negative id, which the prompt accepts, is not read back. *)
Theorem credential_negative id key :
  i32_min ≤ id < 0 → valid_key key = true → read_credential (login_text id key) = None.
Proof.
  intros Hi Hk. unfold valid_key in Hk. apply andb_true_iff in Hk as [Hk _].
  assert (has_char nl key = false) as H2 by (by eapply all_chars_has).
  unfold read_credential, login_text, lines, show. rewrite (proj2 (Z.ltb_lt id 0)) by lia.
  rewrite (split_on_none nl).
  2:{ rewrite !has_char_app, H2, has_char_cons.
      rewrite (all_chars_has is_digit nl (show_nat (- id))); [done|apply show_nat_digits; lia|done]. }
  cbn [lines_of]. rewrite decide_False by done. done.
Qed.

Lemma setup_text ids keys ok id key text : setup ids keys ok = Some (id, key, text) → text = login_text id key.
Proof. unfold setup. intros E. repeat case_match; simplify_option_eq; done. Qed.

Lemma prompt_accepted {A} (f : string → option A) l a : prompt f l = Some a → ∃ s, s ∈ l ∧ f s = Some a.
Proof.
  induction l as [|s l IH]; [done|]. cbn. destruct (f s) as [x|] eqn:E.
  - intros [= ->]. exists s. split; [left|done].
  - intros Hp. destruct (IH Hp) as (s' & Hin & Es). exists s'. split; [by right|done].
Qed.

(** What [setup] returns is valid, and the next start reads it back from the file
    it wrote unless the client id is negative, which the prompt accepts. *)
Theorem setup_read_back ids keys id key text :
  setup ids keys true = Some (id, key, text) →
  i32_min ≤ id ≤ i32_max ∧ valid_key key = true ∧
  read_credential text = if 0 <=? id then Some (id, key) else None.
Proof.
  unfold setup. intros E. destruct (prompt parse_i32 ids) as [id'|] eqn:Ei; [|done]. cbn in E.
  destruct (prompt _ keys) as [key'|] eqn:Ek; [|done]. cbn in E. injection E as -> -> <-.
  apply prompt_accepted in Ei as (s & _ & Ei). apply prompt_accepted in Ek as (k & _ & Ek).
  destruct (valid_key k) eqn:Hk; [|done]. injection Ek as ->.
  assert (i32_min ≤ id ≤ i32_max) as Hi by (by eapply parse_int_range).
  split_and!; [lia..|done|]. destruct (Z.leb_spec 0 id).
  - apply credential_roundtrip; [lia|done].
  - apply credential_negative; [lia|done].
Qed.

(** Overload is reported at most once in thirty seconds: between two
    reports the clock has advanced by more. *)
Theorem overload_throttled cs s i a b :
  overload_times cs s !! i = Some a → overload_times cs s !! S i = Some b → 30 * sec < b - a.
Proof.
  assert (∀ s, match overload_times cs s with t :: _ => 30 * sec < t - last_overload s | [] => True end ∧
    ∀ i a b, overload_times cs s !! i = Some a → overload_times cs s !! S i = Some b → 30 * sec < b - a) as Hgen.
  { clear s i a b. induction cs as [|[now c] cs IH]; intros s; [done|]. cbn [overload_times].
    destruct c; cbn [run_command].
    1,2: destruct (decide (NotifyOverload ∈ _)); [set_solver|apply IH].
    - destruct (downloader s); [destruct (decide (NotifyOverload ∈ _)); [set_solver|apply IH]|].
      destruct (decide (NotifyOverload ∈ _)); [set_solver|]. apply (IH (mkCommands (last_overload s) true)).
    - destruct (Z.ltb_spec (30 * sec) (duration now (last_overload s))) as [Hd|Hd].
      + rewrite decide_True by left. cbn [app]. destruct (IH (mkCommands now (downloader s))) as [I1 I2].
        split; [unfold duration in Hd; unfold sec in *; lia|].
        intros i a b Ha Hb. destruct i as [|i]; [|by eapply I2]. injection Ha as <-.
        destruct (overload_times cs _); [done|]. injection Hb as <-. exact I1.
      + rewrite decide_False by (by apply not_elem_of_nil). apply IH. }
  apply (proj2 (Hgen s)).
Qed.

(** At most one gallery downloader runs at a time, whatever commands arrive
    and however the downloads end. *)
Theorem one_downloader es t :
  (w_running (slot_run es (mkWorld (mkCommands t false) 0)) ≤ 1)%nat.
Proof.
  assert (∀ w, slot_ok w → slot_ok (slot_run es w)) as Hrun.
  { induction es as [|e es IH]; intros w Hw; [done|]. apply IH. by apply slot_step_ok. }
  apply Hrun. split; cbn; lia.
Qed.

(** After a panic of the downloader the slot stays taken: no downloader is ever
    started again. *)
Theorem downloader_lost es t :
  let w := mkWorld (mkCommands t true) 0 in
  w_running (slot_run es w) = 0%nat.
Proof.
  assert (∀ w, w_running w = 0%nat ∧ downloader (w_commands w) = true →
    w_running (slot_run es w) = 0%nat) as Hrun; [|by apply Hrun].
  induction es as [|e es IH]; intros w [H1 H2]; [done|]. apply IH. unfold slot_step. destruct e as [now c| |].
  - destruct c; cbn; try (rewrite H1; done).
    + rewrite H2. cbn. by rewrite H1.
    + destruct (_ <? _); cbn; by rewrite H1.
  - by rewrite bool_decide_true.
  - by rewrite bool_decide_true.
Qed.

(** The schedule.  Starting up, in any number of ten second ticks that the
    [u32] counter holds, the server is asked every eleven ticks (110 s) and the
    purge list is fetched once per 2160 ticks (six hours). *)
Theorem schedule_counts n :
  Z.of_nat n ≤ u32_max →
  count StillAlive (ticks n 0) = (Z.of_nat n + 10) / 11 ∧
  count CheckPurgeList (ticks n 0) = Z.of_nat n * 10 / (6 * 60 * 60).
Proof.
  intros Hn. destruct (ticks_count n 0) as [-> ->]; [lia|lia|].
  split; [change ((0 + 10) / 11) with 0|change (0 / 2160) with 0]; rewrite Z.sub_0_r; [f_equal; lia|].
  rewrite Z.add_0_l. Z.to_euclidean_division_equations. lia.
Qed.

(** ** Witnesses *)

Lemma credential_roundtrip_witness :
  read_credential (login_text 42 "abcdefghij0123456789") = Some (42, "abcdefghij0123456789").
Proof. apply (credential_roundtrip 42 "abcdefghij0123456789"); [word|vm_compute; reflexivity]. Defined.

Lemma overload_throttled_witness :
  overload_times [(31 * sec, Overload); (40 * sec, Overload); (62 * sec, Overload)] (mkCommands 0 false) = [31 * sec; 62 * sec] ∧
  30 * sec < 62 * sec - 31 * sec.
Proof.
  split; [vm_compute; reflexivity|].
  apply (overload_throttled [(31 * sec, Overload); (40 * sec, Overload); (62 * sec, Overload)] (mkCommands 0 false) 0);
    vm_compute; reflexivity.
Defined.

Lemma schedule_counts_witness : count CheckPurgeList (ticks 2160 0) = 1.
Proof. rewrite (proj2 (schedule_counts 2160 ltac:(word))). vm_compute. reflexivity. Defined.
