(* ===== verification/Startup.v ===== *)
(** * Startup: the life of the process

    [main] of [src/src/main.rs] from the command line to the exit code, and
    [Server::new] of [src/src/server/mod.rs].  A step is a function in the monad
    [proc]: it changes the process (client, cache, log settings, server, tasks)
    and appends what others can see to a trace; it returns, ends the program with
    an error, or panics.  What the operating system and the network answer is
    the record [system].  What the other tasks do (requests that are served, commands,
    the keep-alive task, the gallery downloader) are events of [served], in every phase of
    [main] from the answer to the announcement on; a call of the RPC client is one step.
    A run is followed up to the first panic of a task. *)

From S2P Require Import Prelude Text Extern FileId FloodControl CacheStore CacheCleaner CacheScan CleanerProgress.
From S2P Require Import Net Rpc Logger Cert ServerCommand Main.
From stdpp Require Import base gmap list strings numbers.

Local Open Scope Z_scope.

(** ** The command line *)

(** [Args]. *)
Record Args := mkArgs {
  a_port : option Z;                (* u16 *)
  a_host : option IpAddr;
  a_cache_dir : string;
  a_data_dir : string;
  a_download_dir : string;
  a_log_dir : string;
  a_temp_dir : string;
  a_disable_logging : bool;
  a_flush_log : bool;
  a_max_connection : Z;             (* u64 *)
  a_disable_ip_origin_check : bool;
  a_disable_flood_control : bool;
  a_proxy : option string;
  a_force_background_scan : bool;
  a_quiet : Z;                      (* u8 *)
  a_rpc_server_ip : option string;
  a_enable_metrics : bool;
  a_sni_strict : bool;
  a_disable_server_header : bool;
  a_enable_h3 : bool
}.

(** ** The world *)

Record system := mkSystem {
  h_dirs : bool;                                (* the directories can be created *)
  h_login_file : option string + unit;          (* [client_login]: absent, its contents, or unreadable *)
  h_prompt : list string * list string;         (* what the user enters at the two prompts of [setup] *)
  h_write_login : bool;
  h_chrono : Z → bool;
  h_ev : nat → Rpc.event;                           (* the answer to each request *)
  h_pick : nat → nat;                           (* random choices *)
  h_io_pool : bool;                             (* the I/O threads can be started *)
  h_io : faults;
  h_rm : string → bool;
  h_free : option Z;
  h_scan : scan_env;
  h_tree : option (list l1_entry);
  h_now : Z;                                    (* the time of the scan *)
  h_tasks : Z;                                  (* the [Instant] at which the tasks start *)
  h_proxy : string → bool;                      (* [Proxy::all] accepts the text *)
  h_tcp : bool;                                 (* the TCP port can be bound *)
  h_udp : bool                                  (* the UDP port can be bound *)
}.

(** How [main] ends with an error. *)
Inductive exit :=
| IoFailure
| Failed (e : Error)
| ScanFailed (e : scan_error).

(** What others see of the process, in order. *)
Inductive action :=
| WroteLogin (text : string)
| Sent (u : Url)
| Slept (seconds : Z)
| ServerStarted
| TasksStarted
| DownloaderSpawned
| ReloadScheduled
| ShutdownRequested
| KeepaliveAborted
| DownloaderAborted
| ServerStopped
| StateSaved
| LoggerStopped.

Section startup.
Context `{HexCodec, Digest, UrlHost, CertLib}.

(** [ServerOptions]; of the application state only whether a proxy is set. *)
Record ServerOptions := mkOptions {
  o_port : Z;
  o_host : IpAddr;
  o_cert : ParsedCert;
  o_flood_control : bool;
  o_metrics : bool;
  o_sni_strict : bool;
  o_server_header : bool;
  o_h3 : bool;
  o_has_proxy : bool                (* of the application state *)
}.

(** [ServerOptions::new] and its builder methods. *)
Definition ServerOptions_new (port : Z) (host : IpAddr) (cert : ParsedCert) (has_proxy : bool) : ServerOptions :=
  mkOptions port host cert true false false true false has_proxy.
Definition opt_flood_control (b : bool) (o : ServerOptions) : ServerOptions :=
  mkOptions (o_port o) (o_host o) (o_cert o) b (o_metrics o) (o_sni_strict o) (o_server_header o) (o_h3 o) (o_has_proxy o).
Definition opt_metrics (b : bool) (o : ServerOptions) : ServerOptions :=
  mkOptions (o_port o) (o_host o) (o_cert o) (o_flood_control o) b (o_sni_strict o) (o_server_header o) (o_h3 o) (o_has_proxy o).
Definition opt_sni_strict (b : bool) (o : ServerOptions) : ServerOptions :=
  mkOptions (o_port o) (o_host o) (o_cert o) (o_flood_control o) (o_metrics o) b (o_server_header o) (o_h3 o) (o_has_proxy o).
Definition opt_server_header (b : bool) (o : ServerOptions) : ServerOptions :=
  mkOptions (o_port o) (o_host o) (o_cert o) (o_flood_control o) (o_metrics o) (o_sni_strict o) b (o_h3 o) (o_has_proxy o).
Definition opt_h3 (b : bool) (o : ServerOptions) : ServerOptions :=
  mkOptions (o_port o) (o_host o) (o_cert o) (o_flood_control o) (o_metrics o) (o_sni_strict o) (o_server_header o) b (o_has_proxy o).

(** A running server: what it listens on and how its loops are set up.
    [sv_alt_svc] is the port the [Alt-Svc] header of TCP answers names. *)
Record server := mkServer {
  sv_port : Z;
  sv_host : IpAddr;
  sv_cert : CertStore;
  sv_flood_control : bool;
  sv_metrics : bool;
  sv_server_header : bool;
  sv_h3 : bool;
  sv_alt_svc : option Z;
  sv_has_proxy : bool                (* [AppState::has_proxy] *)
}.

Record process := mkProcess {
  p_client : RPCClient;
  p_log : list Url;                 (* requests to the RPC servers *)
  p_trace : list action;
  p_disk : disk;
  p_cm : CacheManager;              (* before [new] only its metrics and state file exist *)
  p_logger : LoggerConfig;
  p_server : option server;
  p_scan : option (list string * bool);   (* a scan in the background: ranges, forced *)
  p_commands : command_state;       (* of the command task *)
  p_counter : Z                     (* of the keep-alive task, u32 *)
}.

Definition set_rpc (c : RPCClient) (log : list Url) (t : list action) (p : process) : process :=
  mkProcess c log t (p_disk p) (p_cm p) (p_logger p) (p_server p) (p_scan p) (p_commands p) (p_counter p).
Definition emit_to (a : action) (p : process) : process :=
  set_rpc (p_client p) (p_log p) (p_trace p ++ [a]) p.
Definition set_cache (d : disk) (cm : CacheManager) (p : process) : process :=
  mkProcess (p_client p) (p_log p) (p_trace p) d cm (p_logger p) (p_server p) (p_scan p) (p_commands p) (p_counter p).
Definition set_logger (l : LoggerConfig) (p : process) : process :=
  mkProcess (p_client p) (p_log p) (p_trace p) (p_disk p) (p_cm p) l (p_server p) (p_scan p) (p_commands p) (p_counter p).
Definition set_server (s : option server) (p : process) : process :=
  mkProcess (p_client p) (p_log p) (p_trace p) (p_disk p) (p_cm p) (p_logger p) s (p_scan p) (p_commands p) (p_counter p).
Definition set_scan (x : option (list string * bool)) (p : process) : process :=
  mkProcess (p_client p) (p_log p) (p_trace p) (p_disk p) (p_cm p) (p_logger p) (p_server p) x (p_commands p) (p_counter p).
Definition set_commands (c : command_state) (p : process) : process :=
  mkProcess (p_client p) (p_log p) (p_trace p) (p_disk p) (p_cm p) (p_logger p) (p_server p) (p_scan p) c (p_counter p).
Definition set_counter (n : Z) (p : process) : process :=
  mkProcess (p_client p) (p_log p) (p_trace p) (p_disk p) (p_cm p) (p_logger p) (p_server p) (p_scan p) (p_commands p) n.

(** ** The monad *)

Definition proc (A : Type) : Type := process → outcome exit A * process.

#[export] Instance proc_ret : MRet proc := λ A a p, (Ret a, p).
#[export] Instance proc_bind : MBind proc := λ A B f m p,
  match m p with
  | (Ret a, p) => f a p
  | (Fail e, p) => (Fail e, p)
  | (Panic, p) => (Panic, p)
  end.

Definition fail {A} (e : exit) : proc A := λ p, (Fail e, p).
Definition panicked {A} : proc A := λ p, (Panic, p).
Definition emit (a : action) : proc () := λ p, (Ret (), emit_to a p).
Definition get : proc process := λ p, (Ret p, p).
Definition modify (f : process → process) : proc () := λ p, (Ret (), f p).

(** A call of the RPC client: its requests join the trace. *)
Definition lift {A} (m : rpc A) : proc A := λ p,
  match m (p_client p) (p_log p) with
  | Some (a, c, log) => (Ret a, set_rpc c log (p_trace p ++ (Sent <$> drop (length (p_log p)) log)) p)
  | None => (Panic, p)
  end.

(** ** Before the client exists *)

(** [read_credential] and, without a readable answer, [setup]. *)
Definition credentials (h : system) : outcome exit (Z * string) * list action :=
  match h_login_file h with
  | inr () => (Fail IoFailure, [])
  | inl contents =>
      match contents ≫= read_credential with
      | Some v => (Ret v, [])
      | None =>
          match setup (h_prompt h).1 (h_prompt h).2 (h_write_login h) with
          | None => (Fail IoFailure, [])
          | Some (id, key, text) => (Ret (id, key), [WroteLogin text])
          end
      end
  end.

(** [logger.config().write_info(..)]. *)
Definition write_info_to (b : bool) (l : LoggerConfig) : LoggerConfig :=
  mkConfig b (flush l) (console_level l).

(** ** The steps of [main] *)

Section main.
Variable h : system.
Variable args : Args.

(** The pause after a failed login. *)
Definition login_pause (err : Error) : Z :=
  match err with
  | ApiResponseFail fail_code _ => if starts_with fail_code "FAIL_STARTUP_LOOP" then 15 * 60 else 5
  | _ => 5
  end.

(** Logging in: an error ends the program after a pause. *)
Definition log_in : proc InitSettings :=
  p ← get;
  r ← lift (login (h_chrono h) (h_ev h) (h_pick h (length (p_log p))));
  match r with
  | inl init => mret init
  | inr err =>
      emit (Slept (login_pause err));;
      fail (Failed err)
  end.

(** [CacheManager::new] with the scan it runs or leaves to a task. *)
Definition start_cache (init : InitSettings) : proc () :=
  p ← get;
  if negb (h_io_pool h) then fail IoFailure
  else
    let '(mode, d, cm) :=
      new_manager (h_io h) (h_rm h) (a_data_dir args) (a_cache_dir args) (a_temp_dir args)
        (s_size_limit (settings (p_client p))) (Rpc.static_ranges init) (verify_cache init)
        (a_force_background_scan args) (h_free h) (saved (p_cm p)) (p_disk p) in
    modify (set_cache d cm);;
    match mode with
    | Foreground =>
        let '(r, d, cm) := scan_cache (h_scan h) (h_now h) (h_tree h) (Rpc.static_ranges init) (verify_cache init) d cm in
        modify (set_cache d cm);;
        match r with inl () => mret () | inr e => fail (ScanFailed e) end
    | Background => modify (set_scan (Some (Rpc.static_ranges init, verify_cache init)))
    end.

(** [Server::new]: [None] when the TCP port cannot be bound; without the UDP
    port HTTP/3 is left out and not advertised. *)
Definition Server_new (o : ServerOptions) : proc (option server) :=
  match CertStore_new (o_cert o) (o_sni_strict o) with
  | Ret store =>
      if negb (h_tcp h) then mret None
      else
        let endpoint := o_h3 o && h_udp h in
        let s := mkServer (o_port o) (o_host o) store (o_flood_control o) (o_metrics o) (o_server_header o)
                   endpoint (if endpoint then Some (o_port o) else None) (o_has_proxy o) in
        modify (set_server (Some s));;
        emit ServerStarted;;
        mret (Some s)
  | _ => panicked
  end.

(** The options [main] asks for. *)
Definition server_options (init : InitSettings) (cert : ParsedCert) : ServerOptions :=
  let port := default (client_port init) (a_port args) in
  let flood_control := negb (a_disable_flood_control args || a_disable_ip_origin_check args) in
  opt_h3 (a_enable_h3 args) (opt_server_header (negb (a_disable_server_header args))
    (opt_sni_strict (a_sni_strict args) (opt_metrics (a_enable_metrics args)
      (opt_flood_control flood_control
        (ServerOptions_new port (default (V4 0) (a_host args)) cert (default false (h_proxy h <$> a_proxy args))))))).

Definition start_server (init : InitSettings) : proc () :=
  fetched ← lift (get_cert (h_chrono h) (h_ev h));
  match fetched with
  | None => panicked                       (* [expect] *)
  | Some cert =>
      s ← Server_new (server_options init cert);
      match s with
      | Some _ => mret ()
      | None => emit (Slept 5);; fail (Failed ServerStartFail)
      end
  end.

(** Telling the server that the client is up. *)
Definition announce : proc () :=
  r ← lift (connect_check (h_chrono h) (h_ev h));
  match r with
  | Some () => mret ()
  | None => emit (Slept 5);; fail (Failed ConnectTestFail)
  end.

Definition refresh : proc () :=
  p ← get;
  lift (refresh_settings (h_chrono h) (h_ev h) (h_pick h (length (p_log p)))).

(** Removing the files of the purge list. *)
Definition purge_files (ids : list string) (d : disk) (cm : CacheManager) : disk * CacheManager :=
  foldl (λ acc info, let '(_, d, cm) := remove_cache (h_io h) info acc.1 acc.2 in (d, cm)) (d, cm)
    (omap from_file_id ids).

Definition purge (delta_time : Z) : proc () :=
  l ← lift (get_purgelist (h_chrono h) (h_ev h) delta_time);
  match l with
  | Some ids =>
      p ← get;
      let (d, cm) := purge_files ids (p_disk p) (p_cm p) in
      modify (set_cache d cm)
  | None => mret ()
  end.

(** ** While it serves *)

(** What a command makes the command task do. *)
Definition perform (e : effect) : proc () :=
  match e with
  | GetCert =>
      fetched ← lift (get_cert (h_chrono h) (h_ev h));
      p ← get;
      match p_server p with
      | Some s =>
          let (retry, store) := reload_cert fetched (sv_cert s) in
          modify (set_server (Some (mkServer (sv_port s) (sv_host s) store (sv_flood_control s) (sv_metrics s)
                                      (sv_server_header s) (sv_h3 s) (sv_alt_svc s) (sv_has_proxy s))));;
          if retry then emit ReloadScheduled else mret ()
      | None => mret ()
      end
  | Refresh =>
      refresh;;
      modify (λ p, set_cache (p_disk p) (CacheStore.update_settings (s_size_limit (settings (p_client p))) (p_cm p)) p);;
      if a_disable_logging args then mret ()
      else modify (λ p, set_logger (write_info_to (negb (s_disable_logging (settings (p_client p)))) (p_logger p)) p)
  | SpawnDownloader => emit DownloaderSpawned
  | NotifyOverload => lift (notify_overload (h_chrono h) (h_ev h))
  end.

Definition perform_all (l : list effect) : proc () :=
  foldr (λ (e : effect) (m : proc ()), perform e;; m) (mret ()) l.

(** One tick of the keep-alive task. *)
Definition schedule (s : scheduled) : proc () :=
  match s with
  | StillAlive =>
      alive ← lift (still_alive (h_chrono h) (h_ev h) false);
      if (alive : bool) then mret () else emit ShutdownRequested
  | CheckPurgeList => purge 43200
  end.

Definition schedule_all (l : list scheduled) : proc () :=
  foldr (λ (s : scheduled) (m : proc ()), schedule s;; m) (mret ()) l.

Definition keepalive_tick : proc () :=
  p ← get;
  if negb (running (p_client p)) then mret ()
  else
    let (l, counter) := tick (p_counter p) in
    schedule_all l;;
    modify (set_counter counter).

(** What the gallery downloader asks the server. *)
Inductive dl_request :=
| QFetchQueue (gallery : option (Z * string))
| QDlFetch (gid page fileindex : Z) (xres : string) (retry : Z)
| QDlFails (choose : list string → list string) (failures : list string).

Definition dl_ask (q : dl_request) : rpc () :=
  match q with
  | QFetchQueue gallery => fetch_queue (h_chrono h) (h_ev h) gallery;; mret ()
  | QDlFetch gid page fileindex xres retry => dl_fetch (h_chrono h) (h_ev h) gid page fileindex xres retry;; mret ()
  | QDlFails choose failures => dl_fails (h_chrono h) (h_ev h) choose failures
  end.

(** What the other tasks may do: a tick, a command, a request of the downloader, its
    end, the end of the scan in the background, a change of the cache by requests and
    by the cleaner, or a request that misses and asks for its sources. *)
Inductive served :=
| Ticked
| CommandReceived (now : Z) (c : Command)
| DownloaderAsked (q : dl_request)
| DownloaderEnded
| ScanEnded
| CacheServed (f : disk * CacheManager → disk * CacheManager)
| MissFetched (file_index xres file_id : string).

(** Which of them can happen: the keep-alive task is aborted at the end, the command
    task starts with the tasks, and the downloader may be aborted; after the accounts
    were saved commands and changes of the cache are left out. *)
Record allowance := mkAllow { al_ticks : bool; al_commands : bool; al_downloader : bool; al_cache : bool }.

Definition permitted (al : allowance) (e : served) : bool :=
  match e with
  | Ticked => al_ticks al
  | CommandReceived _ _ => al_commands al
  | DownloaderAsked _ | DownloaderEnded => al_downloader al
  | ScanEnded | CacheServed _ => al_cache al
  | MissFetched _ _ _ => true
  end.

Definition before_tasks : allowance := mkAllow false false false true.
Definition all_tasks : allowance := mkAllow true true true true.
Definition no_keepalive (downloader : bool) : allowance := mkAllow false true downloader true.
Definition after_save (downloader : bool) : allowance := mkAllow false false downloader false.

Definition serve_event (e : served) : proc () :=
  match e with
  | Ticked => keepalive_tick
  | CommandReceived now c =>
      p ← get;
      let (effects, s) := run_command now c (p_commands p) in
      modify (set_commands s);;
      perform_all effects
  | DownloaderAsked q =>
      p ← get;
      if downloader (p_commands p) then lift (dl_ask q) else mret ()
  | DownloaderEnded =>
      modify (λ p, set_commands (mkCommands (last_overload (p_commands p)) false) p)
  | ScanEnded =>
      p ← get;
      match p_scan p with
      | Some (ranges, verify) =>
          let '(r, d, cm) := scan_cache (h_scan h) (h_now h) (h_tree h) ranges verify (p_disk p) (p_cm p) in
          modify (λ p, set_scan None (set_cache d cm p));;
          match r with inl () => mret () | inr _ => emit ShutdownRequested end
      | None => mret ()
      end
  | CacheServed f => modify (λ p, let (d, cm) := f (p_disk p, p_cm p) in set_cache d cm p)
  | MissFetched file_index xres file_id => lift (sr_fetch (h_chrono h) (h_ev h) file_index xres file_id);; mret ()
  end.

Definition serve_one (al : allowance) (e : served) : proc () := if permitted al e then serve_event e else mret ().

Definition serve (al : allowance) (l : list served) : proc () :=
  foldr (λ (e : served) (m : proc ()), serve_one al e;; m) (mret ()) l.

(** The phases of [main] in which the other tasks are followed: after the answers to the
    announcement, to the request for settings and to that for the purge list; between
    the start of the tasks and the signal; after the keep-alive task was aborted; after
    the session was stopped; during the wait; while the server stops; before and after the
    accounts are saved. *)
Inductive phase :=
| Announced | Refreshed | Purged | Serving | Aborted | Stopped | Waiting | Draining | Closing | Saved.

(** ** The end *)

Definition stop (events : phase → list served) : proc () :=
  emit KeepaliveAborted;;
  serve (no_keepalive true) (events Aborted);;
  lift (Rpc.shutdown (h_chrono h) (h_ev h));;
  serve (no_keepalive true) (events Stopped);;
  p ← get;
  let dl := negb (downloader (p_commands p)) in
  (if dl then mret () else emit DownloaderAborted);;
  serve (no_keepalive dl) (events Waiting);;
  emit (Slept 15);;
  serve (no_keepalive dl) (events Draining);;
  emit ServerStopped;;
  serve (no_keepalive dl) (events Closing);;
  modify (λ p, set_cache (p_disk p) (save_state (h_io h) (p_cm p)) p);;
  emit StateSaved;;
  serve (after_save dl) (events Saved);;
  emit LoggerStopped.

(** [main] once the client exists: [events] is what the other tasks do in each phase. *)
Definition run (events : phase → list served) : proc () :=
  init ← log_in;
  modify (λ p, set_logger (write_info_to (negb (s_disable_logging (settings (p_client p)))) (p_logger p)) p);;
  start_cache init;;
  start_server init;;
  announce;;
  serve before_tasks (events Announced);;
  refresh;;
  serve before_tasks (events Refreshed);;
  purge 259200;;
  serve before_tasks (events Purged);;
  emit TasksStarted;;
  serve all_tasks (events Serving);;
  stop events.

(** The process when the client has been created. *)
Definition process_new (client : RPCClient) (trace : list action) (d : disk) (old : option (gmap string CacheState)) : process :=
  mkProcess client [] trace d (mkManager (a_cache_dir args) ∅ u64_max (mkGauges 0 0 0 0) old)
    (mkConfig (negb (a_disable_logging args)) (a_flush_log args) (a_quiet args)) None None
    (mkCommands (if 30 * sec <=? h_tasks h then h_tasks h - 30 * sec else h_tasks h) false) 0.

(** [main]: the outcome, what happened before the client existed, and the
    process from then on. *)
Definition main (d : disk) (old : option (gmap string CacheState)) (events : phase → list served)
    : outcome exit () * list action * option process :=
  if negb (h_dirs h) then (Fail IoFailure, [], None)
  else
    match credentials h with
    | (Ret (id, key), t) =>
        match RPCClient_new id key (a_disable_ip_origin_check args) (a_max_connection args) (a_rpc_server_ip args) with
        | None => (Panic, t, None)
        | Some client =>
            let (r, p) := run events (process_new client t d old) in (r, p_trace p, Some p)
        end
    | (Fail e, t) => (Fail e, t, None)
    | (Panic, t) => (Panic, t, None)
    end.

End main.
End startup.

(** ** What a call of the client asks *)

(** The action a request names. *)
Definition url_action (u : Url) : option string :=
  snd <$> head (filter (λ kv, kv.1 = "act") (u_query u)).

(** Requests for [act]: the first one, and after it repetitions and requests of
    the server's clock. *)
Definition asks (act : string) (t : list Url) : Prop :=
  ∃ u r, t = u :: r ∧ url_action u = Some act ∧
    Forall (λ v, url_action v = Some act ∨ url_action v = Some "server_stat") r.

Definition base_ok (c : RPCClient) : Prop := u_query (api_base c) = [("clientbuild", show API_VERSION)].

Section calls.
Context `{HexCodec, Digest, UrlHost}.
Variable chrono_ok : Z → bool.
Variable ev : nat → Rpc.event.

Lemma build_url_action now act add ep c :
  base_ok c → url_action (build_url chrono_ok now act add ep c) = Some act.
Proof. intros E. unfold url_action, build_url. cbn [u_query]. by rewrite E. Qed.

Lemma change_server_base pick c log r c' log' :
  change_server pick c log = Some (r, c', log') → log' = log ∧ (base_ok c → base_ok c').
Proof.
  unfold change_server, mbind, rpc_bind, get_client. intros E.
  destruct (_ <=? 1)%nat; [by injection E as _ <- <-|].
  destruct (url_host _); [|done]. by injection E as _ <- <-.
Qed.

Lemma check_stat_base c log r c' log' :
  base_ok c → check_stat chrono_ok ev c log = Some (r, c', log') →
  ∃ u, log' = log ++ [u] ∧ url_action u = Some "server_stat" ∧ same_identity c c' ∧ base_ok c'.
Proof.
  intros Hb E. destruct (check_stat_total chrono_ok ev c log) as (r1 & c1 & E1 & Hs & Ha).
  rewrite E1 in E. injection E as _ <- <-. eexists. split_and!; [done|by apply build_url_action|done|].
  unfold base_ok. by rewrite Ha.
Qed.

Lemma send_loop_asks n act add err c log r c' log' :
  base_ok c → send_loop chrono_ok ev n act add err c log = Some (r, c', log') →
  same_identity c c' ∧ base_ok c' ∧
  ∃ sent, log' = log ++ sent ∧ (n = 0%nat ∧ sent = [] ∨ asks act sent).
Proof.
  revert err c log. induction n as [|n IH]; intros err c log Hb E.
  { injection E as _ <- <-. split_and!; try done. exists []. rewrite app_nil_r. auto. }
  cbn [send_loop] in E. unfold request at 1, mbind, rpc_bind in E. cbv zeta in E.
  set (e := ev (length log)) in E. set (u := build_url chrono_ok (ev_now e) act add None c) in E.
  assert (url_action u = Some act) as Hu by by apply build_url_action.
  (* a further round after [c1], [log1] *)
  assert (∀ err c1 log1, same_identity c c1 → base_ok c1 →
    (∃ s, log1 = log ++ u :: s ∧ Forall (λ v, url_action v = Some "server_stat") s) →
    send_loop chrono_ok ev n act add err c1 log1 = Some (r, c', log') →
    same_identity c c' ∧ base_ok c' ∧ ∃ sent, log' = log ++ sent ∧ (S n = 0%nat ∧ sent = [] ∨ asks act sent)) as Hnext.
  { intros err1 c1 log1 Hs Hb1 (s & -> & Hf) E1.
    destruct (IH _ _ _ Hb1 E1) as (Hs2 & Hb2 & sent & -> & Hsent).
    split_and!; [by eapply same_identity_trans|done|]. exists (u :: s ++ sent).
    rewrite <- (assoc_L (++)). split; [done|right]. exists u, (s ++ sent). split_and!; [done|done|].
    apply Forall_app. split; [eapply Forall_impl; [|exact Hf]; by right|].
    destruct Hsent as [[_ ->]|(v & t & -> & Hv & Ht)]; [done|]. constructor; [by left|done]. }
  destruct (ev_answer e) as [body|err'].
  - cbn [get_client] in E. destruct (is_key_expired _).
    { destruct (check_stat chrono_ok ev c (log ++ [u])) as [[[r1 c1] log1]|] eqn:E1; [|done].
      apply check_stat_base in E1 as (v & -> & Hv & Hs & Hb1); [|done].
      eapply Hnext; [..|exact E]; [done|done|]. exists [v]. rewrite <- (assoc_L (++)). split; [done|]. by repeat constructor. }
    destruct (is_hash_fail _).
    { destruct (change_server (ev_pick e) c (log ++ [u])) as [[[r1 c1] log1]|] eqn:E1; [|done].
      pose proof (change_server_identity _ _ _ _ _ _ E1). apply change_server_base in E1 as [-> Hb1].
      eapply Hnext; [..|exact E]; [done|auto|]. by exists []. }
    injection E as _ <- <-. split_and!; [done|done|]. exists [u]. split; [done|right]. by exists u, [].
  - destruct (should_change err').
    + destruct (change_server (ev_pick e) c (log ++ [u])) as [[[r1 c1] log1]|] eqn:E1; [|done].
      pose proof (change_server_identity _ _ _ _ _ _ E1). apply change_server_base in E1 as [-> Hb1].
      eapply Hnext; [..|exact E]; [done|auto|]. by exists [].
    + eapply Hnext; [..|exact E]; [done|done|]. by exists [].
Qed.

Lemma send_action_asks act add c log r c' log' :
  base_ok c → send_action chrono_ok ev act add c log = Some (r, c', log') →
  same_identity c c' ∧ base_ok c' ∧ ∃ sent, log' = log ++ sent ∧ asks act sent.
Proof.
  intros Hb E. destruct (send_loop_asks _ _ _ _ _ _ _ _ _ Hb E) as (? & ? & sent & ? & [[? _]|?]); [done|]. eauto 6.
Qed.

Lemma update_settings_base pick m c log r c' log' :
  Rpc.update_settings pick m c log = Some (r, c', log') →
  log' = log ∧ (base_ok c → base_ok c') ∧ running c' = running c ∧ key c' = key c.
Proof.
  unfold Rpc.update_settings, mbind, rpc_bind. cbn [get_client put_client]. intros E.
  destruct (m !! "rpc_server_ip") as [ips|].
  - destruct (change_server pick _ log) as [[[[] c1] log1]|] eqn:Ec; [|done].
    pose proof (change_server_identity _ _ _ _ _ _ Ec) as (K & _ & _ & _ & Er).
    apply change_server_base in Ec as [-> Hb]. cbn in E, Er, K. injection E as _ <- <-. cbn. auto.
  - injection E as _ <- <-. auto.
Qed.

End calls.

(** ** What the tasks do *)

#[export] Instance phase_eq_dec : EqDecision phase.
Proof. solve_decision. Defined.

(** What tasks ask for. *)
Definition task_actions (al : allowance) : list string :=
  ["srfetch"] ++ (if al_ticks al then ["still_alive"; "get_blacklist"] else []) ++
  (if al_commands al then ["get_cert"; "client_settings"; "overload"] else []) ++
  (if al_downloader al then ["fetchqueue"; "dlfetch"; "dlfails"] else []).

(** A request of a task; every call may ask for the server's clock. *)
Definition task_request (al : allowance) (u : Url) : Prop :=
  ∃ act, url_action u = Some act ∧ act ∈ "server_stat" :: task_actions al.

(** What the other tasks add to the trace. *)
Definition serving (al : allowance) (a : action) : Prop :=
  match a with
  | Sent u => task_request al u
  | DownloaderSpawned | ReloadScheduled => al_commands al = true
  | ShutdownRequested => al_ticks al = true ∨ al_cache al = true
  | _ => False
  end.

Section facts.
Context `{HexCodec, Digest, UrlHost, CertLib}.
Implicit Types p : process.

(** All of the server but its certificate. *)
Definition server_conf (s : server) : Z * IpAddr * bool * bool * bool * bool * bool * option Z * bool :=
  (sv_port s, sv_host s, Cert.strict (sv_cert s), sv_flood_control s, sv_metrics s, sv_server_header s, sv_h3 s,
   sv_alt_svc s, sv_has_proxy s).

Section allowed.
Variable al : allowance.

(** A step of a task: the session goes on and the server is the same. *)
Definition serving_step p p' : Prop :=
  base_ok (p_client p) →
  base_ok (p_client p') ∧ running (p_client p') = running (p_client p) ∧
  server_conf <$> p_server p' = server_conf <$> p_server p ∧
  ∃ t, p_trace p' = p_trace p ++ t ∧ Forall (serving al) t.

(** A step that a task may make: it does not end the program with an error. *)
Definition keeps {A} (m : proc A) : Prop := ∀ p, (∀ e, (m p).1 ≠ Fail e) ∧ serving_step p (m p).2.

#[local] Instance serving_step_refl : Reflexive serving_step.
Proof. intros p Hb. split_and!; try done. exists []. by rewrite app_nil_r. Qed.

#[local] Instance serving_step_trans : Transitive serving_step.
Proof.
  intros p1 p2 p3 H12 H23 Hb. destruct (H12 Hb) as (Hb2 & R2 & C2 & t2 & T2 & F2).
  destruct (H23 Hb2) as (Hb3 & R3 & C3 & t3 & T3 & F3).
  split_and!; [done|congruence|congruence|]. exists (t2 ++ t3).
  rewrite T3, T2, (assoc_L (++)). split; [done|]. by apply Forall_app.
Qed.

Lemma serving_step_same p p' :
  p_client p' = p_client p → p_trace p' = p_trace p →
  server_conf <$> p_server p' = server_conf <$> p_server p → serving_step p p'.
Proof. intros C T S Hb. rewrite C, T, S. split_and!; try done. exists []. by rewrite app_nil_r. Qed.

Lemma keeps_ret {A} (a : A) : keeps (mret a).
Proof. by intros p. Qed.
Lemma keeps_get : keeps get.
Proof. by intros p. Qed.
Lemma keeps_bind {A B} (m : proc A) (f : A → proc B) : keeps m → (∀ a, keeps (f a)) → keeps (m ≫= f).
Proof.
  intros Hm Hf p. destruct (Hm p) as [Hn Hs]. unfold mbind, proc_bind.
  destruct (m p) as [[a|e|] p1]; cbn in Hn, Hs |- *; [|by edestruct Hn|done].
  destruct (Hf a p1) as [Hn1 Hs1]. split; [exact Hn1|]. by trans p1.
Qed.
Lemma keeps_emit a : serving al a → keeps (emit a).
Proof. intros Ha p. split; [done|]. intros Hb. split_and!; try done. exists [a]. by repeat constructor. Qed.
Lemma keeps_modify f :
  (∀ p, p_client (f p) = p_client p ∧ p_trace (f p) = p_trace p ∧ p_server (f p) = p_server p) → keeps (modify f).
Proof.
  intros Hf p. split; [done|]. destruct (Hf p) as (C & T & S). apply serving_step_same; [done|done|]. cbn. by rewrite S.
Qed.

(** A call of the client that only asks what tasks ask. *)
Definition asks_serving {A} (m : rpc A) : Prop := ∀ c log a c' log',
  base_ok c → m c log = Some (a, c', log') →
  base_ok c' ∧ running c' = running c ∧ ∃ sent, log' = log ++ sent ∧ Forall (task_request al) sent.

Lemma lift_ret {A} (m : rpc A) p a c log :
  m (p_client p) (p_log p) = Some (a, c, p_log p ++ log) →
  lift m p = (Ret a, set_rpc c (p_log p ++ log) (p_trace p ++ (Sent <$> log)) p).
Proof. intros E. unfold lift. by rewrite E, drop_app_length. Qed.

Lemma keeps_lift {A} (m : rpc A) : asks_serving m → keeps (lift m).
Proof.
  intros Hm p. destruct (m (p_client p) (p_log p)) as [[[a c] log]|] eqn:E.
  - split; [unfold lift; by rewrite E|]. intros Hb. destruct (Hm _ _ _ _ _ Hb E) as (Hb' & Hr & sent & -> & Hs). rewrite (lift_ret m p _ _ _ E).
    split_and!; try done. exists (Sent <$> sent). split; [done|]. by apply Forall_fmap.
  - unfold lift. by rewrite E.
Qed.

Lemma asks_task act sent : asks act sent → act ∈ task_actions al → Forall (task_request al) sent.
Proof.
  intros (u & r & -> & Hu & Hr) Hn. constructor; [exists act; split; [done|by right]|].
  eapply Forall_impl; [|exact Hr]. intros v [Hv|Hv]; eexists; (split; [exact Hv|]); [by right|by left].
Qed.

End allowed.

Section tasks.
Variable h : system.
Variable args : Args.

Section allowed_tasks.
Variable al : allowance.

Lemma send_action_serving act add :
  act ∈ task_actions al → asks_serving al (send_action (h_chrono h) (h_ev h) act add).
Proof.
  intros Hn c log a c' log' Hb E.
  destruct (send_action_asks _ _ _ _ _ _ _ _ _ Hb E) as ((_ & _ & _ & _ & R) & Hb' & sent & -> & Hs).
  split_and!; [done|done|]. exists sent. split; [done|]. by eapply asks_task.
Qed.

(** After an action nothing is asked. *)
Lemma send_action_then {A} act add (f : ApiResponse + RequestError → rpc A) :
  act ∈ task_actions al →
  (∀ r c log a c' log', f r c log = Some (a, c', log') →
     log' = log ∧ (base_ok c → base_ok c') ∧ running c' = running c) →
  asks_serving al (send_action (h_chrono h) (h_ev h) act add ≫= f).
Proof.
  intros Hn Hf c log a c' log' Hb E. unfold mbind, rpc_bind in E.
  destruct (send_action _ _ act add c log) as [[[r c1] log1]|] eqn:E1; [|done].
  destruct (send_action_serving _ _ Hn _ _ _ _ _ Hb E1) as (Hb1 & R1 & sent & -> & Hs).
  destruct (Hf _ _ _ _ _ _ E) as (-> & Hb2 & ->). split_and!; [auto|done|]. eauto.
Qed.

Lemma send_action_fmap {A} act add (f : ApiResponse + RequestError → A) :
  act ∈ task_actions al → asks_serving al (f <$> send_action (h_chrono h) (h_ev h) act add).
Proof.
  intros Hn c log a c' log' Hb E. unfold fmap, rpc_fmap in E.
  destruct (send_action _ _ act add c log) as [[[r c1] log1]|] eqn:E1; [|done]. injection E as _ <- <-.
  by eapply send_action_serving.
Qed.

(** A call whose answer is dropped. *)
Lemma asks_unit {A} (m : rpc A) : asks_serving al m → asks_serving al (m;; mret ()).
Proof.
  intros Hm c log a c' log' Hb E. unfold mbind, rpc_bind in E.
  destruct (m c log) as [[[r c1] log1]|] eqn:E1; [|done]. injection E as _ <- <-. by eapply Hm.
Qed.

Lemma refresh_settings_serving pick :
  al_commands al = true → asks_serving al (refresh_settings (h_chrono h) (h_ev h) pick).
Proof.
  intros Hal. apply send_action_then; [unfold task_actions; rewrite Hal; set_solver|].
  intros [res|] c log a c' log' E; [|by injection E as _ <- <-].
  destruct (is_ok res); [|by injection E as _ <- <-].
  apply update_settings_base in E as (-> & ? & ? & _). auto.
Qed.

Lemma get_cert_spec c log :
  ∃ r, get_cert (h_chrono h) (h_ev h) c log =
    Some (r, c, log ++ [build_url (h_chrono h) (ev_now (h_ev h (length log))) "get_cert" "" None c]).
Proof. eexists. reflexivity. Qed.

Lemma get_cert_serving : al_commands al = true → asks_serving al (get_cert (h_chrono h) (h_ev h)).
Proof.
  intros Hal c log a c' log' Hb E. destruct (get_cert_spec c log) as [r Er]. rewrite Er in E.
  injection E as _ <- <-. split_and!; [done|done|]. eexists. split; [reflexivity|]. constructor; [|constructor].
  eexists. split; [by apply build_url_action|]. unfold task_actions. rewrite Hal. set_solver.
Qed.

Lemma dl_ask_serving q : al_downloader al = true → asks_serving al (dl_ask h q).
Proof.
  intros Hal. destruct q as [gallery|gid page fileindex xres retry|choose failures]; cbn [dl_ask].
  - intros c log a c' log' Hb E. injection E as _ <- <-. split_and!; [done|done|]. eexists. split; [reflexivity|].
    constructor; [|constructor]. eexists. split; [by apply build_url_action|]. unfold task_actions. rewrite Hal. set_solver.
  - apply asks_unit, send_action_fmap. unfold task_actions. rewrite Hal. set_solver.
  - unfold dl_fails. case_bool_decide.
    + intros c log a c' log' Hb E. injection E as _ <- <-. split_and!; [done|done|]. exists []. by rewrite app_nil_r.
    + apply asks_unit, send_action_serving. unfold task_actions. rewrite Hal. set_solver.
Qed.

Lemma refresh_keeps : al_commands al = true → keeps al (refresh h).
Proof. intros. apply keeps_bind; [apply keeps_get|]. intros p. by apply keeps_lift, refresh_settings_serving. Qed.

Lemma purge_keeps t : al_ticks al = true → keeps al (purge h t).
Proof.
  intros Hal. apply keeps_bind.
  - apply keeps_lift, send_action_fmap. unfold task_actions. rewrite Hal. set_solver.
  - intros [ids|]; [|apply keeps_ret].
    apply keeps_bind; [apply keeps_get|]. intros p. destruct (purge_files _ _ _ _). by apply keeps_modify.
Qed.

Lemma perform_keeps e : al_commands al = true → keeps al (perform h args e).
Proof.
  intros Hal. destruct e; cbn [perform].
  - apply keeps_bind; [by apply keeps_lift, get_cert_serving|]. intros fetched p.
    unfold mbind, proc_bind, get. destruct (p_server p) as [s|] eqn:Es; [|split; [done|apply serving_step_refl]].
    destruct (reload_cert fetched (sv_cert s)) as [retry store] eqn:Er.
    assert (Cert.strict store = Cert.strict (sv_cert s)) as Hst.
    { unfold reload_cert in Er. destruct fetched as [c|]; [|by injection Er as _ <-].
      unfold update in Er. destruct (from_der _ _); by injection Er as _ <-. }
    destruct retry; cbn; (split; [done|]).
    + eapply serving_step_trans; [|apply (proj2 (keeps_emit al ReloadScheduled Hal _))]. apply serving_step_same; [done|done|].
      cbn. rewrite Es. cbn. unfold server_conf. cbn. by rewrite Hst.
    + apply serving_step_same; [done|done|]. cbn. rewrite Es. cbn. unfold server_conf. cbn. by rewrite Hst.
  - apply keeps_bind; [by apply refresh_keeps|]. intros _. apply keeps_bind; [by apply keeps_modify|]. intros _.
    destruct (a_disable_logging args); [apply keeps_ret|by apply keeps_modify].
  - by apply keeps_emit.
  - apply keeps_lift. apply asks_unit, send_action_serving. unfold task_actions. rewrite Hal. set_solver.
Qed.

Lemma perform_all_keeps l : al_commands al = true → keeps al (perform_all h args l).
Proof.
  intros Hal. induction l as [|e l IH]; [apply keeps_ret|]. apply keeps_bind; [by apply perform_keeps|]. by intros _.
Qed.

Lemma schedule_keeps s : al_ticks al = true → keeps al (schedule h s).
Proof.
  intros Hal. destruct s; [|by apply purge_keeps]. apply keeps_bind.
  - apply keeps_lift, send_action_then; [unfold task_actions; rewrite Hal; set_solver|].
    intros r c log a c' log' E. by injection E as _ <- <-.
  - intros [|]; [apply keeps_ret|apply keeps_emit; by left].
Qed.

Lemma keepalive_keeps : al_ticks al = true → keeps al (keepalive_tick h).
Proof.
  intros Hal. apply keeps_bind; [apply keeps_get|]. intros p. destruct (negb _); [apply keeps_ret|].
  destruct (tick _) as [l counter]. apply keeps_bind; [|intros _; by apply keeps_modify].
  induction l as [|s l IH]; [apply keeps_ret|]. apply keeps_bind; [by apply schedule_keeps|]. by intros _.
Qed.

Lemma serve_one_keeps e : keeps al (serve_one h args al e).
Proof.
  unfold serve_one. destruct (permitted al e) eqn:Hp; [|apply keeps_ret].
  destruct e as [|now c|q| | |f|file_index xres file_id]; cbn [serve_event permitted] in *.
  - by apply keepalive_keeps.
  - apply keeps_bind; [apply keeps_get|]. intros p. destruct (run_command now c (p_commands p)) as [effects s].
    apply keeps_bind; [by apply keeps_modify|]. intros _. by apply perform_all_keeps.
  - apply keeps_bind; [apply keeps_get|]. intros p. destruct (downloader _); [|apply keeps_ret].
    by apply keeps_lift, dl_ask_serving.
  - by apply keeps_modify.
  - apply keeps_bind; [apply keeps_get|]. intros p. destruct (p_scan p) as [[ranges v]|]; [|apply keeps_ret].
    destruct (scan_cache _ _ _ _ _ _ _) as [[r d] cm]. apply keeps_bind; [by apply keeps_modify|]. intros _.
    destruct r as [[]|]; [apply keeps_ret|apply keeps_emit; by right].
  - apply keeps_modify. intros p. by destruct (f _).
  - apply keeps_bind; [|intros _; apply keeps_ret]. apply keeps_lift, send_action_fmap. unfold task_actions. set_solver.
Qed.

Lemma serve_keeps l : keeps al (serve h args al l).
Proof.
  induction l as [|e l IH]; [apply keeps_ret|]. apply keeps_bind; [apply serve_one_keeps|]. by intros _.
Qed.

(** What a segment of task events leaves, in the form in which runs use it. *)
Lemma serve_spec l p p' :
  base_ok (p_client p) → serve h args al l p = (Ret (), p') →
  base_ok (p_client p') ∧ running (p_client p') = running (p_client p) ∧
  server_conf <$> p_server p' = server_conf <$> p_server p ∧
  ∃ t, p_trace p' = p_trace p ++ t ∧ Forall (serving al) t.
Proof. intros Hb E. destruct (serve_keeps l p) as [_ Hs]. rewrite E in Hs. by apply Hs. Qed.

(** Without commands, ticks and changes of the cache the accounts stay. *)
Lemma serve_cache l p p' :
  al_ticks al = false → al_commands al = false → al_cache al = false →
  serve h args al l p = (Ret (), p') → p_cm p' = p_cm p.
Proof.
  intros Ht Hc Hca. assert (∀ A (m : rpc A) p a p', lift m p = (Ret a, p') → p_cm p' = p_cm p) as Hl.
  { intros A m q a q' E. unfold lift in E. destruct (m _ _) as [[[? ?] ?]|]; by injection E as _ <-. }
  revert p. induction l as [|e l IH]; intros p E; [by injection E as <-|].
  change (serve h args al (e :: l)) with (serve_one h args al e;; serve h args al l) in E.
  unfold mbind, proc_bind in E. destruct (serve_one h args al e p) as [[[]| |] p1] eqn:E1; [|done..].
  rewrite (IH p1 E). clear IH E. unfold serve_one in E1. destruct (permitted al e) eqn:Hp; [|by injection E1 as <-].
  destruct e as [|now c|q| | |f|file_index xres file_id]; cbn [permitted] in Hp; try congruence; cbn [serve_event] in E1.
  - unfold mbind, proc_bind, get in E1. destruct (downloader _); [by eapply Hl|by injection E1 as <-].
  - by injection E1 as <-.
  - unfold mbind, proc_bind in E1. destruct (lift _ p) as [[a| |] p2] eqn:E2; [|done..]. injection E1 as <-. by eapply Hl.
Qed.

End allowed_tasks.

(** ** The steps of a run *)

Lemma bind_ret_inv {A B} (m : proc A) (f : A → proc B) p b p' :
  (m ≫= f) p = (Ret b, p') → ∃ a p1, m p = (Ret a, p1) ∧ f a p1 = (Ret b, p').
Proof. unfold mbind, proc_bind. destruct (m p) as [[a|e|] p1]; [eauto|done..]. Qed.

Lemma bind_fail_inv {A B} (m : proc A) (f : A → proc B) p e p' :
  (m ≫= f) p = (Fail e, p') → m p = (Fail e, p') ∨ ∃ a p1, m p = (Ret a, p1) ∧ f a p1 = (Fail e, p').
Proof. unfold mbind, proc_bind. destruct (m p) as [[a|e'|] p1]; [eauto|intros [= -> ->]; auto|done]. Qed.

Lemma lift_inv {A} (m : rpc A) p o p' :
  lift m p = (o, p') → (o = Panic ∧ p' = p) ∨ ∃ a c log, o = Ret a ∧ m (p_client p) (p_log p) = Some (a, c, log) ∧
    p' = set_rpc c log (p_trace p ++ (Sent <$> drop (length (p_log p)) log)) p.
Proof. unfold lift. destruct (m _ _) as [[[a c] log]|]; intros [= <- <-]; eauto 8. Qed.

Definition login_request (u : Url) : Prop :=
  url_action u = Some "client_login" ∨ url_action u = Some "server_stat".

Lemma login_asks pick c log r c' log' :
  base_ok c → login (h_chrono h) (h_ev h) pick c log = Some (r, c', log') →
  base_ok c' ∧ running c' = running c ∧ ∃ sent, log' = log ++ sent ∧ Forall login_request sent ∧
  ∀ init, r = inl init → ∃ u t, sent = u :: t ∧ url_action u = Some "server_stat" ∧ asks "client_login" t.
Proof.
  intros Hb E. unfold login, mbind, rpc_bind in E.
  destruct (check_stat _ _ c log) as [[[st c1] log1]|] eqn:E1; [|done].
  apply check_stat_base in E1 as (u & -> & Hu & (_ & _ & _ & _ & R1) & Hb1); [|done].
  assert (∀ e, r = inr e → c' = c1 → log' = log ++ [u] → base_ok c' ∧ running c' = running c ∧
    ∃ sent, log' = log ++ sent ∧ Forall login_request sent ∧
    ∀ init, r = inl init → ∃ u t, sent = u :: t ∧ url_action u = Some "server_stat" ∧ asks "client_login" t) as Hstat.
  { intros e -> -> ->. split_and!; [done|done|]. exists [u]. split_and!; [done| |done]. constructor; [by right|constructor]. }
  destruct st as [versions|e]; [|injection E as <- <- <-; by eapply Hstat].
  destruct (match versions with Some _ => _ | None => _ end); [injection E as <- <- <-; by eapply Hstat|].
  destruct (send_action _ _ _ _ c1 _) as [[[res c2] log2]|] eqn:E2; [|done].
  apply send_action_asks in E2 as ((_ & _ & _ & _ & R2) & Hb2 & sent & -> & Hs); [|done].
  assert (running c' = running c2 → base_ok c' → log' = (log ++ [u]) ++ sent →
    base_ok c' ∧ running c' = running c ∧ ∃ sent, log' = log ++ sent ∧ Forall login_request sent ∧
    ∀ init, r = inl init → ∃ u t, sent = u :: t ∧ url_action u = Some "server_stat" ∧ asks "client_login" t) as Hend.
  { intros R Hb' ->. split_and!; [done|congruence|]. exists (u :: sent). rewrite <- (assoc_L (++)).
    split_and!; [done| |eauto]. constructor; [by right|]. destruct Hs as (v & t & -> & Hv & Ht).
    constructor; [by left|exact Ht]. }
  destruct res as [res|]; [|injection E as <- <- <-; by apply Hend].
  destruct (is_ok res); [|injection E as <- <- <-; by apply Hend].
  destruct (init_settings _) as [init|]; [|injection E as <- <- <-; by apply Hend].
  destruct (Rpc.update_settings _ _ c2 _) as [[[[] c3] log3]|] eqn:E3; [|done].
  apply update_settings_base in E3 as (-> & Hb3 & R3 & _). injection E as <- <- <-. apply Hend; auto.
Qed.

Lemma log_in_spec p o p' :
  base_ok (p_client p) → log_in h p = (o, p') → o ≠ Panic →
  base_ok (p_client p') ∧ running (p_client p') = running (p_client p) ∧ p_server p' = p_server p ∧
  match o with
  | Ret init => ∃ u sent c,
      login (h_chrono h) (h_ev h) (h_pick h (length (p_log p))) (p_client p) (p_log p) = Some (inl init, c, p_log p ++ u :: sent) ∧
      p_trace p' = p_trace p ++ (Sent <$> u :: sent) ∧
      url_action u = Some "server_stat" ∧ asks "client_login" sent
  | Fail e => ∃ err sent, e = Failed err ∧ p_trace p' = p_trace p ++ (Sent <$> sent) ++ [Slept (login_pause err)] ∧
      Forall login_request sent
  | Panic => False
  end.
Proof.
  intros Hb E Ho. unfold log_in in E. unfold mbind at 1, proc_bind at 1, get in E. unfold mbind, proc_bind in E.
  destruct (lift _ p) as [o1 p1] eqn:E1. apply lift_inv in E1 as [[-> ->]|(r & c & log & -> & Er & ->)]; [by injection E as <- <-|].
  destruct (login_asks _ _ _ _ _ _ Hb Er) as (Hb1 & R1 & sent & -> & Hf & Hok). rewrite drop_app_length in E.
  destruct r as [init|err]; injection E as <- <-; split_and!; try done.
  - destruct (Hok init eq_refl) as (u & t & -> & ? & ?). by exists u, t, c.
  - exists err, sent. split_and!; [done| |done]. cbn. by rewrite (assoc_L (++)).
Qed.

Lemma start_cache_spec init p o p' :
  start_cache h args init p = (o, p') →
  p_client p' = p_client p ∧ p_trace p' = p_trace p ∧ p_server p' = p_server p ∧
  match o with Ret _ => True | Fail e => e = IoFailure ∨ ∃ x, e = ScanFailed x | Panic => False end.
Proof.
  unfold start_cache, mbind at 1, proc_bind at 1, get. intros E.
  destruct (h_io_pool h); cbn [negb] in E; [|injection E as <- <-; auto].
  destruct (new_manager _ _ _ _ _ _ _ _ _ _ _ _) as [[[] d] cm]; unfold mbind, proc_bind, modify in E.
  - destruct (scan_cache _ _ _ _ _ _ _) as [[r d1] cm1]. destruct r as [[]|x]; injection E as <- <-; eauto 8.
  - by injection E as <- <-.
Qed.

(** The server [main] starts for its options, certificate apart. *)
Definition conf_of (init : InitSettings) : Z * IpAddr * bool * bool * bool * bool * bool * option Z * bool :=
  let port := default (client_port init) (a_port args) in
  (port, default (V4 0) (a_host args), a_sni_strict args,
   negb (a_disable_flood_control args || a_disable_ip_origin_check args), a_enable_metrics args,
   negb (a_disable_server_header args), a_enable_h3 args && h_udp h,
   (if a_enable_h3 args && h_udp h then Some port else None), default false (h_proxy h <$> a_proxy args)).

Lemma start_server_spec init p o p' :
  base_ok (p_client p) → start_server h args init p = (o, p') → o ≠ Panic →
  p_client p' = p_client p ∧ ∃ u, url_action u = Some "get_cert" ∧
  match o with
  | Ret _ => p_trace p' = p_trace p ++ [Sent u; ServerStarted] ∧ server_conf <$> p_server p' = Some (conf_of init)
  | Fail e => e = Failed ServerStartFail ∧ h_tcp h = false ∧ p_trace p' = p_trace p ++ [Sent u; Slept 5]
  | Panic => False
  end.
Proof.
  intros Hb E Ho. unfold start_server, mbind at 1, proc_bind at 1 in E.
  destruct (get_cert_spec (p_client p) (p_log p)) as [r Er].
  rewrite (lift_ret _ p _ _ _ Er) in E. destruct r as [cert|]; [|by injection E as <- <-].
  set (u := build_url _ _ _ _ _ _) in *. assert (url_action u = Some "get_cert") by by apply build_url_action.
  unfold mbind at 1, proc_bind at 1, Server_new in E.
  destruct (CertStore_new _ _) as [store| |] eqn:Ec; [|by injection E as <- <-..].
  assert (Cert.strict store = a_sni_strict args) as Hst.
  { unfold CertStore_new in Ec. destruct (from_der _ _); [|done]. by injection Ec as <-. }
  destruct (h_tcp h); cbn [negb] in E.
  - injection E as <- <-. split; [done|]. exists u. split_and!; [done| |].
    + cbn. by rewrite <- (assoc_L (++)).
    + cbn. unfold server_conf, conf_of. cbn. by rewrite Hst.
  - injection E as <- <-. split; [done|]. exists u. split_and!; try done. cbn. by rewrite <- (assoc_L (++)).
Qed.

Lemma announce_spec p o p' :
  base_ok (p_client p) → announce h p = (o, p') → o ≠ Panic →
  base_ok (p_client p') ∧ p_server p' = p_server p ∧ ∃ sent, asks "client_start" sent ∧
  match o with
  | Ret _ => p_trace p' = p_trace p ++ (Sent <$> sent) ∧ running (p_client p') = true
  | Fail e => e = Failed ConnectTestFail ∧ p_trace p' = p_trace p ++ (Sent <$> sent) ++ [Slept 5] ∧
      running (p_client p') = running (p_client p)
  | Panic => False
  end.
Proof.
  intros Hb E Ho. unfold announce, mbind at 1, proc_bind at 1 in E.
  destruct (lift _ p) as [o1 p1] eqn:E1. apply lift_inv in E1 as [[-> ->]|(r & c & log & -> & Er & ->)]; [by injection E as <- <-|].
  unfold connect_check, mbind, rpc_bind in Er.
  destruct (send_action _ _ _ _ _ _) as [[[res c1] log1]|] eqn:Es; [|done].
  apply send_action_asks in Es as ((_ & _ & _ & _ & R) & Hb1 & sent & -> & Hs); [|done].
  destruct (ok_data res) as [data|]; cbn in Er; injection Er as <- <- <-; rewrite drop_app_length in E;
    injection E as <- <-; split_and!; try done; exists sent; split_and!; try done.
  cbn. by rewrite <- (assoc_L (++)).
Qed.

Lemma refresh_spec p p' :
  base_ok (p_client p) → refresh h p = (Ret (), p') →
  ∃ sent, asks "client_settings" sent ∧ p_trace p' = p_trace p ++ (Sent <$> sent).
Proof.
  intros Hb E. unfold refresh, mbind at 1, proc_bind at 1, get in E.
  apply lift_inv in E as [[? _]|(r & c & log & _ & Er & ->)]; [done|].
  unfold refresh_settings, mbind, rpc_bind in Er.
  destruct (send_action _ _ _ _ _ _) as [[[res c1] log1]|] eqn:Es; [|done].
  apply send_action_asks in Es as (_ & Hb1 & sent & -> & Hs); [|done].
  exists sent. split; [done|]. cbn.
  assert (log = p_log p ++ sent) as ->; [|by rewrite drop_app_length].
  destruct res as [res|]; [|by injection Er]. destruct (is_ok res); [|by injection Er].
  by apply update_settings_base in Er as [-> _].
Qed.

Lemma purge_spec t p p' :
  base_ok (p_client p) → purge h t p = (Ret (), p') →
  ∃ sent, asks "get_blacklist" sent ∧ p_trace p' = p_trace p ++ (Sent <$> sent).
Proof.
  intros Hb E. unfold purge in E. apply bind_ret_inv in E as (l & p1 & E1 & E).
  apply lift_inv in E1 as [[? _]|(r & c & log & Hr & Er & ->)]; [done|]. injection Hr as <-.
  unfold get_purgelist, fmap, rpc_fmap in Er.
  destruct (send_action _ _ _ _ _ _) as [[[res c1] log1]|] eqn:Es; [|done]. injection Er as _ <- <-.
  apply send_action_asks in Es as (_ & _ & sent & -> & Hs); [|done].
  rewrite drop_app_length in E. exists sent. split; [done|].
  destruct l as [ids|]; [|by injection E as <-]. unfold mbind, proc_bind, get in E.
  destruct (purge_files _ _ _ _). by injection E as <-.
Qed.

Lemma shutdown_spec p p' :
  base_ok (p_client p) → running (p_client p) = true →
  lift (Rpc.shutdown (h_chrono h) (h_ev h)) p = (Ret (), p') →
  base_ok (p_client p') ∧ running (p_client p') = false ∧ p_server p' = p_server p ∧
  ∃ sent, asks "client_stop" sent ∧ p_trace p' = p_trace p ++ (Sent <$> sent).
Proof.
  intros Hb Hr E. apply lift_inv in E as [[? _]|(r & c & log & _ & Er & ->)]; [done|].
  unfold Rpc.shutdown, mbind, rpc_bind in Er. cbn [get_client put_client] in Er. rewrite Hr in Er.
  destruct (send_action _ _ _ _ _ _) as [[[res c1] log1]|] eqn:Es; [|done]. injection Er as _ <- <-.
  apply send_action_asks in Es as ((_ & _ & _ & _ & R) & Hb1 & sent & -> & Hs); [|done].
  rewrite drop_app_length. split_and!; try done. by exists sent.
Qed.

Lemma stop_spec events p p' :
  base_ok (p_client p) → running (p_client p) = true → stop h args events p = (Ret (), p') →
  running (p_client p') = false ∧ server_conf <$> p_server p' = server_conf <$> p_server p ∧
  (∃ q, p_cm p' = save_state (h_io h) (p_cm q)) ∧
  ∃ v1 te v2 (dl : bool) v3 v4 v5 v6,
    p_trace p' = p_trace p ++ [KeepaliveAborted] ++ v1 ++ (Sent <$> te) ++ v2 ++ (if dl then [] else [DownloaderAborted]) ++
      v3 ++ [Slept 15] ++ v4 ++ [ServerStopped] ++ v5 ++ [StateSaved] ++ v6 ++ [LoggerStopped] ∧
    asks "client_stop" te ∧ Forall (serving (no_keepalive true)) (v1 ++ v2) ∧
    Forall (serving (no_keepalive dl)) (v3 ++ v4 ++ v5) ∧ Forall (serving (after_save dl)) v6.
Proof.
  intros Hb Hr E. unfold stop in E.
  apply bind_ret_inv in E as ([] & p1 & [= <-] & E).
  apply bind_ret_inv in E as ([] & p2 & E2 & E). apply serve_spec in E2 as (Hb2 & R2 & S2 & v1 & T2 & F2); [|done].
  apply bind_ret_inv in E as ([] & p3 & E3 & E). cbn [emit_to set_rpc p_client p_server p_trace] in R2, S2, T2.
  apply shutdown_spec in E3 as (Hb3 & R3 & S3 & te & Hte & T3); [|done|congruence].
  apply bind_ret_inv in E as ([] & p4 & E4 & E). apply serve_spec in E4 as (Hb4 & R4 & S4 & v2 & T4 & F4); [|done].
  apply bind_ret_inv in E as (q & p5 & [= <- <-] & E). cbv zeta in E. set (dl := negb (downloader (p_commands p4))) in E.
  apply bind_ret_inv in E as ([] & p6 & E6 & E).
  assert (p_client p6 = p_client p4 ∧ p_server p6 = p_server p4 ∧
    p_trace p6 = p_trace p4 ++ if dl then [] else [DownloaderAborted]) as (C6 & S6 & T6).
  { destruct dl; injection E6 as <-; by rewrite ?app_nil_r. }
  apply bind_ret_inv in E as ([] & p7 & E7 & E). apply serve_spec in E7 as (Hb7 & R7 & S7 & v3 & T7 & F7); [|by rewrite C6].
  apply bind_ret_inv in E as ([] & p8 & [= <-] & E).
  apply bind_ret_inv in E as ([] & p9 & E9 & E). apply serve_spec in E9 as (Hb9 & R9 & S9 & v4 & T9 & F9); [|done].
  apply bind_ret_inv in E as ([] & p10 & [= <-] & E).
  apply bind_ret_inv in E as ([] & p11 & E11 & E). apply serve_spec in E11 as (Hb11 & R11 & S11 & v5 & T11 & F11); [|done].
  apply bind_ret_inv in E as ([] & p12 & [= <-] & E). apply bind_ret_inv in E as ([] & p13 & [= <-] & E).
  apply bind_ret_inv in E as ([] & p14 & E14 & E). pose proof (serve_cache (after_save dl) _ _ _ eq_refl eq_refl eq_refl E14) as Hcm.
  apply serve_spec in E14 as (Hb14 & R14 & S14 & v6 & T14 & F14); [|done]. injection E as <-.
  cbn [emit_to set_rpc set_cache p_client p_server p_trace p_cm] in *. split_and!; [congruence|congruence|by exists p11|].
  exists v1, te, v2, dl, v3, v4, v5, v6. split_and!; [|done|by apply Forall_app|by repeat apply Forall_app_2|done].
  rewrite T14, T11, T9, T7, T6, T4, T3, T2, <- !(assoc_L (++)). done.
Qed.

End tasks.
End facts.

(** ** Theorems *)

Section theorems.
Context `{HexLaws, Digest, UrlHost, CertLib}.
Variable h : system.
Variable args : Args.

Lemma RPCClient_new_base cid k ip mc bs c :
  RPCClient_new cid k ip mc bs = Some c → base_ok c ∧ running c = false.
Proof. unfold RPCClient_new. destruct (url_host _); [|done]. by intros [= <-]. Qed.

(** [main] as far as the client: what was done before, and the run. *)
Lemma main_inv d old events o tr p :
  main h args d old events = (o, tr, Some p) →
  ∃ id key t client, credentials h = (Ret (id, key), t) ∧
    RPCClient_new id key (a_disable_ip_origin_check args) (a_max_connection args) (a_rpc_server_ip args) = Some client ∧
    run h args events (process_new h args client t d old) = (o, p) ∧ tr = p_trace p.
Proof.
  unfold main. destruct (negb (h_dirs h)); [done|]. destruct (credentials h) as [[[id key]| |] t]; [|done..].
  destruct (RPCClient_new _ _ _ _ _) as [client|] eqn:Ec; [|done].
  destruct (run _ _ _ _) as [r q] eqn:Er. intros [= -> <- ->]. eauto 10.
Qed.

Lemma credentials_trace v t : credentials h = (Ret v, t) → t = [] ∨ ∃ id key, v = (id, key) ∧ t = [WroteLogin (login_text id key)].
Proof.
  unfold credentials. destruct (h_login_file h) as [contents|[]]; [|done].
  destruct (contents ≫= read_credential); [intros [= _ <-]; auto|].
  destruct (setup _ _ _) as [[[id key] text]|] eqn:Es; [|done]. apply setup_text in Es as ->.
  intros [= <- <-]. eauto.
Qed.

(** After the start nothing ends the program with an error. *)
Lemma bind_no_fail {A B} (m : proc A) (f : A → proc B) p e :
  (∀ p, (m p).1 ≠ Fail e) → (∀ a p, (f a p).1 ≠ Fail e) → ((m ≫= f) p).1 ≠ Fail e.
Proof.
  intros Hm Hf. specialize (Hm p). unfold mbind, proc_bind. destruct (m p) as [[a|e'|] p1]; cbn in *; [apply Hf|intros [= ->]; by apply Hm|done].
Qed.

Lemma serve_no_fail al l p e : (serve h args al l p).1 ≠ Fail e.
Proof. apply serve_keeps. Qed.

Lemma lift_no_fail {A} (m : rpc A) p e : (lift m p).1 ≠ Fail e.
Proof. unfold lift. by destruct (m _ _) as [[[? ?] ?]|]. Qed.

Lemma stop_no_fail events p e : (stop h args events p).1 ≠ Fail e.
Proof.
  unfold stop. repeat (apply bind_no_fail;
    [intros; first [apply serve_no_fail|apply lift_no_fail|done|by case_match]|intros; cbv zeta]). done.
Qed.

(** C19: A run that ends normally: the order of what others see, a call of the RPC
    client taken as one step and what tasks do before the announcement is answered left
    out.  The client logs in, fetches its certificate and starts the server before it
    announces itself; it asks for the settings and the purge list, with requests for the
    sources of misses between, before the tasks start.  In each phase the tasks ask only
    for what they are for and never start or stop the session: the keep-alive requests
    end with the abort of their task, before the session is stopped; commands, misses and the
    downloader, unless it was aborted, go on during the wait and until the server has
    stopped and the accounts are saved.  The session is over, and the server is
    the one the command line and the answer to the login ask for. *)
Theorem main_normal_run d old events tr p :
  main h args d old events = (Ret (), tr, Some p) →
  ∃ id key t0 client init c1 u tl uc ta v1 ts v2 tp v3 v4 v5 te v6 (dl : bool) v7 v8 v9 v10,
    tr = t0 ++ (Sent <$> u :: tl) ++ [Sent uc; ServerStarted] ++ (Sent <$> ta) ++ v1 ++ (Sent <$> ts) ++ v2 ++
         (Sent <$> tp) ++ v3 ++ [TasksStarted] ++ v4 ++ [KeepaliveAborted] ++ v5 ++ (Sent <$> te) ++ v6 ++
         (if dl then [] else [DownloaderAborted]) ++ v7 ++ [Slept 15] ++ v8 ++ [ServerStopped] ++ v9 ++ [StateSaved] ++
         v10 ++ [LoggerStopped] ∧
    credentials h = (Ret (id, key), t0) ∧ (t0 = [] ∨ t0 = [WroteLogin (login_text id key)]) ∧
    RPCClient_new id key (a_disable_ip_origin_check args) (a_max_connection args) (a_rpc_server_ip args) = Some client ∧
    login (h_chrono h) (h_ev h) (h_pick h 0) client [] = Some (inl init, c1, u :: tl) ∧
    url_action u = Some "server_stat" ∧ asks "client_login" tl ∧ url_action uc = Some "get_cert" ∧
    asks "client_start" ta ∧ asks "client_settings" ts ∧ asks "get_blacklist" tp ∧ asks "client_stop" te ∧
    Forall (serving before_tasks) (v1 ++ v2 ++ v3) ∧ Forall (serving all_tasks) v4 ∧
    Forall (serving (no_keepalive true)) (v5 ++ v6) ∧ Forall (serving (no_keepalive dl)) (v7 ++ v8 ++ v9) ∧
    Forall (serving (after_save dl)) v10 ∧
    running (p_client p) = false ∧ server_conf <$> p_server p = Some (conf_of h args init).
Proof.
  intros E. apply main_inv in E as (id & key & t0 & client & Ec & En & E & ->).
  pose proof (RPCClient_new_base _ _ _ _ _ _ En) as [Hb Hr]. unfold run in E.
  apply bind_ret_inv in E as (init & p1 & E1 & E).
  destruct (log_in_spec h (process_new h args client t0 d old) _ _ Hb E1 ltac:(done))
    as (Hb1 & _ & _ & u & tl & c1 & El & T1 & Hu & Htl).
  apply bind_ret_inv in E as ([] & p2 & [= <-] & E).
  apply bind_ret_inv in E as ([] & p3 & E3 & E). apply start_cache_spec in E3 as (C3 & T3 & _ & _).
  apply bind_ret_inv in E as ([] & p4 & E4 & E).
  apply start_server_spec in E4 as (C4 & uc & Huc & T4 & S4); [|by rewrite C3|done].
  apply bind_ret_inv in E as ([] & p5 & E5 & E).
  apply announce_spec in E5 as (Hb5 & S5 & ta & Hta & T5 & R5); [|by rewrite C4, C3|done].
  apply bind_ret_inv in E as ([] & q5 & Q5 & E). apply serve_spec in Q5 as (Hq5 & RQ5 & SQ5 & v1 & TQ5 & F1); [|done].
  apply bind_ret_inv in E as ([] & p6 & E6 & E).
  pose proof (proj2 (refresh_keeps h all_tasks eq_refl q5) Hq5) as K6. rewrite E6 in K6. destruct K6 as (Hb6 & R6 & S6 & _).
  apply refresh_spec in E6 as (ts & Hts & T6); [|done].
  apply bind_ret_inv in E as ([] & q6 & Q6 & E). apply serve_spec in Q6 as (Hq6 & RQ6 & SQ6 & v2 & TQ6 & F2); [|done].
  apply bind_ret_inv in E as ([] & p7 & E7 & E).
  pose proof (proj2 (purge_keeps h all_tasks 259200 eq_refl q6) Hq6) as K7. rewrite E7 in K7. destruct K7 as (Hb7 & R7 & S7 & _).
  apply purge_spec in E7 as (tp & Htp & T7); [|done].
  apply bind_ret_inv in E as ([] & q7 & Q7 & E). apply serve_spec in Q7 as (Hq7 & RQ7 & SQ7 & v3 & TQ7 & F3); [|done].
  apply bind_ret_inv in E as ([] & p8 & [= <-] & E).
  apply bind_ret_inv in E as ([] & p9 & E9 & E). apply serve_spec in E9 as (Hb9 & R9 & S9 & v4 & T9 & F4); [|done].
  cbn [emit_to set_rpc p_client p_trace p_server snd] in *.
  apply stop_spec in E as (R & S & _ & v5 & te & v6 & dl & v7 & v8 & v9 & v10 & T & Hte & F5 & F7 & F10); [|done|congruence].
  cbn [set_logger p_trace p_client p_log process_new length app] in *.
  exists id, key, t0, client, init, c1, u, tl, uc, ta, v1, ts, v2, tp, v3, v4, v5, te, v6, dl, v7, v8, v9, v10.
  split_and!; try done.
  - rewrite T, T9, TQ7, T7, TQ6, T6, TQ5, T5, T4, T3, T1, <- !(assoc_L (++)). done.
  - destruct (credentials_trace _ _ Ec) as [?|(? & ? & [= -> ->] & ?)]; eauto.
  - by repeat apply Forall_app_2.
  - congruence.
Qed.

(** C20: How a run ends with an error.  Either nothing was sent at all (a directory,
    the credentials), or: the login failed, after a pause of fifteen minutes when
    the server reports a restart loop and of five seconds otherwise; the I/O
    threads or the scan failed, before any server was started; the port could
    not be bound; or the server refused the start.  In every case the session
    is not open, so that dropping the client sends nothing. *)
Theorem main_failures d old events e tr op :
  main h args d old events = (Fail e, tr, op) →
  (op = None ∧ e = IoFailure ∧ tr = []) ∨
  ∃ p t0 tl, op = Some p ∧ running (p_client p) = false ∧ Forall login_request tl ∧
    (t0 = [] ∨ ∃ id key, t0 = [WroteLogin (login_text id key)]) ∧
    ((∃ err, e = Failed err ∧ tr = t0 ++ (Sent <$> tl) ++ [Slept (login_pause err)]) ∨
     ((e = IoFailure ∨ ∃ x, e = ScanFailed x) ∧ tr = t0 ++ (Sent <$> tl)) ∨
     ∃ uc, url_action uc = Some "get_cert" ∧
       ((e = Failed ServerStartFail ∧ h_tcp h = false ∧ tr = t0 ++ (Sent <$> tl) ++ [Sent uc; Slept 5]) ∨
        ∃ ta, asks "client_start" ta ∧ e = Failed ConnectTestFail ∧
          tr = t0 ++ (Sent <$> tl) ++ [Sent uc; ServerStarted] ++ (Sent <$> ta) ++ [Slept 5])).
Proof.
  intros E. destruct op as [p|].
  2:{ left. unfold main in E. destruct (negb (h_dirs h)); [by injection E as <- <-|].
      unfold credentials in E. repeat case_match; simplify_eq; done. }
  right. apply main_inv in E as (id & key & t0 & client & Ec & En & E & ->).
  apply RPCClient_new_base in En as [Hb Hr].
  assert (t0 = [] ∨ ∃ id key, t0 = [WroteLogin (login_text id key)]) as Ht0
    by (destruct (credentials_trace _ _ Ec) as [?|(? & ? & _ & ?)]; eauto).
  unfold run in E. apply bind_fail_inv in E as [E1|(init & p1 & E1 & E)].
  { destruct (log_in_spec h (process_new h args client t0 d old) _ _ Hb E1 ltac:(done))
      as (_ & R1 & _ & err & tl & -> & T1 & Hf). cbn in R1, T1.
    exists p, t0, tl. split_and!; try done; [congruence|]. left. eauto. }
  destruct (log_in_spec h (process_new h args client t0 d old) _ _ Hb E1 ltac:(done))
    as (Hb1 & R1 & _ & u & tl & _ & _ & T1 & Hu & Htl). cbn in R1, T1.
  assert (Forall login_request (u :: tl)) as Hf.
  { constructor; [by right|]. destruct Htl as (v & t & -> & Hv & Ht). constructor; [by left|exact Ht]. }
  exists p, t0, (u :: tl).
  apply bind_fail_inv in E as [?|([] & p2 & [= <-] & E)]; [done|].
  apply bind_fail_inv in E as [E3|([] & p3 & E3 & E)]; apply start_cache_spec in E3 as (C3 & T3 & _ & He).
  { cbn in C3, T3. rewrite C3, T3, T1. split_and!; try done; [congruence|]. right; left. split; [exact He|done]. }
  cbn in C3, T3. apply bind_fail_inv in E as [E4|([] & p4 & E4 & E)].
  { apply start_server_spec in E4 as (C4 & uc & Huc & -> & Hp & T4); [|by rewrite C3|done].
    rewrite C4, C3, T4, T3, T1. split_and!; try done; [congruence|]. right; right. exists uc. split; [done|]. left.
    rewrite <- (assoc_L (++)). done. }
  apply start_server_spec in E4 as (C4 & uc & Huc & T4 & S4); [|by rewrite C3|done].
  apply bind_fail_inv in E as [E5|([] & p5 & E5 & E)].
  { apply announce_spec in E5 as (_ & _ & ta & Hta & -> & T5 & R5); [|by rewrite C4, C3|done].
    rewrite R5, C4, C3, T5, T4, T3, T1. split_and!; try done; [congruence|]. right; right. exists uc. split; [done|].
    right. exists ta. split_and!; [done|done|]. by rewrite <- !(assoc_L (++)). }
  exfalso. apply (f_equal fst) in E. revert E. cbn [fst].
  repeat first [apply stop_no_fail|apply bind_no_fail; [intros; first [apply serve_no_fail
    |by apply (refresh_keeps h all_tasks)|by apply (purge_keeps h all_tasks)|done]|intros]].
Qed.

(** Removing one file of a list. *)
Lemma purge_files_spec ids d c :
  healthy (h_io h) → accounted c d → disk_ok (cache_dir c) d →
  let '(d', c') := purge_files h ids d c in
  accounted c' d' ∧ cache_dir c' = cache_dir c ∧
  ∀ path, d' !! path = if decide (path ∈ (λ i, to_path i (cache_dir c)) <$> omap from_file_id ids) then None else d !! path.
Proof.
  intros Hh. unfold purge_files. revert d c. induction ids as [|x ids IH]; intros d c Ha Hd.
  { split_and!; try done. }
  cbn [omap list_omap]. destruct (from_file_id x) as [i|] eqn:Ei; [|by apply IH].
  cbn [foldl fst snd fmap list_fmap]. destruct (remove_cache (h_io h) i d c) as [[r d1] c1] eqn:Er.
  pose proof (from_file_id_ok _ _ Ei) as Hi.
  pose proof (remove_cache_gone _ _ _ _ _ _ _ Hd Hi (h_metadata _ Hh _) (h_filesize _ Hh _) (h_remove _ Hh _) Er) as ->.
  destruct (remove_cache_spec _ _ _ _ _ _ _ Ha Hd Hi Er) as (Ha1 & Hd1 & Ed & _).
  specialize (IH _ _ Ha1 Hd1). destruct (foldl _ _ _) as [d' c']. destruct IH as (Ha' & Ed' & Hl).
  split_and!; [done|congruence|]. intros path. rewrite Hl, Ed.
  destruct (decide (path = to_path i (cache_dir c))) as [->|Hne].
  - rewrite lookup_delete_eq. rewrite (decide_True _ _ (list_elem_of_here _ _)). by case_decide.
  - rewrite lookup_delete_ne by done. apply decide_ext. set_solver.
Qed.

(** C26: The purge list: if no call fails, a purge removes from the disk exactly the
    files whose identifiers the server lists, whatever else the list holds, and
    the accounts stay exact. *)
Theorem purge_exact t p p' :
  healthy (h_io h) → accounted (p_cm p) (p_disk p) → disk_ok (cache_dir (p_cm p)) (p_disk p) →
  purge h t p = (Ret (), p') →
  accounted (p_cm p') (p_disk p') ∧
  ∃ answer, (lift (get_purgelist (h_chrono h) (h_ev h) t) p).1 = Ret answer ∧
    ∀ path, p_disk p' !! path =
      if decide (path ∈ (λ i, to_path i (cache_dir (p_cm p))) <$> omap from_file_id (default [] answer))
      then None else p_disk p !! path.
Proof.
  intros Hh Ha Hd E. unfold purge in E. apply bind_ret_inv in E as (l & p1 & E1 & E).
  rewrite E1. apply lift_inv in E1 as [[? _]|(r & c & log & [= <-] & Er & ->)]; [done|].
  destruct l as [ids|]; [|injection E as <-; split; [done|]; by exists None].
  unfold mbind, proc_bind, get in E. cbn [set_rpc p_disk p_cm] in E.
  pose proof (purge_files_spec ids (p_disk p) (p_cm p) Hh Ha Hd) as Hs.
  destruct (purge_files _ _ _ _) as [d' c']. injection E as <-. destruct Hs as (? & _ & ?). split; [done|]. by exists (Some ids).
Qed.

(** C27: Stopping and starting again: if the state file could be written, the
    accounts the next start loads without a forced check are those at the end
    of the run, for the ranges the client still has. The model has no cache
    changes after the accounts were saved. *)
Theorem restart_loads d old events tr p ranges limit force_bg free d2 sr s :
  f_create_state (h_io h) = false → f_write_state (h_io h) = false →
  main h args d old events = (Ret (), tr, Some p) →
  let '(_, _, c2) := new_manager (h_io h) (h_rm h) (a_data_dir args) (a_cache_dir args) (a_temp_dir args)
                       limit ranges false force_bg free (saved (p_cm p)) d2 in
  cache_state c2 !! sr = Some s ↔ sr ∈ ranges ∧ cache_state (p_cm p) !! sr = Some s.
Proof.
  intros Hc Hw E. apply main_inv in E as (id & key & t0 & client & Ec & En & E & ->).
  unfold run in E. do 12 apply bind_ret_inv in E as (? & ? & _ & E).
  assert (∃ p9, p_cm p = save_state (h_io h) (p_cm p9)) as [p9 Ep].
  { unfold stop in E. do 4 apply bind_ret_inv in E as (? & ? & _ & E).
    apply bind_ret_inv in E as (q & ? & [= <- <-] & E). do 6 apply bind_ret_inv in E as (? & ? & _ & E).
    apply bind_ret_inv in E as ([] & ? & [= <-] & E). apply bind_ret_inv in E as ([] & ? & [= <-] & E).
    apply bind_ret_inv in E as ([] & ? & Es & E). apply serve_cache in Es; [|done..]. injection E as <-. eexists. exact Es. }
  clear E. unfold save_state in Ep. rewrite Hc, Hw in Ep. rewrite Ep. cbn [saved cache_state]. unfold new_manager.
  set (c0 := CacheStore.update_settings _ _).
  destruct (load_state_spec ranges (map_to_list (cache_state (p_cm p9))) c0) as (Hl & _);
    [apply NoDup_fst_map_to_list|done|done|done|].
  rewrite Hl, elem_of_map_to_list. cbn. rewrite lookup_empty. naive_solver.
Qed.

End theorems.

(** ** Witnesses *)

(** A certificate library that accepts everything. *)
Definition cert_ref : CertLib := {|
  PFX := bytes; pfx_parse := Some;
  key_bags _ _ := Some [[]]; cert_x509_bags _ _ := Some [];
  CertifiedKey := list bytes; from_der certs _ := Some certs;
  ServerName := string; parse_name := Some; verify_server_name _ _ := Some true
|}.

(** A host on which everything works, and a network that answers every request
    with a signed list. *)
Definition test_host (data : list string) : system := {|
  h_dirs := true; h_login_file := inl (Some "7-key"); h_prompt := ([], []); h_write_login := false;
  h_chrono _ := true; h_ev _ := mkEvent 0 0 0 (inl (@sign_response hex_ref toy_digest 1700000000 "key" data)) 0;
  h_pick _ := 0%nat; h_io_pool := true; h_io := no_faults; h_rm _ := true; h_free := None;
  h_scan := good_env; h_tree := Some []; h_now := 0; h_tasks := 100 * sec; h_proxy _ := true; h_tcp := true; h_udp := true
|}.

Definition test_args : Args := {|
  a_port := None; a_host := None; a_cache_dir := "cache"; a_data_dir := "data"; a_download_dir := "download";
  a_log_dir := "log"; a_temp_dir := "tmp"; a_disable_logging := true; a_flush_log := false; a_max_connection := 0;
  a_disable_ip_origin_check := true; a_disable_flood_control := false; a_proxy := None;
  a_force_background_scan := false; a_quiet := 0; a_rpc_server_ip := None; a_enable_metrics := false;
  a_sni_strict := false; a_disable_server_header := false; a_enable_h3 := true
|}.

(** What happens in some phases. *)
Definition at_phases (l : list (phase * list served)) (x : phase) : list served :=
  concat (snd <$> filter (λ e, e.1 = x) l).

Definition test_events : phase → list served := at_phases
  [(Announced, [MissFetched "1" "2" "f"; Ticked]); (Serving, [Ticked; CommandReceived (101 * sec) StartDownloader; ScanEnded]);
   (Waiting, [Ticked; CommandReceived (200 * sec) Overload; DownloaderAsked (QFetchQueue None); MissFetched "1" "2" "f"])].

Definition test_main (events : phase → list served) : outcome exit () * list action * option (@process cert_ref) :=
  main (H := hex_ref) (H0 := toy_digest) (H1 := host_ref) (H2 := cert_ref) (test_host login_data) test_args ∅ None events.

(** What the run shows: the requests by their action, the rest as it is. *)
Definition shown (a : action) : action + option string :=
  match a with Sent u => inr (url_action u) | a => inl a end.

(** [--disable-logging] is lost after the login: the option is set, the server
    does not ask for silence, and the process writes its log. *)
Theorem disable_logging_overwritten :
  a_disable_logging test_args = true ∧
  ∃ tr p, test_main (λ _, []) = (Ret (), tr, Some p) ∧ write_info (p_logger p) = true.
Proof. split; [done|]. do 2 eexists. split; [vm_compute; reflexivity|]. vm_compute. reflexivity. Qed.

Lemma main_normal_run_witness :
  ∃ tr p, test_main test_events = (Ret (), tr, Some p) ∧
    (shown <$> tr) =
      [inr (Some "server_stat"); inr (Some "client_login"); inr (Some "get_cert"); inl ServerStarted;
       inr (Some "client_start"); inr (Some "srfetch"); inr (Some "client_settings"); inr (Some "get_blacklist"); inl TasksStarted;
       inr (Some "still_alive"); inl DownloaderSpawned; inl KeepaliveAborted; inr (Some "client_stop");
       inl DownloaderAborted; inr (Some "overload"); inr (Some "srfetch"); inl (Slept 15); inl ServerStopped; inl StateSaved; inl LoggerStopped] ∧
    running (p_client p) = false.
Proof.
  destruct (test_main test_events) as [[o tr] [p|]] eqn:E; [|vm_compute in E; discriminate].
  assert (o = Ret ()) as -> by (vm_compute in E; congruence).
  exists tr, p. split; [done|]. unfold test_main in E.
  destruct (main_normal_run (H:=hex_ref) (H1:=toy_digest) (H2:=host_ref) (H3:=cert_ref) (test_host login_data) test_args ∅ None
    test_events tr p E) as (?&?&?&?&?&?&?&?&?&?&?&?&?&?&?&?&?&?&?&?&?&?&?&?&_&_&_&_&_&_&_&_&_&_&_&_&_&_&_&_&_&Hr&_).
  split; [|exact Hr]. vm_compute in E. injection E as <- _. vm_compute. reflexivity.
Defined.

(** A first start, with invalid answers at both prompts, and a server that answers
    the login with a restart loop. *)
Definition looping_host : system :=
  let good := mkEvent 0 0 0 (inl (@sign_response hex_ref toy_digest 1700000000 "abcdefghij0123456789" login_data)) 0 in
  let bad := mkEvent 0 0 0 (inl "FAIL_STARTUP_LOOP") 0 in
  mkSystem true (inl None) (["seven"; "7"], ["key"; "abcdefghij0123456789"]) true (λ _, true) (λ n, if decide (n = 0%nat) then good else bad)
    (λ _, 0%nat) true no_faults (λ _, true) None good_env (Some []) 0 0 (λ _, true) true true.

Lemma main_failures_witness :
  ∃ tr p err,
    main (H := hex_ref) (H0 := toy_digest) (H1 := host_ref) (H2 := cert_ref) looping_host test_args ∅ None (λ _, []) =
      (Fail (Failed err), tr, Some p) ∧
    list.last tr = Some (Slept 900) ∧ running (p_client p) = false.
Proof.
  destruct (main (H := hex_ref) (H0 := toy_digest) (H1 := host_ref) (H2 := cert_ref) looping_host test_args ∅ None (λ _, []))
    as [[o tr] op] eqn:E.
  assert (∃ p, op = Some p) as [p ->] by (vm_compute in E; injection E as _ _ <-; eauto).
  assert (o = Fail (Failed (ApiResponseFail "FAIL_STARTUP_LOOP" ""))) as -> by (vm_compute in E; congruence).
  exists tr, p, (ApiResponseFail "FAIL_STARTUP_LOOP" ""). split; [done|].
  destruct (main_failures (H:=hex_ref) (H1:=toy_digest) (H2:=host_ref) (H3:=cert_ref) looping_host test_args ∅ None (λ _, [])
    _ tr (Some p) E) as [(? & _)|(p' & t0 & tl & Hp & Hr & _)]; [discriminate|].
  injection Hp as <-. split; [|exact Hr]. vm_compute in E. injection E as <- _. reflexivity.
Defined.

Lemma restart_loads_witness :
  ∃ tr p, test_main (at_phases [(Serving, [CacheServed (λ s, (s.1, set_state {[ "0a1b" := mkState 3 30 0 ]} s.2))])]) = (Ret (), tr, Some p) ∧
    let '(_, _, c2) := new_manager (h_io (test_host login_data)) (h_rm (test_host login_data)) "data" "cache" "tmp"
                         0 ["0a1b"] false false None (saved (p_cm p)) ∅ in
    cache_state c2 !! "0a1b" = Some (mkState 3 30 0).
Proof.
  destruct (test_main _) as [[o tr] [p|]] eqn:E; [|vm_compute in E; discriminate].
  assert (o = Ret ()) as -> by (vm_compute in E; congruence).
  exists tr, p. split; [done|]. unfold test_main in E.
  pose proof (restart_loads (H:=hex_ref) (H1:=toy_digest) (H2:=host_ref) (H3:=cert_ref) (test_host login_data) test_args ∅ None
    (at_phases [(Serving, [CacheServed (λ s, (s.1, set_state {[ "0a1b" := mkState 3 30 0 ]} s.2))])]) tr p ["0a1b"] 0 false None ∅ "0a1b"
    (mkState 3 30 0) eq_refl eq_refl E) as Hr.
  cbn [a_data_dir a_cache_dir a_temp_dir test_args] in Hr.
  destruct (new_manager _ _ _ _ _ _ _ _ _ _ _ _) as [[m d] c2]. apply Hr. split; [left|].
  vm_compute in E. injection E as _ <-. vm_compute. reflexivity.
Defined.

(** A process whose cache holds one file, which the server lists among lines
    that are no identifiers. *)
Definition purge_data : list string := ["nothing"; @file_name hex_ref sample_info; ""; "x"].
Definition purge_process : @process cert_ref :=
  mkProcess (mkClient (mkUrl "h" "rpc" []) 0 7 "key" [] true (mkSettings 0 0 false 0 false)) [] [] big_disk big_cm
    LoggerConfig_default None None (mkCommands 0 false) 0.

Lemma purge_exact_witness :
  ∃ p', purge (H := hex_ref) (H0 := toy_digest) (H1 := host_ref) (H2 := cert_ref) (test_host purge_data) 43200 purge_process =
      (Ret (), p') ∧
    @accounted hex_ref (p_cm p') (p_disk p') ∧ p_disk p' !! sample_path = None.
Proof.
  destruct (purge (H := hex_ref) (H0 := toy_digest) (H1 := host_ref) (H2 := cert_ref) (test_host purge_data) 43200 purge_process)
    as [o p'] eqn:E.
  assert (o = Ret ()) as -> by (vm_compute in E; congruence). exists p'. split; [done|].
  destruct (purge_exact (H:=hex_ref) (H1:=toy_digest) (H2:=host_ref) (H3:=cert_ref) (test_host purge_data) 43200
    purge_process p' ltac:(by split) (r_accounted _ _ _ _ big_ready) (r_disk _ _ _ _ big_ready) E) as (Ha & _).
  split; [exact Ha|]. vm_compute in E. injection E as <-. vm_compute. reflexivity.
Defined.
